(* ===== verification/_CoqProject ===== *)
-Q . S2P
Prelude.v
Printf.v
Slice.v
Buffer.v
Timestamp.v
Calendar.v
Poller.v
World.v
EventLoop.v
TcpConnection.v
Footprint.v
TcpServer.v
TimerQueue.v
Reactor.v
Iteration.v
Teardown.v
Startup.v
Listener.v
Echo.v
EchoServer.v
EchoMain.v
AcceptorTest.v
ShutdownTest.v
TimerLoop.v
AsyncLogging.v
LogFile.v
Logger.v
LoggingTest.v
Wakeup.v
EventLoopThread.v
LoopRefinement.v
WeakCallback.v
