(* ===== verification/Prelude.v ===== *)
(** * A verification library for polly

    polly is a small C++ network library: a reactor ([EventLoop] with its
    [Poller], [Channel]s and [TimerQueue]), TCP servers on top of it
    ([Acceptor], [TcpServer], [TcpConnection]) and an asynchronous logger
    ([AsyncLogging] over [LogFile] and [AppendFile]).  The definitions of this
    library are translations of its sources; file names below are those of the
    repository.

    ** How the parts interact

    An [EventLoop] asks its [Poller] which descriptors are ready, and calls
    [HandleEvent] of their [Channel]s, which runs callbacks set by the owners of
    the channels: [Acceptor::handleRead], [TimerQueue::HandleRead],
    [EventLoop::handleRead] (wake-ups) and the handlers of [TcpConnection].
    The acceptor hands new descriptors to the lambda of [TcpServer::Start],
    which makes a [TcpConnection] and registers its channel; the connection
    calls the user back and tells the server when it is closed.  Other threads
    reach the loop by queueing function objects ([RunInLoop]) and writing to an
    event descriptor.  Log records go into buffers of [AsyncLogging], which a
    worker thread writes to a [LogFile].

    ** Files

    - Prelude.v (this file): faults, the result and state monads, machine
      integers, byte strings and ranges, tactics and hint databases.
    - Printf.v, Calendar.v: the decimal conversions of snprintf and gmtime_r,
      [Timestamp::toFormatedString] (util/timestamp.cc).
    - Slice.v: include/polly/slice.h.
    - Buffer.v: [FixedBuffer] and [Buffer] (util/buffer.h, util/buffer.cc).
    - Timestamp.v: [Timestamp] and [Timer] (util/timestamp.h/.cc, util/timer.h/.cc).
    - Poller.v: [Channel]'s state and [Poller] (net/channel.h/.cc, net/poller.h/.cc).
    - World.v: the state of all reactor objects, the system calls ([Kernel])
      and the function objects ([Callback]).
    - EventLoop.v: net/eventloop.h/.cc and [Channel::HandleEvent].
    - TcpConnection.v, TcpServer.v, TimerQueue.v: the classes of these names,
      with [InetAddress], [Socket] and [Acceptor] in TcpServer.v.
    - Reactor.v: [invoke], which gives every function object its body, and the
      life of an [EventLoop].
    - Footprint.v: a program logic of preserved properties, and what the
      operations of one connection leave alone; Iteration.v: one iteration of
      the loop, from the poll to the handlers.
    - Teardown.v: what the destructors of net/tcp_server.cc and net/acceptor.h
      leave in the poller; what an end of file destroys while the loop
      uses it.
    - Startup.v: the state of a loop that was just constructed and of one with a
      listening socket; Listener.v: iterations in which nothing but the listening
      socket can be ready.
    - Echo.v: examples/echo/main.cc; EchoServer.v: iterations of its loop that
      serve many connections; EchoMain.v: the whole program.
    - TimerLoop.v: a loop with timers; the program is the test of the timer
      queue in tests/eventloop_test.cc.  AcceptorTest.v: tests/acceptor_test.cc;
      ShutdownTest.v: tests/tcp_connection_test.cc.
    - AsyncLogging.v: log/async_logging.h/.cc, over the interface [LogSink].
    - LogFile.v: log/log_file.h/.cc, log/file.h/.cc, util/process_info.cc; [LogFile] is
      an instance of [LogSink].
    - Logger.v: log/log_stream.h/.cc, log/logger.h/.cc; one log record from its
      items to the destination.  LoggingTest.v: tests/logging_test.cc, from log
      statements to the file.
    - Wakeup.v: the event loop among other threads, net/eventloop.h/.cc cut into
      steps; LoopRefinement.v: the functions of EventLoop.v refine these steps.
    - EventLoopThread.v: net/eventloop_thread.h/.cc, two threads over the loop
      of Wakeup.v.
    - WeakCallback.v: examples/callback/weak.cc, shared and weak pointers.

    ** How code is represented

    An operation returns [res], a value or a [fault] (failed assertion, thrown
    exception, abort, use after free, access out of bounds, signed overflow).
    Reactor objects are records in heaps indexed by address, and operations run
    in the state monad [MW] over [World]; dereferencing an address whose object
    was deleted is a fault, so a theorem that an operation returns [Ok] is also
    a theorem about memory safety.  A class has the fields of its header and
    one definition per method.  [size_t] and [int64_t] values are integers with
    wrap-around ([u64]) or overflow faults ([check_i64]) written out; [double]
    is IEEE binary64.  Threads are interleavings of steps ([reach] in
    TcpConnection.v and AsyncLogging.v, the reflexive transitive closure of
    [step], [estep], [cstep] in Wakeup.v, EventLoopThread.v and WeakCallback.v).

    What is not part of the repository is a parameter: the system calls
    ([Kernel] in World.v, answers may depend on the whole history, which also
    records the stores of [RunInLoop] and [quit] that other threads see, so that
    their order with the wake-up is part of it), the user's callbacks ([App]), the C library's files, the clock and the host name
    ([Host] in LogFile.v).  What a theorem needs of them is a named hypothesis
    or a class of laws, and its witness has a concrete instance.

    ** What the theorems show

    - Connections: the bytes the kernel took followed by those queued are the
      bytes of the messages accepted, in every interleaving with steps that leave
      the connection and its index in the poller alone; no assertion of the send
      path fails then, and one does fail when the index is stale; queued bytes
      drain and a requested shutdown follows them; a read event
      hands over exactly the bytes read.  The server registers each accepted
      descriptor under a name of its own, and a close tells the application and
      releases everything.
      The echo program, from its set-up through any iterations of its loop,
      returns to every client exactly the bytes received from it, whatever the
      clients do except close (a close is one of the defects below).  The
      program of ShutdownTest.v delivers its greeting to a client and only then
      shuts the connection down, however few bytes the kernel takes at a time;
      that of AcceptorTest.v serves and closes every client, in order and once.
    - Buffers and slices: [Buffer] refines a byte queue, with every operation's
      effect and bounds; slices compare lexicographically.
    - Reactor: the poller's array and map stay consistent, exactly the ready
      channels are handed out, [HandleEvent] dispatches as a reference
      definition says, the loop does one poll per iteration and runs what was
      queued.
    - Threads: no wake-up of the loop is lost, functors of other threads run
      once and in order, queued work is done and a request to quit is honoured
      within a bounded number of steps of the loop; the destructor of
      [EventLoopThread] gets through when it finds the loop running.  The stock
      factory never touches a dead object in any interleaving, and hands out
      one stock per key when deleters are not interrupted.
    - Timers: the table stays sorted, exactly the expired timers fire, in
      order, repeating ones are put back, and the alarm is set for the earliest.
      An iteration of a loop with timers faults nowhere whatever the poll
      reports, and the test program with its five timers returns from [loop()]
      and destroys the loop once the clock has passed the last of them.
    - Logger: a log statement hands over exactly its record, numbers can be
      read back from it, and the theorems say when an assertion fails instead; no
      byte is lost, duplicated or reordered from [Append] to what the files are
      given, across rolls, and the files on disk have all of it unless a write
      took nothing; files have different names whatever the clock does;
      [StartWorker] and [StopWorker] return, and what the worker had taken is
      written by then.  In the programs of LoggingTest.v every record is in the file, in
      order, when the worker was given the time to write before it was stopped.
    - Defects, stated as theorems about the code as it is: stale poller indices
      after a removal, by which [~TcpServer] aborts when it has two connections,
      the acceptor's channel freed behind the poller's back, a channel freed while it handles an event, lambdas that
      outlive the frames they refer to, an alarm that never stops, any error of
      accept4 ending the process, records lost by [StopWorker], a logger that cannot be started twice, a failing assertion when files roll too fast or the clock goes back, a [quit]
      before [loop] that is forgotten and leaves the destructor of
      [EventLoopThread] waiting for ever.

    ** Fuel and bounds

    [run_loop] has one unit of fuel per iteration of the loop and its theorem
    speaks of every amount; [invoke] has one per level of function objects
    calling each other, and its theorems say how many levels are enough
    (likewise [greet_invoke] and the other programs' versions of it);
    [iterations] of ShutdownTest.v repeats the body of the loop as often as the
    greeting needs; [worker_run] of AsyncLogging.v counts the steps of the worker
    and its theorems speak of every number that is large enough;
    [run] of Wakeup.v counts the steps of the loop thread and its theorems bound
    them; [run_deleter] has the four steps of a deleter;
    [append_loop] has the size of the slice, which suffices because every pass
    but the last writes a byte; [dec_loop] has the number of bits.  Formatted
    times are read back for the years up to 9999.

    ** Not modelled

    Log lines written by the reactor itself; what the test programs print,
    sleep and measure, the other tests of tests/eventloop_test.cc and
    tests/logging_test.cc, and tests/tcp_server_test.cc and
    tests/timer_queue_test.cc, which only print (the latter with a second timer
    queue on one loop, where [World] has one); the class Bad of
    examples/callback/weak.cc, whose use is commented out; util/copyable.h,
    which is empty; what the initial callback of an [EventLoopThread] does besides
    asking the loop to quit.  Mutexes are not objects of the model: what a thread does
    under one is a single step. *)

From Stdlib Require Export ZArith Lia.
From Stdlib Require Strings.Byte.
From stdpp Require Export base tactics option list gmap strings.

#[export] Set Default Goal Selector "!".
Open Scope Z_scope.

(** ** Faults: how an execution of the C++ code can go wrong

    The default build is [Debug] (CMakeLists.txt:19), so every [assert] is
    live.  A fault is the value an operation returns when the execution stops:
    a failed assertion, a thrown exception, [::abort()], or an access the
    language leaves undefined. *)
Inductive fault :=
  | AssertFailed (where_ : string)
  | RuntimeError (what : string)
  | LengthError
  | Abort
  | UseAfterFree (what : string)
  | OutOfBounds
  | SignedOverflow
  | BadConversion
  | OutOfFuel.

#[export] Instance fault_eq_dec : EqDecision fault.
Proof. solve_decision. Defined.

(** Result of a fallible computation. *)
Inductive res (A : Type) :=
  | Ok (a : A)
  | Err (e : fault).
Arguments Ok {A} a.
Arguments Err {A} e.

#[export] Instance res_ret : MRet res := fun A a => Ok a.
#[export] Instance res_bind : MBind res := fun A B f m =>
  match m with Ok a => f a | Err e => Err e end.

Definition is_ok {A} (m : res A) : bool :=
  match m with Ok _ => true | Err _ => false end.

(** [assert(b)] of <assert.h>, tagged with the place it stands in. *)
Definition assert_ (b : bool) (where_ : string) : res unit :=
  if b then Ok tt else Err (AssertFailed where_).

(** Access through a pointer or an iterator that may not designate a live object. *)
Definition deref {A} (o : option A) (what : string) : res A :=
  match o with Some a => Ok a | None => Err (UseAfterFree what) end.

(** [v[i]] on an array or a vector; outside it the access is undefined. *)
Definition vec_at {A} (l : list A) (i : Z) : res A :=
  match l !! Z.to_nat i with Some x => Ok x | None => Err OutOfBounds end.

(** ** The state-and-fault monad of the reactor *)

Definition M (S A : Type) : Type := S → res (A * S).

#[export] Instance M_ret {S} : MRet (M S) := fun A a s => Ok (a, s).
#[export] Instance M_bind {S} : MBind (M S) := fun A B f m s =>
  match m s with Ok (a, s') => f a s' | Err e => Err e end.

Definition mget {S} : M S S := fun s => Ok (s, s).
Definition mput {S} (s : S) : M S unit := fun _ => Ok (tt, s).
Definition mmod {S} (f : S → S) : M S unit := fun s => Ok (tt, f s).
Definition mlift {S A} (m : res A) : M S A := fun s =>
  match m with Ok a => Ok (a, s) | Err e => Err e end.
Definition mfail {S A} (e : fault) : M S A := fun _ => Err e.
Definition massert {S} (b : bool) (where_ : string) : M S unit :=
  mlift (assert_ b where_).

(** A [for] loop over a container that was fixed before the loop started. *)
Fixpoint mfor {S A} (f : A → M S unit) (l : list A) : M S unit :=
  match l with
  | [] => mret tt
  | a :: l' => f a ;; mfor f l'
  end.

(** ** Record update

    A record declares its [Eta] instance (itself, field by field); then
    [x <| p := v |>] is [x] with field [p] replaced. *)
Class Eta (R : Type) := eta : R → R.

Ltac record_update R p v x :=
  let e := constr:(_ : Eta R) in
  let e := eval hnf in e in
  let t := eval pattern p in e in
  match t with
  | ?F _ => let r := eval cbv beta in (F (fun _ => v) x) in exact r
  end.

Declare Scope polly_scope.
Delimit Scope polly_scope with polly.
Open Scope polly_scope.

Notation "x <| p := v |>" :=
  (match x with y => ltac:(let R := type of y in record_update R p v y) end)
  (at level 1, left associativity, only parsing) : polly_scope.

(** ** Bytes and machine integers *)

Abbreviation byte := Init.Byte.byte.

#[export] Instance byte_eq_dec : EqDecision byte := Byte.byte_eq_dec.

#[export] Instance byte_countable : Countable byte :=
  inj_countable Byte.to_N Byte.of_N Byte.of_to_N.

Abbreviation bytes := (list byte).

(** String literals as byte sequences. *)
Definition b_ (s : string) : bytes := String.list_byte_of_string s.

(** An element of a C array read as [unsigned char]. *)
Definition byteZ (b : byte) : Z := Z.of_N (Byte.to_N b).

(** The length of a sequence as the [size_t] the code computes with. *)
Definition len {A} (l : list A) : Z := Z.of_nat (length l).

Definition u64 (z : Z) : Z := z mod 2 ^ 64.
Definition u32 (z : Z) : Z := z mod 2 ^ 32.
Definition u16 (z : Z) : Z := z mod 2 ^ 16.
Definition wrap_s (w z : Z) : Z := (z + 2 ^ (w - 1)) mod 2 ^ w - 2 ^ (w - 1).
Definition i16 (z : Z) : Z := wrap_s 16 z.
Definition i32 (z : Z) : Z := wrap_s 32 z.
Definition i64 (z : Z) : Z := wrap_s 64 z.

Definition in_i64 (z : Z) : bool := (- 2 ^ 63 <=? z) && (z <? 2 ^ 63).
Definition in_i32 (z : Z) : bool := (- 2 ^ 31 <=? z) && (z <? 2 ^ 31).

(** Signed arithmetic: a result that does not fit is undefined behaviour. *)
Definition check_i64 (z : Z) : res Z :=
  if in_i64 z then Ok z else Err SignedOverflow.
Definition check_i32 (z : Z) : res Z :=
  if in_i32 z then Ok z else Err SignedOverflow.

(** ** Array regions

    [range l a b] is the half-open region [l[a] .. l[b-1]]; [write_at l i d]
    is the array after [memcpy(l + i, d, len d)]. *)
Definition range {A} (l : list A) (a b : Z) : list A :=
  take (Z.to_nat (b - a)) (drop (Z.to_nat a) l).

Definition write_at {A} (l : list A) (i : Z) (d : list A) : list A :=
  take (Z.to_nat i) l ++ d ++ drop (Z.to_nat i + length d) l.

(** [std::copy] inside one array, element by element from the front:
    [n] elements from offset [s] to offset [d]. *)
Fixpoint copy_fwd {A} (n : nat) (s d : nat) (l : list A) : list A :=
  match n with
  | O => l
  | S n' =>
      match l !! s with
      | Some x => copy_fwd n' (S s) (S d) (<[d := x]> l)
      | None => l
      end
  end.

(** ** Lemma library *)

Create HintDb polly discriminated.
Create Rewrite HintDb polly_len.

Lemma res_bind_Ok {A B} (m : res A) (f : A → res B) b :
  (m ≫= f) = Ok b ↔ ∃ a, m = Ok a ∧ f a = Ok b.
Proof. destruct m; cbn; naive_solver. Qed.

Lemma res_bind_Err {A B} (m : res A) (f : A → res B) e :
  (m ≫= f) = Err e ↔ m = Err e ∨ ∃ a, m = Ok a ∧ f a = Err e.
Proof. destruct m; cbn; naive_solver. Qed.

Lemma M_bind_Ok {S A B} (m : M S A) (f : A → M S B) s b s2 :
  (m ≫= f) s = Ok (b, s2) ↔ ∃ a s1, m s = Ok (a, s1) ∧ f a s1 = Ok (b, s2).
Proof.
  unfold mbind, M_bind. destruct (m s) as [[a s1]|]; naive_solver.
Qed.

Lemma M_bind_eq {S A B} (m : M S A) (f : A → M S B) s a s1 :
  m s = Ok (a, s1) → (m ≫= f) s = f a s1.
Proof. unfold mbind, M_bind. by intros ->. Qed.

Lemma M_bind_unfold {S A B} (m : M S A) (f : A → M S B) s :
  (m ≫= f) s = match m s with Ok (a, s') => f a s' | Err e => Err e end.
Proof. done. Qed.

Lemma M_bind_Err_eq {S A B} (m : M S A) (f : A → M S B) s e :
  m s = Err e → (m ≫= f) s = Err e.
Proof. unfold mbind, M_bind. by intros ->. Qed.

Lemma assert_Ok b w u : assert_ b w = Ok u ↔ b = true.
Proof. unfold assert_. destruct b, u; naive_solver. Qed.

Lemma deref_Ok {A} (o : option A) w a : deref o w = Ok a ↔ o = Some a.
Proof. destruct o; cbn; naive_solver. Qed.

Lemma vec_at_Ok {A} (l : list A) i x : vec_at l i = Ok x ↔ l !! Z.to_nat i = Some x.
Proof. unfold vec_at. destruct (l !! Z.to_nat i); naive_solver. Qed.

Lemma mlift_Ok {S A} (m : res A) (s : S) a s' :
  mlift m s = Ok (a, s') ↔ m = Ok a ∧ s' = s.
Proof. unfold mlift. destruct m; naive_solver. Qed.

Lemma check_i64_Ok z r : check_i64 z = Ok r ↔ r = z ∧ - 2 ^ 63 ≤ z < 2 ^ 63.
Proof. unfold check_i64, in_i64. case_match; naive_solver lia. Qed.

Lemma check_i32_Ok z r : check_i32 z = Ok r ↔ r = z ∧ - 2 ^ 31 ≤ z < 2 ^ 31.
Proof. unfold check_i32, in_i32. case_match; naive_solver lia. Qed.

(** [inv_ok] opens every hypothesis that says a computation returned [Ok]:
    binds are split, assertions become boolean facts. *)
Ltac inv_ok1 :=
  match goal with
  | H : Ok _ = Ok _ |- _ => injection H as H
  | H : Ok _ = Err _ |- _ => discriminate H
  | H : Err _ = Ok _ |- _ => discriminate H
  | H : mret _ = Ok _ |- _ => injection H as H
  | H : mret _ _ = Ok _ |- _ => injection H as H
  | H : @mbind res _ _ _ _ _ = Ok _ |- _ =>
      apply res_bind_Ok in H; destruct H as (? & ? & H)
  | H : @mbind (M _) _ _ _ _ _ _ = Ok (_, _) |- _ =>
      apply M_bind_Ok in H; destruct H as (? & ? & ? & H)
  | H : assert_ _ _ = Ok _ |- _ => apply assert_Ok in H
  | H : massert _ _ _ = Ok (_, _) |- _ => unfold massert in H
  | H : deref _ _ = Ok _ |- _ => apply deref_Ok in H
  | H : vec_at _ _ = Ok _ |- _ => apply vec_at_Ok in H
  | H : mlift _ _ = Ok (_, _) |- _ => apply mlift_Ok in H; destruct H as [H ->]
  | H : mget _ = Ok (_, _) |- _ => injection H as <- <-
  | H : mmod _ _ = Ok (_, _) |- _ => first [injection H as <- <- | injection H as <-]
  | H : mput _ _ = Ok (_, _) |- _ => injection H as <- <-
  | H : mfail _ _ = Ok _ |- _ => discriminate H
  | H : check_i64 _ = Ok _ |- _ => apply check_i64_Ok in H; destruct H as [-> H]
  | H : check_i32 _ = Ok _ |- _ => apply check_i32_Ok in H; destruct H as [-> H]
  | H : (_, _) = (_, _) |- _ => injection H as H
  end.
Ltac inv_ok := repeat inv_ok1; simplify_eq.

(** [bool_lia] reflects the boolean comparisons of the code and calls [lia]. *)
Ltac bool_prop :=
  repeat match goal with
  | H : _ && _ = true |- _ => apply andb_true_iff in H; destruct H
  | H : _ || _ = false |- _ => apply orb_false_iff in H; destruct H
  | H : negb _ = true |- _ => apply negb_true_iff in H
  | H : negb _ = false |- _ => apply negb_false_iff in H
  | H : (_ <? _) = true |- _ => apply Z.ltb_lt in H
  | H : (_ <? _) = false |- _ => apply Z.ltb_ge in H
  | H : (_ <=? _) = true |- _ => apply Z.leb_le in H
  | H : (_ <=? _) = false |- _ => apply Z.leb_gt in H
  | H : (_ =? _) = true |- _ => apply Z.eqb_eq in H
  | H : (_ =? _) = false |- _ => apply Z.eqb_neq in H
  | H : (_ >? _) = true |- _ => rewrite Z.gtb_ltb in H; apply Z.ltb_lt in H
  | H : (_ >? _) = false |- _ => rewrite Z.gtb_ltb in H; apply Z.ltb_ge in H
  | H : (_ >=? _) = true |- _ => rewrite Z.geb_leb in H; apply Z.leb_le in H
  | H : (_ >=? _) = false |- _ => rewrite Z.geb_leb in H; apply Z.leb_gt in H
  | H : bool_decide _ = true |- _ => apply bool_decide_eq_true in H
  | H : bool_decide _ = false |- _ => apply bool_decide_eq_false in H
  end.
Ltac bool_lia := bool_prop; lia.

Lemma u64_id z : 0 ≤ z < 2 ^ 64 → u64 z = z.
Proof. apply Z.mod_small. Qed.

Lemma i16_id z : - 2 ^ 15 ≤ z < 2 ^ 15 → i16 z = z.
Proof. intros. unfold i16, wrap_s. rewrite Z.mod_small; lia. Qed.

Lemma i32_id z : - 2 ^ 31 ≤ z < 2 ^ 31 → i32 z = z.
Proof. intros. unfold i32, wrap_s. rewrite Z.mod_small; lia. Qed.

Lemma byteZ_bound b : 0 ≤ byteZ b < 256.
Proof. unfold byteZ. pose proof (Byte.to_N_bounded b). lia. Qed.

Lemma byteZ_inj a b : byteZ a = byteZ b → a = b.
Proof.
  unfold byteZ. intros H%N2Z.inj.
  assert (Some a = Some b) as Hs by (rewrite <-!Byte.of_to_N; by rewrite H).
  congruence.
Qed.

Lemma len_nonneg {A} (l : list A) : 0 ≤ len l.
Proof. unfold len. lia. Qed.
Lemma len_nil {A} : len (@nil A) = 0.
Proof. done. Qed.
Lemma len_cons {A} (x : A) l : len (x :: l) = 1 + len l.
Proof. unfold len. cbn [length]. lia. Qed.
Lemma len_app {A} (l k : list A) : len (l ++ k) = len l + len k.
Proof. unfold len. rewrite length_app. lia. Qed.
Lemma len_replicate {A} n (x : A) : len (replicate n x) = Z.of_nat n.
Proof. unfold len. by rewrite length_replicate. Qed.
Lemma len_zero_nil {A} (l : list A) : len l = 0 → l = [].
Proof. destruct l; [done|]. rewrite len_cons. pose proof (len_nonneg l). lia. Qed.
Lemma len_insert {A} i (x : A) (l : list A) : len (<[i := x]> l) = len l.
Proof. unfold len. by rewrite length_insert. Qed.

Lemma len_range {A} (l : list A) a b :
  0 ≤ a → a ≤ b → b ≤ len l → len (range l a b) = b - a.
Proof.
  unfold len, range. intros. rewrite length_take, length_drop. lia.
Qed.

Lemma len_write_at {A} (l : list A) i d :
  0 ≤ i → i + len d ≤ len l → len (write_at l i d) = len l.
Proof.
  unfold len, write_at. intros.
  rewrite !length_app, length_take, length_drop. lia.
Qed.

Lemma range_split {A} (l : list A) a b c :
  0 ≤ a → a ≤ b → b ≤ c → range l a c = range l a b ++ range l b c.
Proof.
  intros. unfold range.
  replace (Z.to_nat (c - a)) with (Z.to_nat (b - a) + Z.to_nat (c - b))%nat by lia.
  rewrite <-take_take_drop, drop_drop. do 3 f_equal. lia.
Qed.

Lemma range_app_l {A} (l k : list A) a b :
  0 ≤ a → b ≤ len l → range (l ++ k) a b = range l a b.
Proof.
  unfold len, range. intros.
  destruct (decide (Z.to_nat a ≤ length l)%nat).
  - rewrite drop_app_le by lia. apply take_app_le. rewrite length_drop. lia.
  - replace (Z.to_nat (b - a)) with 0%nat by lia. done.
Qed.

Lemma range_write_at_eq {A} (l d : list A) i :
  0 ≤ i → i + len d ≤ len l → range (write_at l i d) i (i + len d) = d.
Proof.
  unfold len, range, write_at. intros.
  rewrite drop_app_ge by (rewrite length_take; lia).
  rewrite length_take.
  replace (Z.to_nat i - Z.to_nat i `min` length l)%nat with 0%nat by lia.
  rewrite drop_0, take_app_le by lia. apply take_ge. lia.
Qed.

Lemma range_write_at_before {A} (l d : list A) i a b :
  0 ≤ a → b ≤ i → i + len d ≤ len l → range (write_at l i d) a b = range l a b.
Proof.
  intros. unfold write_at.
  destruct (decide (a ≤ b)); [|unfold range; by replace (Z.to_nat (b - a)) with 0%nat by lia].
  rewrite <-(take_drop (Z.to_nat i) l) at 3.
  pose proof (len_nonneg d).
  assert (b ≤ len (take (Z.to_nat i) l)).
  { unfold len in *. rewrite length_take. lia. }
  rewrite !range_app_l by lia. done.
Qed.

Lemma range_write_at_after {A} (l d : list A) i a b :
  0 ≤ i → i + len d ≤ a → i + len d ≤ len l → range (write_at l i d) a b = range l a b.
Proof.
  unfold len, range, write_at. intros. f_equal.
  rewrite app_assoc, drop_app_ge by (rewrite length_app, length_take; lia).
  rewrite drop_drop, length_app, length_take. f_equal. lia.
Qed.

Lemma range_full {A} (l : list A) : range l 0 (len l) = l.
Proof. unfold range, len. rewrite take_ge; [done|]. rewrite drop_0. lia. Qed.

Lemma range_0 {A} (l : list A) n : range l 0 n = take (Z.to_nat n) l.
Proof. unfold range. by rewrite Z.sub_0_r, drop_0. Qed.

Lemma range_empty {A} (l : list A) a b : b ≤ a → range l a b = [].
Proof. intros. unfold range. by replace (Z.to_nat (b - a)) with 0%nat by lia. Qed.

Lemma range_drop {A} (l : list A) a b k :
  0 ≤ a → 0 ≤ k → range l (a + k) b = drop (Z.to_nat k) (range l a b).
Proof.
  intros. unfold range. rewrite skipn_firstn_comm, drop_drop. f_equal; [lia|].
  f_equal. lia.
Qed.

#[export] Hint Rewrite @len_app @len_cons @len_nil @len_replicate @len_insert : polly_len.

(** [len_lia]: linear arithmetic over lengths. *)
Ltac len_facts :=
  repeat match goal with
  | |- context [len ?l] =>
      lazymatch goal with
      | _ : 0 ≤ len l |- _ => fail
      | _ => pose proof (len_nonneg l)
      end
  | _ : context [len ?l] |- _ =>
      lazymatch goal with
      | _ : 0 ≤ len l |- _ => fail
      | _ => pose proof (len_nonneg l)
      end
  end.
Ltac len_lia := autorewrite with polly_len in *; len_facts; bool_lia.

(** A list without repetitions of which only [x] can be an element *)
Lemma singleton_nodup {A} (x : A) (l : list A) : NoDup l → x ∈ l → (∀ y, y ∈ l → y = x) → l = [x].
Proof.
  intros Hnd Hx Hall. destruct l as [|y l]; [by apply elem_of_nil in Hx|].
  apply NoDup_cons in Hnd as [Hy _]. rewrite (Hall y) in Hy |- * by constructor.
  destruct l as [|z l]; [done|]. destruct Hy. rewrite <-(Hall z) by (do 2 constructor). constructor.
Qed.

(** Writing an entry that is then removed *)
Lemma delete_insert_same {A} (l : list A) i x : delete i (<[i := x]> l) = delete i l.
Proof. revert i. induction l as [|y l IH]; intros [|i]; cbn; try done. f_equal. apply IH. Qed.

(** The element-wise forward copy is a block copy when the destination does
    not lie after the source, overlap or not. *)
Lemma copy_fwd_lookup {A} n s d (l : list A) i :
  (d ≤ s)%nat → (s + n ≤ length l)%nat →
  copy_fwd n s d l !! i =
    if decide (d ≤ i < d + n)%nat then l !! (s + (i - d))%nat else l !! i.
Proof.
  revert s d l. induction n as [|n IH]; intros s d l Hd Hn; cbn [copy_fwd].
  { case_decide; [lia|done]. }
  destruct (lookup_lt_is_Some_2 l s) as [x Hx]; [lia|]. rewrite Hx.
  rewrite IH by (rewrite ?length_insert; lia).
  destruct (decide (i = d)) as [->|Hid].
  - rewrite decide_False, decide_True by lia.
    rewrite list_lookup_insert_eq by lia. rewrite <-Hx. f_equal. lia.
  - repeat case_decide; try lia.
    + rewrite list_lookup_insert_ne by lia. f_equal. lia.
    + by rewrite list_lookup_insert_ne by lia.
Qed.

Lemma length_copy_fwd {A} n s d (l : list A) : length (copy_fwd n s d l) = length l.
Proof.
  revert s d l. induction n as [|n IH]; intros s d l; cbn [copy_fwd]; [done|].
  destruct (l !! s); [|done]. by rewrite IH, length_insert.
Qed.

Lemma copy_fwd_write_at {A} (l : list A) s e d :
  0 ≤ d ≤ s → s ≤ e ≤ len l →
  copy_fwd (Z.to_nat (e - s)) (Z.to_nat s) (Z.to_nat d) l = write_at l d (range l s e).
Proof.
  unfold len. intros Hd Hs. apply list_eq. intros i.
  rewrite copy_fwd_lookup by lia.
  assert (length (range l s e) = Z.to_nat (e - s)) as Hlen.
  { unfold range. rewrite length_take, length_drop. lia. }
  unfold write_at. rewrite Hlen.
  destruct (decide (i < Z.to_nat d)%nat).
  { rewrite decide_False, lookup_app_l by (rewrite ?length_take; lia).
    by rewrite lookup_take_lt by lia. }
  rewrite lookup_app_r by (rewrite length_take; lia).
  rewrite length_take. case_decide.
  - rewrite lookup_app_l by (rewrite Hlen; lia). unfold range.
    rewrite lookup_take_lt, lookup_drop by lia. f_equal. lia.
  - rewrite lookup_app_r by (rewrite Hlen; lia). rewrite lookup_drop, Hlen.
    f_equal. lia.
Qed.
