(* ===== verification/Printf.v ===== *)
(** * The conversions of [snprintf] and [std::to_string] the code uses

    Decimal conversion with the flags that occur in the sources ([%d], [%ld],
    [%02d], [%06d], [%4d]) and the truncation of [snprintf] to the size of the
    destination.  The digits are produced by the usual division loop; [dec]
    bounds the loop by the number of bits, and [undec_dec] shows the bound is
    enough: reading the digits back gives the number. *)

From S2P Require Import Prelude.

(** The character of a decimal digit. *)
Definition digit (d : Z) : byte :=
  match Byte.of_N (Z.to_N (48 + d)) with Some c => c | None => Byte.x30 end.

Fixpoint dec_loop (fuel : nat) (n : Z) (acc : bytes) : bytes :=
  match fuel with
  | O => acc
  | S f =>
      let acc' := digit (n mod 10) :: acc in
      if n / 10 =? 0 then acc' else dec_loop f (n / 10) acc'
  end.

(** The digits of a non-negative number: [%u], [std::to_string]. *)
Definition dec (n : Z) : bytes := dec_loop (S (Z.to_nat (Z.log2 n))) n [].

(** [%d] and [%ld] *)
Definition fmt_d (z : Z) : bytes := if z <? 0 then b_ "-" ++ dec (- z) else dec z.

(** [%0wd]: zeros between the sign and the digits up to width [w]. *)
Definition fmt_0d (w : Z) (z : Z) : bytes :=
  let sign := if z <? 0 then b_ "-" else [] in
  let ds := dec (Z.abs z) in
  sign ++ replicate (Z.to_nat (w - len sign - len ds)) (digit 0) ++ ds.

(** [%wd]: blanks in front up to width [w]. *)
Definition fmt_wd (w : Z) (z : Z) : bytes :=
  let s := fmt_d z in replicate (Z.to_nat (w - len s)) Byte.x20 ++ s.

(** [snprintf(buf, size, ...)]: the text stored, without its terminator. *)
Definition snprintf (size : Z) (text : bytes) : bytes := range text 0 (Z.min (len text) (size - 1)).

(** Reading digits back. *)
Definition undigit (c : byte) : Z := byteZ c - 48.
Definition undec (s : bytes) : Z := foldl (fun n c => 10 * n + undigit c) 0 s.

(** ** Lemmas *)

Lemma undigit_digit d : 0 ≤ d < 10 → undigit (digit d) = d.
Proof.
  intros. assert (d = 0 ∨ d = 1 ∨ d = 2 ∨ d = 3 ∨ d = 4 ∨ d = 5 ∨ d = 6 ∨ d = 7 ∨ d = 8 ∨ d = 9)
    as Hd by lia.
  repeat destruct Hd as [->|Hd]; try done. by subst d.
Qed.

Lemma undec_cons_acc k s : foldl (fun n c => 10 * n + undigit c) k s = k * 10 ^ len s + undec s.
Proof.
  unfold undec. revert k. induction s as [|c s IH]; intros k; cbn [foldl].
  { rewrite len_nil. lia. }
  rewrite IH, (IH (10 * 0 + undigit c)), len_cons, Z.pow_add_r by (len_facts; lia). lia.
Qed.

Lemma undec_app s t : undec (s ++ t) = undec s * 10 ^ len t + undec t.
Proof. unfold undec at 1. rewrite foldl_app. apply undec_cons_acc. Qed.

Lemma undec_cons c s : undec (c :: s) = undigit c * 10 ^ len s + undec s.
Proof. unfold undec at 1. cbn [foldl]. rewrite undec_cons_acc. done. Qed.

Lemma dec_loop_app fuel n acc : dec_loop fuel n acc = dec_loop fuel n [] ++ acc.
Proof.
  revert n acc. induction fuel as [|f IH]; intros n acc; cbn [dec_loop]; [done|].
  destruct (n / 10 =? 0); [done|]. rewrite IH, (IH _ [_]), <-app_assoc. done.
Qed.

Lemma dec_loop_spec fuel n :
  0 ≤ n < 2 ^ Z.of_nat fuel → undec (dec_loop fuel n []) = n.
Proof.
  revert n. induction fuel as [|f IH]; intros n Hn; cbn [dec_loop].
  { cbn in Hn. unfold undec. cbn. lia. }
  rewrite Nat2Z.inj_succ, Z.pow_succ_r in Hn by lia.
  assert (0 ≤ n mod 10 < 10) by (apply Z.mod_pos_bound; lia).
  pose proof (Z.div_mod n 10 ltac:(lia)).
  destruct (Z.eqb_spec (n / 10) 0).
  - rewrite undec_cons, undigit_digit, len_nil by lia. unfold undec. cbn. lia.
  - assert (0 ≤ n / 10 < 2 ^ Z.of_nat f).
    { split; [apply Z.div_pos; lia|]. apply Z.div_lt_upper_bound; lia. }
    rewrite dec_loop_app, undec_app, IH, undec_cons, undigit_digit by lia.
    rewrite !len_cons, len_nil. unfold undec. cbn. lia.
Qed.

Lemma undec_dec n : 0 ≤ n → undec (dec n) = n.
Proof.
  intros Hn. unfold dec. apply dec_loop_spec.
  destruct (Z.eq_dec n 0) as [->|]; [done|].
  rewrite Nat2Z.inj_succ, Z2Nat.id by apply Z.log2_nonneg.
  split; [done|]. apply Z.log2_spec. lia.
Qed.

Lemma dec_inj m n : 0 ≤ m → 0 ≤ n → dec m = dec n → m = n.
Proof. intros Hm Hn H. by rewrite <-(undec_dec m), <-(undec_dec n), H. Qed.

Lemma undec_replicate_0 k s : undec (replicate k (digit 0) ++ s) = undec s.
Proof.
  induction k as [|k IH]; cbn [replicate app]; [done|].
  rewrite undec_cons, IH, undigit_digit by lia. lia.
Qed.

Lemma fmt_0d_spec w n : 0 ≤ n → undec (fmt_0d w n) = n.
Proof.
  intros Hn. unfold fmt_0d. rewrite (proj2 (Z.ltb_ge n 0)), Z.abs_eq by lia. cbn [app].
  by rewrite undec_replicate_0, undec_dec.
Qed.

(** The number of digits. *)
Lemma len_dec_loop fuel n k :
  0 ≤ n < 10 ^ Z.of_nat k → (0 < k)%nat → len (dec_loop fuel n []) ≤ Z.of_nat k.
Proof.
  revert n k. induction fuel as [|f IH]; intros n k Hn Hk; cbn [dec_loop]; [len_lia|].
  destruct (Z.eqb_spec (n / 10) 0); [len_lia|].
  destruct k as [|k]; [lia|]. rewrite Nat2Z.inj_succ, Z.pow_succ_r in Hn by lia.
  assert (0 ≤ n / 10 < 10 ^ Z.of_nat k).
  { split; [apply Z.div_pos; lia|]. apply Z.div_lt_upper_bound; lia. }
  assert (0 < k)%nat by (destruct k; [cbn in *; lia|lia]).
  rewrite dec_loop_app, len_app. specialize (IH (n / 10) k). len_lia.
Qed.

Lemma len_dec n k : 0 ≤ n < 10 ^ Z.of_nat k → (0 < k)%nat → len (dec n) ≤ Z.of_nat k.
Proof. apply len_dec_loop. Qed.

Lemma len_fmt_0d w n : 0 ≤ n < 10 ^ w → 0 < w → len (fmt_0d w n) = w.
Proof.
  intros Hn Hw. unfold fmt_0d. rewrite (proj2 (Z.ltb_ge n 0)), Z.abs_eq by lia.
  pose proof (len_dec n (Z.to_nat w)) as Hl. rewrite Z2Nat.id in Hl by lia.
  specialize (Hl Hn ltac:(lia)). autorewrite with polly_len. rewrite Z2Nat.id by lia. lia.
Qed.

Lemma snprintf_fits size s : len s < size → snprintf size s = s.
Proof. intros. unfold snprintf. rewrite Z.min_l by lia. apply range_full. Qed.

Lemma digit_not_dot d : 0 ≤ d < 10 → byteZ (digit d) ≠ 46.
Proof.
  intros Hd Hb. pose proof (undigit_digit d Hd) as H. unfold undigit in H. lia.
Qed.

Lemma dec_loop_digits fuel n :
  0 ≤ n → Forall (fun c => 0 ≤ undigit c < 10) (dec_loop fuel n []).
Proof.
  revert n. induction fuel as [|f IH]; intros n Hn; cbn [dec_loop]; [done|].
  assert (0 ≤ n mod 10 < 10) by (apply Z.mod_pos_bound; lia).
  assert (0 ≤ undigit (digit (n mod 10)) < 10) by (rewrite undigit_digit; lia).
  destruct (n / 10 =? 0); [by constructor|].
  rewrite dec_loop_app. apply Forall_app. split; [|by constructor].
  apply IH. apply Z.div_pos; lia.
Qed.

Lemma dec_digits n : 0 ≤ n → Forall (fun c => 0 ≤ undigit c < 10) (dec n).
Proof. apply dec_loop_digits. Qed.

(** A text of [k] digits reads as a number below [10 ^ k]. *)
Lemma undec_bound s : Forall (fun c => 0 ≤ undigit c < 10) s → 0 ≤ undec s < 10 ^ len s.
Proof.
  induction 1 as [|c s Hc _ IH]; [done|].
  rewrite undec_cons, len_cons, Z.pow_add_r by (len_facts; lia). nia.
Qed.
