(* ===== verification/Slice.v ===== *)
(** * Slice (include/polly/slice.h)

    A [Slice] is a pointer into storage it does not own and a size.  [data_]
    is modelled by the bytes that can be reached from the pointer up to the
    end of that storage, so reading past the storage is an observable fault;
    [size_] is the [size_t] field.  The theorems relate the comparison
    routines, which work byte by byte on the two pointers, to the
    lexicographic order, equality and prefix relation of the contents. *)

From S2P Require Import Prelude.

Module Slice.

Record Slice := mkSlice {
  data_ : bytes;
  size_ : Z
}.

#[export] Instance eta_Slice : Eta Slice := fun s => mkSlice (data_ s) (size_ s).

(** [strlen] of <string.h>: no terminator in the storage is an overrun. *)
Fixpoint strlen (s : bytes) : res Z :=
  match s with
  | [] => Err OutOfBounds
  | c :: s' => if byteZ c =? 0 then Ok 0 else n ← strlen s'; mret (n + 1)
  end.

(** [std::string(p, n)] and the other readers of [n] bytes at a pointer. *)
Definition read_mem (p : bytes) (n : Z) : res bytes :=
  if n <=? len p then Ok (range p 0 n) else Err OutOfBounds.

(** [memcmp] of <string.h> on bytes that are all there. *)
Fixpoint cmp_bytes (n : nat) (a b : bytes) : Z :=
  match n, a, b with
  | S n', x :: a', y :: b' =>
      if byteZ x =? byteZ y then cmp_bytes n' a' b' else byteZ x - byteZ y
  | _, _, _ => 0
  end.

Definition memcmp (a b : bytes) (n : Z) : res Z :=
  if (n <=? len a) && (n <=? len b) then Ok (cmp_bytes (Z.to_nat n) a b)
  else Err OutOfBounds.

(** [Slice()] *)
Definition Slice_default : Slice := mkSlice [Byte.x00] 0.

(** [Slice(const char *d, size_t n)] *)
Definition Slice_ptr (d : bytes) (n : Z) : Slice := mkSlice d n.

(** [Slice(const std::string &s)]: [s.data()] is NUL terminated. *)
Definition Slice_string (s : bytes) : Slice := mkSlice (s ++ [Byte.x00]) (len s).

(** [Slice(const char *s)] *)
Definition Slice_cstr (s : bytes) : res Slice := n ← strlen s; mret (mkSlice s n).

Definition data (s : Slice) : bytes := data_ s.
Definition size (s : Slice) : Z := size_ s.
Definition empty (s : Slice) : bool := size_ s =? 0.

(** [operator[]] *)
Definition at_ (s : Slice) (n : Z) : res byte :=
  assert_ (n <? size s) "slice.h:55" ;;
  vec_at (data_ s) n.

Definition clear (s : Slice) : Slice := mkSlice [Byte.x00] 0.

Definition remove_prefix (s : Slice) (n : Z) : res Slice :=
  assert_ (n <=? size s) "slice.h:67" ;;
  mret (mkSlice (drop (Z.to_nat n) (data_ s)) (u64 (size_ s - n))).

Definition ToString (s : Slice) : res bytes := read_mem (data_ s) (size_ s).

Definition starts_with (s x : Slice) : res bool :=
  if size_ s >=? size_ x then
    r ← memcmp (data_ s) (data_ x) (size_ x); mret (r =? 0)
  else mret false.

(** [operator==] and [operator!=] *)
Definition eq_ (x y : Slice) : res bool :=
  if size x =? size y then
    r ← memcmp (data x) (data y) (size x); mret (r =? 0)
  else mret false.

Definition ne_ (x y : Slice) : res bool := e ← eq_ x y; mret (negb e).

Definition compare (s b : Slice) : res Z :=
  let min_len := if size_ s <? size_ b then size_ s else size_ b in
  r ← memcmp (data_ s) (data_ b) min_len;
  if r =? 0 then
    if size_ s <? size_ b then mret (-1)
    else if size_ s >? size_ b then mret 1
    else mret r
  else mret r.

(** ** Specification *)

(** The slice designates storage that is really there. *)
Definition wf (s : Slice) : Prop := 0 ≤ size_ s ≤ len (data_ s) ∧ size_ s < 2 ^ 64.

Definition contents (s : Slice) : bytes := range (data_ s) 0 (size_ s).

(** Lexicographic order of byte strings, the shorter one first on a tie. *)
Fixpoint lex (a b : bytes) : comparison :=
  match a, b with
  | [], [] => Eq
  | [], _ :: _ => Lt
  | _ :: _, [] => Gt
  | x :: a', y :: b' =>
      match byteZ x ?= byteZ y with Eq => lex a' b' | c => c end
  end.

(** ** Lemmas *)

Lemma wf_string s : len s < 2 ^ 64 → wf (Slice_string s).
Proof. unfold wf. cbn. intros. len_lia. Qed.

Lemma contents_string s : contents (Slice_string s) = s.
Proof.
  unfold contents. cbn. rewrite range_app_l by lia. apply range_full.
Qed.

Lemma len_slice s : wf s → len (contents s) = size_ s.
Proof. intros [??]. unfold contents. rewrite len_range; lia. Qed.

Lemma contents_take s : contents s = take (Z.to_nat (size_ s)) (data_ s).
Proof. unfold contents, range. rewrite drop_0. f_equal. lia. Qed.

Lemma lex_refl a : lex a a = Eq.
Proof. induction a as [|x a IH]; cbn; [done|]. by rewrite Z.compare_refl. Qed.

Lemma lex_Eq a b : lex a b = Eq ↔ a = b.
Proof.
  split; [|intros ->; apply lex_refl].
  revert b. induction a as [|x a IH]; intros [|y b]; cbn; try done.
  destruct (Z.compare_spec (byteZ x) (byteZ y)) as [E| |]; try done.
  intros H. by rewrite (byteZ_inj _ _ E), (IH _ H).
Qed.

(** Equal prefixes: [memcmp] over the common length sees exactly the first
    difference of the two byte strings. *)
Lemma cmp_bytes_lex a b n :
  n = min (length a) (length b) →
  (if cmp_bytes n a b =? 0 then Z.of_nat (length a) ?= Z.of_nat (length b)
   else cmp_bytes n a b ?= 0) = lex a b.
Proof.
  revert a b. induction n as [|n IH]; intros [|x a] [|y b] Hn; try done.
  injection Hn as Hn. specialize (IH a b Hn). cbn [cmp_bytes lex].
  destruct (Z.eqb_spec (byteZ x) (byteZ y)) as [E|E].
  - rewrite E, Z.compare_refl. rewrite <-IH. case_match; [|done].
    cbn [length].
    destruct (Z.compare_spec (Z.of_nat (length a)) (Z.of_nat (length b)));
      [apply Z.compare_eq_iff|apply Z.compare_lt_iff|apply Z.compare_gt_iff]; lia.
  - destruct (Z.eqb_spec (byteZ x - byteZ y) 0); [lia|].
    destruct (Z.compare_spec (byteZ x) (byteZ y));
      [lia|apply Z.compare_lt_iff|apply Z.compare_gt_iff]; lia.
Qed.

Lemma cmp_bytes_take n a b k :
  (n ≤ k)%nat → cmp_bytes n (take k a) b = cmp_bytes n a b.
Proof.
  revert a b k. induction n as [|n IH]; intros [|x a] [|y b] [|k] Hk; try done; try lia.
  cbn. rewrite IH by lia. done.
Qed.

Lemma cmp_bytes_take_r n a b k :
  (n ≤ k)%nat → cmp_bytes n a (take k b) = cmp_bytes n a b.
Proof.
  revert a b k. induction n as [|n IH]; intros [|x a] [|y b] [|k] Hk; try done; try lia.
  cbn. rewrite IH by lia. done.
Qed.

Lemma cmp_bytes_0_prefix a b :
  (length b ≤ length a)%nat → cmp_bytes (length b) a b = 0 ↔ b `prefix_of` a.
Proof.
  revert a. induction b as [|y b IH]; intros [|x a] Hl; cbn in *; try lia.
  - split; [intros; by apply prefix_nil|done].
  - split; [intros; by apply prefix_nil|done].
  - destruct (Z.eqb_spec (byteZ x) (byteZ y)) as [E|E].
    + rewrite IH by lia. rewrite (byteZ_inj _ _ E). split.
      * apply prefix_cons.
      * apply prefix_cons_inv_2.
    + split; [lia|]. intros H%prefix_cons_inv_1. congruence.
Qed.

(** [memcmp] on two well-formed slices is [memcmp] on their contents. *)
Lemma memcmp_contents a b n :
  wf a → wf b → 0 ≤ n → n ≤ size_ a → n ≤ size_ b →
  memcmp (data_ a) (data_ b) n = Ok (cmp_bytes (Z.to_nat n) (contents a) (contents b)).
Proof.
  intros [??] [??] ???. unfold memcmp.
  rewrite (proj2 (Z.leb_le n (len (data_ a)))), (proj2 (Z.leb_le n (len (data_ b)))) by lia.
  rewrite !contents_take, cmp_bytes_take, cmp_bytes_take_r by lia. done.
Qed.

(** ** Theorems *)

(** [Slice::compare] never reads outside the two slices and its sign is
    the lexicographic order of their contents, so [compare] is negative, zero
    or positive exactly as the header promises. *)
Theorem Slice_compare_lexicographic (a b : Slice) :
  wf a → wf b →
  ∃ r, compare a b = Ok r ∧ (r ?= 0) = lex (contents a) (contents b).
Proof.
  intros Ha Hb. pose proof (len_slice a Ha) as La. pose proof (len_slice b Hb) as Lb.
  pose proof Ha as [? _]. pose proof Hb as [? _].
  set (n := if size_ a <? size_ b then size_ a else size_ b).
  assert (Hn : Z.to_nat n = min (length (contents a)) (length (contents b))).
  { unfold len in *. subst n. case_match; bool_lia. }
  pose proof (cmp_bytes_lex (contents a) (contents b) (Z.to_nat n) Hn) as Hlex.
  unfold compare. fold n.
  assert (Hn3 : 0 ≤ n ∧ n ≤ size_ a ∧ n ≤ size_ b) by (subst n; destruct (Z.ltb_spec (size_ a) (size_ b)); lia).
  rewrite memcmp_contents by (done || lia). cbn.
  revert Hlex. destruct (Z.eqb_spec (cmp_bytes (Z.to_nat n) (contents a) (contents b)) 0) as [E|E];
    intros Hlex; [|by eexists].
  fold (len (contents a)) (len (contents b)) in Hlex. rewrite La, Lb in Hlex. rewrite <-Hlex.
  destruct (Z.compare_spec (size_ a) (size_ b)) as [Es|Es|Es].
  - rewrite Es, Z.ltb_irrefl, Z.gtb_ltb, Z.ltb_irrefl. eexists. split; [done|].
    by rewrite E.
  - rewrite (proj2 (Z.ltb_lt _ _) Es). by eexists.
  - rewrite (proj2 (Z.ltb_ge _ _)) by lia. rewrite Z.gtb_ltb, (proj2 (Z.ltb_lt _ _) Es).
    by eexists.
Qed.

Lemma Slice_compare_lexicographic_witness :
  wf (Slice_string (b_ "abc")) ∧ wf (Slice_string (b_ "ab")) ∧
  ∃ r, compare (Slice_string (b_ "abc")) (Slice_string (b_ "ab")) = Ok r ∧ (r ?= 0) = Gt.
Proof.
  split; [by apply wf_string|]. split; [by apply wf_string|].
  apply (Slice_compare_lexicographic (Slice_string (b_ "abc")) (Slice_string (b_ "ab")));
    by apply wf_string.
Defined.

(** [Slice::starts_with] decides the prefix relation and [operator==]
    decides equality of the contents, without reading outside either slice. *)
Theorem Slice_prefix_and_equality (s x : Slice) :
  wf s → wf x →
  starts_with s x = Ok (bool_decide (contents x `prefix_of` contents s)) ∧
  eq_ s x = Ok (bool_decide (contents s = contents x)).
Proof.
  intros Hs Hx. pose proof (len_slice s Hs) as Ls. pose proof (len_slice x Hx) as Lx.
  pose proof Hs as [? _]. pose proof Hx as [? _].
  assert (Hpre : size_ s >= size_ x →
    starts_with s x = Ok (bool_decide (contents x `prefix_of` contents s))).
  { intros. unfold starts_with. rewrite Z.geb_leb, (proj2 (Z.leb_le _ _)) by lia.
    rewrite memcmp_contents by (done || lia). cbn. unfold len in *. f_equal.
    pose proof (cmp_bytes_0_prefix (contents s) (contents x) ltac:(lia)) as Hp.
    replace (length (contents x)) with (Z.to_nat (size_ x)) in Hp by lia.
    case_bool_decide as Hb; [by apply Z.eqb_eq, Hp|]. apply Z.eqb_neq. naive_solver. }
  split.
  - destruct (Z.ltb_spec (size_ s) (size_ x)); [|apply Hpre; lia].
    unfold starts_with. rewrite Z.geb_leb, (proj2 (Z.leb_gt _ _)) by lia.
    rewrite bool_decide_eq_false_2; [done|]. intros Hp%prefix_length. unfold len in *. lia.
  - unfold eq_, size, data. destruct (Z.eqb_spec (size_ s) (size_ x)) as [E|E].
    + specialize (Hpre ltac:(lia)). unfold starts_with in Hpre.
      rewrite Z.geb_leb, (proj2 (Z.leb_le _ _)) in Hpre by lia. rewrite E, Hpre. f_equal.
      apply bool_decide_ext. split; [|intros ->; done].
      intros [k Hk]. assert (len k = 0) as Hz.
      { apply (f_equal len) in Hk. len_lia. }
      apply len_zero_nil in Hz. subst k. by rewrite app_nil_r in Hk.
    + rewrite bool_decide_eq_false_2; [done|]. intros Hc. rewrite Hc in Ls. lia.
Qed.

Lemma Slice_prefix_and_equality_witness :
  starts_with (Slice_string (b_ "hello")) (Slice_string (b_ "he")) = Ok true.
Proof.
  apply (Slice_prefix_and_equality (Slice_string (b_ "hello")) (Slice_string (b_ "he")));
    by apply wf_string.
Defined.

(** [remove_prefix] drops exactly the first [n] bytes, keeps the slice
    inside its storage, and is the only way [n > size()] can be refused. *)
Theorem Slice_remove_prefix_spec (s : Slice) (n : Z) :
  wf s → 0 ≤ n →
  (n ≤ size_ s →
     ∃ s', remove_prefix s n = Ok s' ∧ wf s' ∧
           contents s' = drop (Z.to_nat n) (contents s) ∧
           ToString s' = Ok (drop (Z.to_nat n) (contents s))) ∧
  (size_ s < n → remove_prefix s n = Err (AssertFailed "slice.h:67")).
Proof.
  intros [Hs Hs64] Hn. unfold remove_prefix, size. split.
  - intros Hle. rewrite (proj2 (Z.leb_le _ _)) by lia. eexists. split; [done|].
    rewrite u64_id by lia.
    assert (len (drop (Z.to_nat n) (data_ s)) = len (data_ s) - n).
    { unfold len in *. rewrite length_drop. lia. }
    assert (Hc : range (drop (Z.to_nat n) (data_ s)) 0 (size_ s - n)
                 = drop (Z.to_nat n) (contents s)).
    { unfold contents. rewrite <-range_drop by lia. unfold range. rewrite drop_drop.
      f_equal; [lia|]. f_equal. lia. }
    split; [split; cbn; lia|]. split; [done|].
    unfold ToString, read_mem. cbn. rewrite (proj2 (Z.leb_le _ _)) by lia. by rewrite Hc.
  - intros. by rewrite (proj2 (Z.leb_gt _ _)) by lia.
Qed.

Lemma Slice_remove_prefix_spec_witness :
  ∃ s', remove_prefix (Slice_string (b_ "hello")) 2 = Ok s' ∧ wf s' ∧
        contents s' = b_ "llo" ∧ ToString s' = Ok (b_ "llo").
Proof.
  apply (Slice_remove_prefix_spec (Slice_string (b_ "hello")) 2);
    first [by apply wf_string | by vm_compute].
Defined.

End Slice.
