(* ===== verification/Buffer.v ===== *)
(** * Byte buffers (util/buffer.h, util/buffer.cc)

    [FixedBuffer<N>] is the fixed-capacity array the log front end writes
    into; [Buffer] is the growable receive/send buffer of a TCP connection: a
    vector with a reader and a writer index and a headroom of
    [kCheapPrepend] bytes.  Indices are [size_t] values, kept as integers
    with their 64-bit wrap-around written out.  The theorems show that both
    are byte queues: what was appended comes out in order, nothing is lost
    when space is made by moving the readable bytes or by growing the vector,
    and no assertion of the class fails on a well-formed buffer. *)

From S2P Require Import Prelude.
From S2P Require Import Slice.

Definition kSmallBufferSize : Z := 4096.

Module FixedBuffer.
Import Slice.

Record FixedBuffer := mkFixedBuffer {
  data_ : bytes;
  cur_ : Z (* offset of the pointer [cur_] from [data_] *)
}.

#[export] Instance eta_FixedBuffer : Eta FixedBuffer :=
  fun b => mkFixedBuffer (data_ b) (cur_ b).

Section FixedBuffer.
Context (N : Z).

(** [bzero()]: clear the array, the cursor stays. *)
Definition bzero (b : FixedBuffer) : FixedBuffer :=
  b <| data_ := replicate (Z.to_nat N) Byte.x00 |>.

(** [FixedBuffer()]; the array is indeterminate before [bzero()]. *)
Definition FixedBuffer_new : FixedBuffer := bzero (mkFixedBuffer [] 0).

Definition data (b : FixedBuffer) : bytes := data_ b.
Definition size (b : FixedBuffer) : Z := u64 (cur_ b).
Definition slice (b : FixedBuffer) : Slice := Slice_ptr (data_ b) (size b).
Definition end_ (b : FixedBuffer) : Z := N.
Definition space (b : FixedBuffer) : Z := u64 (end_ b - cur_ b).
Definition reset (b : FixedBuffer) : FixedBuffer := b <| cur_ := 0 |>.

Definition append (b : FixedBuffer) (s : Slice) : res FixedBuffer :=
  assert_ (space b >=? Slice.size s) "buffer.h:44" ;;
  d ← read_mem (Slice.data s) (Slice.size s);
  mret (mkFixedBuffer (write_at (data_ b) (cur_ b) d) (cur_ b + Slice.size s)).

(** The array has its [N] bytes and the cursor stays inside. *)
Definition wf (b : FixedBuffer) : Prop := len (data_ b) = N ∧ 0 ≤ cur_ b ≤ N.

Definition contents (b : FixedBuffer) : bytes := range (data_ b) 0 (cur_ b).

Hypothesis HN : 0 ≤ N < 2 ^ 31.

Lemma space_eq b : wf b → space b = N - cur_ b.
Proof. intros [??]. unfold space, end_. apply u64_id. lia. Qed.

Lemma size_eq b : wf b → size b = cur_ b.
Proof. intros [??]. unfold size. apply u64_id. lia. Qed.

Lemma wf_new : wf FixedBuffer_new.
Proof. split; cbn; len_lia. Qed.

Lemma contents_new : contents FixedBuffer_new = [].
Proof. done. Qed.

Lemma wf_reset b : wf b → wf (reset b).
Proof. intros [??]. split; cbn; lia. Qed.

Lemma contents_reset b : contents (reset b) = [].
Proof. done. Qed.

Lemma len_fixed b : wf b → len (contents b) = cur_ b.
Proof. intros [??]. unfold contents. rewrite len_range; lia. Qed.

(** The slice handed to a destination is well formed and has the contents. *)
Lemma slice_contents b : wf b → Slice.wf (slice b) ∧ Slice.contents (slice b) = contents b.
Proof.
  intros Hb. unfold slice, Slice.wf, Slice.contents. cbn. rewrite size_eq by done.
  destruct Hb. split; [lia|done].
Qed.

Lemma fixed_append_Ok b s :
  wf b → Slice.wf s → Slice.size_ s ≤ N - cur_ b →
  ∃ b', append b s = Ok b' ∧ wf b' ∧
        contents b' = contents b ++ Slice.contents s ∧ cur_ b' = cur_ b + Slice.size_ s.
Proof.
  intros Hb Hs Hfit. pose proof Hb as [Hd Hc]. pose proof Hs as [Hz _].
  unfold append. rewrite space_eq by done.
  unfold Slice.size, Slice.data, read_mem.
  rewrite Z.geb_leb, (proj2 (Z.leb_le _ _)) by lia. cbn.
  rewrite (proj2 (Z.leb_le _ _)) by lia. cbn.
  fold (Slice.contents s). pose proof (Slice.len_slice s Hs) as Hl.
  eexists. split; [done|]. split.
  { split; cbn; [rewrite len_write_at; lia|lia]. }
  split; [|done]. unfold contents. cbn.
  rewrite (range_split _ 0 (cur_ b)) by lia.
  rewrite range_write_at_before by lia. f_equal.
  rewrite <-Hl. apply range_write_at_eq; lia.
Qed.

Lemma append_full b s :
  wf b → N - cur_ b < Slice.size_ s → append b s = Err (AssertFailed "buffer.h:44").
Proof.
  intros Hb Hfull. unfold append. rewrite space_eq by done. unfold Slice.size.
  by rewrite Z.geb_leb, (proj2 (Z.leb_gt _ _)) by lia.
Qed.

End FixedBuffer.

(** [FixedBuffer<N>::append] stores the slice behind what is there when
    it fits and fails its assertion, without touching the array, when it does
    not; the bytes handed on by [slice()] are always exactly those appended. *)
Theorem FixedBuffer_append_spec (N : Z) (b : FixedBuffer) (s : Slice) :
  0 ≤ N < 2 ^ 31 → wf N b → Slice.wf s →
  if Slice.size_ s <=? N - size b
  then ∃ b', append N b s = Ok b' ∧ wf N b' ∧
             Slice.contents (slice b') = Slice.contents (slice b) ++ Slice.contents s
  else append N b s = Err (AssertFailed "buffer.h:44").
Proof.
  intros HN Hb Hs. rewrite (size_eq N) by done.
  destruct (Z.leb_spec (Slice.size_ s) (N - cur_ b)).
  - destruct (fixed_append_Ok N HN b s) as (b' & He & Hw & Hc & _); [done..|].
    exists b'. split; [done|]. split; [done|].
    destruct (slice_contents N HN b Hb) as [_ ->], (slice_contents N HN b' Hw) as [_ ->]. done.
  - by apply append_full.
Qed.

Lemma FixedBuffer_append_spec_witness :
  ∃ b', append 4 (FixedBuffer_new 4) (Slice_string (b_ "abc")) = Ok b' ∧ wf 4 b' ∧
        Slice.contents (slice b') = b_ "abc".
Proof.
  apply (FixedBuffer_append_spec 4 (FixedBuffer_new 4) (Slice_string (b_ "abc")));
    [lia|by apply wf_new|by apply wf_string].
Defined.

End FixedBuffer.

Module Buffer.

Record Buffer := mkBuffer {
  buffer_ : bytes;
  readerIndex_ : Z;
  writerIndex_ : Z
}.

#[export] Instance eta_Buffer : Eta Buffer :=
  fun b => mkBuffer (buffer_ b) (readerIndex_ b) (writerIndex_ b).

#[export] Instance Buffer_eq_dec : EqDecision Buffer.
Proof. solve_decision. Defined.

Definition kCheapPrepend : Z := 8.
Definition kInitialSize : Z := 1024.

(** [std::vector<char>::max_size()]: larger requests throw [std::length_error]. *)
Definition max_size : Z := 2 ^ 63 - 1.

Definition vector_resize (v : bytes) (n : Z) : res bytes :=
  if n <=? max_size
  then Ok (take (Z.to_nat n) v ++ replicate (Z.to_nat n - length v) Byte.x00)
  else Err LengthError.

Definition readableBytes (b : Buffer) : Z := u64 (writerIndex_ b - readerIndex_ b).
Definition writableBytes (b : Buffer) : Z := u64 (len (buffer_ b) - writerIndex_ b).
Definition prependableBytes (b : Buffer) : Z := readerIndex_ b.

(** [Buffer(size_t initialSize)] with its three assertions. *)
Definition Buffer_new (initialSize : Z) : res Buffer :=
  v ← vector_resize [] (u64 (kCheapPrepend + initialSize));
  let b := mkBuffer v kCheapPrepend kCheapPrepend in
  assert_ (readableBytes b =? 0) "buffer.h:63" ;;
  assert_ (writableBytes b =? initialSize) "buffer.h:64" ;;
  assert_ (prependableBytes b =? kCheapPrepend) "buffer.h:65" ;;
  mret b.

Definition swap (b rhs : Buffer) : Buffer * Buffer := (rhs, b).

(** [peek()]: the bytes reachable from the pointer it returns. *)
Definition peek (b : Buffer) : bytes := drop (Z.to_nat (readerIndex_ b)) (buffer_ b).

Definition retrieveAll (b : Buffer) : Buffer :=
  mkBuffer (buffer_ b) kCheapPrepend kCheapPrepend.

Definition retrieve (b : Buffer) (n : Z) : res Buffer :=
  assert_ (n <=? readableBytes b) "buffer.h:84" ;;
  if n <? readableBytes b then mret (b <| readerIndex_ := u64 (readerIndex_ b + n) |>)
  else mret (retrieveAll b).

Definition makeSpace (b : Buffer) (n : Z) : res Buffer :=
  if u64 (writableBytes b + prependableBytes b) <? u64 (n + kCheapPrepend) then
    v ← vector_resize (buffer_ b) (u64 (writerIndex_ b + n));
    mret (b <| buffer_ := v |>)
  else
    (* move readable data to the front, make space inside buffer *)
    assert_ (kCheapPrepend <? readerIndex_ b) "buffer.h:131" ;;
    let readable := readableBytes b in
    let v := copy_fwd (Z.to_nat (writerIndex_ b - readerIndex_ b))
               (Z.to_nat (readerIndex_ b)) (Z.to_nat kCheapPrepend) (buffer_ b) in
    let b' := mkBuffer v kCheapPrepend (u64 (kCheapPrepend + readable)) in
    assert_ (readable =? readableBytes b') "buffer.h:137" ;;
    mret b'.

(** [append(const char *data, size_t len)] *)
Definition append (b : Buffer) (data : bytes) (n : Z) : res Buffer :=
  b1 ← (if writableBytes b <? n then makeSpace b n else mret b);
  assert_ (writableBytes b1 >=? n) "buffer.h:102" ;;
  d ← Slice.read_mem data n;
  mret (mkBuffer (write_at (buffer_ b1) (writerIndex_ b1) d) (readerIndex_ b1)
                 (u64 (writerIndex_ b1 + n))).

(** [prepend(const void *data, size_t len)] *)
Definition prepend (b : Buffer) (data : bytes) (n : Z) : res Buffer :=
  assert_ (n <=? prependableBytes b) "buffer.h:109" ;;
  let r := u64 (readerIndex_ b - n) in
  d ← Slice.read_mem data n;
  mret (mkBuffer (write_at (buffer_ b) r d) r (writerIndex_ b)).

(** What [readv(2)] gives back: the bytes it scattered over the vectors it
    was given, in order, or [errno]. *)
Inductive readv_result :=
  | ReadvErr (errno : Z)
  | ReadvOk (d : bytes).

(** [sizeof extrabuf] *)
Definition extrabuf_size : Z := 65536.

(** The vectors [readFd] offers: the writable space, and the stack buffer
    unless there is enough space without it. *)
Definition iovec (b : Buffer) : list Z :=
  let writable := writableBytes b in
  if writable <? extrabuf_size then [writable; extrabuf_size] else [writable].

(** [readFd(int fd, int *savedErrno)].  [readv] is the system call, a function
    of the lengths of the vectors passed to it; [savedErrno] is [None] for
    [nullptr].  The result is the return value, the saved errno and the buffer. *)
Definition readFd (readv : list Z → readv_result) (savedErrno : option Z) (b : Buffer)
    : res (Z * option Z * Buffer) :=
  let writable := writableBytes b in
  match readv (iovec b) with
  | ReadvErr errno =>
      mret (-1, (match savedErrno with Some _ => Some errno | None => None end), b)
  | ReadvOk d =>
      let n := len d in
      (* the kernel fills the first vector, then the second *)
      let first := range d 0 (Z.min n writable) in
      let extrabuf := range d (Z.min n writable) n in
      let v := write_at (buffer_ b) (writerIndex_ b) first in
      if n <=? writable then
        mret (n, savedErrno, mkBuffer v (readerIndex_ b) (u64 (writerIndex_ b + n)))
      else
        b' ← append (mkBuffer v (readerIndex_ b) (len v)) extrabuf (u64 (n - writable));
        mret (n, savedErrno, b')
  end.

(** ** Specification *)

Definition wf (b : Buffer) : Prop :=
  0 ≤ readerIndex_ b ≤ writerIndex_ b ∧ writerIndex_ b ≤ len (buffer_ b) ≤ max_size ∧
  kCheapPrepend ≤ len (buffer_ b).

(** The readable bytes, the queue the buffer stands for. *)
Definition contents (b : Buffer) : bytes :=
  range (buffer_ b) (readerIndex_ b) (writerIndex_ b).

(** ** Lemmas *)

Ltac wf_unfold := unfold wf, max_size, kCheapPrepend in *; cbn [buffer_ readerIndex_ writerIndex_] in *.

Lemma readable_eq b : wf b → readableBytes b = writerIndex_ b - readerIndex_ b.
Proof. intros ?. wf_unfold. apply u64_id. lia. Qed.

Lemma writable_eq b : wf b → writableBytes b = len (buffer_ b) - writerIndex_ b.
Proof. intros ?. wf_unfold. apply u64_id. lia. Qed.

Lemma len_contents b : wf b → len (contents b) = writerIndex_ b - readerIndex_ b.
Proof. intros ?. wf_unfold. unfold contents. rewrite len_range; lia. Qed.

Lemma readable_len b : wf b → readableBytes b = len (contents b).
Proof. intros. by rewrite readable_eq, len_contents. Qed.

(** Reading [readableBytes()] bytes at [peek()] yields the contents. *)
Lemma peek_contents b : wf b → Slice.read_mem (peek b) (readableBytes b) = Ok (contents b).
Proof.
  intros Hb. rewrite readable_eq by done. wf_unfold. unfold Slice.read_mem, peek.
  rewrite (proj2 (Z.leb_le _ _)) by (unfold len in *; rewrite length_drop; lia).
  unfold contents, range. by rewrite Z.sub_0_r, drop_0.
Qed.

Lemma vector_resize_grow v n :
  len v ≤ n ≤ max_size →
  ∃ k, vector_resize v n = Ok (v ++ k) ∧ len (v ++ k) = n.
Proof.
  intros [H1 H2]. unfold vector_resize. rewrite (proj2 (Z.leb_le _ _)) by lia.
  unfold len in *. rewrite take_ge by lia. eexists. split; [done|].
  rewrite length_app, length_replicate. lia.
Qed.

(** A copy of [n] well-placed bytes at the writer index is an append. *)
Lemma append_here b (data : bytes) n :
  wf b → 0 ≤ n ≤ len data → writerIndex_ b + n ≤ len (buffer_ b) →
  let b' := mkBuffer (write_at (buffer_ b) (writerIndex_ b) (range data 0 n))
              (readerIndex_ b) (u64 (writerIndex_ b + n)) in
  wf b' ∧ contents b' = contents b ++ range data 0 n ∧ len (buffer_ b') = len (buffer_ b).
Proof.
  intros Hb Hn Hfit. wf_unfold. cbn.
  assert (Hl : len (range data 0 n) = n) by (rewrite len_range; lia).
  rewrite u64_id by lia. rewrite len_write_at by lia.
  split; [lia|]. split; [|done].
  unfold contents. cbn. rewrite (range_split _ _ (writerIndex_ b)) by lia.
  rewrite range_write_at_before by lia. f_equal.
  replace (writerIndex_ b + n) with (writerIndex_ b + len (range data 0 n)) by lia.
  apply range_write_at_eq; lia.
Qed.

(** [makeSpace] keeps the contents and leaves room for [n] bytes; its two
    assertions hold. *)
Lemma makeSpace_Ok b n :
  wf b → writableBytes b < n → writerIndex_ b + n ≤ max_size →
  ∃ b', makeSpace b n = Ok b' ∧ wf b' ∧ contents b' = contents b ∧
        n ≤ len (buffer_ b') - writerIndex_ b' ∧
        len (buffer_ b') ≤ Z.max (len (buffer_ b)) (writerIndex_ b + n).
Proof.
  intros Hb Hn Hmax. rewrite writable_eq in Hn by done. unfold makeSpace.
  rewrite writable_eq, readable_eq by done. unfold prependableBytes, kCheapPrepend.
  wf_unfold. rewrite !u64_id by lia.
  destruct (Z.ltb_spec (len (buffer_ b) - writerIndex_ b + readerIndex_ b) (n + 8)).
  - destruct (vector_resize_grow (buffer_ b) (writerIndex_ b + n)) as (k & Hk & Hlen).
    { unfold max_size. lia. }
    rewrite Hk. eexists. split; [done|]. cbn.
    rewrite Hlen. split; [lia|]. split; [|lia].
    unfold contents. cbn. apply range_app_l; lia.
  - rewrite (proj2 (Z.ltb_lt _ _)) by lia. cbn.
    rewrite copy_fwd_write_at by lia.
    unfold readableBytes. cbn. rewrite u64_id by lia.
    rewrite (proj2 (Z.eqb_eq _ _)) by lia. eexists. split; [done|]. cbn.
    assert (Hlr : len (range (buffer_ b) (readerIndex_ b) (writerIndex_ b))
                  = writerIndex_ b - readerIndex_ b) by (rewrite len_range; lia).
    rewrite len_write_at by lia. split; [lia|]. split; [|lia].
    unfold contents. cbn. rewrite <-Hlr. apply range_write_at_eq; lia.
Qed.

Lemma append_Ok b data n :
  wf b → 0 ≤ n ≤ len data → writerIndex_ b + n ≤ max_size →
  ∃ b', append b data n = Ok b' ∧ wf b' ∧ contents b' = contents b ++ range data 0 n ∧
        len (buffer_ b') ≤ Z.max (len (buffer_ b)) (writerIndex_ b + n).
Proof.
  intros Hb Hn Hmax. unfold append.
  assert (∃ b1, (if writableBytes b <? n then makeSpace b n else mret b) = Ok b1 ∧ wf b1 ∧
     contents b1 = contents b ∧ n ≤ len (buffer_ b1) - writerIndex_ b1 ∧
     len (buffer_ b1) ≤ Z.max (len (buffer_ b)) (writerIndex_ b + n))
    as (b1 & -> & Hb1 & Hc & Hfit & Hcap).
  { destruct (Z.ltb_spec (writableBytes b) n); [by apply makeSpace_Ok|].
    rewrite writable_eq in * by done. eexists. split; [done|]. repeat split; try done; lia || apply Hb. }
  cbn. rewrite writable_eq by done.
  rewrite Z.geb_leb, (proj2 (Z.leb_le _ _)) by lia. cbn.
  unfold Slice.read_mem. rewrite (proj2 (Z.leb_le _ _)) by lia. cbn.
  destruct (append_here b1 data n Hb1 Hn ltac:(lia)) as (Hw & Hcont & Hlen).
  eexists. split; [done|]. rewrite Hcont, Hc. cbn in Hlen |- *. rewrite Hlen. done.
Qed.

Lemma wf_retrieveAll b : wf b → wf (retrieveAll b).
Proof. intros. wf_unfold. cbn. unfold kCheapPrepend. lia. Qed.

Lemma contents_retrieveAll b : contents (retrieveAll b) = [].
Proof. unfold contents. cbn. by apply range_empty. Qed.

Lemma retrieve_Ok b n :
  wf b → 0 ≤ n ≤ len (contents b) →
  ∃ b', retrieve b n = Ok b' ∧ wf b' ∧ contents b' = drop (Z.to_nat n) (contents b) ∧
        len (buffer_ b') = len (buffer_ b).
Proof.
  intros Hb Hn. unfold retrieve. rewrite readable_len by done.
  rewrite (proj2 (Z.leb_le _ _)) by lia. cbn.
  pose proof (len_contents b Hb) as Hl. destruct (Z.ltb_spec n (len (contents b))).
  - eexists. split; [done|]. wf_unfold. rewrite u64_id by lia. split; [lia|]. split; [|done].
    unfold contents. cbn. rewrite range_drop; [done|lia|lia].
  - eexists. split; [done|]. split; [by apply wf_retrieveAll|]. split; [|done].
    rewrite contents_retrieveAll, drop_ge; [done|]. unfold len in *. lia.
Qed.

Lemma retrieve_Err b n :
  wf b → len (contents b) < n → retrieve b n = Err (AssertFailed "buffer.h:84").
Proof.
  intros Hb Hn. unfold retrieve. rewrite readable_len by done.
  by rewrite (proj2 (Z.leb_gt _ _)) by lia.
Qed.

Lemma Buffer_new_Ok n :
  0 ≤ n ≤ max_size - kCheapPrepend →
  ∃ b, Buffer_new n = Ok b ∧ wf b ∧ contents b = [] ∧ len (buffer_ b) = kCheapPrepend + n.
Proof.
  intros Hn. unfold Buffer_new. wf_unfold. unfold kCheapPrepend. rewrite u64_id by lia.
  destruct (vector_resize_grow [] (8 + n)) as (k & Hk & Hl).
  { unfold max_size. rewrite len_nil. lia. }
  rewrite Hk. cbn in Hl |- *. unfold writableBytes. cbn [buffer_ readerIndex_ writerIndex_].
  rewrite Hl, u64_id, (proj2 (Z.eqb_eq (8 + n - 8) n)) by lia. cbn.
  eexists. split; [done|]. cbn. rewrite Hl. repeat split; lia || by apply range_empty.
Qed.

(** The bytes a [readv] result carries fit the vectors it was offered. *)
Definition readv_fits (vec : list Z) (r : readv_result) : Prop :=
  match r with ReadvErr _ => True | ReadvOk d => len d ≤ foldr Z.add 0 vec end.

Lemma iovec_sum b :
  wf b →
  let writable := len (buffer_ b) - writerIndex_ b in
  Forall (Z.le 0) (iovec b) ∧
  foldr Z.add 0 (iovec b) = writable + (if writable <? extrabuf_size then extrabuf_size else 0).
Proof.
  intros Hb. cbn. unfold iovec. rewrite writable_eq by done. wf_unfold.
  case_match; cbn; (split; [repeat constructor; unfold extrabuf_size; lia|lia]).
Qed.

(** ** Theorems *)

(** [Buffer::append] on a well-formed buffer appends exactly the [n] bytes
    at [data] behind what is readable: none of its assertions nor those of
    [makeSpace] fails, whichever way space is made, and the vector does not
    grow beyond what the append needs. *)
Theorem Buffer_append_spec (b : Buffer) (data : bytes) (n : Z) :
  wf b → 0 ≤ n ≤ len data → writerIndex_ b + n ≤ max_size →
  ∃ b', append b data n = Ok b' ∧ wf b' ∧
        contents b' = contents b ++ range data 0 n ∧
        readableBytes b' = readableBytes b + n ∧
        len (buffer_ b') ≤ Z.max (len (buffer_ b)) (writerIndex_ b + n).
Proof.
  intros Hb Hn Hm. destruct (append_Ok b data n Hb Hn Hm) as (b' & He & Hw & Hc & Hl).
  exists b'. repeat split; try done; try apply Hw.
  rewrite !readable_len by done. rewrite Hc, len_app, len_range by lia. lia.
Qed.

Lemma Buffer_append_spec_witness :
  ∃ b', append (mkBuffer (replicate 20 Byte.x00) 16 18) (b_ "hello") 5 = Ok b' ∧ wf b' ∧
        contents b' = [Byte.x00; Byte.x00] ++ b_ "hello" ∧ readableBytes b' = 7 ∧
        len (buffer_ b') ≤ 23.
Proof.
  apply (Buffer_append_spec (mkBuffer (replicate 20 Byte.x00) 16 18) (b_ "hello") 5);
    by vm_compute.
Defined.

(** [Buffer::retrieve] drops exactly the first [n] readable bytes, and the
    only way it fails is the assertion that refuses more than is readable. *)
Theorem Buffer_retrieve_spec (b : Buffer) (n : Z) :
  wf b → 0 ≤ n →
  if n <=? readableBytes b
  then ∃ b', retrieve b n = Ok b' ∧ wf b' ∧ contents b' = drop (Z.to_nat n) (contents b)
  else retrieve b n = Err (AssertFailed "buffer.h:84").
Proof.
  intros Hb Hn. rewrite readable_len by done. destruct (Z.leb_spec n (len (contents b))).
  - destruct (retrieve_Ok b n Hb ltac:(lia)) as (b' & ? & ? & ? & _). eauto.
  - by apply retrieve_Err.
Qed.

Lemma Buffer_retrieve_spec_witness :
  ∃ b', retrieve (mkBuffer (b_ "01234567hello") 8 13) 2 = Ok b' ∧ wf b' ∧ contents b' = b_ "llo".
Proof.
  apply (Buffer_retrieve_spec (mkBuffer (b_ "01234567hello") 8 13) 2); by vm_compute.
Defined.

(** [Buffer::prepend] puts the [n] bytes in front of what is readable as
    long as the headroom has room for them, and asserts otherwise. *)
Theorem Buffer_prepend_spec (b : Buffer) (data : bytes) (n : Z) :
  wf b → 0 ≤ n ≤ len data →
  if n <=? prependableBytes b
  then ∃ b', prepend b data n = Ok b' ∧ wf b' ∧ contents b' = range data 0 n ++ contents b
  else prepend b data n = Err (AssertFailed "buffer.h:109").
Proof.
  intros Hb Hn. unfold prepend, prependableBytes.
  destruct (Z.leb_spec n (readerIndex_ b)); [|done]. cbn.
  unfold Slice.read_mem. rewrite (proj2 (Z.leb_le _ _)) by lia. cbn.
  wf_unfold. rewrite u64_id by lia.
  assert (Hl : len (range data 0 n) = n) by (rewrite len_range; lia).
  eexists. split; [done|]. cbn. rewrite len_write_at by lia. split; [lia|].
  unfold contents. cbn. rewrite (range_split _ _ (readerIndex_ b)) by lia.
  rewrite (range_write_at_after _ _ _ (readerIndex_ b)) by lia. f_equal.
  replace (readerIndex_ b) with (readerIndex_ b - n + len (range data 0 n)) at 3 by lia.
  apply range_write_at_eq; lia.
Qed.

Lemma Buffer_prepend_spec_witness :
  ∃ b', prepend (mkBuffer (b_ "01234567hello") 8 13) (b_ "ab") 2 = Ok b' ∧ wf b' ∧
        contents b' = b_ "abhello".
Proof.
  apply (Buffer_prepend_spec (mkBuffer (b_ "01234567hello") 8 13) (b_ "ab") 2); by vm_compute.
Defined.

(** [readFd] with a [readv(2)] that respects the vectors given here. *)
Lemma readFd_Ok (readv : list Z → readv_result) (savedErrno : option Z) (b : Buffer) :
  wf b → len (buffer_ b) + extrabuf_size ≤ max_size → readv_fits (iovec b) (readv (iovec b)) →
  match readv (iovec b) with
  | ReadvErr errno => readFd readv savedErrno b = Ok (-1, (fun _ => errno) <$> savedErrno, b)
  | ReadvOk d =>
      ∃ b', readFd readv savedErrno b = Ok (len d, savedErrno, b') ∧ wf b' ∧
            contents b' = contents b ++ d ∧
            (writableBytes b < extrabuf_size → len d ≤ 128 * 1024 - 1)
  end.
Proof.
  intros Hb Hroom Hk. destruct (iovec_sum b Hb) as [Hpos Hsum].
  unfold readFd. destruct (readv (iovec b)) as [errno|d].
  { by destruct savedErrno. }
  cbn in Hk. rewrite Hsum in Hk. rewrite writable_eq by done. clear Hsum.
  pose proof (len_nonneg d). pose proof Hb as Hb'. wf_unfold. unfold extrabuf_size in *.
  set (wr := len (buffer_ b) - writerIndex_ b) in *.
  assert (len d ≤ wr ∨ wr < len d) as [Hle|Hgt] by lia.
  - rewrite Z.min_l, (proj2 (Z.leb_le _ _)) by lia.
    destruct (append_here b d (len d) Hb ltac:(lia) ltac:(lia)) as (Hw & Hc & _).
    rewrite range_full in *. eexists. split; [done|]. split; [done|]. split; [done|].
    intros. lia.
  - rewrite Z.min_r, (proj2 (Z.leb_gt _ _)) by lia.
    destruct (append_here b d wr Hb ltac:(lia) ltac:(lia)) as (Hw & Hc & Hl).
    destruct (Z.ltb_spec wr 65536); [|lia].
    rewrite (u64_id (writerIndex_ b + wr)) in * by lia. cbn in Hl. rewrite Hl.
    rewrite (u64_id (len d - wr)) by lia.
    replace (writerIndex_ b + wr) with (len (buffer_ b)) in * by lia.
    assert (Hx : len (range d wr (len d)) = len d - wr) by (rewrite len_range; lia).
    edestruct (append_Ok _ (range d wr (len d)) (len d - wr) Hw) as (b' & -> & Hw' & Hc' & _).
    { lia. } { cbn. unfold max_size. lia. }
    cbn. eexists. split; [done|]. split; [apply Hw'|]. split; [|lia].
    rewrite Hc', Hc, <-app_assoc. f_equal. rewrite <-Hx, range_full, <-range_split by lia.
    apply range_full.
Qed.

(** C24: for every [readv(2)] that respects the vectors it is given,
    [Buffer::readFd] appends exactly the bytes received, also when they spill
    into the stack buffer, returns their number, reads at most 128k-1 bytes
    whenever the stack buffer is in use, and leaves the buffer alone on error. *)
Theorem Buffer_readFd_spec (readv : list Z → readv_result) (savedErrno : option Z) (b : Buffer) :
  wf b → len (buffer_ b) + extrabuf_size ≤ max_size →
  (∀ vec, Forall (Z.le 0) vec → readv_fits vec (readv vec)) →
  match readv (iovec b) with
  | ReadvErr errno => readFd readv savedErrno b = Ok (-1, (fun _ => errno) <$> savedErrno, b)
  | ReadvOk d =>
      ∃ b', readFd readv savedErrno b = Ok (len d, savedErrno, b') ∧ wf b' ∧
            contents b' = contents b ++ d ∧
            (writableBytes b < extrabuf_size → len d ≤ 128 * 1024 - 1)
  end.
Proof.
  intros Hb Hroom Hk. apply readFd_Ok; [done..|]. apply Hk. by destruct (iovec_sum b Hb).
Qed.

(** A [readv] that delivers the front of a socket queue, as much as fits. *)
Definition readv_queue (q : bytes) (vec : list Z) : readv_result :=
  ReadvOk (take (Z.to_nat (foldr Z.add 0 vec)) q).

Lemma readv_queue_fits q vec : Forall (Z.le 0) vec → readv_fits vec (readv_queue q vec).
Proof.
  intros Hp. assert (0 ≤ foldr Z.add 0 vec) by (induction Hp; cbn; lia).
  cbn. unfold len. rewrite length_take. lia.
Qed.

Lemma Buffer_readFd_spec_witness :
  ∃ b', readFd (readv_queue (b_ "hello")) None
      (mkBuffer (b_ "01234567abcd") 8 9) = Ok (5, None, b') ∧ wf b' ∧
    contents b' = b_ "a" ++ b_ "hello" ∧
    (writableBytes (mkBuffer (b_ "01234567abcd") 8 9) < extrabuf_size → 5 ≤ 128 * 1024 - 1).
Proof.
  apply (Buffer_readFd_spec (readv_queue (b_ "hello")) None (mkBuffer (b_ "01234567abcd") 8 9));
    [by vm_compute|by vm_compute|apply readv_queue_fits].
Defined.

(** ** Refinement: a buffer is a byte queue *)

Inductive bop :=
  | BAppend (d : bytes)
  | BRetrieve (n : nat)
  | BRetrieveAll.

(** The abstract queue: [None] when more is taken out than there is. *)
Definition spec_step (o : bop) (q : bytes) : option bytes :=
  match o with
  | BAppend d => Some (q ++ d)
  | BRetrieve n => if bool_decide (n ≤ length q)%nat then Some (drop n q) else None
  | BRetrieveAll => Some []
  end.

Definition impl_step (o : bop) (b : Buffer) : res Buffer :=
  match o with
  | BAppend d => append b d (len d)
  | BRetrieve n => retrieve b (Z.of_nat n)
  | BRetrieveAll => mret (retrieveAll b)
  end.

Fixpoint spec_run (os : list bop) (q : bytes) : option bytes :=
  match os with [] => Some q | o :: os' => q' ← spec_step o q; spec_run os' q' end.

Fixpoint impl_run (os : list bop) (b : Buffer) : res Buffer :=
  match os with [] => mret b | o :: os' => b' ← impl_step o b; impl_run os' b' end.

Fixpoint appended (os : list bop) : Z :=
  match os with
  | [] => 0
  | BAppend d :: os' => len d + appended os'
  | _ :: os' => appended os'
  end.

Lemma appended_nonneg os : 0 ≤ appended os.
Proof. induction os as [|[d|n|] os IH]; cbn; len_lia. Qed.

(** One step of the buffer simulates one step of the queue. *)
Lemma impl_step_simulates o b :
  wf b → len (buffer_ b) + appended [o] ≤ max_size →
  match spec_step o (contents b) with
  | Some q => ∃ b', impl_step o b = Ok b' ∧ wf b' ∧ contents b' = q ∧
                    len (buffer_ b') ≤ len (buffer_ b) + appended [o]
  | None => impl_step o b = Err (AssertFailed "buffer.h:84")
  end.
Proof.
  intros Hb Hcap. destruct o as [d|n|]; cbn [spec_step impl_step appended] in *.
  - pose proof (len_nonneg d). pose proof Hb as (? & ? & _).
    destruct (append_Ok b d (len d)) as (b' & He & Hw & Hc & Hl); [done|lia|lia|].
    rewrite range_full in Hc. exists b'. repeat split; try done; try apply Hw. lia.
  - case_bool_decide as Hn.
    + destruct (retrieve_Ok b (Z.of_nat n)) as (b' & He & Hw & Hc & Hl); [done|unfold len; lia|].
      rewrite Nat2Z.id in Hc. exists b'. repeat split; try done; try apply Hw. lia.
    + apply retrieve_Err; [done|]. unfold len. lia.
  - eexists. split; [done|]. split; [by apply wf_retrieveAll|].
    rewrite contents_retrieveAll. split; [done|]. cbn. lia.
Qed.

Lemma impl_run_simulates os b :
  wf b → len (buffer_ b) + appended os ≤ max_size →
  match spec_run os (contents b) with
  | Some q => ∃ b', impl_run os b = Ok b' ∧ wf b' ∧ contents b' = q
  | None => impl_run os b = Err (AssertFailed "buffer.h:84")
  end.
Proof.
  revert b. induction os as [|o os IH]; intros b Hb Hcap; cbn [spec_run impl_run].
  { by exists b. }
  assert (appended (o :: os) = appended [o] + appended os) as Happ
    by (destruct o; cbn; lia).
  pose proof (appended_nonneg os).
  pose proof (impl_step_simulates o b Hb ltac:(lia)) as Hstep.
  destruct (spec_step o (contents b)) as [q|]; cbn; [|by rewrite Hstep].
  destruct Hstep as (b' & -> & Hw & <- & Hl). cbn. apply IH; [done|lia].
Qed.

(** C5: a buffer constructed with the default size behaves, under every
    sequence of appends and retrieves, exactly like an unbounded byte queue:
    it ends with the queue's contents when the queue accepts the sequence, and
    stops at the assertion of [retrieve] when the queue refuses it. *)
Theorem Buffer_refines_queue (os : list bop) :
  kCheapPrepend + kInitialSize + appended os ≤ max_size →
  ∃ b0, Buffer_new kInitialSize = Ok b0 ∧
  match spec_run os [] with
  | Some q => ∃ b, impl_run os b0 = Ok b ∧ wf b ∧ contents b = q
  | None => impl_run os b0 = Err (AssertFailed "buffer.h:84")
  end.
Proof.
  intros Hcap. destruct (Buffer_new_Ok kInitialSize) as (b0 & He & Hw & Hc & Hl).
  { by vm_compute. }
  exists b0. split; [done|]. rewrite <-Hc. apply impl_run_simulates; [done|lia].
Qed.

Lemma Buffer_refines_queue_witness :
  ∃ b0, Buffer_new kInitialSize = Ok b0 ∧
  ∃ b, impl_run [BAppend (b_ "abc"); BRetrieve 2; BAppend (b_ "d")] b0 = Ok b ∧ wf b ∧
       contents b = b_ "cd".
Proof.
  apply (Buffer_refines_queue [BAppend (b_ "abc"); BRetrieve 2; BAppend (b_ "d")]).
  by vm_compute.
Defined.

End Buffer.
