(* ===== verification/Timestamp.v ===== *)
(** * Timestamps and timers (util/timestamp.h, util/timestamp.cc, util/timer.h,
    util/timer.cc)

    A [Timestamp] is a number of microseconds since the epoch held in an
    [int64_t].  Delays and intervals are [double] seconds: they are modelled by
    the Standard Library's executable specification of IEEE binary64, so that
    [now + 0.3] is computed with the rounding and the truncation of the code.
    Signed overflow and out-of-range conversions, undefined in C++, are faults. *)

From Stdlib Require Import SpecFloat.
From S2P Require Import Prelude Printf.

(** ** [double] *)

Abbreviation double := spec_float.

Definition double_mul (x y : double) : double := SFmul 53 1024 x y.
Definition double_of_Z (z : Z) : double := binary_normalize 53 1024 z 0 false.
Definition double_zero : double := S754_zero false.

(** [x > y] *)
Definition double_gtb (x y : double) : bool := SFltb y x.

(** [static_cast<int64_t>(d)]: truncation, undefined out of range. *)
Definition double_to_i64 (d : double) : res Z :=
  match d with
  | S754_zero _ => Ok 0
  | S754_finite s m e =>
      let t := if 0 <=? e then Zpos m * 2 ^ e else Zpos m / 2 ^ (- e) in
      let z := if s then - t else t in
      if in_i64 z then Ok z else Err BadConversion
  | _ => Err BadConversion
  end.

(** ** [Timestamp] *)

Record Timestamp := mkTimestamp { micro_since_epoch_ : Z }.

#[export] Instance Timestamp_eq_dec : EqDecision Timestamp.
Proof. solve_decision. Defined.

Definition kMicroSecondsPerSecond : Z := 1000 * 1000.

(** [Timestamp()] *)
Definition Timestamp_default : Timestamp := mkTimestamp 0.

Definition microSecondsSinceEpoch (t : Timestamp) : Z := micro_since_epoch_ t.

Definition valid (t : Timestamp) : bool :=
  negb (micro_since_epoch_ t =? 0) || negb (micro_since_epoch_ t =? -1).

(** [operator==], [operator!=], [operator<] *)
Definition Timestamp_eqb (l r : Timestamp) : bool :=
  micro_since_epoch_ l =? micro_since_epoch_ r.
Definition Timestamp_neb (l r : Timestamp) : bool := negb (Timestamp_eqb l r).
Definition Timestamp_ltb (l r : Timestamp) : bool :=
  micro_since_epoch_ l <? micro_since_epoch_ r.

(** [operator+(double seconds)] *)
Definition Timestamp_plus (t : Timestamp) (seconds : double) : res Timestamp :=
  delta ← double_to_i64 (double_mul seconds (double_of_Z kMicroSecondsPerSecond));
  m ← check_i64 (micro_since_epoch_ t + delta);
  mret (mkTimestamp m).

(** [Timestamp::now()] from the [timeval] that [gettimeofday] filled in. *)
Definition Timestamp_now (tv_sec tv_usec : Z) : res Timestamp :=
  s ← check_i64 (tv_sec * kMicroSecondsPerSecond);
  m ← check_i64 (s + tv_usec);
  mret (mkTimestamp m).

(** [Timestamp::toString()]: seconds, a dot, six digits of microseconds. *)
Definition toString (t : Timestamp) : bytes :=
  let seconds := Z.quot (micro_since_epoch_ t) kMicroSecondsPerSecond in
  let micro := Z.rem (micro_since_epoch_ t) kMicroSecondsPerSecond in
  snprintf (32 - 1) (fmt_d seconds ++ b_ "." ++ fmt_0d 6 micro).

(** ** [Timer] *)

Section Timer.
Context {C : Type}. (* std::function<void()> *)

Record Timer := mkTimer {
  callback_ : C;
  expiration_ : Timestamp;
  repeat_ : bool;
  interval_ : double;
  seq_num_ : Z
}.

#[export] Instance eta_Timer : Eta Timer := fun t =>
  mkTimer (callback_ t) (expiration_ t) (repeat_ t) (interval_ t) (seq_num_ t).

(** The constructor takes its number from the atomic counter [CreatedNum_]
    and returns the counter's next value with the timer. *)
Definition Timer_new (cb : C) (ts : Timestamp) (interval : double) (CreatedNum_ : Z)
    : Timer * Z :=
  (mkTimer cb ts (double_gtb interval double_zero) interval CreatedNum_, i64 (CreatedNum_ + 1)).

(** [Fire()] calls this. *)
Definition Fire (t : Timer) : C := callback_ t.

Definition ReArm (t : Timer) (now : Timestamp) : res Timer :=
  if repeat_ t then e ← Timestamp_plus now (interval_ t); mret (t <| expiration_ := e |>)
  else mret (t <| expiration_ := Timestamp_default |>).

Definition isRepeat (t : Timer) : bool := repeat_ t.
Definition Expiration (t : Timer) : Timestamp := expiration_ t.
End Timer.
Arguments Timer C : clear implicits.

(** ** Lemmas *)

(** A rounded product keeps the sign it was given. *)
Lemma binary_round_aux_sign s m e l :
  match binary_round_aux 53 1024 s m e l with
  | S754_finite s' _ _ | S754_zero s' | S754_infinity s' => s' = s
  | S754_nan => True
  end.
Proof. unfold binary_round_aux. by repeat case_match; simplify_eq. Qed.

Lemma double_to_i64_sign d z : double_to_i64 d = Ok z →
  match d with
  | S754_finite false _ _ => 0 ≤ z
  | S754_finite true _ _ => z ≤ 0
  | _ => z = 0
  end.
Proof.
  destruct d as [ | | |s m e]; cbn; try (intros; simplify_eq; done).
  set (t := if 0 <=? e then Z.pos m * 2 ^ e else Z.pos m / 2 ^ (- e)).
  assert (0 ≤ t).
  { subst t. case_match; [apply Z.mul_nonneg_nonneg; [lia|apply Z.pow_nonneg; lia]|].
    apply Z_div_nonneg_nonneg; [lia|apply Z.pow_nonneg; lia]. }
  clearbody t. destruct (in_i64 _); [|done]. intros [= <-]. destruct s; lia.
Qed.

(** A positive number of seconds is a non-negative number of microseconds. *)
Lemma positive_delay (seconds : double) d :
  double_gtb seconds double_zero = true →
  double_to_i64 (double_mul seconds (double_of_Z kMicroSecondsPerSecond)) = Ok d → 0 ≤ d.
Proof.
  intros Hpos Hd. apply double_to_i64_sign in Hd. revert Hd.
  destruct seconds as [ | | |s m e]; cbn in Hpos; try done.
  - destruct s; [done|]. vm_compute (double_of_Z kMicroSecondsPerSecond). cbn. lia.
  - destruct s; [done|]. vm_compute (double_of_Z kMicroSecondsPerSecond).
    cbn -[binary_round_aux]. pose proof (binary_round_aux_sign false) as Hs.
    match goal with |- context [binary_round_aux _ _ false ?a ?b ?c] => specialize (Hs a b c) end.
    case_match; subst; lia.
Qed.

(** The reader of [toString]'s format: digits, a dot, digits. *)
Fixpoint split_dot (s : bytes) : bytes * bytes :=
  match s with
  | [] => ([], [])
  | c :: s' => if byteZ c =? 46 then ([], s') else let '(a, b) := split_dot s' in (c :: a, b)
  end.
Definition parse_toString (s : bytes) : Timestamp :=
  let '(a, b) := split_dot s in mkTimestamp (undec a * kMicroSecondsPerSecond + undec b).

Lemma split_dot_digits a b :
  Forall (fun c => 0 ≤ undigit c < 10) a → split_dot (a ++ b_ "." ++ b) = (a, b).
Proof.
  induction 1 as [|c a Hc Ha IH]; [done|]. cbn [app split_dot]. rewrite IH.
  unfold undigit in Hc. by rewrite (proj2 (Z.eqb_neq _ _)) by lia.
Qed.

(** ** Theorems *)

(** For every timestamp at or after the epoch, [Timestamp::toString]
    fits its 32-byte buffer and can be read back to the same timestamp. *)
Theorem toString_roundtrip (t : Timestamp) :
  0 ≤ micro_since_epoch_ t < 2 ^ 63 → parse_toString (toString t) = t ∧ len (toString t) < 31.
Proof.
  destruct t as [m]. unfold toString, parse_toString, kMicroSecondsPerSecond. cbn -[b_ Z.mul].
  change (1000 * 1000) with 1000000. intros Hm.
  rewrite Z.quot_div_nonneg, Z.rem_mod_nonneg by lia.
  assert (0 ≤ m mod 1000000 < 10 ^ 6) by (apply Z.mod_pos_bound; lia).
  assert (0 ≤ m / 1000000 < 10 ^ Z.of_nat 13).
  { split; [apply Z.div_pos; lia|]. apply Z.div_lt_upper_bound; lia. }
  pose proof (len_dec (m / 1000000) 13 ltac:(lia) ltac:(lia)).
  unfold fmt_d. rewrite (proj2 (Z.ltb_ge _ _)) by lia.
  assert (Hlen : len (dec (m / 1000000) ++ b_ "." ++ fmt_0d 6 (m mod 1000000)) < 31).
  { rewrite !len_app, (len_fmt_0d 6) by lia. change (len (b_ ".")) with 1. lia. }
  rewrite snprintf_fits by done. split; [|done].
  rewrite split_dot_digits by (apply dec_digits; lia).
  rewrite undec_dec, fmt_0d_spec by lia. f_equal. pose proof (Z.div_mod m 1000000). lia.
Qed.

Lemma toString_roundtrip_witness :
  parse_toString (toString (mkTimestamp 1523664000000042)) = mkTimestamp 1523664000000042 ∧
  len (toString (mkTimestamp 1523664000000042)) < 31.
Proof. apply (toString_roundtrip (mkTimestamp 1523664000000042)). cbn. lia. Defined.

(** [Timestamp::valid()] holds of every timestamp, the default-constructed
    one included: the test [!= 0 || != -1] can never be false, so it does not
    guard anything in the timer queue. *)
Theorem valid_always (t : Timestamp) : valid t = true ∧ valid Timestamp_default = true.
Proof.
  split; [|done]. unfold valid. destruct (Z.eqb_spec (micro_since_epoch_ t) 0) as [->|]; done.
Qed.

(** A timer is repeating exactly when its interval is positive; re-arming
    such a timer at [now] moves its expiration to [now] plus the truncated
    number of microseconds, never before [now], and changes nothing else;
    re-arming a one-shot timer resets the expiration. *)
Theorem Timer_ReArm_spec {C} (cb : C) (ts now : Timestamp) (interval : double) (n d : Z) :
  double_to_i64 (double_mul interval (double_of_Z kMicroSecondsPerSecond)) = Ok d →
  - 2 ^ 63 ≤ micro_since_epoch_ now + d < 2 ^ 63 →
  let t := fst (Timer_new cb ts interval n) in
  ∃ t', ReArm t now = Ok t' ∧ callback_ t' = cb ∧ isRepeat t' = isRepeat t ∧
        interval_ t' = interval ∧ seq_num_ t' = n ∧
        if double_gtb interval double_zero
        then micro_since_epoch_ (Expiration t') = micro_since_epoch_ now + d ∧ 0 ≤ d
        else Expiration t' = Timestamp_default.
Proof.
  intros Hd Hr. cbn. unfold ReArm, isRepeat, Expiration. cbn.
  destruct (double_gtb interval double_zero) eqn:Hpos.
  - unfold Timestamp_plus. rewrite Hd. cbn. unfold check_i64, in_i64.
    rewrite (proj2 (Z.leb_le _ _)), (proj2 (Z.ltb_lt _ _)) by lia. cbn.
    eexists. split; [done|]. repeat split. by eapply positive_delay.
  - by eexists.
Qed.

(** The interval [0.3] of the timer tests, as a [double]. *)
Definition double_0_3 : double := S754_finite false 5404319552844595 (-54).

Lemma Timer_ReArm_spec_witness :
  ∃ t' : Timer unit, ReArm (fst (Timer_new tt (mkTimestamp 5) double_0_3 7)) (mkTimestamp 1000) = Ok t' ∧
    callback_ t' = tt ∧ isRepeat t' = true ∧ interval_ t' = double_0_3 ∧ seq_num_ t' = 7 ∧
    micro_since_epoch_ (Expiration t') = 301000 ∧ 0 ≤ 300000.
Proof.
  apply (Timer_ReArm_spec tt (mkTimestamp 5) (mkTimestamp 1000) double_0_3 7 300000);
    [by vm_compute|cbn; lia].
Defined.
