(* ===== verification/Calendar.v ===== *)
(** * Calendar time: [gmtime_r], [Timestamp::toFormatedString]
    (util/timestamp.cc) and the date of a log file's name

    [gmtime] is the C library's conversion of seconds since the epoch to the
    fields of [struct tm] in the Gregorian calendar.  [timegm] is its inverse
    and serves as the specification: the theorem reads a formatted timestamp
    back and recovers the microsecond it was made from. *)

From S2P Require Import Prelude Printf Timestamp.

Record tm := mktm {
  tm_sec : Z; tm_min : Z; tm_hour : Z; tm_mday : Z; tm_mon : Z; tm_year : Z
}.

(** Year, month (1-12) and day of a day number, counted from the epoch; years
    start on the first of March, in cycles of 400 years. *)
Definition civil_of_doe (doe : Z) : Z * Z * Z :=
  let yoe := (doe - doe / 1460 + doe / 36524 - doe / 146096) / 365 in
  let doy := doe - (365 * yoe + yoe / 4 - yoe / 100) in
  let mp := (5 * doy + 2) / 153 in
  let d := doy - (153 * mp + 2) / 5 + 1 in
  let m := if mp <? 10 then mp + 3 else mp - 9 in
  (yoe + (if m <=? 2 then 1 else 0), m, d).

Definition gmtime (t : Z) : tm :=
  let days := t / 86400 in
  let rem := t mod 86400 in
  let z := days + 719468 in
  let '(y, m, d) := civil_of_doe (z mod 146097) in
  mktm (rem mod 60) (rem / 60 mod 60) (rem / 3600) d (m - 1) (y + z / 146097 * 400 - 1900).

(** Day of the cycle of a date *)
Definition doe_of_civil (y m d : Z) : Z :=
  let y := y - (if m <=? 2 then 1 else 0) in
  let mp := if m >? 2 then m - 3 else m + 9 in
  y * 365 + y / 4 - y / 100 + ((153 * mp + 2) / 5 + d - 1).

Definition timegm (x : tm) : Z :=
  let y := tm_year x + 1900 in
  let m := tm_mon x + 1 in
  let y' := y - (if m <=? 2 then 1 else 0) in
  let era := y' / 400 in
  (era * 146097 + doe_of_civil (y - era * 400) m (tm_mday x) - 719468) * 86400 +
  tm_hour x * 3600 + tm_min x * 60 + tm_sec x.

(** [Timestamp::toFormatedString] *)
Definition toFormatedString (t : Timestamp) (showMicroseconds : bool) : bytes :=
  let seconds := Z.quot (micro_since_epoch_ t) kMicroSecondsPerSecond in
  let tm_time := gmtime seconds in
  let date := fmt_wd 4 (tm_year tm_time + 1900) ++ fmt_0d 2 (tm_mon tm_time + 1) ++
              fmt_0d 2 (tm_mday tm_time) ++ b_ " " ++ fmt_0d 2 (tm_hour tm_time) ++ b_ ":" ++
              fmt_0d 2 (tm_min tm_time) ++ b_ ":" ++ fmt_0d 2 (tm_sec tm_time) in
  if showMicroseconds then
    let microseconds := i32 (Z.rem (micro_since_epoch_ t) kMicroSecondsPerSecond) in
    snprintf 32 (date ++ b_ "." ++ fmt_0d 6 microseconds)
  else snprintf 32 date.

(** ** The conversion is a bijection *)

(** The year of the cycle is found exactly: the day lies in that year. *)
Lemma year_of_cycle doe :
  0 ≤ doe < 146097 →
  let yoe := (doe - doe / 1460 + doe / 36524 - doe / 146096) / 365 in
  0 ≤ yoe < 400 ∧ 0 ≤ doe - (365 * yoe + yoe / 4 - yoe / 100) < 366.
Proof.
  intros Hd yoe.
  assert (0 ≤ doe / 146096 ≤ 1 ∧ 0 ≤ doe / 36524 ≤ 4) as [Hc Hb] by (Z.to_euclidean_division_equations; lia).
  subst yoe. Z.to_euclidean_division_equations. lia.
Qed.

Lemma month_of_year doy :
  0 ≤ doy < 366 →
  let mp := (5 * doy + 2) / 153 in
  0 ≤ mp ≤ 11 ∧ 1 ≤ doy - (153 * mp + 2) / 5 + 1 ≤ 31.
Proof. intros Hd mp. subst mp. Z.to_euclidean_division_equations. lia. Qed.

(** A day of the cycle and its date determine each other. *)
Lemma civil_roundtrip doe y m d :
  0 ≤ doe < 146097 → civil_of_doe doe = (y, m, d) →
  doe_of_civil y m d = doe ∧ 1 ≤ m ≤ 12 ∧ 1 ≤ d ≤ 31 ∧
  0 ≤ y - (if m <=? 2 then 1 else 0) < 400.
Proof.
  intros Hd. unfold civil_of_doe, doe_of_civil.
  destruct (year_of_cycle doe Hd) as [Hy Hdoy].
  set (yoe := (doe - doe / 1460 + doe / 36524 - doe / 146096) / 365) in *.
  set (doy := doe - (365 * yoe + yoe / 4 - yoe / 100)) in *.
  destruct (month_of_year doy Hdoy) as [Hmp Hday]. set (mp := (5 * doy + 2) / 153) in *.
  intros [= <- <- <-]. rewrite Z.gtb_ltb.
  assert (Hm : (if (if mp <? 10 then mp + 3 else mp - 9) <=? 2 then 1 else 0) = (if mp <? 10 then 0 else 1)).
  { destruct (Z.ltb_spec mp 10); [rewrite (proj2 (Z.leb_gt _ _))|rewrite (proj2 (Z.leb_le _ _))]; lia. }
  rewrite Hm. replace (yoe + (if mp <? 10 then 0 else 1) - (if mp <? 10 then 0 else 1)) with yoe by lia.
  destruct (Z.ltb_spec mp 10).
  - rewrite (proj2 (Z.ltb_lt _ _)) by lia. replace (mp + 3 - 3) with mp by lia. lia.
  - rewrite (proj2 (Z.ltb_ge _ _)) by lia. replace (mp - 9 + 9) with mp by lia. lia.
Qed.

Lemma gmtime_spec t :
  timegm (gmtime t) = t ∧ 0 ≤ tm_sec (gmtime t) < 60 ∧ 0 ≤ tm_min (gmtime t) < 60 ∧
  0 ≤ tm_hour (gmtime t) < 24 ∧ 1 ≤ tm_mday (gmtime t) ≤ 31 ∧ 0 ≤ tm_mon (gmtime t) < 12.
Proof.
  unfold gmtime. set (z := t / 86400 + 719468).
  assert (Hz : 0 ≤ z mod 146097 < 146097) by (apply Z.mod_pos_bound; lia).
  destruct (civil_of_doe (z mod 146097)) as [[y m] d] eqn:E.
  destruct (civil_roundtrip _ _ _ _ Hz E) as (Hdoe & Hm & Hd & Hy). clear E.
  unfold timegm. cbn [tm_sec tm_min tm_hour tm_mday tm_mon tm_year].
  replace (m - 1 + 1) with m by lia.
  assert (Hera : (y + z / 146097 * 400 - 1900 + 1900 - (if m <=? 2 then 1 else 0)) / 400 = z / 146097).
  { replace (y + z / 146097 * 400 - 1900 + 1900 - (if m <=? 2 then 1 else 0))
      with (y - (if m <=? 2 then 1 else 0) + z / 146097 * 400) by lia.
    rewrite Z.div_add by lia. rewrite Z.div_small by exact Hy. lia. }
  rewrite Hera. replace (y + z / 146097 * 400 - 1900 + 1900 - z / 146097 * 400) with y by lia.
  rewrite Hdoe. clear Hera Hdoe Hy. subst z.
  split_and!; try lia; Z.to_euclidean_division_equations; lia.
Qed.

(** Four digits suffice for the years 1969 to 9999. *)
Lemma gmtime_year t : 0 ≤ t < 253370764800 → 1000 ≤ tm_year (gmtime t) + 1900 < 10 ^ 4.
Proof.
  intros Ht. unfold gmtime. set (z := t / 86400 + 719468).
  assert (Hz : 719468 ≤ z < 719468 + 2932532) by (subst z; Z.to_euclidean_division_equations; lia).
  pose proof (Z.div_mod z 146097 ltac:(done)) as Hdm.
  assert (Hd : 0 ≤ z mod 146097 < 146097) by (apply Z.mod_pos_bound; lia).
  destruct (civil_of_doe (z mod 146097)) as [[y m] d] eqn:E. cbn [tm_year].
  destruct (civil_roundtrip _ _ _ _ Hd E) as (Hdoe & Hm & Hday & Hy). clear E.
  unfold doe_of_civil in Hdoe. set (u := y - (if m <=? 2 then 1 else 0)) in *.
  set (mp := if m >? 2 then m - 3 else m + 9) in *.
  assert (0 ≤ mp) by (subst mp; rewrite Z.gtb_ltb; destruct (Z.ltb_spec 2 m); lia).
  assert (u ≤ y ≤ u + 1) by (subst u; destruct (m <=? 2); lia).
  clearbody u mp z. Z.to_euclidean_division_equations. lia.
Qed.

(** ** Reading a formatted timestamp back *)

(** A field of [k] digits, followed by [skip] other characters *)
Definition field (k skip : nat) (s : bytes) : Z * bytes := (undec (take k s), drop (k + skip) s).

Definition parse_formated (s : bytes) : Timestamp :=
  let '(year, s) := field 4 0 s in
  let '(mon, s) := field 2 0 s in
  let '(mday, s) := field 2 1 s in
  let '(hour, s) := field 2 1 s in
  let '(min, s) := field 2 1 s in
  let '(sec, s) := field 2 1 s in
  let '(micro, _) := field 6 0 s in
  mkTimestamp (timegm (mktm sec min hour mday (mon - 1) (year - 1900)) * 1000000 + micro).

Lemma field_app k skip d sep rest :
  length d = k → length sep = skip → field k skip (d ++ sep ++ rest) = (undec d, rest).
Proof.
  intros <- <-. unfold field. rewrite take_app_length, <-length_app, app_assoc, drop_app_length. done.
Qed.

Lemma field_0d w skip n sep rest :
  0 ≤ n < 10 ^ w → 0 < w → length sep = skip →
  field (Z.to_nat w) skip (fmt_0d w n ++ sep ++ rest) = (n, rest).
Proof.
  intros Hn Hw Hs. rewrite field_app; [by rewrite fmt_0d_spec by lia| |done].
  pose proof (len_fmt_0d w n Hn Hw). unfold len in *. lia.
Qed.

Lemma field_0d_end w n rest :
  0 ≤ n < 10 ^ w → 0 < w → field (Z.to_nat w) 0 (fmt_0d w n ++ rest) = (n, rest).
Proof. intros Hn Hw. exact (field_0d w 0 n [] rest Hn Hw eq_refl). Qed.

(** A number with all the digits of the width needs no padding. *)
Lemma fmt_wd_full n : 1000 ≤ n < 10 ^ 4 → undec (fmt_wd 4 n) = n ∧ length (fmt_wd 4 n) = 4%nat.
Proof.
  intros Hn. unfold fmt_wd, fmt_d. rewrite (proj2 (Z.ltb_ge n 0)) by lia.
  assert (Hl : len (dec n) = 4).
  { pose proof (len_dec n 4 ltac:(cbn; lia) ltac:(lia)).
    assert (¬ len (dec n) ≤ 3); [|lia]. intros Hle. pose proof (undec_dec n ltac:(lia)) as Hu.
    pose proof (undec_bound (dec n) (dec_digits n ltac:(lia))).
    assert (10 ^ len (dec n) ≤ 10 ^ 3) by (apply Z.pow_le_mono_r; lia). lia. }
  rewrite Hl. change (Z.to_nat (4 - 4)) with 0%nat. cbn [replicate app].
  split; [by apply undec_dec; lia|]. unfold len in Hl. lia.
Qed.

(** C40: for every time from the epoch to the end of the year 9998,
    [toFormatedString(true)] fits its 32-byte buffer and determines the
    timestamp to the microsecond: the date, the time of day and the fraction
    read back give it.  Without the microseconds it is the same text cut off
    before the fraction. *)
Theorem toFormatedString_roundtrip (t : Timestamp) :
  0 ≤ micro_since_epoch_ t < 253370764800 * 1000000 →
  parse_formated (toFormatedString t true) = t ∧ len (toFormatedString t true) = 24 ∧
  toFormatedString t false = take 17 (toFormatedString t true).
Proof.
  destruct t as [m]. cbn [micro_since_epoch_]. intros Hm. unfold toFormatedString.
  cbn [micro_since_epoch_]. change kMicroSecondsPerSecond with 1000000.
  rewrite Z.quot_div_nonneg, Z.rem_mod_nonneg by lia.
  assert (Hmic : 0 ≤ m mod 1000000 < 10 ^ 6) by (apply Z.mod_pos_bound; lia).
  rewrite i32_id by lia. pose proof (Z.div_mod m 1000000 ltac:(done)) as Hdm.
  destruct (gmtime_spec (m / 1000000)) as (Ht & Hs & Hmi & Hh & Hd & Hmo).
  pose proof (gmtime_year (m / 1000000) ltac:(Z.to_euclidean_division_equations; lia)) as Hy.
  destruct (gmtime (m / 1000000)) as [sec min hour mday mon year] eqn:Etm.
  cbn [tm_sec tm_min tm_hour tm_mday tm_mon tm_year] in *.
  destruct (fmt_wd_full (year + 1900) Hy) as [Hyr Hyl].
  assert (L2 : ∀ n, 0 ≤ n < 100 → len (fmt_0d 2 n) = 2) by (intros; apply len_fmt_0d; lia).
  pose proof (len_fmt_0d 6 (m mod 1000000) Hmic ltac:(done)) as L6.
  set (date := fmt_wd 4 (year + 1900) ++ _).
  assert (Ld : len date = 17).
  { subst date. rewrite !len_app, !L2 by lia. unfold len at 1. by rewrite Hyl. }
  assert (Lt : len (date ++ b_ "." ++ fmt_0d 6 (m mod 1000000)) = 24) by (rewrite !len_app, Ld, L6; done).
  rewrite !snprintf_fits by lia. split_and!.
  - subst date. rewrite <-!app_assoc. unfold parse_formated.
    match goal with |- context [field 4 0 (_ ++ ?r)] =>
      change (field 4 0 _) with (field 4 0 (fmt_wd 4 (year + 1900) ++ [] ++ r)) end.
    rewrite field_app, Hyr by done.
    rewrite (field_0d_end 2 (mon + 1)) by lia.
    rewrite (field_0d 2 1 mday (b_ " ")) by (done || lia).
    rewrite (field_0d 2 1 hour (b_ ":")) by (done || lia).
    rewrite (field_0d 2 1 min (b_ ":")) by (done || lia).
    rewrite (field_0d 2 1 sec (b_ ".")) by (done || lia).
    rewrite <-(app_nil_r (fmt_0d 6 _)), (field_0d_end 6 (m mod 1000000)) by lia.
    replace (mon + 1 - 1) with mon by lia. replace (year + 1900 - 1900) with year by lia.
    rewrite Ht. f_equal. lia.
  - done.
  - unfold len in Ld. by rewrite take_app_length' by lia.
Qed.

Lemma toFormatedString_roundtrip_witness :
  let t := mkTimestamp 1524000000123456 in
  toFormatedString t true = b_ "20180417 21:20:00.123456" ∧
  parse_formated (toFormatedString t true) = t ∧ len (toFormatedString t true) = 24 ∧
  toFormatedString t false = take 17 (toFormatedString t true).
Proof.
  split; [by vm_compute|]. apply (toFormatedString_roundtrip (mkTimestamp 1524000000123456)). done.
Defined.
