(* ===== verification/Poller.v ===== *)
(** * Channels and the poller (net/channel.h, net/channel.cc, net/poller.h,
    net/poller.cc)

    A [Channel] is the registration of one file descriptor: the events it
    wants, the events [poll(2)] reported, its callbacks and the index of its
    entry in the poller's array.  Channels are shared, mutable objects: they
    live in a heap indexed by addresses, and the poller keeps addresses only.
    [Poller] owns the array given to [poll(2)] and a map from descriptors to
    channels.

    The invariant [reg_wf] (array and map name the same descriptors, every
    registered channel is alive) is preserved by every update and makes the
    lookups of [fillActiveChannels] safe.  The stronger [idx_wf] (each channel's
    [index_] designates its own entry) is what the assertions of
    [UpdateChannel] need; it survives registrations and event changes, and is
    broken by the removal of any entry that is not the last one. *)

From S2P Require Import Prelude.

(** Addresses of [Channel] objects. *)
Abbreviation chan_id := nat.

(** <poll.h> *)
Definition POLLIN : Z := 1.
Definition POLLPRI : Z := 2.
Definition POLLOUT : Z := 4.
Definition POLLERR : Z := 8.
Definition POLLHUP : Z := 16.
Definition POLLNVAL : Z := 32.
Definition POLLRDHUP : Z := 8192.

Record pollfd := mkpollfd { pfd_fd : Z; pfd_events : Z; pfd_revents : Z }.

#[export] Instance eta_pollfd : Eta pollfd :=
  fun p => mkpollfd (pfd_fd p) (pfd_events p) (pfd_revents p).

Module Channel.
Section Channel.
Context {C : Type}. (* std::function<void()> *)

Record Channel := mkChannel {
  loop_ : nat; (* the owning [EventLoop] *)
  fd_ : Z;
  events_ : Z;
  revents_ : Z;
  index_ : Z; (* used by Poller *)
  read_callback_ : option C;
  write_callback_ : option C;
  error_callback_ : option C;
  close_callback_ : option C
}.

#[export] Instance eta_Channel : Eta Channel := fun c =>
  mkChannel (loop_ c) (fd_ c) (events_ c) (revents_ c) (index_ c) (read_callback_ c)
    (write_callback_ c) (error_callback_ c) (close_callback_ c).

Definition kNoneEvent : Z := 0.
Definition kReadEvent : Z := Z.lor POLLIN POLLPRI.
Definition kWriteEvent : Z := POLLOUT.

(** The constructor *)
Definition Channel_new (loop : nat) (fd : Z) : Channel :=
  mkChannel loop fd 0 0 (-1) None None None None.

Definition SetReadCallback (cb : C) (c : Channel) : Channel := c <| read_callback_ := Some cb |>.
Definition SetWriteCallback (cb : C) (c : Channel) : Channel := c <| write_callback_ := Some cb |>.
Definition SetErrorCallback (cb : C) (c : Channel) : Channel := c <| error_callback_ := Some cb |>.
Definition SetCloseCallback (cb : C) (c : Channel) : Channel := c <| close_callback_ := Some cb |>.

(** The event masks of [EnableReading], [EnableWriting], [DisableWriting] and
    [DisbaleAll]; each of them goes on to [update()]. *)
Definition set_events (e : Z) (c : Channel) : Channel := c <| events_ := e |>.
Definition events_reading (c : Channel) : Channel := c <| events_ := Z.lor (events_ c) kReadEvent |>.
Definition events_writing (c : Channel) : Channel := c <| events_ := Z.lor (events_ c) kWriteEvent |>.
Definition events_no_writing (c : Channel) : Channel :=
  c <| events_ := Z.land (events_ c) (Z.lnot kWriteEvent) |>.
Definition events_none (c : Channel) : Channel := c <| events_ := kNoneEvent |>.

Definition isWritingEnabled (c : Channel) : bool := negb (Z.land (events_ c) kWriteEvent =? 0).
Definition isNoneEvent (c : Channel) : bool := events_ c =? kNoneEvent.

(** The setters [revents(int)] and [index(int)] *)
Definition set_revents (r : Z) (c : Channel) : Channel := c <| revents_ := r |>.
Definition set_index (i : Z) (c : Channel) : Channel := c <| index_ := i |>.
End Channel.
Arguments Channel C : clear implicits.
End Channel.

Module Poller.
Import Channel.
Section Poller.
Context {C : Type}.
Abbreviation heap := (gmap chan_id (Channel C)).

Record Poller := mkPoller {
  pollfds_ : list pollfd;
  channels_ : gmap Z chan_id
}.

#[export] Instance eta_Poller : Eta Poller := fun p => mkPoller (pollfds_ p) (channels_ p).

Definition Poller_new : Poller := mkPoller [] ∅.

(** [Poller::UpdateChannel] behind its [assertInLoopThread()]. *)
Definition UpdateChannel (p : Poller) (h : heap) (c : chan_id) : res (Poller * heap) :=
  ch ← deref (h !! c) "Channel";
  if index_ ch <? 0 then
    (* a new one, add to pollfds_ *)
    assert_ (bool_decide (channels_ p !! fd_ ch = None)) "poller.cc:59" ;;
    let pfd := mkpollfd (fd_ ch) (i16 (events_ ch)) 0 in
    let pollfds := pollfds_ p ++ [pfd] in
    mret (mkPoller pollfds (<[fd_ ch := c]> (channels_ p)),
          <[c := set_index (i32 (u64 (len pollfds - 1))) ch]> h)
  else
    (* update existing one *)
    assert_ (negb (bool_decide (channels_ p !! fd_ ch = None))) "poller.cc:69" ;;
    assert_ (bool_decide (channels_ p !! fd_ ch = Some c)) "poller.cc:70" ;;
    let idx := index_ ch in
    assert_ ((0 <=? idx) && (idx <? i32 (len (pollfds_ p)))) "poller.cc:73" ;;
    pfd ← vec_at (pollfds_ p) idx;
    assert_ ((pfd_fd pfd =? fd_ ch) || (pfd_fd pfd =? -1)) "poller.cc:76" ;;
    let pfd' := mkpollfd (pfd_fd pfd) (i16 (events_ ch)) 0 in
    let pollfds := <[Z.to_nat idx := pfd']> (pollfds_ p) in
    (* only happened when closing tcp connection *)
    if isNoneEvent ch then
      mret (mkPoller (delete (Z.to_nat idx) pollfds) (delete (pfd_fd pfd') (channels_ p)), h)
    else mret (mkPoller pollfds (channels_ p), h).

(** [fillActiveChannels]: the loop over [pollfds_]. *)
Fixpoint fillActiveChannels (cs : gmap Z chan_id) (pfds : list pollfd) (numEvents : Z)
    (h : heap) (active : list chan_id) : res (heap * list chan_id) :=
  match pfds with
  | [] => mret (h, active)
  | it :: rest =>
      if (pfd_fd it >=? 0) && (pfd_revents it >? 0) then
        match cs !! pfd_fd it with
        | None => Err (AssertFailed "poller.cc:39")
        | Some c =>
            ch ← deref (h !! c) "Channel";
            assert_ (fd_ ch =? pfd_fd it) "poller.cc:42" ;;
            let h' := <[c := set_revents (pfd_revents it) ch]> h in
            let active' := active ++ [c] in
            if numEvents - 1 =? 0 then mret (h', active')
            else fillActiveChannels cs rest (numEvents - 1) h' active'
        end
      else fillActiveChannels cs rest numEvents h active
  end.

(** What [poll(2)] does to the array: it stores a [revents] in every entry. *)
Definition store_revents (pfds : list pollfd) (rs : list Z) : list pollfd :=
  zip_with (fun (p : pollfd) (r : Z) => p <| pfd_revents := r |>) pfds rs.

(** [Poller::Poll] after the system call returned [numEvents] with [rs] stored
    in the array; the timestamp is read by the caller. *)
Definition Poll (p : Poller) (h : heap) (numEvents : Z) (rs : list Z) (active : list chan_id)
    : res (Poller * heap * list chan_id) :=
  let p' := p <| pollfds_ := store_revents (pollfds_ p) rs |> in
  if numEvents >? 0 then
    ha ← fillActiveChannels (channels_ p') (pollfds_ p') numEvents h active;
    mret (p', ha.1, ha.2)
  else mret (p', h, active).

(** ** Invariants *)

Definition fds (p : Poller) : list Z := pfd_fd <$> pollfds_ p.

Record reg_wf (p : Poller) (h : heap) : Prop := {
  reg_nodup : NoDup (fds p);
  reg_dom : ∀ fd, fd ∈ fds p ↔ is_Some (channels_ p !! fd);
  reg_live : ∀ fd c, channels_ p !! fd = Some c →
             ∃ ch, h !! c = Some ch ∧ fd_ ch = fd ∧ 0 ≤ index_ ch;
  reg_nonneg : ∀ fd, fd ∈ fds p → 0 ≤ fd
}.

(** Channel [ch]'s index designates its own entry. *)
Definition idx_ok (p : Poller) (ch : Channel C) : Prop :=
  ∃ pfd, 0 ≤ index_ ch ∧ pollfds_ p !! Z.to_nat (index_ ch) = Some pfd ∧ pfd_fd pfd = fd_ ch.

Definition idx_wf (p : Poller) (h : heap) : Prop :=
  ∀ fd c ch, channels_ p !! fd = Some c → h !! c = Some ch → idx_ok p ch.

(** ** Lemmas *)

Implicit Types (p : Poller) (h : heap) (ch : Channel C) (c : chan_id) (pfd : pollfd).

Lemma fds_insert_same (pfds : list pollfd) (i : nat) pfd pfd' :
  pfds !! i = Some pfd → pfd_fd pfd' = pfd_fd pfd →
  pfd_fd <$> <[i := pfd']> pfds = pfd_fd <$> pfds.
Proof.
  intros Hi He. rewrite list_fmap_insert, He. apply list_insert_id.
  by rewrite list_lookup_fmap, Hi.
Qed.

Lemma elem_of_delete_nodup (l : list Z) i x y :
  NoDup l → l !! i = Some x → y ∈ delete i l ↔ y ∈ l ∧ y ≠ x.
Proof.
  intros Hnd Hi. rewrite (delete_Permutation l i x Hi) in Hnd.
  apply NoDup_cons in Hnd as [Hx _].
  assert (y ∈ l ↔ y = x ∨ y ∈ delete i l) as ->.
  { rewrite <-elem_of_cons. by rewrite <-(delete_Permutation l i x Hi). }
  set_solver.
Qed.

Lemma NoDup_delete (l : list Z) i : NoDup l → NoDup (delete i l).
Proof. intros Hnd. eapply sublist_NoDup; [done|apply sublist_delete]. Qed.

Lemma fmap_delete_list (pfds : list pollfd) i :
  pfd_fd <$> delete i pfds = delete i (pfd_fd <$> pfds).
Proof. revert i. induction pfds as [|x l IH]; intros [|i]; cbn; try done. f_equal. apply IH. Qed.

(** What a successful update did, in one of three ways. *)
Variant update_effect (p : Poller) (h : heap) (c : chan_id) (ch : Channel C)
    : Poller → heap → Prop :=
  | Upd_new :
      index_ ch < 0 → channels_ p !! fd_ ch = None →
      update_effect p h c ch
        (mkPoller (pollfds_ p ++ [mkpollfd (fd_ ch) (i16 (events_ ch)) 0])
                  (<[fd_ ch := c]> (channels_ p)))
        (<[c := set_index (i32 (u64 (len (pollfds_ p)))) ch]> h)
  | Upd_change i pfd :
      index_ ch = Z.of_nat i → channels_ p !! fd_ ch = Some c → pollfds_ p !! i = Some pfd →
      pfd_fd pfd = fd_ ch ∨ pfd_fd pfd = -1 → events_ ch ≠ 0 →
      update_effect p h c ch
        (mkPoller (<[i := mkpollfd (pfd_fd pfd) (i16 (events_ ch)) 0]> (pollfds_ p)) (channels_ p)) h
  | Upd_remove i pfd :
      index_ ch = Z.of_nat i → channels_ p !! fd_ ch = Some c → pollfds_ p !! i = Some pfd →
      pfd_fd pfd = fd_ ch ∨ pfd_fd pfd = -1 → events_ ch = 0 →
      update_effect p h c ch
        (mkPoller (delete i (<[i := mkpollfd (pfd_fd pfd) (i16 (events_ ch)) 0]> (pollfds_ p)))
                  (delete (pfd_fd pfd) (channels_ p))) h.

Lemma UpdateChannel_effect p h c p' h' :
  UpdateChannel p h c = Ok (p', h') →
  ∃ ch, h !! c = Some ch ∧ update_effect p h c ch p' h'.
Proof.
  unfold UpdateChannel. intros H. inv_ok. rename x into ch. exists ch. split; [done|].
  case_match eqn:Hidx.
  - inv_ok. bool_prop.
    replace (len (pollfds_ p ++ _) - 1) with (len (pollfds_ p)) by len_lia. by constructor.
  - inv_ok. bool_prop.
    assert (index_ ch = Z.of_nat (Z.to_nat (index_ ch))) as Hz by lia.
    match goal with H : _ || _ = true |- _ => apply orb_true_iff in H end.
    unfold isNoneEvent, kNoneEvent in *. case_match eqn:Hn; inv_ok; bool_prop;
      (eapply Upd_remove || eapply Upd_change); eauto; destruct_or?; bool_prop; auto.
Qed.

Lemma fds_app p pfd cs : fds (mkPoller (pollfds_ p ++ [pfd]) cs) = fds p ++ [pfd_fd pfd].
Proof. unfold fds. cbn. by rewrite fmap_app. Qed.

(** The entry an update touches is the channel's own: with no entry for
    descriptor -1 the second half of the assertion at poller.cc:76 is idle. *)
Lemma entry_in_fds p i pfd : pollfds_ p !! i = Some pfd → pfd_fd pfd ∈ fds p.
Proof.
  intros Hi. apply list_elem_of_fmap. exists pfd. split; [done|].
  by eapply list_elem_of_lookup_2.
Qed.

Lemma reg_entry_fd p h ch pfd i :
  reg_wf p h → pollfds_ p !! i = Some pfd →
  pfd_fd pfd = fd_ ch ∨ pfd_fd pfd = -1 → pfd_fd pfd = fd_ ch.
Proof.
  intros Hw Hi [|Hm1]; [done|]. exfalso.
  assert (0 ≤ pfd_fd pfd); [|lia]. by eapply (reg_nonneg _ _ Hw), entry_in_fds.
Qed.

Lemma reg_wf_new p h c ch i :
  reg_wf p h → h !! c = Some ch → index_ ch < 0 → channels_ p !! fd_ ch = None →
  0 ≤ i → 0 ≤ fd_ ch →
  reg_wf (mkPoller (pollfds_ p ++ [mkpollfd (fd_ ch) (i16 (events_ ch)) 0])
                   (<[fd_ ch := c]> (channels_ p)))
         (<[c := set_index i ch]> h).
Proof.
  intros Hw Hc Hneg Hfresh Hi Hfd. destruct Hw as [Hnd Hdom Hlive Hpos]. split.
  - rewrite fds_app. cbn. apply NoDup_app. split; [done|]. split; [|by apply NoDup_singleton].
    intros fd Hin ->%list_elem_of_singleton. apply Hdom in Hin. rewrite Hfresh in Hin.
    by destruct Hin.
  - intros fd. rewrite fds_app. cbn. rewrite elem_of_app, list_elem_of_singleton, Hdom.
    destruct (decide (fd = fd_ ch)) as [->|]; simplify_map_eq; naive_solver.
  - intros fd d. cbn. destruct (decide (fd = fd_ ch)) as [->|].
    { simplify_map_eq. intros [= <-]. exists (set_index i ch). by simplify_map_eq. }
    rewrite lookup_insert_ne by done. intros Hd. destruct (Hlive _ _ Hd) as (ch' & ? & ? & ?).
    destruct (decide (c = d)) as [<-|]; simplify_map_eq; eauto with lia.
  - intros fd. rewrite fds_app, elem_of_app, list_elem_of_singleton. cbn. naive_solver.
Qed.

Lemma reg_wf_remove p h c ch i pfd :
  reg_wf p h → channels_ p !! fd_ ch = Some c → pollfds_ p !! i = Some pfd →
  pfd_fd pfd = fd_ ch →
  reg_wf (mkPoller (delete i (<[i := mkpollfd (pfd_fd pfd) (i16 (events_ ch)) 0]> (pollfds_ p)))
                   (delete (pfd_fd pfd) (channels_ p))) h.
Proof.
  intros [Hnd Hdom Hlive Hpos] Hc Hi Hfd.
  assert (Hf : pfd_fd <$> delete i (<[i := mkpollfd (pfd_fd pfd) (i16 (events_ ch)) 0]> (pollfds_ p))
               = delete i (fds p)).
  { rewrite fmap_delete_list, (fds_insert_same _ _ pfd) by done. done. }
  assert (Hl : fds p !! i = Some (pfd_fd pfd)) by (unfold fds; by rewrite list_lookup_fmap, Hi).
  split; cbn.
  - change (NoDup (pfd_fd <$> delete i (<[i := mkpollfd (pfd_fd pfd) (i16 (events_ ch)) 0]> (pollfds_ p)))).
    rewrite Hf. by apply NoDup_delete.
  - intros fd. change (fds (mkPoller ?l _)) with (pfd_fd <$> l). rewrite Hf, (elem_of_delete_nodup _ _ _ _ Hnd Hl), Hdom, lookup_delete_is_Some.
    naive_solver.
  - intros fd d [? Hd]%lookup_delete_Some. eauto.
  - intros fd. change (fds (mkPoller ?l _)) with (pfd_fd <$> l). rewrite Hf.
    intros Hin%list_elem_of_delete_inv. by apply Hpos.
Qed.

Lemma reg_wf_change p h ch i pfd :
  reg_wf p h → pollfds_ p !! i = Some pfd →
  reg_wf (mkPoller (<[i := mkpollfd (pfd_fd pfd) (i16 (events_ ch)) 0]> (pollfds_ p)) (channels_ p)) h.
Proof.
  intros [Hnd Hdom Hlive Hpos] Hi.
  assert (Hf : fds (mkPoller (<[i := mkpollfd (pfd_fd pfd) (i16 (events_ ch)) 0]> (pollfds_ p))
                             (channels_ p)) = fds p)
    by (by apply (fds_insert_same _ _ pfd)).
  split; rewrite ?Hf; cbn; auto.
Qed.

(** Every successful update keeps the array and the map in step. *)
Lemma UpdateChannel_reg p h c p' h' :
  reg_wf p h → len (pollfds_ p) < 2 ^ 31 → (∀ ch, h !! c = Some ch → 0 ≤ fd_ ch) →
  UpdateChannel p h c = Ok (p', h') → reg_wf p' h'.
Proof.
  intros Hw Hlen Hfd (ch & Hc & He)%UpdateChannel_effect. specialize (Hfd ch Hc).
  inversion He as [|i pfd Hi Hr Hl Hor Hev|i pfd Hi Hr Hl Hor Hev]; subst.
  - apply reg_wf_new; try done. rewrite u64_id, i32_id; len_lia.
  - by apply reg_wf_change.
  - pose proof (reg_entry_fd _ _ _ _ _ Hw Hl Hor). by eapply reg_wf_remove.
Qed.

(** A channel that is registered or new can be updated without a fault. *)
Lemma UpdateChannel_Ok p h c ch :
  reg_wf p h → idx_wf p h → len (pollfds_ p) < 2 ^ 31 - 1 → h !! c = Some ch →
  (index_ ch < 0 ∧ channels_ p !! fd_ ch = None) ∨ channels_ p !! fd_ ch = Some c →
  ∃ p' h', UpdateChannel p h c = Ok (p', h').
Proof.
  intros Hw Hix Hlen Hc Hcase. unfold UpdateChannel. rewrite Hc. cbn.
  destruct Hcase as [[Hneg Hnone]|Hreg].
  - rewrite (proj2 (Z.ltb_lt _ _)), bool_decide_eq_true_2 by done. cbn. eauto.
  - destruct (Hix _ _ _ Hreg Hc) as (pfd & Hnn & Hl & Hf).
    rewrite (proj2 (Z.ltb_ge (index_ ch) 0) Hnn), Hreg.
    rewrite (bool_decide_eq_false_2 (Some c = None)), bool_decide_eq_true_2 by done.
    cbn. pose proof (lookup_lt_Some _ _ _ Hl) as Hlt.
    assert (Hi32 : index_ ch < i32 (len (pollfds_ p))) by (rewrite i32_id; unfold len in *; lia).
    rewrite (proj2 (Z.leb_le _ _) Hnn), (proj2 (Z.ltb_lt _ _) Hi32). cbn.
    unfold vec_at. rewrite Hl. cbn. rewrite Hf, Z.eqb_refl. cbn. case_match; eauto.
Qed.

Lemma idx_wf_new p h c ch :
  reg_wf p h → idx_wf p h → len (pollfds_ p) < 2 ^ 31 - 1 → h !! c = Some ch → index_ ch < 0 →
  idx_wf (mkPoller (pollfds_ p ++ [mkpollfd (fd_ ch) (i16 (events_ ch)) 0])
                   (<[fd_ ch := c]> (channels_ p)))
         (<[c := set_index (i32 (u64 (len (pollfds_ p)))) ch]> h).
Proof.
  intros Hw Hix Hlen Hc Hneg fd d chd. cbn.
  rewrite u64_id, i32_id by len_lia.
  intros [[<- <-]|[Hne Hd]]%lookup_insert_Some Hh.
  - rewrite lookup_insert_eq in Hh. injection Hh as <-. eexists. cbn. split; [len_lia|].
    unfold len. by rewrite Nat2Z.id, lookup_app_r, Nat.sub_diag by lia.
  - destruct (decide (c = d)) as [<-|Hcd].
    { destruct (reg_live _ _ Hw _ _ Hd) as (ch' & ? & ? & ?). simplify_eq. }
    rewrite lookup_insert_ne in Hh by done.
    destruct (Hix _ _ _ Hd Hh) as (pfd & Hnn & Hl & Hf). exists pfd. cbn.
    split; [done|]. split; [|done]. by apply lookup_app_l_Some.
Qed.

Lemma idx_wf_change p h ch i pfd :
  idx_wf p h → pollfds_ p !! i = Some pfd →
  idx_wf (mkPoller (<[i := mkpollfd (pfd_fd pfd) (i16 (events_ ch)) 0]> (pollfds_ p)) (channels_ p)) h.
Proof.
  intros Hix Hi fd d chd Hd Hh. destruct (Hix _ _ _ Hd Hh) as (pfd' & Hnn & Hl & Hf).
  destruct (decide (i = Z.to_nat (index_ chd))) as [->|Hne].
  - simplify_eq. eexists. cbn. split; [done|].
    rewrite list_lookup_insert_eq by (by eapply lookup_lt_Some). done.
  - exists pfd'. cbn. by rewrite list_lookup_insert_ne.
Qed.

(** An entry that [fillActiveChannels] picks. *)
Definition ready (pfd : pollfd) : bool := (pfd_fd pfd >=? 0) && (pfd_revents pfd >? 0).

(** The channels of the first [n] ready entries, in array order. *)
Definition picked (cs : gmap Z chan_id) (pfds : list pollfd) (n : nat) : list chan_id :=
  omap (fun pfd => cs !! pfd_fd pfd) (take n (filter (fun pfd => ready pfd = true) pfds)).

(** Every entry of [pfds] belongs to a live channel of that descriptor. *)
Definition entries_live (cs : gmap Z chan_id) (pfds : list pollfd) h : Prop :=
  ∀ pfd, pfd ∈ pfds → ∃ c ch, cs !! pfd_fd pfd = Some c ∧ h !! c = Some ch ∧ fd_ ch = pfd_fd pfd.

Lemma reg_entries_live p h : reg_wf p h → entries_live (channels_ p) (pollfds_ p) h.
Proof.
  intros Hw pfd Hin. assert (pfd_fd pfd ∈ fds p) as [c Hc]%(reg_dom _ _ Hw).
  { apply list_elem_of_fmap. eauto. }
  destruct (reg_live _ _ Hw _ _ Hc) as (ch & ? & ? & _). eauto.
Qed.

Lemma picked_cons_ready cs it rest k c :
  ready it = true → cs !! pfd_fd it = Some c →
  picked cs (it :: rest) (S k) = c :: picked cs rest k.
Proof. intros Hr Hc. unfold picked. rewrite filter_cons_True by done. simpl. by rewrite Hc. Qed.

Lemma picked_fd cs pfds n h c :
  entries_live cs pfds h → c ∈ picked cs pfds n →
  ∃ pfd ch, pfd ∈ pfds ∧ h !! c = Some ch ∧ fd_ ch = pfd_fd pfd.
Proof.
  intros Hlive (pfd & Hin & Hc)%list_elem_of_omap.
  apply elem_of_take in Hin as (i & Hi & _).
  apply list_elem_of_lookup_2, list_elem_of_filter in Hi as [_ Hin].
  destruct (Hlive _ Hin) as (c' & ch & ? & ? & ?). simplify_eq. eauto.
Qed.

(** The system call changes no descriptor. *)
Lemma store_revents_fds pfds rs :
  length rs = length pfds → pfd_fd <$> store_revents pfds rs = pfd_fd <$> pfds.
Proof.
  unfold store_revents. revert rs. induction pfds as [|x l IH]; intros [|r rs] Hrs; cbn in *; try done.
  injection Hrs as Hrs. f_equal. by apply IH.
Qed.

Lemma stored_live p h rs :
  reg_wf p h → length rs = length (pollfds_ p) →
  entries_live (channels_ p) (store_revents (pollfds_ p) rs) h.
Proof.
  intros Hw Hrs pfd Hin. assert (pfd_fd pfd ∈ fds p) as [c Hc]%(reg_dom _ _ Hw).
  { unfold fds. rewrite <-(store_revents_fds _ rs) by done. apply list_elem_of_fmap. eauto. }
  destruct (reg_live _ _ Hw _ _ Hc) as (ch & ? & ? & _). eauto.
Qed.

(** No channel is picked twice. *)
Lemma picked_nodup cs pfds n h :
  entries_live cs pfds h → NoDup (pfd_fd <$> pfds) → NoDup (picked cs pfds n).
Proof.
  intros Hlive Hnd. unfold picked.
  assert (Hsub : sublist (take n (filter (fun pfd => ready pfd = true) pfds)) pfds).
  { etrans; [apply sublist_take|apply sublist_filter]. }
  set (l := take n _) in *.
  assert (Hl : entries_live cs l h) by (intros pfd Hin; by eapply Hlive, elem_of_sublist).
  assert (Hd : NoDup (pfd_fd <$> l)) by (eapply sublist_NoDup; [done|by apply fmap_sublist]).
  clearbody l. clear Hsub Hnd Hlive. induction l as [|pfd l IH]; cbn; [constructor|].
  apply NoDup_cons in Hd as [Hx Hd].
  assert (Hl' : entries_live cs l h) by (intros q Hq; apply Hl; by constructor).
  destruct (Hl pfd) as (c & ch & Hc & Hh & Hf); [by constructor|]. rewrite Hc.
  constructor; [|by apply IH]. intros (q & Hq & Hqc)%list_elem_of_omap.
  destruct (Hl' q Hq) as (c' & ch' & ? & ? & Hf'). simplify_eq.
  apply Hx, list_elem_of_fmap. exists q. split; [congruence|done].
Qed.

Lemma ready_nodup p h rs n :
  reg_wf p h → length rs = length (pollfds_ p) →
  NoDup (picked (channels_ p) (store_revents (pollfds_ p) rs) n).
Proof.
  intros Hw Hrs. apply picked_nodup with h; [by apply stored_live|].
  rewrite store_revents_fds by done. apply Hw.
Qed.

Lemma entries_live_insert cs pfd pfds h c ch r :
  entries_live cs (pfd :: pfds) h → h !! c = Some ch →
  entries_live cs pfds (<[c := set_revents r ch]> h).
Proof.
  intros Hlive Hc q Hq. destruct (Hlive q) as (d & chd & ? & ? & ?); [by constructor|].
  destruct (decide (c = d)) as [<-|]; simplify_eq.
  - exists c, (set_revents r ch). by rewrite lookup_insert_eq.
  - exists d, chd. by rewrite lookup_insert_ne.
Qed.

Lemma fillActiveChannels_spec cs pfds n h active :
  NoDup (pfd_fd <$> pfds) → entries_live cs pfds h → 0 < n →
  ∃ h', fillActiveChannels cs pfds n h active = Ok (h', active ++ picked cs pfds (Z.to_nat n)) ∧
    (∀ pfd c, pfd ∈ take (Z.to_nat n) (filter (fun pfd => ready pfd = true) pfds) →
       cs !! pfd_fd pfd = Some c → h' !! c = set_revents (pfd_revents pfd) <$> h !! c) ∧
    (∀ c, c ∉ picked cs pfds (Z.to_nat n) → h' !! c = h !! c).
Proof.
  revert n h active. induction pfds as [|it rest IH]; intros n h active Hnd Hlive Hn.
  { exists h. unfold picked. rewrite filter_nil, take_nil. cbn. rewrite app_nil_r.
    split; [done|]. split; [set_solver|done]. }
  apply NoDup_cons in Hnd as [Hit Hnd]. cbn [fillActiveChannels]. fold (ready it).
  destruct (ready it) eqn:Hr.
  2: { unfold picked. rewrite filter_cons_False by (by rewrite Hr).
       apply IH; [done| |done]. intros q ?. apply Hlive. by constructor. }
  destruct (Hlive it) as (c & ch & Hcs & Hh & Hfd); [by constructor|].
  rewrite Hcs, Hh. cbn [deref mbind res_bind assert_].
  rewrite (proj2 (Z.eqb_eq _ _) Hfd). cbn [mbind res_bind assert_].
  destruct (Z.to_nat n) as [|k] eqn:Hk; [lia|].
  rewrite (picked_cons_ready _ _ _ _ c), filter_cons_True by done. cbn [take].
  destruct (Z.eqb_spec (n - 1) 0).
  { replace k with 0%nat by lia. eexists. split; [done|]. split.
    - intros q d [->|?]%elem_of_cons Hd; [|set_solver]. simplify_eq.
      by rewrite lookup_insert_eq, Hh.
    - intros d Hd. rewrite lookup_insert_ne; [done|]. intros ->. apply Hd. by constructor. }
  assert (Hlive' := entries_live_insert _ _ _ _ _ _ (pfd_revents it) Hlive Hh).
  destruct (IH (n - 1) (<[c := set_revents (pfd_revents it) ch]> h) (active ++ [c]) Hnd Hlive')
    as (h' & He & Hin & Hout); [lia|].
  replace (Z.to_nat (n - 1)) with k in * by lia.
  assert (Hfresh : c ∉ picked cs rest k).
  { intros Hp. destruct (picked_fd _ _ _ _ _ Hlive' Hp) as (q & chq & Hq & Hc & Hf).
    rewrite lookup_insert_eq in Hc. injection Hc as <-. cbn in Hf.
    apply Hit, list_elem_of_fmap. exists q. split; [congruence|done]. }
  exists h'. rewrite He, <-app_assoc. split; [done|]. split.
  - intros q d [->|Hq]%elem_of_cons Hd.
    + simplify_eq. by rewrite Hout, lookup_insert_eq, Hh.
    + rewrite (Hin _ _ Hq Hd). rewrite lookup_insert_ne; [done|]. intros ->.
      apply Hfresh, list_elem_of_omap. eauto.
  - intros d [Hne Hd]%not_elem_of_cons. rewrite (Hout _ Hd). by rewrite lookup_insert_ne.
Qed.

(** The entry of the channel an update was for. *)
Lemma update_effect_entry p h c ch p' h' :
  reg_wf p h → update_effect p h c ch p' h' →
  if (isNoneEvent ch && (0 <=? index_ ch))%bool then (fd_ ch ∉ fds p') ∧ channels_ p' !! fd_ ch = None
  else channels_ p' !! fd_ ch = Some c ∧ mkpollfd (fd_ ch) (i16 (events_ ch)) 0 ∈ pollfds_ p'.
Proof.
  intros Hw He. unfold isNoneEvent, kNoneEvent.
  inversion He as [Hneg Hnone|i pfd Hi Hr Hl Hor Hev|i pfd Hi Hr Hl Hor Hev]; subst.
  - rewrite (proj2 (Z.leb_gt _ _)), andb_false_r by lia. cbn. split; [by simplify_map_eq|].
    apply elem_of_app. right. by apply list_elem_of_singleton.
  - rewrite (proj2 (Z.eqb_neq _ _)) by done. cbn.
    rewrite (reg_entry_fd _ _ _ _ _ Hw Hl Hor). split; [done|].
    eapply list_elem_of_lookup_2, list_lookup_insert_eq. by eapply lookup_lt_Some.
  - rewrite (proj2 (Z.eqb_eq _ _)), (proj2 (Z.leb_le _ _)) by lia. cbn.
    pose proof (reg_entry_fd _ _ _ _ _ Hw Hl Hor) as Hfd.
    pose proof (reg_wf_remove _ _ _ _ _ _ Hw Hr Hl Hfd) as Hw'.
    assert (delete (pfd_fd pfd) (channels_ p) !! fd_ ch = None) as Hn
      by (rewrite Hfd; apply lookup_delete_eq).
    split; [|done]. rewrite (reg_dom _ _ Hw'). cbn. rewrite Hn. by intros [? ?].
Qed.

Lemma update_effect_idx p h c ch p' h' :
  reg_wf p h → idx_wf p h → len (pollfds_ p) < 2 ^ 31 - 1 → h !! c = Some ch →
  update_effect p h c ch p' h' → isNoneEvent ch && (0 <=? index_ ch) = false → idx_wf p' h'.
Proof.
  intros Hw Hix Hlen Hc He Hkeep. unfold isNoneEvent, kNoneEvent in Hkeep.
  inversion He; subst.
  - by apply idx_wf_new.
  - by apply idx_wf_change.
  - rewrite (proj2 (Z.eqb_eq _ _)), (proj2 (Z.leb_le _ _)) in Hkeep by lia. done.
Qed.

(** [fillActiveChannels] follows the pointer of the first ready entry whose
    channel is gone. *)
Lemma fill_dangling cs pre it post n h active c :
  entries_live cs pre h → ready it = true → cs !! pfd_fd it = Some c → h !! c = None →
  len (filter (fun q => ready q = true) pre) < n →
  fillActiveChannels cs (pre ++ it :: post) n h active = Err (UseAfterFree "Channel").
Proof.
  intros Hpre Hit Hc Hgone. revert n h active Hpre Hgone.
  induction pre as [|q pre IH]; intros n h active Hpre Hgone Hn; cbn [app fillActiveChannels].
  - fold (ready it). by rewrite Hit, Hc, Hgone.
  - fold (ready q). rewrite filter_cons in Hn.
    destruct (Hpre q ltac:(by left)) as (d & ch & Hd & Hch & Hfd).
    assert (Hpre' : entries_live cs pre h) by (intros x Hx; apply Hpre; by right).
    destruct (ready q) eqn:Hq.
    + rewrite decide_True in Hn by done. rewrite len_cons in Hn.
      pose proof (len_nonneg (filter (fun q => ready q = true) pre)).
      rewrite Hd, Hch. cbn [deref mbind res_bind]. rewrite Hfd, Z.eqb_refl. cbn [assert_ mbind res_bind].
      rewrite (proj2 (Z.eqb_neq _ _)) by lia. apply IH; [|rewrite lookup_insert_ne; congruence|lia].
      intros x Hx. destruct (Hpre' x Hx) as (e & che & He & Hche & Hfde).
      destruct (decide (d = e)) as [<-|Hne]; [|exists e, che; by rewrite lookup_insert_ne].
      exists d, (set_revents (pfd_revents q) ch). rewrite lookup_insert_eq. by simplify_eq.
    + rewrite decide_False in Hn by done. by apply IH.
Qed.

(** A poller whose channel [k] was freed without being unregistered *)
Lemma Poll_dangling p h rs k i pfd r :
  reg_wf p h → length rs = length (pollfds_ p) → pollfds_ p !! i = Some pfd →
  channels_ p !! pfd_fd pfd = Some k → rs !! i = Some r → 0 < r →
  Poll p (delete k h) (len (filter (fun q => ready q = true) (store_revents (pollfds_ p) rs))) rs []
  = Err (UseAfterFree "Channel").
Proof.
  intros Hw Hlen Hi Hk Hr Hpos. set (st := store_revents (pollfds_ p) rs).
  set (it := pfd <| pfd_revents := r |>).
  assert (Hst : st !! i = Some it).
  { unfold st, store_revents. by rewrite lookup_zip_with, Hi, Hr. }
  assert (Hrdy : ready it = true).
  { unfold ready. cbn. pose proof (reg_nonneg _ _ Hw _ (entry_in_fds _ _ _ Hi)).
    rewrite andb_true_iff, Z.geb_le, Z.gtb_lt. lia. }
  pose proof (take_drop_middle st i it Hst) as Hsplit.
  assert (Hlt : len (filter (fun q => ready q = true) (take i st)) < len (filter (fun q => ready q = true) st)).
  { rewrite <-Hsplit at 2. rewrite filter_app, filter_cons_True by done. rewrite len_app, len_cons.
    pose proof (len_nonneg (filter (fun q => ready q = true) (drop (S i) st))). lia. }
  pose proof (len_nonneg (filter (fun q => ready q = true) (take i st))).
  unfold Poll. rewrite Z.gtb_ltb, (proj2 (Z.ltb_lt _ _)) by lia.
  change (pollfds_ (p <| pollfds_ := store_revents (pollfds_ p) rs |>)) with st. rewrite <-Hsplit at 1.
  rewrite fill_dangling with (c := k); [done| |done|done|apply lookup_delete_eq|done].
  intros q (j & Hj)%list_elem_of_lookup. apply lookup_take_Some in Hj as [Hj Hji].
  destruct (stored_live _ _ _ Hw Hlen q ltac:(by eapply list_elem_of_lookup_2)) as (d & ch & Hd & Hch & Hfd).
  destruct (reg_live _ _ Hw _ _ Hk) as (chk & Hchk & Hfk & _).
  exists d, ch. split_and!; [done| |done]. rewrite lookup_delete_ne; [done|]. intros <-.
  assert (ch = chk) as -> by congruence. assert (j = i); [|lia]. eapply (NoDup_lookup (fds p)); [apply Hw|..];
    unfold fds; rewrite <-(store_revents_fds _ rs) by done; rewrite list_lookup_fmap; fold st.
  - by rewrite Hj.
  - rewrite Hst. cbn. congruence.
Qed.

(** Removing entry [i] leaves a later channel with an index that is either
    past the end or the index of another descriptor. *)
Lemma stale_lookup p h i j pf pfd (chd : Channel C) :
  reg_wf p h → pollfds_ p !! i = Some pf → (i < j)%nat →
  pollfds_ p !! j = Some pfd → pfd_fd pfd = fd_ chd →
  match delete i (pollfds_ p) !! j with
  | None => len (delete i (pollfds_ p)) ≤ Z.of_nat j
  | Some q => pfd_fd q ≠ fd_ chd ∧ pfd_fd q ≠ -1
  end.
Proof.
  intros Hw Hi Hij Hj Hfd. rewrite list_lookup_delete_ge by lia.
  destruct (pollfds_ p !! S j) as [q|] eqn:Hq.
  - split.
    + intros Heq. assert (j = S j); [|lia]. eapply (NoDup_lookup (fds p)).
      * apply Hw.
      * unfold fds. by rewrite list_lookup_fmap, Hj.
      * unfold fds. rewrite list_lookup_fmap, Hq. cbn. by rewrite Heq, Hfd.
    + pose proof (reg_nonneg _ _ Hw _ (entry_in_fds _ _ _ Hq)). lia.
  - apply lookup_ge_None in Hq. unfold len. rewrite length_delete by eauto.
    apply lookup_lt_Some in Hi. lia.
Qed.

(** ... and its next update stops at an assertion. *)
Lemma stale_update p h h' i j pf pfd d (chd : Channel C) :
  reg_wf p h → len (pollfds_ p) < 2 ^ 31 → pollfds_ p !! i = Some pf → (i < j)%nat →
  h' !! d = Some chd → index_ chd = Z.of_nat j → pollfds_ p !! j = Some pfd → pfd_fd pfd = fd_ chd →
  channels_ p !! fd_ chd = Some d →
  let p' := mkPoller (delete i (pollfds_ p)) (delete (pfd_fd pf) (channels_ p)) in
  ¬ idx_ok p' chd ∧
  (UpdateChannel p' h' d = Err (AssertFailed "poller.cc:73") ∨
   UpdateChannel p' h' d = Err (AssertFailed "poller.cc:76")).
Proof.
  intros Hw Hlen Hi Hij Hd Hidx Hj Hfd Hreg p'.
  pose proof (stale_lookup p h i j pf pfd chd Hw Hi Hij Hj Hfd) as Hst.
  assert (Hne : pfd_fd pf ≠ fd_ chd).
  { intros E. assert (i = j); [|lia]. eapply (NoDup_lookup (fds p)); [apply Hw|..]; unfold fds.
    - by rewrite list_lookup_fmap, Hi.
    - rewrite list_lookup_fmap, Hj. cbn. by rewrite E, Hfd. }
  split.
  - intros (r & _ & Hr & Hrf). cbn in Hr. rewrite Hidx, Nat2Z.id in Hr. rewrite Hr in Hst. naive_solver.
  - unfold UpdateChannel, p'. rewrite Hd. cbn -[i32].
    rewrite Hidx, (proj2 (Z.ltb_ge _ 0)), lookup_delete_ne, Hreg by (done || lia).
    rewrite (bool_decide_eq_false_2 (Some d = None)), bool_decide_eq_true_2 by done.
    cbn -[i32]. rewrite (proj2 (Z.leb_le 0 (Z.of_nat j))) by lia.
    assert (Hlen' : len (delete i (pollfds_ p)) = len (pollfds_ p) - 1).
    { unfold len. rewrite length_delete by eauto. apply lookup_lt_Some in Hi. lia. }
    assert (i32 (len (pollfds_ p) - 1) = len (pollfds_ p) - 1) as Hi32 by (apply i32_id; len_lia).
    rewrite Hlen', Hi32 in *. unfold vec_at. rewrite Nat2Z.id.
    destruct (delete i _ !! j) as [r|] eqn:Hr.
    + apply lookup_lt_Some in Hr as Hb. unfold len in Hlen'.
      rewrite (proj2 (Z.ltb_lt _ _)) by (unfold len; lia). cbn.
      right. by rewrite (proj2 (Z.eqb_neq _ _)), (proj2 (Z.eqb_neq _ _)) by naive_solver.
    + left. by rewrite (proj2 (Z.ltb_ge _ _)) by lia.
Qed.

End Poller.

(** ** Theorems *)

(** C7: a channel that is new, or registered with a sound index, is updated
    without a failed assertion; afterwards the array and the map agree, and
    either the channel's own entry carries exactly its descriptor and event
    mask, with all indices still sound, or, when it wants no event any more,
    its descriptor is gone from both. *)
Theorem Poller_update_spec {C} (p : Poller) (h : gmap chan_id (Channel C)) (c : chan_id)
    (ch : Channel C) :
  reg_wf p h → idx_wf p h → len (pollfds_ p) < 2 ^ 31 - 1 →
  h !! c = Some ch → 0 ≤ fd_ ch →
  (index_ ch < 0 ∧ channels_ p !! fd_ ch = None) ∨ channels_ p !! fd_ ch = Some c →
  ∃ p' h', UpdateChannel p h c = Ok (p', h') ∧ reg_wf p' h' ∧
    if isNoneEvent ch && (0 <=? index_ ch)
    then (fd_ ch ∉ fds p') ∧ channels_ p' !! fd_ ch = None
    else idx_wf p' h' ∧ channels_ p' !! fd_ ch = Some c ∧
         mkpollfd (fd_ ch) (i16 (events_ ch)) 0 ∈ pollfds_ p'.
Proof.
  intros Hw Hix Hlen Hc Hfd Hcase.
  destruct (UpdateChannel_Ok _ _ _ _ Hw Hix Hlen Hc Hcase) as (p' & h' & He).
  exists p', h'. split; [done|]. split.
  { eapply UpdateChannel_reg; [done|lia| |done]. intros. by simplify_eq. }
  apply UpdateChannel_effect in He as (ch' & ? & He). simplify_eq.
  pose proof (update_effect_entry _ _ _ _ _ _ Hw He) as Hentry.
  destruct (isNoneEvent ch && (0 <=? index_ ch)) eqn:Hk; [done|].
  split; [|done]. by eapply update_effect_idx.
Qed.

(** C34: whatever the channel's index is, an update that does not fail keeps
    the poller's array and map naming the same descriptors, each once, with
    every registered channel alive. *)
Theorem Poller_update_preserves {C} (p p' : Poller) (h h' : gmap chan_id (Channel C))
    (c : chan_id) :
  reg_wf p h → len (pollfds_ p) < 2 ^ 31 → (∀ ch, h !! c = Some ch → 0 ≤ fd_ ch) →
  UpdateChannel p h c = Ok (p', h') → reg_wf p' h'.
Proof. apply UpdateChannel_reg. Qed.

(** Removing a channel that is not the last in the array makes the index
    of every channel behind it stale: its next update, even the one that
    closes its connection, stops at an assertion of [UpdateChannel]. *)
Theorem Poller_removal_makes_indices_stale {C} (p p' : Poller)
    (h h' : gmap chan_id (Channel C)) (c d : chan_id) (ch chd : Channel C) :
  reg_wf p h → idx_wf p h → len (pollfds_ p) < 2 ^ 31 →
  h !! c = Some ch → channels_ p !! fd_ ch = Some c → isNoneEvent ch = true →
  h !! d = Some chd → channels_ p !! fd_ chd = Some d → index_ ch < index_ chd →
  UpdateChannel p h c = Ok (p', h') →
  ¬ idx_ok p' chd ∧
  (UpdateChannel p' h' d = Err (AssertFailed "poller.cc:73") ∨
   UpdateChannel p' h' d = Err (AssertFailed "poller.cc:76")).
Proof.
  intros Hw Hix Hlen Hc Hreg Hnone Hd Hregd Hlt He.
  destruct (Hix _ _ _ Hreg Hc) as (pf & Hnn & Hl & Hf).
  destruct (Hix _ _ _ Hregd Hd) as (pfd & Hnnd & Hld & Hfd).
  apply UpdateChannel_effect in He as (ch' & ? & He). simplify_eq.
  unfold isNoneEvent, kNoneEvent in Hnone. bool_prop.
  inversion He as [|i q Hi Hr Hq Hor Hev|i q Hi Hr Hq Hor Hev]; subst; [lia|congruence|].
  rewrite Hi, Nat2Z.id in Hl. assert (q = pf) as -> by congruence.
  rewrite delete_insert_same. cbn.
  apply (stale_update p h' h' i (Z.to_nat (index_ chd)) pf pfd d chd); try done; lia.
Qed.

(** When [poll(2)] reports [numEvents] ready entries of a well-formed
    poller, [Poll] collects exactly the channels of the ready descriptors, in
    array order, each with the [revents] the kernel stored, leaves every other
    channel alone, and neither of its assertions fails. *)
Theorem Poller_poll_active {C} (p : Poller) (h : gmap chan_id (Channel C)) (rs : list Z) :
  reg_wf p h → length rs = length (pollfds_ p) →
  let stored := store_revents (pollfds_ p) rs in
  let numEvents := len (filter (fun pfd => ready pfd = true) stored) in
  ∃ h', Poll p h numEvents rs [] = Ok (p <| pollfds_ := stored |>, h', picked (channels_ p) stored (length stored)) ∧
    (∀ pfd c, pfd ∈ stored → ready pfd = true → channels_ p !! pfd_fd pfd = Some c →
       c ∈ picked (channels_ p) stored (length stored) ∧
       h' !! c = set_revents (pfd_revents pfd) <$> h !! c) ∧
    (∀ c, c ∉ picked (channels_ p) stored (length stored) → h' !! c = h !! c).
Proof.
  intros Hw Hrs. cbn zeta.
  pose proof (store_revents_fds _ _ Hrs) as Hfds. pose proof (stored_live _ _ _ Hw Hrs) as Hlive.
  set (stored := store_revents (pollfds_ p) rs) in *.
  set (rdy := filter (fun pfd => ready pfd = true) stored).
  assert (Hall : picked (channels_ p) stored (length stored)
                 = picked (channels_ p) stored (Z.to_nat (len rdy))).
  { unfold picked, len. fold rdy. rewrite Nat2Z.id, !take_ge; try done. apply length_filter. }
  rewrite Hall. unfold Poll. fold stored. cbn [pollfds_ channels_].
  destruct (Z.gtb_spec (len rdy) 0).
  - destruct (fillActiveChannels_spec (channels_ p) stored (len rdy) h [])
      as (h' & -> & Hin & Hout); [rewrite Hfds; apply Hw|done|lia|].
    exists h'. split; [done|]. split; [|done]. intros pfd c Hp Hr Hc.
    assert (Hmem : pfd ∈ take (Z.to_nat (len rdy)) rdy).
    { unfold len. rewrite Nat2Z.id, take_ge by done. by apply list_elem_of_filter. }
    split; [|by apply Hin]. apply list_elem_of_omap. eauto.
  - assert (rdy = []) as Hnil by (apply len_zero_nil; len_lia).
    assert (Hp0 : picked (channels_ p) stored (Z.to_nat (len rdy)) = []).
    { unfold picked. fold rdy. by rewrite Hnil. }
    rewrite Hp0. exists h. split; [done|]. split; [|done]. intros pfd c Hp Hr.
    assert (pfd ∈ rdy) by (by apply list_elem_of_filter). rewrite Hnil in *. set_solver.
Qed.

(** *** A concrete poller: the timer, wake-up and listening descriptors of a
    server and one connection. *)
Definition ex_channel (fd idx : Z) : Channel unit := set_index idx (events_reading (Channel_new 0 fd)).

Definition ex_poller : Poller :=
  mkPoller [mkpollfd 4 3 0; mkpollfd 5 3 0; mkpollfd 6 3 0; mkpollfd 7 3 0]
           (<[4 := 0%nat]> (<[5 := 1%nat]> (<[6 := 2%nat]> (<[7 := 3%nat]> ∅)))).

Definition ex_heap : gmap chan_id (Channel unit) :=
  <[0%nat := ex_channel 4 0]> (<[1%nat := ex_channel 5 1]>
    (<[2%nat := events_none (ex_channel 6 2)]> (<[3%nat := ex_channel 7 3]> ∅))).

Ltac ex_lookup H :=
  apply lookup_insert_Some in H as [[<- <-]|[_ H]]; [|try ex_lookup H; try by rewrite lookup_empty in H].

Lemma ex_reg_wf : reg_wf ex_poller ex_heap.
Proof.
  split.
  - by apply (bool_decide_unpack _); vm_compute.
  - intros fd. unfold fds. cbn. rewrite !elem_of_cons.
    rewrite !lookup_insert_is_Some, lookup_empty. set_solver by lia.
  - intros fd c Hc. cbn in Hc. ex_lookup Hc; eexists; (split; [reflexivity|done]).
  - intros fd. unfold fds. cbn. rewrite !elem_of_cons. set_solver by lia.
Qed.

Lemma ex_idx_wf : idx_wf ex_poller ex_heap.
Proof.
  intros fd c ch Hc Hh. cbn in Hc.
  ex_lookup Hc; vm_compute in Hh; injection Hh as <-; eexists; (split; [done|by split]).
Qed.

Lemma Poller_update_spec_witness :
  ∃ p' h', UpdateChannel ex_poller ex_heap 3 = Ok (p', h') ∧ reg_wf p' h' ∧
    idx_wf p' h' ∧ channels_ p' !! 7 = Some 3%nat ∧ mkpollfd 7 3 0 ∈ pollfds_ p'.
Proof.
  apply (Poller_update_spec ex_poller ex_heap 3 (ex_channel 7 3));
    [apply ex_reg_wf|apply ex_idx_wf|done|done|done|by right].
Defined.

Lemma Poller_update_preserves_witness :
  reg_wf (mkPoller [mkpollfd 4 3 0; mkpollfd 5 3 0; mkpollfd 7 3 0] (delete 6 (channels_ ex_poller)))
         ex_heap.
Proof.
  apply (Poller_update_preserves ex_poller _ ex_heap _ 2); [apply ex_reg_wf|done| |done].
  intros ch [= <-]. done.
Defined.

Lemma Poller_removal_makes_indices_stale_witness :
  let p' := mkPoller [mkpollfd 4 3 0; mkpollfd 5 3 0; mkpollfd 7 3 0]
                     (delete 6 (channels_ ex_poller)) in
  ¬ idx_ok p' (ex_channel 7 3) ∧
  (UpdateChannel p' ex_heap 3 = Err (AssertFailed "poller.cc:73") ∨
   UpdateChannel p' ex_heap 3 = Err (AssertFailed "poller.cc:76")).
Proof.
  apply (Poller_removal_makes_indices_stale ex_poller _ ex_heap ex_heap 2 3
           (events_none (ex_channel 6 2)) (ex_channel 7 3));
    [apply ex_reg_wf|apply ex_idx_wf|done..].
Defined.

Lemma Poller_poll_active_witness :
  ∃ h', Poll ex_poller ex_heap 1 [0; 1; 0; 0] [] =
      Ok (mkPoller (store_revents (pollfds_ ex_poller) [0; 1; 0; 0]) (channels_ ex_poller), h', [1%nat]) ∧
    (∀ pfd c, pfd ∈ store_revents (pollfds_ ex_poller) [0; 1; 0; 0] → ready pfd = true →
       channels_ ex_poller !! pfd_fd pfd = Some c →
       c ∈ [1%nat] ∧ h' !! c = set_revents (pfd_revents pfd) <$> ex_heap !! c) ∧
    (∀ c, c ∉ [1%nat] → h' !! c = ex_heap !! c).
Proof.
  apply (Poller_poll_active ex_poller ex_heap [0; 1; 0; 0]); [apply ex_reg_wf|done].
Defined.

End Poller.
