(* ===== verification/World.v ===== *)
(** * The object graph of the reactor (the headers of net/)

    The classes of net/ form a graph of mutable objects that call each other
    back.  This file declares their state, one record per class with the
    fields of its header, and the [World] that holds them: heaps of channels
    and connections indexed by address, the event loop with its poller and
    timer queue, the server, and the history of system calls.

    A [std::function<void()>] is a value of type [Callback]: one constructor
    per lambda or bind expression of the sources, carrying what it captures;
    a lambda that captures a stack frame by reference carries the address of
    that frame.  Calling it is done by an [invoke] function that the
    operations take as an argument and that Reactor.v ties.

    The operating system is a parameter: [Kernel] has one answer function per
    system call, which may depend on the whole history of calls. *)

From S2P Require Import Prelude Slice Buffer Timestamp Poller.
Export Channel (Channel, mkChannel, loop_, fd_, events_, revents_, index_, read_callback_,
  write_callback_, error_callback_, close_callback_).
Export Poller (Poller, mkPoller, pollfds_, channels_).

Abbreviation conn_id := nat.
Abbreviation frame_id := nat.
Abbreviation str_id := nat.

(** [struct sockaddr_in] *)
Record sockaddr_in := mkSockaddr { sin_family : Z; sin_addr : Z; sin_port : Z }.

(** Every callable object that the sources store or pass to [RunInLoop]. *)
Inductive Callback :=
  | EventLoop_handleRead                        (* eventloop.cc:44 *)
  | TimerQueue_HandleRead                       (* timer_queue.cc:64 *)
  | Acceptor_handleRead                         (* acceptor.cc:19 *)
  | TcpConnection_HandleRead (c : conn_id)      (* tcp_connection.cc:21 *)
  | TcpConnection_HandleWrite (c : conn_id)     (* tcp_connection.cc:24 *)
  | TcpConnection_HandleClose (c : conn_id)     (* tcp_connection.cc:26 *)
  | TimerQueue_addTimer (f : frame_id)          (* timer_queue.cc:101, captures by reference *)
  | TcpConnection_sendInLoop (c : conn_id) (s : str_id) (* tcp_connection.cc:102, by reference *)
  | TcpConnection_shutdownInLoop (c : conn_id)  (* tcp_connection.cc:146 *)
  | TcpConnection_ConnectDestroyed (c : conn_id) (* tcp_server.cc:28 and :61, owns a reference *)
  | WriteComplete (u : nat) (c : conn_id)       (* tcp_connection.cc:119 and :169, owns a reference *)
  | User (u : nat).                             (* a functor of the application *)

#[export] Instance Callback_eq_dec : EqDecision Callback.
Proof. solve_decision. Defined.

(** ** net/timer_queue.h *)

Record TimerQueue := mkTimerQueue {
  timerfd_ : Z;
  timerfd_channel_ : chan_id;
  (* std::multimap<Timestamp, std::unique_ptr<Timer>> in iteration order *)
  timers_ : list (Timestamp * Timer Callback)
}.

(** ** net/eventloop.h *)

Record EventLoop := mkEventLoop {
  this_ : nat; (* the address of the loop *)
  looping_ : bool;
  quit_ : bool;
  callingPendingFunctors_ : bool;
  threadId_ : Z;
  poller : Poller;
  active_channels_ : list chan_id;
  timer_queue : TimerQueue; (* the field [timers_] *)
  wakeup_fd_ : Z;
  wakeup_channel_ : chan_id;
  functors_ : list Callback
}.

(** ** net/tcp_connection.h *)

Inductive State := kConnecting | kConnected | kDisconnecting | kDisconnected.

#[export] Instance State_eq_dec : EqDecision State.
Proof. solve_decision. Defined.

(** The close callback is installed by [TcpServer] or by the application. *)
Inductive CloseCallback :=
  | TcpServer_removeConnection (* tcp_server.cc:52 *)
  | UserClose (u : nat).

Record TcpConnection := mkTcpConnection {
  name_ : bytes;
  state_ : State;
  socket_ : Z; (* the descriptor owned by the Socket *)
  channel_ : chan_id;
  local_addr_ : sockaddr_in;
  remote_addr_ : sockaddr_in;
  conn_callback_ : option nat;
  msg_callback_ : option nat;
  conn_close_callback_ : option CloseCallback;
  write_complete_callback_ : option nat;
  rev_buffer_ : Buffer.Buffer;
  snd_buffer_ : Buffer.Buffer;
  use_count : Z (* of the shared_ptr control block *)
}.

(** ** net/acceptor.h and net/tcp_server.h *)

Inductive NewConnectionCallback :=
  | TcpServer_newConnection (* tcp_server.cc:34 *)
  | UserNewConnection (u : nat).

Record Acceptor := mkAcceptor {
  listen_socket_ : Z;
  listen_channel_ : chan_id;
  new_conn_callback_ : option NewConnectionCallback
}.

Record TcpServer := mkTcpServer {
  server_name_ : bytes;
  server_conn_callback_ : option nat;
  server_msg_callback_ : option nat;
  server_wc_callback_ : option nat;
  next_conn_id_ : Z;
  listen_addr_ : sockaddr_in;
  connections_ : gmap bytes conn_id
}.

(** ** System calls

    The history has the system calls of the program and, in their place among
    them, the stores of a thread that other threads of the loop can see: a
    functor appended to the queue, and the flag that asks the loop to quit. *)

Inductive sys_event :=
  | EvPush (cb : Callback)
  | EvQuit
  | EvGettimeofday
  | EvPoll (nfds : Z)
  | EvRead (fd : Z)
  | EvReadv (fd : Z) (r : Buffer.readv_result)
  | EvWrite (fd : Z) (d : bytes) (n : Z)
  | EvSettime (fd : Z) (tv_sec tv_nsec : Z)
  | EvAccept (fd connfd : Z)
  | EvSocket (fd : Z)
  | EvBind (fd : Z) (a : sockaddr_in)
  | EvListen (fd : Z)
  | EvShutdown (fd : Z)
  | EvClose (fd : Z).

Abbreviation history := (list sys_event).

Class Kernel := {
  k_gettimeofday : history → Z * Z;
  (** number of ready descriptors and the [revents] stored *)
  k_poll : history → list pollfd → Z → Z * list Z;
  (** return value and errno *)
  k_write : history → Z → bytes → Z * Z;
  k_read : history → Z → Z → Z;
  k_readv : history → Z → list Z → Buffer.readv_result;
  k_accept : history → Z → Z * sockaddr_in;
  k_settime : history → Z → Z;
  k_eventfd : history → Z;
  k_timerfd : history → Z;
  k_socket : history → Z;
  k_bind : history → Z → sockaddr_in → Z;
  k_listen : history → Z → Z;
  k_shutdown : history → Z → Z
}.

(** ** The world *)

Record World := mkWorld {
  tid : Z; (* this_thread::tid() of the running thread *)
  t_loopInThisThread : bool; (* is the thread-local pointer set? *)
  loop : EventLoop;
  chans : gmap chan_id (Channel Callback);
  conns : gmap conn_id TcpConnection;
  acceptor_ : Acceptor;
  server : TcpServer;
  (* stack frames of TimerQueue::AddTimer that lambdas refer to *)
  frames : gmap frame_id (Callback * Timestamp * double);
  (* the std::string objects of the application that [Send] gets a reference to *)
  strings : gmap str_id bytes;
  next_addr : nat;
  CreatedNum_ : Z;
  hist : history (* newest first *)
}.

#[export] Instance eta_TimerQueue : Eta TimerQueue := fun q =>
  mkTimerQueue (timerfd_ q) (timerfd_channel_ q) (timers_ q).
#[export] Instance eta_EventLoop : Eta EventLoop := fun l =>
  mkEventLoop (this_ l) (looping_ l) (quit_ l) (callingPendingFunctors_ l) (threadId_ l)
    (poller l) (active_channels_ l) (timer_queue l) (wakeup_fd_ l) (wakeup_channel_ l)
    (functors_ l).
#[export] Instance eta_TcpConnection : Eta TcpConnection := fun c =>
  mkTcpConnection (name_ c) (state_ c) (socket_ c) (channel_ c) (local_addr_ c)
    (remote_addr_ c) (conn_callback_ c) (msg_callback_ c) (conn_close_callback_ c)
    (write_complete_callback_ c) (rev_buffer_ c) (snd_buffer_ c) (use_count c).
#[export] Instance eta_Acceptor : Eta Acceptor := fun a =>
  mkAcceptor (listen_socket_ a) (listen_channel_ a) (new_conn_callback_ a).
#[export] Instance eta_TcpServer : Eta TcpServer := fun s =>
  mkTcpServer (server_name_ s) (server_conn_callback_ s) (server_msg_callback_ s)
    (server_wc_callback_ s) (next_conn_id_ s) (listen_addr_ s) (connections_ s).
#[export] Instance eta_World : Eta World := fun w =>
  mkWorld (tid w) (t_loopInThisThread w) (loop w) (chans w) (conns w) (acceptor_ w) (server w) (frames w)
    (strings w) (next_addr w) (CreatedNum_ w) (hist w).

(** The monad the operations of net/ run in. *)
Abbreviation MW := (M World).

(** The callbacks of the application, by the number the sources' function
    objects carry here; the message callback reads the connection's receive
    buffer through the pointer it is given. *)
Class App := {
  app_run : nat → MW unit;
  app_connection : nat → conn_id → MW unit;
  app_message : nat → conn_id → Timestamp → MW unit;
  app_write_complete : nat → conn_id → MW unit;
  app_close : nat → conn_id → MW unit;
  app_new_connection : nat → Z → sockaddr_in → MW unit
}.

(** ** Access to the parts *)

Definition gets {A} (f : World → A) : MW A := fun w => Ok (f w, w).

Definition mod_loop (f : EventLoop → EventLoop) : MW unit :=
  mmod (fun w : World => w <| loop := f (loop w) |>).
Definition mod_chans (f : gmap chan_id (Channel Callback) → gmap chan_id (Channel Callback)) : MW unit :=
  mmod (fun w : World => w <| chans := f (chans w) |>).
Definition mod_server (f : TcpServer → TcpServer) : MW unit :=
  mmod (fun w : World => w <| server := f (server w) |>).
Definition mod_timers (f : list (Timestamp * Timer Callback) → list (Timestamp * Timer Callback))
    : MW unit :=
  mod_loop (fun l : EventLoop =>
    l <| timer_queue := (timer_queue l) <| timers_ := f (timers_ (timer_queue l)) |> |>).

Definition get_chan (c : chan_id) : MW (Channel Callback) :=
  fun w => match chans w !! c with Some ch => Ok (ch, w) | None => Err (UseAfterFree "Channel") end.
Definition get_conn (c : conn_id) : MW TcpConnection :=
  fun w => match conns w !! c with Some cn => Ok (cn, w) | None => Err (UseAfterFree "TcpConnection") end.
Definition get_str (s : str_id) : MW bytes :=
  fun w => match strings w !! s with Some m => Ok (m, w) | None => Err (UseAfterFree "std::string") end.
Definition mod_conn (c : conn_id) (f : TcpConnection → TcpConnection) : MW unit :=
  cn ← get_conn c; mmod (fun w : World => w <| conns := <[c := f cn]> (conns w) |>).
Definition mod_chan (c : chan_id) (f : Channel Callback → Channel Callback) : MW unit :=
  ch ← get_chan c; mod_chans (insert c (f ch)).

(** ** shared_ptr<TcpConnection>

    Copying the pointer increments [use_count]; destroying the last copy runs
    [~TcpConnection], which asserts the state and destroys the channel and the
    socket the connection owns. *)
Definition conn_acquire (c : conn_id) : MW unit :=
  mod_conn c (fun cn : TcpConnection => cn <| use_count := use_count cn + 1 |>).

Definition TcpConnection_dtor (c : conn_id) (cn : TcpConnection) : MW unit :=
  massert (bool_decide (state_ cn = kDisconnected)) "tcp_connection.cc:30" ;;
  mod_chans (delete (channel_ cn)) ;;
  mmod (fun w : World => w <| hist := EvClose (socket_ cn) :: hist w |>) ;;
  mmod (fun w : World => w <| conns := delete c (conns w) |>).

Definition conn_release (c : conn_id) : MW unit :=
  cn ← get_conn c;
  if use_count cn - 1 =? 0 then TcpConnection_dtor c cn
  else mod_conn c (fun cn : TcpConnection => cn <| use_count := use_count cn - 1 |>).

(** The connection a bind expression holds a reference to. *)
Definition cb_owner (cb : Callback) : option conn_id :=
  match cb with
  | TcpConnection_ConnectDestroyed c | WriteComplete _ c => Some c
  | _ => None
  end.
Definition cb_copy (cb : Callback) : MW unit :=
  match cb_owner cb with Some c => conn_acquire c | None => mret tt end.
Definition cb_destroy (cb : Callback) : MW unit :=
  match cb_owner cb with Some c => conn_release c | None => mret tt end.

(** A fresh address, for [new], [make_unique] or a stack frame. *)
Definition fresh : MW nat :=
  a ← gets next_addr; mmod (fun w : World => w <| next_addr := S a |>) ;; mret a.

Definition log (e : sys_event) : MW unit := mmod (fun w : World => w <| hist := e :: hist w |>).

(** Calling a [std::function] that may be empty. *)
Definition call_opt {A} (f : A → MW unit) (o : option A) : MW unit :=
  match o with Some a => f a | None => mret tt end.

(** ** System calls as the code issues them *)
Section Syscalls.
Context `{Kernel}.

Definition sys_gettimeofday : MW (Z * Z) :=
  h ← gets hist; log EvGettimeofday ;; mret (k_gettimeofday h).

(** [Timestamp::now()] *)
Definition now : MW Timestamp :=
  tv ← sys_gettimeofday; mlift (Timestamp_now tv.1 tv.2).

Definition sys_write (fd : Z) (d : bytes) : MW (Z * Z) :=
  h ← gets hist; let r := k_write h fd d in log (EvWrite fd d r.1) ;; mret r.

Definition sys_read (fd : Z) (n : Z) : MW Z :=
  h ← gets hist; log (EvRead fd) ;; mret (k_read h fd n).

Definition sys_settime (fd tv_sec tv_nsec : Z) : MW Z :=
  h ← gets hist; log (EvSettime fd tv_sec tv_nsec) ;; mret (k_settime h fd).

Definition sys_readv (fd : Z) (vec : list Z) : MW Buffer.readv_result :=
  h ← gets hist; let r := k_readv h fd vec in log (EvReadv fd r) ;; mret r.

Definition sys_shutdown (fd : Z) : MW Z :=
  h ← gets hist; log (EvShutdown fd) ;; mret (k_shutdown h fd).

Definition sys_socket : MW Z := h ← gets hist; let r := k_socket h in log (EvSocket r) ;; mret r.

Definition sys_bind (fd : Z) (a : sockaddr_in) : MW Z :=
  h ← gets hist; log (EvBind fd a) ;; mret (k_bind h fd a).

Definition sys_listen (fd : Z) : MW Z := h ← gets hist; log (EvListen fd) ;; mret (k_listen h fd).

Definition sys_accept (fd : Z) : MW (Z * sockaddr_in) :=
  h ← gets hist; let r := k_accept h fd in log (EvAccept fd r.1) ;; mret r.

Definition sys_poll (pfds : list pollfd) (timeout : Z) : MW (Z * list Z) :=
  h ← gets hist; log (EvPoll (len pfds)) ;; mret (k_poll h pfds timeout).
End Syscalls.

(** ** A concrete kernel and an empty world, for examples

    The clock starts at 1000 s and advances one microsecond per system call
    for a second;
    writes are accepted whole, reads return what was asked for, and new
    descriptors are numbered from the length of the history. *)
Definition ex_kernel : Kernel := {|
  k_gettimeofday h := (1000, Z.min 999999 (len h));
  k_poll h pfds _ := (0, replicate (length pfds) 0);
  k_write _ _ d := (len d, 0);
  k_read _ _ n := n;
  k_readv _ _ vec := Buffer.readv_queue (b_ "ping") vec;
  k_accept h _ := (len h + 100, mkSockaddr 2 16777343 20480);
  k_settime _ _ := 0;
  k_eventfd h := len h + 50;
  k_timerfd h := len h + 40;
  k_socket h := len h + 60;
  k_bind _ _ _ := 0;
  k_listen _ _ := 0;
  k_shutdown _ _ := 0
|}.

(** An event loop of thread 1 before anything is registered. *)
Definition ex_world : World :=
  mkWorld 1 false
    (mkEventLoop 0 false false false 1 Poller.Poller_new [] (mkTimerQueue 4 0 []) 5 1 [])
    ∅ ∅ (mkAcceptor 6 2 None)
    (mkTcpServer (b_ "test") None None None 0 (mkSockaddr 2 0 0) ∅) ∅ ∅ 10 0 [].
