(* ===== verification/EventLoop.v ===== *)
(** * The event loop (net/eventloop.h, net/eventloop.cc) and the channel
    operations that go through it (net/channel.h, net/channel.cc)

    The operations run in the state-and-fault monad over [World]; those that
    call back take [invoke].  The loop itself is bounded by fuel, one unit per
    iteration of [while (!quit_)].  [HandleEvent_dispatch] shows that handling
    an event is running the callbacks a reference definition selects.  The last
    part of the section evaluates registration and the change of event masks in
    the loop thread, for the components that own channels. *)

From S2P Require Import Prelude Slice Buffer Timestamp Poller World.

Section EventLoop.
Context `{Kernel} (invoke : Callback → MW unit).

Definition isInLoopThread : MW bool := gets (fun w => threadId_ (loop w) =? tid w).

(** [assertInLoopThread()] with [abortNotInLoopThread()] *)
Definition assertInLoopThread : MW unit :=
  b ← isInLoopThread;
  if b : bool then mret tt else mfail (RuntimeError "abortNotInLoopThread()").

(** [EventLoop::update]: register/delete, through [Poller::UpdateChannel] *)
Definition update (c : chan_id) : MW unit :=
  ch ← get_chan c;
  l ← gets loop;
  massert (Nat.eqb (loop_ ch) (this_ l)) "eventloop.cc:86" ;;
  assertInLoopThread ;;
  assertInLoopThread ;; (* poller.cc:55 *)
  w ← mget;
  r ← mlift (Poller.UpdateChannel (poller (loop w)) (chans w) c);
  mod_loop (fun l : EventLoop => l <| poller := r.1 |>) ;;
  mod_chans (fun _ => r.2).

(** ** [Channel] *)

Definition EnableReading (c : chan_id) : MW unit := mod_chan c Channel.events_reading ;; update c.
Definition EnableWriting (c : chan_id) : MW unit := mod_chan c Channel.events_writing ;; update c.
Definition DisableWriting (c : chan_id) : MW unit := mod_chan c Channel.events_no_writing ;; update c.
Definition DisbaleAll (c : chan_id) : MW unit := mod_chan c Channel.events_none ;; update c.

Definition has (events mask : Z) : bool := negb (Z.land events mask =? 0).

(** [Channel::HandleEvent]: the member [revents_] is read again after every
    callback. *)
Definition HandleEvent (c : chan_id) : MW unit :=
  ch ← get_chan c;
  if has (revents_ ch) POLLHUP && bool_decide (is_Some (close_callback_ ch)) then
    call_opt invoke (close_callback_ ch)
  else
    (if has (revents_ ch) (Z.lor POLLERR POLLNVAL) then call_opt invoke (error_callback_ ch)
     else mret tt) ;;
    ch ← get_chan c;
    (if has (revents_ ch) (Z.lor POLLIN (Z.lor POLLPRI POLLRDHUP))
     then call_opt invoke (read_callback_ ch) else mret tt) ;;
    ch ← get_chan c;
    if has (revents_ ch) POLLOUT then call_opt invoke (write_callback_ ch) else mret tt.

(** ** Waking up and work queue *)

(** The eight bytes of [uint64_t one = 1] *)
Definition one8 : bytes :=
  [Byte.x01; Byte.x00; Byte.x00; Byte.x00; Byte.x00; Byte.x00; Byte.x00; Byte.x00].

(** [wakeup()] and [handleRead()]: a short count is only logged. *)
Definition wakeup : MW unit :=
  l ← gets loop; _ ← sys_write (wakeup_fd_ l) one8; mret tt.
Definition handleRead : MW unit :=
  l ← gets loop; _ ← sys_read (wakeup_fd_ l) 8; mret tt.

(** [quit_ = true] *)
Definition set_quit : MW unit :=
  mod_loop (fun l : EventLoop => l <| quit_ := true |>) ;; log EvQuit.

Definition quit : MW unit := set_quit ;; wakeup.

(** [functors_.push_back(cb)] in the critical section of [RunInLoop] *)
Definition push_functor (cb : Callback) : MW unit :=
  mod_loop (fun l : EventLoop => l <| functors_ := functors_ l ++ [cb] |>) ;; log (EvPush cb).

(** [RunInLoop(const Functor &cb)]: in the loop thread at once, else queued
    as a copy and followed by a wake-up. *)
Definition RunInLoop (cb : Callback) : MW unit :=
  b ← isInLoopThread;
  if b : bool then invoke cb
  else
    cb_copy cb ;;
    push_functor cb ;;
    wakeup.

(** [doPendingFunctors()]: the queue is swapped out under the lock, then run;
    the vector of functors dies at the end. *)
Definition doPendingFunctors : MW unit :=
  works ← gets (fun w => functors_ (loop w));
  mod_loop (fun l : EventLoop => l <| functors_ := @nil Callback |>) ;;
  mfor invoke works ;;
  mfor cb_destroy works.

(** [poller->Poll(-1, &active_channels_)] *)
Definition loop_poll : MW Timestamp :=
  w ← mget;
  r ← sys_poll (pollfds_ (poller (loop w))) (-1);
  t ← now;
  w ← mget;
  q ← mlift (Poller.Poll (poller (loop w)) (chans w) r.1 r.2 (active_channels_ (loop w)));
  mod_loop (fun l : EventLoop => l <| poller := q.1.1 |>) ;;
  mod_loop (fun l : EventLoop => l <| active_channels_ := q.2 |>) ;;
  mod_chans (fun _ => q.1.2) ;;
  mret t.

(** One iteration of [while (!quit_)] *)
Definition loop_body : MW unit :=
  mod_loop (fun l : EventLoop => l <| active_channels_ := @nil chan_id |>) ;;
  _ ← loop_poll;
  active ← gets (fun w => active_channels_ (loop w));
  mfor HandleEvent active ;;
  doPendingFunctors.

Fixpoint loop_while (fuel : nat) : MW unit :=
  q ← gets (fun w => quit_ (loop w));
  if q : bool then mret tt
  else match fuel with
       | O => mfail OutOfFuel
       | S f => loop_body ;; loop_while f
       end.

(** [EventLoop::loop()] *)
Definition run_loop (fuel : nat) : MW unit :=
  l ← gets loop;
  massert (negb (looping_ l)) "eventloop.cc:57" ;;
  assertInLoopThread ;;
  mod_loop (fun l : EventLoop => l <| looping_ := true |>) ;;
  mod_loop (fun l : EventLoop => l <| quit_ := false |>) ;;
  loop_while fuel ;;
  mod_loop (fun l : EventLoop => l <| looping_ := false |>).

(** ** Reference definition of the dispatch *)

Definition dispatch (ch : Channel Callback) : list Callback :=
  if has (revents_ ch) POLLHUP && bool_decide (is_Some (close_callback_ ch))
  then option_list (close_callback_ ch)
  else
    (if has (revents_ ch) (Z.lor POLLERR POLLNVAL) then option_list (error_callback_ ch) else []) ++
    (if has (revents_ ch) (Z.lor POLLIN (Z.lor POLLPRI POLLRDHUP))
     then option_list (read_callback_ ch) else []) ++
    (if has (revents_ ch) POLLOUT then option_list (write_callback_ ch) else []).

(** What [HandleEvent] reads of the channel. *)
Definition same_handlers (ch ch' : Channel Callback) : Prop :=
  revents_ ch = revents_ ch' ∧ read_callback_ ch = read_callback_ ch' ∧
  write_callback_ ch = write_callback_ ch' ∧ error_callback_ ch = error_callback_ ch' ∧
  close_callback_ ch = close_callback_ ch'.

(** ** Lemmas *)

Lemma mfor_app {S A} (f : A → M S unit) l k s :
  mfor f (l ++ k) s = (mfor f l ;; mfor f k) s.
Proof.
  revert s. induction l as [|a l IH]; intros s; [done|]. cbn.
  unfold mbind, M_bind in *. destruct (f a s) as [[[] s1]|]; [|done]. apply IH.
Qed.

Lemma mfor_option_list (o : option Callback) w :
  mfor invoke (option_list o) w = call_opt invoke o w.
Proof.
  destruct o as [cb|]; [|done]. cbn. unfold mbind, M_bind.
  by destruct (invoke cb w) as [[[] ?]|].
Qed.

(** One guarded call of [HandleEvent]. *)
Lemma guarded_call (b : bool) (o : option Callback) w :
  (if b then call_opt invoke o else mret tt) w =
  mfor invoke (if b then option_list o else []) w.
Proof. destruct b; [by rewrite mfor_option_list|done]. Qed.

Lemma get_chan_Ok c w ch : chans w !! c = Some ch → get_chan c w = Ok (ch, w).
Proof. unfold get_chan. by intros ->. Qed.

(** Callbacks that leave the channel's handlers alone. *)
Definition keeps_channel (c : chan_id) (cbs : list Callback) : Prop :=
  ∀ cb w w' ch, cb ∈ cbs → chans w !! c = Some ch → invoke cb w = Ok (tt, w') →
    ∃ ch', chans w' !! c = Some ch' ∧ same_handlers ch ch'.

Lemma mfor_keeps c cbs w w' ch :
  keeps_channel c cbs → chans w !! c = Some ch → mfor invoke cbs w = Ok (tt, w') →
  ∃ ch', chans w' !! c = Some ch' ∧ same_handlers ch ch'.
Proof.
  revert w ch. induction cbs as [|cb cbs IH]; intros w ch Hk Hc Hf; cbn in Hf.
  { inv_ok. exists ch. by repeat split. }
  apply M_bind_Ok in Hf as ([] & w1 & H1 & H2).
  destruct (Hk cb w w1 ch) as (ch1 & Hc1 & Hs1); [by constructor|done..|].
  destruct (IH w1 ch1) as (ch2 & ? & Hs2); [|done..|].
  { intros cb' ????. apply Hk. by constructor. }
  exists ch2. unfold same_handlers in *. intuition congruence.
Qed.

Lemma keeps_channel_sub c l k : keeps_channel c k → l ⊆ k → keeps_channel c l.
Proof. intros Hk Hs cb w w' ch Hin. apply Hk. by apply Hs. Qed.

Lemma HandleEvent_mfor c w ch :
  chans w !! c = Some ch → keeps_channel c (dispatch ch) →
  HandleEvent c w = mfor invoke (dispatch ch) w.
Proof.
  intros Hc Hk. unfold HandleEvent. rewrite (M_bind_eq _ _ _ _ _ (get_chan_Ok _ _ _ Hc)).
  unfold dispatch in *. destruct (_ && _); [by rewrite mfor_option_list|].
  set (errs := if has (revents_ ch) (Z.lor POLLERR POLLNVAL) then _ else _) in *.
  set (reads := if has (revents_ ch) (Z.lor POLLIN _) then _ else _) in *.
  rewrite mfor_app, !M_bind_unfold, guarded_call. fold errs.
  destruct (mfor invoke errs w) as [[[] w1]|e] eqn:He; [|done].
  destruct (mfor_keeps c errs w w1 ch) as (ch1 & Hc1 & Hs1);
    [eapply keeps_channel_sub; [done|set_solver]|done..|].
  rewrite (M_bind_eq _ _ _ _ _ (get_chan_Ok _ _ _ Hc1)).
  destruct Hs1 as (Hr & Hrd & Hwr & _). rewrite <-Hr, <-Hrd.
  rewrite mfor_app, !M_bind_unfold, guarded_call. fold reads.
  destruct (mfor invoke reads w1) as [[[] w2]|e] eqn:Hre; [|done].
  destruct (mfor_keeps c reads w1 w2 ch1) as (ch2 & Hc2 & Hs2);
    [eapply keeps_channel_sub; [done|set_solver]|done..|].
  rewrite (M_bind_eq _ _ _ _ _ (get_chan_Ok _ _ _ Hc2)).
  destruct Hs2 as (Hr2 & _ & Hwr2 & _). rewrite <-Hr2, <-Hwr2, <-Hr, <-Hwr.
  apply guarded_call.
Qed.

(** The loop leaves its [while] only through [quit_]. *)
Lemma loop_while_quit fuel w w' :
  loop_while fuel w = Ok (tt, w') → quit_ (loop w') = true.
Proof.
  revert w. induction fuel as [|f IH]; intros w Hw; cbn in Hw;
    apply M_bind_Ok in Hw as (q & w1 & Hq & Hw); injection Hq as <- <-;
    destruct (quit_ (loop w)) eqn:E.
  - by inv_ok.
  - done.
  - by inv_ok.
  - apply M_bind_Ok in Hw as ([] & w1 & _ & Hw). eauto.
Qed.

Lemma loop_while_fuel fuel k w r :
  loop_while fuel w = r → r ≠ Err OutOfFuel → loop_while (fuel + k) w = r.
Proof.
  revert w. induction fuel as [|f IH]; intros w Hw Hr.
  - cbn in Hw. unfold mbind, M_bind, gets in Hw. destruct (quit_ (loop w)) eqn:E; [|done].
    destruct k; cbn; unfold mbind, M_bind, gets; by rewrite E.
  - cbn in Hw |- *. unfold mbind, M_bind, gets in *. destruct (quit_ (loop w)); [done|].
    destruct (loop_body w) as [[[] w1]|]; [|done]. by apply IH.
Qed.

Lemma assertInLoopThread_true w :
  threadId_ (loop w) = tid w → assertInLoopThread w = Ok (tt, w).
Proof.
  intros E. unfold assertInLoopThread, isInLoopThread, gets, mbind, M_bind.
  by rewrite E, Z.eqb_refl.
Qed.

Lemma assertInLoopThread_false w :
  threadId_ (loop w) ≠ tid w →
  assertInLoopThread w = Err (RuntimeError "abortNotInLoopThread()").
Proof.
  intros E. unfold assertInLoopThread, isInLoopThread, gets, mbind, M_bind.
  by rewrite (proj2 (Z.eqb_neq _ _) E).
Qed.

(** The world after a functor was queued from another thread. *)
Definition queued (cb : Callback) (w : World) : World :=
  let fd := wakeup_fd_ (loop w) in let h := EvPush cb :: hist w in
  w <| loop := (loop w) <| functors_ := functors_ (loop w) ++ [cb] |> |>
    <| hist := EvWrite fd one8 (k_write h fd one8).1 :: h |>.

Lemma RunInLoop_copied_eval cb w w1 :
  threadId_ (loop w) ≠ tid w → cb_copy cb w = Ok (tt, w1) → RunInLoop cb w = Ok (tt, queued cb w1).
Proof.
  intros Hthr Hcopy. unfold RunInLoop. rewrite M_bind_unfold. cbv beta iota delta [isInLoopThread gets].
  rewrite (proj2 (Z.eqb_neq _ _) Hthr). by rewrite (M_bind_eq _ _ _ _ _ Hcopy).
Qed.

Lemma RunInLoop_other_eval cb w :
  threadId_ (loop w) ≠ tid w → cb_owner cb = None → RunInLoop cb w = Ok (tt, queued cb w).
Proof. intros Hthr Hown. apply RunInLoop_copied_eval; [done|]. unfold cb_copy. by rewrite Hown. Qed.

(** Copying a functor takes a reference to the connection it is bound to. *)
Lemma cb_copy_frame cb w :
  (∀ c, cb_owner cb = Some c → is_Some (conns w !! c)) →
  ∃ cs, cb_copy cb w = Ok (tt, w <| conns := cs |>).
Proof.
  intros Hc. unfold cb_copy, conn_acquire, mod_conn. destruct (cb_owner cb) as [c|].
  - destruct (Hc c eq_refl) as [cn E]. eexists. rewrite (M_bind_eq _ _ w cn w); [done|]. unfold get_conn. by rewrite E.
  - exists (conns w). by destruct w.
Qed.

Lemma RunInLoop_here_eval cb w :
  threadId_ (loop w) = tid w → RunInLoop cb w = invoke cb w.
Proof.
  intros Hthr. unfold RunInLoop. rewrite M_bind_unfold. cbv beta iota delta [isInLoopThread gets].
  by rewrite Hthr, Z.eqb_refl.
Qed.

(** ** Registration, evaluated *)

(** Channel [c] of world [w] is registered: its own entry of the array. *)
Record registered (c : chan_id) (w : World) (ch : Channel Callback) (pfd : pollfd) : Prop := {
  rg_thread : threadId_ (loop w) = tid w;
  rg_chan : chans w !! c = Some ch;
  rg_loop : loop_ ch = this_ (loop w);
  rg_map : channels_ (poller (loop w)) !! fd_ ch = Some c;
  rg_idx : 0 ≤ index_ ch;
  rg_entry : pollfds_ (poller (loop w)) !! Z.to_nat (index_ ch) = Some pfd;
  rg_fd : pfd_fd pfd = fd_ ch;
  rg_events : pfd_events pfd = i16 (events_ ch);
  rg_len : len (pollfds_ (poller (loop w))) < 2 ^ 31
}.

(** The world after the event mask of a registered channel became [e]. *)
Definition with_events (c : chan_id) (ch : Channel Callback) (e : Z) (w : World) : World :=
  let p := poller (loop w) in
  let p' := if e =? 0
    then mkPoller (delete (Z.to_nat (index_ ch)) (pollfds_ p)) (delete (fd_ ch) (channels_ p))
    else mkPoller (<[Z.to_nat (index_ ch) := mkpollfd (fd_ ch) (i16 e) 0]> (pollfds_ p)) (channels_ p) in
  w <| loop := (loop w) <| poller := p' |> |> <| chans := <[c := Channel.set_events e ch]> (chans w) |>.

(** Channel [c] is registered, but its index is stale: the entry there is that
    of another descriptor, or there is none. *)
Record stale_index (c : chan_id) (w : World) (ch : Channel Callback) : Prop := {
  si_thread : threadId_ (loop w) = tid w;
  si_chan : chans w !! c = Some ch;
  si_loop : loop_ ch = this_ (loop w);
  si_map : channels_ (poller (loop w)) !! fd_ ch = Some c;
  si_idx : 0 ≤ index_ ch;
  si_entry : ∀ pfd, pollfds_ (poller (loop w)) !! Z.to_nat (index_ ch) = Some pfd →
    pfd_fd pfd ≠ fd_ ch ∧ pfd_fd pfd ≠ -1;
  si_len : len (pollfds_ (poller (loop w))) < 2 ^ 31
}.

(** Every [Enable]/[Disable] operation: change the mask, then [update()]. *)
Lemma mask_then_update c w ch (f : Channel Callback → Channel Callback) e p' h' :
  threadId_ (loop w) = tid w → chans w !! c = Some ch → loop_ ch = this_ (loop w) →
  f ch = Channel.set_events e ch →
  Poller.UpdateChannel (poller (loop w)) (<[c := Channel.set_events e ch]> (chans w)) c = Ok (p', h') →
  (mod_chan c f ;; update c) w = Ok (tt, w <| loop := (loop w) <| poller := p' |> |> <| chans := h' |>).
Proof.
  intros Hthr Hc Hl Hfe Hup.
  unfold mod_chan. rewrite M_bind_unfold, (M_bind_eq _ _ _ _ _ (get_chan_Ok _ _ _ Hc)).
  cbn [mod_chans mmod]. rewrite Hfe. set (ch' := Channel.set_events e ch) in *.
  set (w1 := w <| chans := <[c := ch']> (chans w) |>).
  assert (Hc1 : chans w1 !! c = Some ch') by apply lookup_insert_eq.
  unfold update. rewrite (M_bind_eq _ _ _ _ _ (get_chan_Ok _ _ _ Hc1)).
  rewrite (M_bind_eq _ _ w1 (loop w1) w1) by done.
  rewrite (M_bind_eq _ _ w1 tt w1) by (unfold massert; cbn; by rewrite Hl, Nat.eqb_refl).
  rewrite !(M_bind_eq _ _ _ _ _ (assertInLoopThread_true w1 Hthr)).
  rewrite (M_bind_eq _ _ w1 w1 w1) by done.
  change (poller (loop w1)) with (poller (loop w)). change (chans w1) with (<[c := ch']> (chans w)).
  by rewrite Hup.
Qed.

(** ... and when the poller refuses the update *)
Lemma change_mask_fails c w ch (f : Channel Callback → Channel Callback) e er :
  threadId_ (loop w) = tid w → chans w !! c = Some ch → loop_ ch = this_ (loop w) →
  f ch = Channel.set_events e ch →
  Poller.UpdateChannel (poller (loop w)) (<[c := Channel.set_events e ch]> (chans w)) c = Err er →
  (mod_chan c f ;; update c) w = Err er.
Proof.
  intros Hthr Hc Hl Hfe Hup.
  unfold mod_chan. rewrite M_bind_unfold, (M_bind_eq _ _ _ _ _ (get_chan_Ok _ _ _ Hc)).
  cbn [mod_chans mmod]. rewrite Hfe. set (ch' := Channel.set_events e ch) in *.
  set (w1 := w <| chans := <[c := ch']> (chans w) |>).
  assert (Hc1 : chans w1 !! c = Some ch') by apply lookup_insert_eq.
  unfold update. rewrite (M_bind_eq _ _ _ _ _ (get_chan_Ok _ _ _ Hc1)).
  rewrite (M_bind_eq _ _ w1 (loop w1) w1) by done.
  rewrite (M_bind_eq _ _ w1 tt w1) by (unfold massert; cbn; by rewrite Hl, Nat.eqb_refl).
  rewrite !(M_bind_eq _ _ _ _ _ (assertInLoopThread_true w1 Hthr)).
  rewrite (M_bind_eq _ _ w1 w1 w1) by done.
  change (poller (loop w1)) with (poller (loop w)). change (chans w1) with (<[c := ch']> (chans w)).
  by rewrite Hup.
Qed.

Lemma stale_change_mask c w ch (f : Channel Callback → Channel Callback) e :
  stale_index c w ch → f ch = Channel.set_events e ch →
  (mod_chan c f ;; update c) w =
    Err (AssertFailed (if index_ ch <? len (pollfds_ (poller (loop w))) then "poller.cc:76" else "poller.cc:73")).
Proof.
  intros [Hthr Hc Hl Hm Hi He Hlen] Hfe. apply (change_mask_fails c w ch f e); [done..|].
  unfold Poller.UpdateChannel. rewrite lookup_insert_eq. cbn [deref mbind res_bind].
  change (index_ (Channel.set_events e ch)) with (index_ ch).
  change (fd_ (Channel.set_events e ch)) with (fd_ ch).
  rewrite (proj2 (Z.ltb_ge _ _)) by lia. rewrite Hm. cbn.
  rewrite (bool_decide_eq_true_2 (Some c = Some c)) by done.
  rewrite (proj2 (Z.leb_le _ _)) by lia. pose proof (len_nonneg (pollfds_ (poller (loop w)))).
  rewrite i32_id by lia. destruct (Z.ltb_spec (index_ ch) (len (pollfds_ (poller (loop w))))) as [Hlt|]; [|done]. cbn.
  destruct (lookup_lt_is_Some_2 (pollfds_ (poller (loop w))) (Z.to_nat (index_ ch))) as [pfd Hp]; [unfold len in *; lia|].
  unfold vec_at. rewrite Hp. cbn. destruct (He pfd Hp) as [H1 H2]. by rewrite !(proj2 (Z.eqb_neq _ _)).
Qed.

Lemma change_mask_eval c w ch pfd (f : Channel Callback → Channel Callback) e :
  registered c w ch pfd → f ch = Channel.set_events e ch →
  (mod_chan c f ;; update c) w = Ok (tt, with_events c ch e w).
Proof.
  intros [Hthr Hc Hl Hm Hi He Hf _ Hlen] Hfe.
  apply mask_then_update with (ch := ch) (e := e); [done..|].
  unfold Poller.UpdateChannel. rewrite lookup_insert_eq. cbn [deref mbind res_bind].
  change (index_ (Channel.set_events e ch)) with (index_ ch).
  change (fd_ (Channel.set_events e ch)) with (fd_ ch).
  assert (Hlt := lookup_lt_Some _ _ _ He).
  rewrite (proj2 (Z.ltb_ge _ _)) by lia. rewrite Hm. cbn.
  rewrite (bool_decide_eq_true_2 (Some c = Some c)) by done.
  rewrite (proj2 (Z.leb_le _ _)) by lia. rewrite i32_id by (unfold len in *; lia).
  rewrite (proj2 (Z.ltb_lt _ _)) by (unfold len in *; lia). cbn.
  unfold vec_at. rewrite He. cbn. rewrite Hf, Z.eqb_refl. cbn.
  unfold Channel.isNoneEvent, Channel.kNoneEvent. cbn.
  destruct (e =? 0); cbn; [|done]. by rewrite delete_insert_same.
Qed.

(** The world after a channel that was not registered asked for events [e]. *)
Definition with_new (c : chan_id) (ch : Channel Callback) (e : Z) (w : World) : World :=
  let p := poller (loop w) in
  w <| loop := (loop w) <| poller :=
         mkPoller (pollfds_ p ++ [mkpollfd (fd_ ch) (i16 e) 0]) (<[fd_ ch := c]> (channels_ p)) |> |>
    <| chans := <[c := Channel.set_index (len (pollfds_ p)) (Channel.set_events e ch)]> (chans w) |>.

Lemma register_eval c w ch (f : Channel Callback → Channel Callback) e :
  threadId_ (loop w) = tid w → chans w !! c = Some ch → loop_ ch = this_ (loop w) → index_ ch < 0 →
  channels_ (poller (loop w)) !! fd_ ch = None → len (pollfds_ (poller (loop w))) < 2 ^ 31 - 1 →
  f ch = Channel.set_events e ch →
  (mod_chan c f ;; update c) w = Ok (tt, with_new c ch e w).
Proof.
  intros Hthr Hc Hl Hi Hm Hlen Hfe. apply mask_then_update with (ch := ch) (e := e); [done..|].
  unfold Poller.UpdateChannel. rewrite lookup_insert_eq. cbn [deref mbind res_bind].
  change (index_ (Channel.set_events e ch)) with (index_ ch).
  change (fd_ (Channel.set_events e ch)) with (fd_ ch).
  rewrite (proj2 (Z.ltb_lt _ _)) by lia. rewrite Hm. cbn. do 2 f_equal.
  rewrite insert_insert_eq. do 2 f_equal.
  replace (len (pollfds_ (poller (loop w)) ++ _) - 1) with (len (pollfds_ (poller (loop w)))) by len_lia.
  rewrite u64_id, i32_id; [done|..]; len_lia.
Qed.

Lemma registered_with_new c w ch e :
  threadId_ (loop w) = tid w → loop_ ch = this_ (loop w) → len (pollfds_ (poller (loop w))) < 2 ^ 31 - 1 →
  registered c (with_new c ch e w) (Channel.set_index (len (pollfds_ (poller (loop w)))) (Channel.set_events e ch))
    (mkpollfd (fd_ ch) (i16 e) 0).
Proof.
  intros Hthr Hl Hlen. pose proof (len_nonneg (pollfds_ (poller (loop w)))).
  split; cbn; try done; [by rewrite lookup_insert_eq|by rewrite lookup_insert_eq| |].
  - unfold len. rewrite Nat2Z.id, lookup_app_r, Nat.sub_diag by lia. done.
  - rewrite len_app, len_cons, len_nil. lia.
Qed.

(** Registering another channel keeps a registration. *)
Lemma registered_with_other c w ch pfd c' ch' e :
  registered c w ch pfd → c ≠ c' → fd_ ch ≠ fd_ ch' → len (pollfds_ (poller (loop w))) < 2 ^ 31 - 1 →
  registered c (with_new c' ch' e w) ch pfd.
Proof.
  intros [Hthr Hc Hl Hm Hi He Hf Hev _] Hne Hfd Hlen.
  split; cbn [with_new loop chans poller threadId_ tid this_ channels_ pollfds_]; try assumption.
  - by rewrite lookup_insert_ne by done.
  - by rewrite lookup_insert_ne by done.
  - by rewrite lookup_app_l by (by eapply lookup_lt_Some).
  - rewrite len_app, len_cons, len_nil. lia.
Qed.

(** A registration depends on the thread, the loop and the channel only. *)
Lemma registered_frame c w w' ch pfd :
  registered c w ch pfd → chans w' !! c = chans w !! c → tid w' = tid w →
  threadId_ (loop w') = threadId_ (loop w) → this_ (loop w') = this_ (loop w) →
  poller (loop w') = poller (loop w) → registered c w' ch pfd.
Proof. intros [] E1 E2 E3 E4 E5. split; by rewrite ?E1, ?E2, ?E3, ?E4, ?E5. Qed.

(** A fresh channel that gets a read handler and asks for read events *)
Lemma read_channel_eval c w ch cb :
  threadId_ (loop w) = tid w → chans w !! c = Some ch → loop_ ch = this_ (loop w) → index_ ch < 0 →
  events_ ch = 0 → channels_ (poller (loop w)) !! fd_ ch = None →
  len (pollfds_ (poller (loop w))) < 2 ^ 31 - 1 →
  let ch' := Channel.SetReadCallback cb ch in
  (mod_chan c (Channel.SetReadCallback cb) ;; EnableReading c) w =
    Ok (tt, with_new c ch' Channel.kReadEvent (w <| chans := <[c := ch']> (chans w) |>)).
Proof.
  intros Hthr Hc Hl Hi He Hm Hlen ch'.
  rewrite (M_bind_eq _ _ w tt (w <| chans := <[c := ch']> (chans w) |>)).
  - apply register_eval; try done; [apply lookup_insert_eq|].
    unfold Channel.events_reading. cbn. by rewrite He.
  - unfold mod_chan. by rewrite (M_bind_eq _ _ _ _ _ (get_chan_Ok _ _ _ Hc)).
Qed.

(** A changed, non-empty mask is what the kernel is asked for from then on. *)
Lemma registered_with_events c w ch pfd e :
  registered c w ch pfd → e ≠ 0 →
  registered c (with_events c ch e w) (Channel.set_events e ch) (mkpollfd (fd_ ch) (i16 e) 0).
Proof.
  intros [Hthr Hc Hl Hm Hi He Hf _ Hlen] Hz. unfold with_events.
  rewrite (proj2 (Z.eqb_neq _ _) Hz). split; cbn; try done.
  - apply lookup_insert_eq.
  - apply list_lookup_insert_eq. by eapply lookup_lt_Some.
  - by rewrite len_insert.
Qed.

End EventLoop.

(** ** Theorems *)

(** C22: on a live channel whose callbacks leave its handlers in place,
    [Channel::HandleEvent] runs exactly the callbacks its [revents] select, in
    the order error, read, write, or the close callback alone after a hang-up;
    the faults of the callbacks are the only faults. *)
Theorem HandleEvent_dispatch (invoke : Callback → MW unit) (c : chan_id) (w : World)
    (ch : Channel Callback) :
  chans w !! c = Some ch → keeps_channel invoke c (dispatch ch) →
  HandleEvent invoke c w = mfor invoke (dispatch ch) w.
Proof. apply HandleEvent_mfor. Qed.

Definition ex_active : Channel Callback :=
  Channel.set_revents (Z.lor POLLIN POLLOUT)
    (Channel.SetWriteCallback (User 8) (Channel.SetReadCallback (User 7) (Channel.Channel_new 0 9))).

Definition ex_active_world : World :=
  let m : gmap chan_id (Channel Callback) := {[3%nat := ex_active]} in ex_world <| chans := m |>.

Lemma HandleEvent_dispatch_witness :
  HandleEvent (fun _ => mret tt) 3 ex_active_world =
  mfor (fun _ => mret tt) [User 7; User 8] ex_active_world.
Proof.
  apply (HandleEvent_dispatch (fun _ => mret tt) 3
           ex_active_world ex_active); [done|].
  intros cb w w' ch _ Hc [= <-]. exists ch. by repeat split.
Defined.

(** A read callback that destroys the channel it was called from, as the
    close of a connection does when the server holds the last reference,
    makes [HandleEvent] read [revents_] of a destroyed object. *)
Lemma HandleEvent_after_free (invoke : Callback → MW unit) (c : chan_id) (w w' : World)
    (ch : Channel Callback) (cb : Callback) :
  chans w !! c = Some ch → read_callback_ ch = Some cb →
  has (revents_ ch) POLLHUP = false → has (revents_ ch) (Z.lor POLLERR POLLNVAL) = false →
  has (revents_ ch) (Z.lor POLLIN (Z.lor POLLPRI POLLRDHUP)) = true →
  invoke cb w = Ok (tt, w') → chans w' !! c = None →
  HandleEvent invoke c w = Err (UseAfterFree "Channel").
Proof.
  intros Hc Hcb Hhup Herr Hin Hinv Hgone. unfold HandleEvent.
  rewrite (M_bind_eq _ _ _ _ _ (get_chan_Ok _ _ _ Hc)), Hhup, Herr. cbn [andb].
  rewrite (M_bind_eq _ _ w tt w) by done.
  rewrite (M_bind_eq _ _ _ _ _ (get_chan_Ok _ _ _ Hc)), Hin, Hcb. cbn [call_opt].
  rewrite (M_bind_eq _ _ _ _ _ Hinv). apply M_bind_Err_eq. unfold get_chan. by rewrite Hgone.
Qed.

(** [RunInLoop] runs the functor at once in the loop thread; from any
    other thread it runs nothing, appends the functor to the end of the queue
    and then issues exactly one eight-byte write to the wake-up descriptor. *)
Theorem RunInLoop_spec `{HK : Kernel} (invoke : Callback → MW unit) (cb : Callback) (w : World) :
  cb_owner cb = None →
  if threadId_ (loop w) =? tid w then RunInLoop invoke cb w = invoke cb w
  else ∃ w' n, RunInLoop invoke cb w = Ok (tt, w') ∧
       functors_ (loop w') = functors_ (loop w) ++ [cb] ∧
       hist w' = EvWrite (wakeup_fd_ (loop w)) one8 n :: EvPush cb :: hist w ∧ len one8 = 8 ∧
       chans w' = chans w ∧ conns w' = conns w ∧ timer_queue (loop w') = timer_queue (loop w).
Proof.
  intros Hown. destruct (Z.eqb_spec (threadId_ (loop w)) (tid w)).
  - by apply RunInLoop_here_eval.
  - rewrite RunInLoop_other_eval by done. by do 2 eexists.
Qed.

Lemma RunInLoop_spec_witness :
  ∃ w' n, RunInLoop (H := ex_kernel) (fun _ => mfail Abort) (User 1) (ex_world <| tid := 2 |>) = Ok (tt, w') ∧
    functors_ (loop w') = [User 1] ∧ hist w' = [EvWrite 5 one8 n; EvPush (User 1)] ∧ len one8 = 8 ∧
    chans w' = ∅ ∧ conns w' = ∅ ∧ timer_queue (loop w') = mkTimerQueue 4 0 [].
Proof.
  by apply (RunInLoop_spec (HK := ex_kernel) (fun _ => mfail Abort) (User 1) (ex_world <| tid := 2 |>)).
Defined.

(** The loop's flags when it enters and leaves [while]. *)
Definition loop_started (w : World) : World :=
  w <| loop := (loop w) <| looping_ := true |> <| quit_ := false |> |>.
Definition loop_stopped (w : World) : World := w <| loop := (loop w) <| looping_ := false |> |>.

(** [EventLoop::loop()] refuses a thread other than its own with an
    exception and a nested call with an assertion; otherwise it returns only
    when some iteration has left [quit_] set, with [looping_] cleared, and the
    number of iterations allowed does not matter once it returns; and it does
    return after an iteration that sets [quit_].  A [quit_] that was set before
    the call is forgotten: the first iteration starts with the flag cleared. *)
Theorem run_loop_contract `{HK : Kernel} (invoke : Callback → MW unit) (fuel k : nat) (w w' : World) :
  (looping_ (loop w) = true → run_loop invoke fuel w = Err (AssertFailed "eventloop.cc:57")) ∧
  (looping_ (loop w) = false → threadId_ (loop w) ≠ tid w →
     run_loop invoke fuel w = Err (RuntimeError "abortNotInLoopThread()")) ∧
  (run_loop invoke fuel w = Ok (tt, w') →
     quit_ (loop w') = true ∧ looping_ (loop w') = false ∧
     run_loop invoke (fuel + k) w = Ok (tt, w')) ∧
  (looping_ (loop w) = false → threadId_ (loop w) = tid w →
     loop_body invoke (loop_started w) = Ok (tt, w') → quit_ (loop w') = true →
     run_loop invoke (S fuel) w = Ok (tt, loop_stopped w')).
Proof.
  unfold run_loop. split; [|split; [|split]].
  - intros Hl. rewrite M_bind_unfold. cbv beta iota delta [gets].
    rewrite M_bind_unfold. unfold massert, mlift. by rewrite Hl.
  - intros Hl Hthr. rewrite M_bind_unfold. cbv beta iota delta [gets].
    rewrite M_bind_unfold. unfold massert, mlift. rewrite Hl. cbn [negb assert_].
    apply M_bind_Err_eq, assertInLoopThread_false, Hthr.
  - intros Hr. apply M_bind_Ok in Hr as (l & w0 & Hl & Hr). injection Hl as <- <-.
    rewrite M_bind_unfold. cbv beta iota delta [gets].
    apply M_bind_Ok in Hr as ([] & w1 & Ha & Hr). rewrite (M_bind_eq _ _ _ _ _ Ha).
    apply M_bind_Ok in Hr as ([] & w2 & Hb & Hr). rewrite (M_bind_eq _ _ _ _ _ Hb).
    apply M_bind_Ok in Hr as ([] & w3 & Hc & Hr). rewrite (M_bind_eq _ _ _ _ _ Hc).
    apply M_bind_Ok in Hr as ([] & w4 & Hd & Hr). rewrite (M_bind_eq _ _ _ _ _ Hd).
    apply M_bind_Ok in Hr as ([] & w5 & He & Hr).
    pose proof (loop_while_quit _ _ _ _ He). injection Hr as <-.
    split; [done|]. split; [done|].
    rewrite (M_bind_eq _ _ _ tt w5); [done|]. by eapply loop_while_fuel.
  - intros Hl Hthr Hbody Hq. rewrite M_bind_unfold. cbv beta iota delta [gets].
    rewrite M_bind_unfold. unfold massert, mlift. rewrite Hl. cbn [negb assert_].
    rewrite (M_bind_eq _ _ _ _ _ (assertInLoopThread_true w Hthr)).
    rewrite (M_bind_eq _ _ w tt (w <| loop := (loop w) <| looping_ := true |> |>)) by done.
    rewrite (M_bind_eq _ _ _ tt (loop_started w)) by done.
    rewrite (M_bind_eq _ _ _ tt w'); [done|]. cbn [loop_while]. rewrite M_bind_unfold.
    cbv beta iota delta [gets]. cbn [loop_started loop quit_].
    rewrite (M_bind_eq _ _ _ _ _ Hbody).
    destruct fuel; cbn [loop_while]; rewrite M_bind_unfold; cbv beta iota delta [gets]; by rewrite Hq.
Qed.
