(* ===== verification/TcpConnection.v ===== *)
(** * One TCP connection (net/tcp_connection.h, net/tcp_connection.cc)

    Module [TcpConnection] has the operations of the class.  A connection is
    owned by [shared_ptr]s, so every [shared_from_this()] and every bound
    functor takes a reference and releases it; the last release runs the
    destructor.  [Send] receives the address of the caller's string, which the
    lambda of line 102 keeps using after [Send] has returned.

    The theorems follow the outgoing byte stream.  [reach] is a step relation:
    the loop thread runs [sendInLoop], [HandleWrite], [shutdownInLoop] and
    [Shutdown] of one connection in any order, interleaved with steps of the
    rest of the program that leave the connection alone: that keep it alive, do
    not write to its socket and leave its entry of the poller where the index of
    its channel says ([other_step]).  The last is so as long as no entry before
    it is removed from the poller, which shifts this one (Teardown.v has a run in
    which that aborts the program).  In every reachable state the bytes the
    kernel accepted followed by those queued are the bytes of the messages that
    were accepted ([accepted]: a message is dropped when the direct write fails
    with an error other than EWOULDBLOCK); the poller asks for write events
    exactly while something is queued; none of the assertions fails; and with a
    kernel that makes progress the queue drains and a requested shutdown follows
    the last byte. *)

From S2P Require Import Prelude Slice Buffer Timestamp Poller World EventLoop.

Module TcpConnection.
Section TcpConnection.
Context `{Kernel} `{App} (invoke : Callback → MW unit).
(** calling the stored close callback *)
Context (close_callback : CloseCallback → conn_id → MW unit).

Definition EWOULDBLOCK : Z := 11.

(** [f(shared_from_this())]: the temporary [shared_ptr] lives for the call. *)
Definition with_shared (c : conn_id) (m : MW unit) : MW unit :=
  conn_acquire c ;; m ;; conn_release c.

(** [loop_->RunInLoop(std::bind(f, conn))]: the bound functor owns a reference
    and dies at the end of the statement. *)
Definition RunInLoop_bind (cb : Callback) : MW unit :=
  cb_copy cb ;; RunInLoop invoke cb ;; cb_destroy cb.

Definition SetState (c : conn_id) (s : State) : MW unit :=
  mod_conn c (fun cn : TcpConnection => cn <| state_ := s |>).

Definition connected (cn : TcpConnection) : bool := bool_decide (state_ cn = kConnected).

Definition SetConnectionCallback (c : conn_id) (cb : option nat) : MW unit :=
  mod_conn c (fun cn : TcpConnection => cn <| conn_callback_ := cb |>).
Definition SetMessageCallback (c : conn_id) (cb : option nat) : MW unit :=
  mod_conn c (fun cn : TcpConnection => cn <| msg_callback_ := cb |>).
Definition SetCloseCallback (c : conn_id) (cb : CloseCallback) : MW unit :=
  mod_conn c (fun cn : TcpConnection => cn <| conn_close_callback_ := Some cb |>).
Definition SetWriteCompleteCallback (c : conn_id) (cb : option nat) : MW unit :=
  mod_conn c (fun cn : TcpConnection => cn <| write_complete_callback_ := cb |>).

(** The constructor, as run by [std::make_shared]; the result holds the first
    reference. *)
Definition TcpConnection_new (name : bytes) (conn_fd : Z) (local remote : sockaddr_in)
    : MW conn_id :=
  c ← fresh;
  ch ← fresh;
  l ← gets loop;
  rev ← mlift (Buffer.Buffer_new Buffer.kInitialSize);
  snd ← mlift (Buffer.Buffer_new Buffer.kInitialSize);
  mod_chans (insert ch (Channel.Channel_new (this_ l) conn_fd)) ;;
  mmod (fun w : World => w <| conns := <[c :=
    mkTcpConnection name kConnecting conn_fd ch local remote None None None None rev snd 1]> (conns w) |>) ;;
  mod_chan ch (Channel.SetReadCallback (TcpConnection_HandleRead c)) ;;
  EnableReading ch ;;
  mod_chan ch (Channel.SetWriteCallback (TcpConnection_HandleWrite c)) ;;
  mod_chan ch (Channel.SetCloseCallback (TcpConnection_HandleClose c)) ;;
  mret c.

Definition HandleClose (c : conn_id) : MW unit :=
  assertInLoopThread ;;
  cn ← get_conn c;
  massert (bool_decide (state_ cn = kConnected ∨ state_ cn = kDisconnecting)) "tcp_connection.cc:55" ;;
  DisbaleAll (channel_ cn) ;;
  SetState c kDisconnected ;;
  cn ← get_conn c;
  call_opt (fun cb => with_shared c (close_callback cb c)) (conn_close_callback_ cn).

(** Only logs. *)
Definition HandleError (c : conn_id) : MW unit := mret tt.

Definition HandleRead (c : conn_id) : MW unit :=
  cn ← get_conn c;
  ch ← get_chan (channel_ cn);
  got ← sys_readv (fd_ ch) (Buffer.iovec (rev_buffer_ cn));
  r ← mlift (Buffer.readFd (fun _ => got) None (rev_buffer_ cn));
  mod_conn c (fun cn : TcpConnection => cn <| rev_buffer_ := r.2 |>) ;;
  let n := r.1.1 in
  if n >? 0 then
    cn ← get_conn c;
    call_opt (fun u => t ← now; with_shared c (app_message u c t)) (msg_callback_ cn)
  else if n =? 0 then HandleClose c
  else HandleError c.

Definition ConnectEstablished (c : conn_id) : MW unit :=
  SetState c kConnected ;;
  cn ← get_conn c;
  call_opt (fun u => with_shared c (app_connection u c)) (conn_callback_ cn).

Definition ConnectDestroyed (c : conn_id) : MW unit :=
  assertInLoopThread ;;
  cn ← get_conn c;
  (if bool_decide (state_ cn = kConnected ∨ state_ cn = kDisconnecting)
   then DisbaleAll (channel_ cn) else mret tt) ;;
  SetState c kDisconnected ;;
  cn ← get_conn c;
  call_opt (fun u => with_shared c (app_connection u c)) (conn_callback_ cn).

(** [Socket::ShutdownWrite]: a failure is only logged. *)
Definition ShutdownWrite (sockfd : Z) : MW unit := _ ← sys_shutdown sockfd; mret tt.

(** The direct write of [sendInLoop]: the number of bytes it took, or nothing
    when the function returns early. *)
Definition send_direct (c : conn_id) (s : str_id) : MW (option Z) :=
  cn ← get_conn c;
  ch ← get_chan (channel_ cn);
  if negb (Channel.isWritingEnabled ch) && (Buffer.readableBytes (snd_buffer_ cn) =? 0) then
    msg ← get_str s;
    r ← sys_write (fd_ ch) msg;
    let nwrote := r.1 in
    if nwrote >=? 0 then
      (if u64 nwrote <? len msg then mret tt
       else call_opt (fun u => RunInLoop_bind (WriteComplete u c)) (write_complete_callback_ cn)) ;;
      mret (Some nwrote)
    else if negb (r.2 =? EWOULDBLOCK) then mret None
    else mret (Some 0)
  else mret (Some 0).

Definition sendInLoop (c : conn_id) (s : str_id) : MW unit :=
  assertInLoopThread ;;
  r ← send_direct c s;
  match r with
  | None => mret tt
  | Some nwrote =>
      massert (nwrote >=? 0) "tcp_connection.cc:132" ;;
      msg ← get_str s;
      if u64 nwrote <? len msg then
        cn ← get_conn c;
        b ← mlift (Buffer.append (snd_buffer_ cn) (drop (Z.to_nat nwrote) msg) (u64 (len msg - nwrote)));
        mod_conn c (fun cn : TcpConnection => cn <| snd_buffer_ := b |>) ;;
        ch ← get_chan (channel_ cn);
        if negb (Channel.isWritingEnabled ch) then EnableWriting (channel_ cn) else mret tt
      else mret tt
  end.

Definition Send (c : conn_id) (s : str_id) : MW unit :=
  b ← isInLoopThread;
  if b : bool then sendInLoop c s
  else RunInLoop invoke (TcpConnection_sendInLoop c s).

Definition shutdownInLoop (c : conn_id) : MW unit :=
  assertInLoopThread ;;
  cn ← get_conn c;
  ch ← get_chan (channel_ cn);
  if negb (Channel.isWritingEnabled ch) then ShutdownWrite (socket_ cn) else mret tt.

Definition Shutdown (c : conn_id) : MW unit :=
  cn ← get_conn c;
  if bool_decide (state_ cn = kConnected) then
    SetState c kDisconnecting ;;
    RunInLoop invoke (TcpConnection_shutdownInLoop c)
  else mret tt.

Definition HandleWrite (c : conn_id) : MW unit :=
  assertInLoopThread ;;
  cn ← get_conn c;
  ch ← get_chan (channel_ cn);
  if Channel.isWritingEnabled ch then
    d ← mlift (Slice.read_mem (Buffer.peek (snd_buffer_ cn)) (Buffer.readableBytes (snd_buffer_ cn)));
    r ← sys_write (fd_ ch) d;
    let n := r.1 in
    if n >? 0 then
      b ← mlift (Buffer.retrieve (snd_buffer_ cn) (u64 n));
      mod_conn c (fun cn : TcpConnection => cn <| snd_buffer_ := b |>) ;;
      if Buffer.readableBytes b =? 0 then
        DisableWriting (channel_ cn) ;;
        cn ← get_conn c;
        call_opt (fun u => RunInLoop_bind (WriteComplete u c)) (write_complete_callback_ cn) ;;
        cn ← get_conn c;
        if bool_decide (state_ cn = kDisconnecting) then shutdownInLoop c else mret tt
      else mret tt
    else mret tt
  else mret tt.

(** [write(2)] takes at most what it is given. *)
Class WriteOk := write_ok : ∀ h fd d, (k_write h fd d).1 ≤ len d.

(** ** The outgoing stream *)

(** The bytes the kernel accepted on descriptor [fd], oldest first. *)
Fixpoint wire (fd : Z) (h : history) : bytes :=
  match h with
  | [] => []
  | EvWrite fd' d n :: h' => if fd' =? fd then wire fd h' ++ take (Z.to_nat n) d else wire fd h'
  | _ :: h' => wire fd h'
  end.

(** Connection [c] is alive, referenced and registered with its own entry. *)
Record live (c : conn_id) (w : World) (cn : TcpConnection) (ch : Channel Callback) (pfd : pollfd)
    : Prop := {
  lv_conn : conns w !! c = Some cn;
  lv_reg : registered (channel_ cn) w ch pfd;
  lv_fd : fd_ ch = socket_ cn;
  lv_ref : 1 ≤ use_count cn
}.

(** The output side of the connection is the same in two worlds. *)
Definition same_output (cn : TcpConnection) (ch : Channel Callback) (w : World)
    (cn' : TcpConnection) (ch' : Channel Callback) (w' : World) : Prop :=
  channel_ cn' = channel_ cn ∧ socket_ cn' = socket_ cn ∧ snd_buffer_ cn' = snd_buffer_ cn ∧
  events_ ch' = events_ ch ∧ wire (socket_ cn) (hist w') = wire (socket_ cn) (hist w).

(** What the rest of the program may do between two operations: anything that
    leaves the connection alive, its output side as it is, and its channel
    registered, with the poller's entry at the index the channel has.  The
    handlers of the other connections and of the acceptor are such steps
    (Footprint.v), but not the removal of an earlier entry from the poller: it
    makes the index stale. *)
Definition other_step (c : conn_id) (w w' : World) : Prop :=
  ∀ cn ch pfd, live c w cn ch pfd →
    ∃ cn' ch' pfd', live c w' cn' ch' pfd' ∧ same_output cn ch w cn' ch' w'.

(** The input side, the state and the references held are kept. *)
Definition kept (cn cn' : TcpConnection) : Prop :=
  rev_buffer_ cn' = rev_buffer_ cn ∧ state_ cn' = state_ cn ∧ use_count cn ≤ use_count cn'.

(** The write-complete callback of the application returns, keeps the string
    being sent, does not send on this connection itself, and balances the
    references it takes. *)
Definition write_complete_ok (c : conn_id) : Prop :=
  ∀ u w cn ch pfd, live c w cn ch pfd →
    ∃ w' cn' ch' pfd', invoke (WriteComplete u c) w = Ok (tt, w') ∧ live c w' cn' ch' pfd' ∧
      same_output cn ch w cn' ch' w' ∧ strings w' = strings w ∧ kept cn cn'.

(** The interest in events that goes with a queue of bytes. *)
Definition mask (q : bytes) : Z :=
  match q with [] => Channel.kReadEvent | _ => Z.lor Channel.kReadEvent Channel.kWriteEvent end.

(** What a call of [sendInLoop] adds to the stream: the whole message, or
    nothing when the direct write fails with an error other than EWOULDBLOCK. *)
Definition accepted (c : conn_id) (msg : bytes) (w : World) : bytes :=
  match conns w !! c with
  | Some cn =>
      let r := k_write (hist w) (socket_ cn) msg in
      if (len (Buffer.contents (snd_buffer_ cn)) =? 0) && (r.1 <? 0) && negb (r.2 =? EWOULDBLOCK)
      then [] else msg
  | None => []
  end.

Definition queue_limit (sent : bytes) : Prop :=
  Buffer.kCheapPrepend + Buffer.kInitialSize + len sent ≤ Buffer.max_size.

(** [reach c base w sent]: from a world in which [c] was just established and
    [base] had been written to its descriptor before, [w] is reached after
    [sent] was accepted from the application. *)
Inductive reach (c : conn_id) (base : bytes) : World → bytes → Prop :=
  | reach_established w cn ch pfd :
      live c w cn ch pfd → Buffer.Buffer_new Buffer.kInitialSize = Ok (snd_buffer_ cn) →
      events_ ch = Channel.kReadEvent → wire (socket_ cn) (hist w) = base → reach c base w []
  | reach_send w w' sent s msg :
      reach c base w sent → strings w !! s = Some msg → queue_limit (sent ++ msg) →
      sendInLoop c s w = Ok (tt, w') → reach c base w' (sent ++ accepted c msg w)
  | reach_write w w' sent :
      reach c base w sent → HandleWrite c w = Ok (tt, w') → reach c base w' sent
  | reach_shutdown w w' sent :
      reach c base w sent → Shutdown c w = Ok (tt, w') → reach c base w' sent
  | reach_shutdownInLoop w w' sent :
      reach c base w sent → shutdownInLoop c w = Ok (tt, w') → reach c base w' sent
  | reach_other w w' sent :
      reach c base w sent → other_step c w w' → reach c base w' sent.

(** ** The invariant *)

Record stream (c : conn_id) (base sent : bytes) (w : World) (cn : TcpConnection)
    (ch : Channel Callback) (pfd : pollfd) : Prop := {
  st_live : live c w cn ch pfd;
  st_wf : Buffer.wf (snd_buffer_ cn);
  st_cap : len (Buffer.buffer_ (snd_buffer_ cn)) ≤
           Buffer.kCheapPrepend + Buffer.kInitialSize + len sent;
  st_mask : events_ ch = mask (Buffer.contents (snd_buffer_ cn));
  st_bytes : wire (socket_ cn) (hist w) ++ Buffer.contents (snd_buffer_ cn) = base ++ sent
}.

(** ** Lemmas *)

Lemma kept_refl cn : kept cn cn.
Proof. split_and!; [done|done|lia]. Qed.
#[local] Hint Resolve kept_refl : core.

Lemma kept_trans a b c : kept a b → kept b c → kept a c.
Proof. intros (? & ? & ?) (? & ? & ?). split_and!; [congruence|congruence|lia]. Qed.

Lemma get_conn_Ok c w cn : conns w !! c = Some cn → get_conn c w = Ok (cn, w).
Proof. unfold get_conn. by intros ->. Qed.

Lemma get_str_Ok s w m : strings w !! s = Some m → get_str s w = Ok (m, w).
Proof. unfold get_str. by intros ->. Qed.

Lemma mod_conn_Ok c w cn f :
  conns w !! c = Some cn → mod_conn c f w = Ok (tt, w <| conns := <[c := f cn]> (conns w) |>).
Proof. intros Hc. unfold mod_conn. by rewrite (M_bind_eq _ _ _ _ _ (get_conn_Ok _ _ _ Hc)). Qed.

Lemma sys_write_eval fd d w :
  let r := k_write (hist w) fd d in
  sys_write fd d w = Ok (r, w <| hist := EvWrite fd d r.1 :: hist w |>).
Proof. done. Qed.

Lemma mask_not_none q : mask q ≠ 0.
Proof. by destruct q. Qed.

Lemma writing_mask (ch : Channel Callback) q :
  events_ ch = mask q → Channel.isWritingEnabled ch = negb (len q =? 0).
Proof.
  intros He. unfold Channel.isWritingEnabled. rewrite He. destruct q; [done|].
  rewrite len_cons. cbn [mask]. change (Z.land _ _) with 4. pose proof (len_nonneg q).
  by rewrite (proj2 (Z.eqb_neq (1 + len q) 0)) by lia.
Qed.

Lemma live_mod_conn c w cn ch pfd cn' :
  live c w cn ch pfd → channel_ cn' = channel_ cn → socket_ cn' = socket_ cn → 1 ≤ use_count cn' →
  live c (w <| conns := <[c := cn']> (conns w) |>) cn' ch pfd.
Proof.
  intros [Hc Hr Hf Hu] Ech Es Hu'. split; cbn; [apply lookup_insert_eq| |by rewrite Es|done].
  rewrite Ech. by destruct Hr.
Qed.

Lemma live_hist c w cn ch pfd h : live c w cn ch pfd → live c (w <| hist := h |>) cn ch pfd.
Proof. intros [Hc [] Hf Hu]. by split; [|split|..]. Qed.

Lemma live_with_events c w cn ch pfd e :
  live c w cn ch pfd → e ≠ 0 →
  live c (with_events (channel_ cn) ch e w) cn (Channel.set_events e ch) (mkpollfd (fd_ ch) (i16 e) 0).
Proof. intros [Hc Hr Hf Hu] He. split; [done| |done..]. by eapply registered_with_events. Qed.

Lemma wire_app fd d n h : wire fd (EvWrite fd d n :: h) = wire fd h ++ take (Z.to_nat n) d.
Proof. cbn. by rewrite Z.eqb_refl. Qed.

(** [RunInLoop(std::bind(write_complete_callback_, shared_from_this()))] in the
    loop thread *)
Lemma RunInLoop_bind_Ok c u w cn ch pfd :
  write_complete_ok c → live c w cn ch pfd →
  ∃ w' cn' ch' pfd', RunInLoop_bind (WriteComplete u c) w = Ok (tt, w') ∧ live c w' cn' ch' pfd' ∧
    same_output cn ch w cn' ch' w' ∧ strings w' = strings w ∧ kept cn cn'.
Proof.
  intros Hwc Hl. pose proof (lv_conn _ _ _ _ _ Hl) as Hc. pose proof (lv_ref _ _ _ _ _ Hl) as Hu.
  unfold RunInLoop_bind, cb_copy, cb_destroy, conn_acquire. cbn [cb_owner].
  rewrite M_bind_unfold, (mod_conn_Ok _ _ _ _ Hc).
  set (cn1 := cn <| use_count := use_count cn + 1 |>). set (w1 := w <| conns := <[c := cn1]> (conns w) |>).
  assert (Hl1 : live c w1 cn1 ch pfd) by (eapply live_mod_conn; cbn; [done..|lia]).
  rewrite M_bind_unfold, RunInLoop_here_eval by apply (rg_thread _ _ _ _ (lv_reg _ _ _ _ _ Hl1)).
  destruct (Hwc u w1 cn1 ch pfd Hl1) as (w2 & cn2 & ch2 & pfd2 & -> & Hl2 & Ho & Hs & Hrv & Hst & Hu2).
  pose proof (lv_conn _ _ _ _ _ Hl2) as Hc2. cbn in Hu2.
  unfold conn_release. rewrite (M_bind_eq _ _ _ _ _ (get_conn_Ok _ _ _ Hc2)).
  rewrite (proj2 (Z.eqb_neq _ _)) by lia. rewrite (mod_conn_Ok _ _ _ _ Hc2).
  do 4 eexists. split; [done|]. split; [eapply live_mod_conn; [done|done..|cbn; lia]|].
  split; [destruct Ho as (? & ? & ? & ? & Hw); by repeat split|]. split; [done|].
  split_and!; [done|done|cbn; lia].
Qed.

Lemma call_write_complete_Ok c o w cn ch pfd :
  write_complete_ok c → live c w cn ch pfd →
  ∃ w' cn' ch' pfd', call_opt (fun u => RunInLoop_bind (WriteComplete u c)) o w = Ok (tt, w') ∧
    live c w' cn' ch' pfd' ∧ same_output cn ch w cn' ch' w' ∧ strings w' = strings w ∧ kept cn cn'.
Proof.
  intros Hwc Hl. destruct o as [u|]; [by apply (RunInLoop_bind_Ok c u w cn ch pfd)|].
  exists w, cn, ch, pfd. by split_and!.
Qed.

Section Steps.
Context `{!WriteOk} (c : conn_id) (base : bytes).

Lemma stream_empty sent w cn ch pfd :
  stream c base sent w cn ch pfd →
  Channel.isWritingEnabled ch = negb (len (Buffer.contents (snd_buffer_ cn)) =? 0) ∧
  Buffer.readableBytes (snd_buffer_ cn) = len (Buffer.contents (snd_buffer_ cn)).
Proof.
  intros [Hl Hwf Hcap Hm Hb]. split; [by apply writing_mask|by apply Buffer.readable_len].
Qed.

(** The direct write takes a prefix of the message, and only when nothing is
    queued; it is given up exactly when the message is not accepted. *)
Lemma send_direct_Ok sent w cn ch pfd s msg :
  write_complete_ok c → stream c base sent w cn ch pfd → strings w !! s = Some msg →
  ∃ r w' cn' ch' pfd', send_direct c s w = Ok (r, w') ∧ live c w' cn' ch' pfd' ∧
    strings w' = strings w ∧ socket_ cn' = socket_ cn ∧ kept cn cn' ∧
    snd_buffer_ cn' = snd_buffer_ cn ∧ events_ ch' = events_ ch ∧
    match r with
    | None => accepted c msg w = [] ∧ wire (socket_ cn) (hist w') = wire (socket_ cn) (hist w)
    | Some n => accepted c msg w = msg ∧ 0 ≤ n ≤ len msg ∧
        wire (socket_ cn) (hist w') = wire (socket_ cn) (hist w) ++ take (Z.to_nat n) msg ∧
        (n = 0 ∨ Buffer.contents (snd_buffer_ cn) = [])
    end.
Proof.
  intros Hwc Hst Hs. destruct (stream_empty _ _ _ _ _ Hst) as [Hen Hrd].
  destruct Hst as [Hl Hwf Hcap Hm Hb]. pose proof (lv_conn _ _ _ _ _ Hl) as Hc.
  pose proof (lv_fd _ _ _ _ _ Hl) as Hfd. pose proof (rg_chan _ _ _ _ (lv_reg _ _ _ _ _ Hl)) as Hch.
  unfold send_direct, accepted. rewrite (M_bind_eq _ _ _ _ _ (get_conn_Ok _ _ _ Hc)), Hc.
  rewrite (M_bind_eq _ _ _ _ _ (get_chan_Ok _ _ _ Hch)), Hen, Hrd, negb_involutive, andb_diag.
  destruct (Z.eqb_spec (len (Buffer.contents (snd_buffer_ cn))) 0) as [E|E]; cbn [andb];
    [|exists (Some 0), w, cn, ch, pfd; split_and!; try done; [apply len_nonneg| |by left];
      cbn; by rewrite app_nil_r].
  apply len_zero_nil in E. rewrite (M_bind_eq _ _ _ _ _ (get_str_Ok _ _ _ Hs)).
  rewrite Hfd, (M_bind_eq _ _ _ _ _ (sys_write_eval _ _ _)).
  pose proof (write_ok (hist w) (socket_ cn) msg) as Hle.
  set (r := k_write (hist w) (socket_ cn) msg) in *. set (w1 := w <| hist := EvWrite (socket_ cn) msg r.1 :: hist w |>).
  assert (Hl1 : live c w1 cn ch pfd) by by apply live_hist.
  rewrite Z.geb_leb. destruct (Z.leb_spec 0 r.1) as [Hge|Hlt].
  - rewrite (proj2 (Z.ltb_ge r.1 0)) by done. cbn [andb].
    destruct (u64 r.1 <? len msg).
    + exists (Some r.1), w1, cn, ch, pfd. split_and!; try done; [apply wire_app|by right].
    + rewrite M_bind_unfold.
      destruct (call_write_complete_Ok c (write_complete_callback_ cn) w1 cn ch pfd Hwc Hl1)
        as (w2 & cn2 & ch2 & pfd2 & -> & Hl2 & (Ech & Es & Eb & Ee & Ew) & Hs2 & Hk).
      exists (Some r.1), w2, cn2, ch2, pfd2. split_and!; try done; [|by right].
      rewrite Ew. apply wire_app.
  - rewrite (proj2 (Z.ltb_lt r.1 0)) by done. cbn [andb]. destruct (r.2 =? EWOULDBLOCK); cbn [negb].
    + exists (Some 0), w1, cn, ch, pfd. split_and!; try done; [apply len_nonneg| |by left].
      unfold w1. cbn [hist]. rewrite wire_app. by replace (Z.to_nat r.1) with 0%nat by lia.
    + exists None, w1, cn, ch, pfd. split_and!; try done.
      unfold w1. cbn [hist]. rewrite wire_app. replace (Z.to_nat r.1) with 0%nat by lia.
      cbn. by rewrite app_nil_r.
Qed.

(** The part of the message that was not taken goes behind what is queued, and
    the interest in write events is switched on with the first queued byte. *)
Lemma queue_rest_Ok sent w cn ch pfd msg n :
  live c w cn ch pfd → Buffer.wf (snd_buffer_ cn) →
  events_ ch = mask (Buffer.contents (snd_buffer_ cn)) →
  len (Buffer.buffer_ (snd_buffer_ cn)) ≤ Buffer.kCheapPrepend + Buffer.kInitialSize + len sent →
  queue_limit (sent ++ msg) → 0 ≤ n < len msg →
  ∃ w' cn' ch' pfd',
    (cn ← get_conn c;
     b ← mlift (Buffer.append (snd_buffer_ cn) (drop (Z.to_nat n) msg) (u64 (len msg - n)));
     mod_conn c (fun cn : TcpConnection => cn <| snd_buffer_ := b |>) ;;
     ch ← get_chan (channel_ cn);
     if negb (Channel.isWritingEnabled ch) then EnableWriting (channel_ cn) else mret tt) w = Ok (tt, w') ∧
    live c w' cn' ch' pfd' ∧ socket_ cn' = socket_ cn ∧ hist w' = hist w ∧ kept cn cn' ∧
    strings w' = strings w ∧ Buffer.wf (snd_buffer_ cn') ∧
    Buffer.contents (snd_buffer_ cn') = Buffer.contents (snd_buffer_ cn) ++ drop (Z.to_nat n) msg ∧
    events_ ch' = mask (Buffer.contents (snd_buffer_ cn')) ∧
    len (Buffer.buffer_ (snd_buffer_ cn')) ≤
      Buffer.kCheapPrepend + Buffer.kInitialSize + len (sent ++ msg).
Proof.
  intros Hl Hwf Hm Hcap Hlim Hn. pose proof (lv_conn _ _ _ _ _ Hl) as Hc.
  unfold queue_limit in Hlim. rewrite len_app in *. pose proof (len_nonneg sent).
  assert (Hd : len (drop (Z.to_nat n) msg) = len msg - n) by (unfold len in *; rewrite length_drop; lia).
  assert (Hwi : Buffer.writerIndex_ (snd_buffer_ cn) ≤ len (Buffer.buffer_ (snd_buffer_ cn)))
    by apply Hwf.
  assert (Hu : u64 (len msg - n) = len msg - n)
    by (apply u64_id; unfold Buffer.max_size, Buffer.kCheapPrepend, Buffer.kInitialSize in *; lia).
  rewrite (M_bind_eq _ _ _ _ _ (get_conn_Ok _ _ _ Hc)), Hu.
  destruct (Buffer.append_Ok (snd_buffer_ cn) (drop (Z.to_nat n) msg) (len msg - n))
    as (b & -> & Hb & Hcb & Hlb); [done|lia|lia|].
  rewrite <-Hd, range_full in Hcb. rewrite (M_bind_eq _ _ w b w) by done.
  rewrite M_bind_unfold, (mod_conn_Ok _ _ _ _ Hc). set (cn1 := cn <| snd_buffer_ := b |>).
  set (w1 := w <| conns := <[c := cn1]> (conns w) |>).
  assert (Hl1 : live c w1 cn1 ch pfd) by (eapply live_mod_conn; [done..|apply (lv_ref _ _ _ _ _ Hl)]).
  pose proof (rg_chan _ _ _ _ (lv_reg _ _ _ _ _ Hl1)) as Hch.
  change (channel_ cn) with (channel_ cn1). rewrite (M_bind_eq _ _ _ _ _ (get_chan_Ok _ _ _ Hch)).
  rewrite (writing_mask _ _ Hm), negb_involutive.
  assert (Hne : mask (Buffer.contents b) = Z.lor Channel.kReadEvent Channel.kWriteEvent).
  { rewrite Hcb. destruct (drop (Z.to_nat n) msg) eqn:E; [rewrite len_nil in Hd; lia|].
    by destruct (Buffer.contents (snd_buffer_ cn)). }
  destruct (Z.eqb_spec (len (Buffer.contents (snd_buffer_ cn))) 0) as [E|E].
  - apply len_zero_nil in E. rewrite E in Hm. cbn [mask] in Hm.
    unfold EnableWriting. rewrite (change_mask_eval _ _ _ _ _ (Z.lor (events_ ch) Channel.kWriteEvent)
      (lv_reg _ _ _ _ _ Hl1)) by done.
    do 4 eexists. split; [done|].
    split; [eapply live_with_events; [done|by rewrite Hm]|]. split_and!; try done; [|cbn; lia].
    cbn [snd_buffer_ cn1]. rewrite Hne. cbn. by rewrite Hm.
  - exists w1, cn1, ch, pfd. split_and!; try done; [|cbn; lia].
    cbn [snd_buffer_ cn1]. rewrite Hne, Hm. by destruct (Buffer.contents (snd_buffer_ cn)).
Qed.

Lemma sendInLoop_Ok sent w cn ch pfd s msg :
  write_complete_ok c → stream c base sent w cn ch pfd → strings w !! s = Some msg →
  queue_limit (sent ++ msg) →
  ∃ w' cn' ch' pfd', sendInLoop c s w = Ok (tt, w') ∧
    stream c base (sent ++ accepted c msg w) w' cn' ch' pfd' ∧ kept cn cn' ∧ strings w' = strings w.
Proof.
  intros Hwc Hst Hs Hlim. pose proof Hst as [Hl Hwf Hcap Hm Hb].
  unfold sendInLoop.
  rewrite (M_bind_eq _ _ _ _ _ (assertInLoopThread_true w (rg_thread _ _ _ _ (lv_reg _ _ _ _ _ Hl)))).
  destruct (send_direct_Ok sent w cn ch pfd s msg Hwc Hst Hs)
    as (r & w1 & cn1 & ch1 & pfd1 & Hr & Hl1 & Hs1 & Es & Hk & Eb & Ee & Hcase).
  rewrite (M_bind_eq _ _ _ _ _ Hr). destruct r as [n|].
  - destruct Hcase as (-> & Hn & Hw & Hor).
    rewrite (M_bind_eq _ _ w1 tt w1) by (unfold massert; by rewrite Z.geb_leb, (proj2 (Z.leb_le _ _)) by lia).
    rewrite <-Hs1 in Hs. rewrite (M_bind_eq _ _ _ _ _ (get_str_Ok _ _ _ Hs)).
    assert (Hu : u64 n = n).
    { apply u64_id. unfold queue_limit, Buffer.max_size, Buffer.kCheapPrepend, Buffer.kInitialSize in Hlim.
      rewrite len_app in Hlim. pose proof (len_nonneg sent). lia. }
    rewrite Hu. destruct (Z.ltb_spec n (len msg)) as [Hlt|Hge].
    + destruct (queue_rest_Ok sent w1 cn1 ch1 pfd1 msg n Hl1)
        as (w2 & cn2 & ch2 & pfd2 & He & Hl2 & Es2 & Eh & Hk2 & Hs2 & Hwf2 & Hc2 & Hm2 & Hcap2);
        [by rewrite Eb|by rewrite Ee, Eb|by rewrite Eb|done|lia|].
      exists w2, cn2, ch2, pfd2. split; [exact He|].
      split; [|by rewrite Hs2; split; [eapply kept_trans|]]. split; try done.
      rewrite Hc2, Eb, Es2, Es, Eh, Hw, (app_assoc base sent), <-Hb.
      rewrite <-(take_drop (Z.to_nat n) msg) at 3. destruct Hor as [-> | ->]; cbn.
      * change (Z.to_nat 0) with 0%nat. rewrite take_0, drop_0, app_nil_r. by rewrite <-!app_assoc.
      * by rewrite !app_nil_r, !app_assoc.
    + exists w1, cn1, ch1, pfd1. split; [done|]. assert (n = len msg) as -> by lia.
      split; [|done]. split; [done|by rewrite Eb|rewrite Eb, len_app; len_lia|by rewrite Ee, Eb|].
      rewrite Es, Eb, Hw, (app_assoc base sent), <-Hb. unfold len. rewrite Nat2Z.id, firstn_all.
      destruct Hor as [Hz | ->]; [|by rewrite !app_nil_r].
      apply len_zero_nil in Hz as ->. by rewrite !app_nil_r.
  - destruct Hcase as [-> Hw]. exists w1, cn1, ch1, pfd1. split; [done|].
    rewrite app_nil_r. split; [|done]. split; [done|by rewrite Eb|by rewrite Eb|by rewrite Ee, Eb|].
    by rewrite Es, Eb, Hw.
Qed.

Lemma shutdownInLoop_Ok sent w cn ch pfd :
  stream c base sent w cn ch pfd →
  ∃ w', shutdownInLoop c w = Ok (tt, w') ∧ stream c base sent w' cn ch pfd ∧
    hist w' = if len (Buffer.contents (snd_buffer_ cn)) =? 0
              then EvShutdown (socket_ cn) :: hist w else hist w.
Proof.
  intros Hst. destruct (stream_empty _ _ _ _ _ Hst) as [Hen _].
  pose proof Hst as [Hl Hwf Hcap Hm Hb]. unfold shutdownInLoop.
  rewrite (M_bind_eq _ _ _ _ _ (assertInLoopThread_true w (rg_thread _ _ _ _ (lv_reg _ _ _ _ _ Hl)))).
  rewrite (M_bind_eq _ _ _ _ _ (get_conn_Ok _ _ _ (lv_conn _ _ _ _ _ Hl))).
  rewrite (M_bind_eq _ _ _ _ _ (get_chan_Ok _ _ _ (rg_chan _ _ _ _ (lv_reg _ _ _ _ _ Hl)))).
  rewrite Hen, negb_involutive.
  destruct (len _ =? 0); [|by exists w].
  eexists. split; [done|]. split; [|done]. split; try done. by apply live_hist.
Qed.

(** After the last byte was taken: interest off, callback, pending shutdown. *)
Lemma drained_Ok sent w cn ch pfd :
  write_complete_ok c → live c w cn ch pfd → Buffer.wf (snd_buffer_ cn) →
  len (Buffer.buffer_ (snd_buffer_ cn)) ≤ Buffer.kCheapPrepend + Buffer.kInitialSize + len sent →
  Buffer.contents (snd_buffer_ cn) = [] → wire (socket_ cn) (hist w) = base ++ sent →
  events_ ch = Z.lor Channel.kReadEvent Channel.kWriteEvent →
  ∃ w' cn' ch' pfd',
    (DisableWriting (channel_ cn) ;;
     cn ← get_conn c;
     call_opt (fun u => RunInLoop_bind (WriteComplete u c)) (write_complete_callback_ cn) ;;
     cn ← get_conn c;
     if bool_decide (state_ cn = kDisconnecting) then shutdownInLoop c else mret tt) w = Ok (tt, w') ∧
    stream c base sent w' cn' ch' pfd' ∧ state_ cn' = state_ cn ∧ socket_ cn' = socket_ cn ∧
    snd_buffer_ cn' = snd_buffer_ cn ∧
    (state_ cn = kDisconnecting →
       ∃ h, hist w' = EvShutdown (socket_ cn) :: h ∧ wire (socket_ cn) h = base ++ sent).
Proof.
  intros Hwc Hl Hwf Hcap Hq Hw Hm. pose proof (lv_conn _ _ _ _ _ Hl) as Hc.
  unfold DisableWriting. rewrite M_bind_unfold.
  rewrite (change_mask_eval _ _ _ _ _ Channel.kReadEvent (lv_reg _ _ _ _ _ Hl))
    by (unfold Channel.events_no_writing; by rewrite Hm).
  assert (Hl1 := live_with_events c w cn ch pfd Channel.kReadEvent Hl ltac:(done)).
  set (w1 := with_events _ _ _ _) in *.
  rewrite (M_bind_eq _ _ _ _ _ (get_conn_Ok _ _ _ (lv_conn _ _ _ _ _ Hl1))), M_bind_unfold.
  destruct (call_write_complete_Ok c (write_complete_callback_ cn) w1 _ _ _ Hwc Hl1)
    as (w2 & cn2 & ch2 & pfd2 & -> & Hl2 & (Ech & Es & Eb & Ee & Ew) & _ & Hrv & Est & Hu2).
  assert (Hst2 : stream c base sent w2 cn2 ch2 pfd2).
  { split; rewrite ?Eb; [done..|by rewrite Ee, Hq|]. rewrite Es, Ew, Hq, app_nil_r. exact Hw. }
  rewrite (M_bind_eq _ _ _ _ _ (get_conn_Ok _ _ _ (lv_conn _ _ _ _ _ Hl2))), Est.
  case_bool_decide as Hd; [|by exists w2, cn2, ch2, pfd2].
  destruct (shutdownInLoop_Ok sent w2 cn2 ch2 pfd2 Hst2) as (w3 & -> & Hst3 & Hh).
  exists w3, cn2, ch2, pfd2. split_and!; try done. intros _. exists (hist w2).
  rewrite Eb, Hq in Hh. cbn in Hh. rewrite Es in Hh. split; [done|]. by rewrite Ew.
Qed.

(** After the kernel took the first [r] bytes of the queue. *)
Lemma taken_Ok sent w cn ch pfd q r :
  write_complete_ok c → live c w cn ch pfd → Buffer.wf (snd_buffer_ cn) →
  len (Buffer.buffer_ (snd_buffer_ cn)) ≤ Buffer.kCheapPrepend + Buffer.kInitialSize + len sent →
  Buffer.contents (snd_buffer_ cn) = q → 0 < r ≤ len q → len q < 2 ^ 64 →
  wire (socket_ cn) (hist w) ++ drop (Z.to_nat r) q = base ++ sent → events_ ch = mask q →
  ∃ w' cn' ch' pfd',
    (b ← mlift (Buffer.retrieve (snd_buffer_ cn) (u64 r));
     mod_conn c (fun cn : TcpConnection => cn <| snd_buffer_ := b |>) ;;
     if Buffer.readableBytes b =? 0 then
       DisableWriting (channel_ cn) ;;
       cn ← get_conn c;
       call_opt (fun u => RunInLoop_bind (WriteComplete u c)) (write_complete_callback_ cn) ;;
       cn ← get_conn c;
       if bool_decide (state_ cn = kDisconnecting) then shutdownInLoop c else mret tt
     else mret tt) w = Ok (tt, w') ∧
    stream c base sent w' cn' ch' pfd' ∧ state_ cn' = state_ cn ∧ socket_ cn' = socket_ cn ∧
    Buffer.contents (snd_buffer_ cn') = drop (Z.to_nat r) q ∧
    (drop (Z.to_nat r) q = [] → state_ cn = kDisconnecting →
       ∃ h, hist w' = EvShutdown (socket_ cn) :: h ∧ wire (socket_ cn) h = base ++ sent).
Proof.
  intros Hwc Hl Hwf Hcap Hq Hr Hlq Hw Hm. rewrite u64_id by lia.
  destruct (Buffer.retrieve_Ok (snd_buffer_ cn) r Hwf) as (b & -> & Hbw & Hbc & Hbl); [rewrite Hq; lia|].
  rewrite Hq in Hbc. rewrite (M_bind_eq _ _ w b w) by done.
  rewrite M_bind_unfold, (mod_conn_Ok _ _ _ _ (lv_conn _ _ _ _ _ Hl)).
  set (cn2 := cn <| snd_buffer_ := b |>). set (w2 := w <| conns := <[c := cn2]> (conns w) |>).
  assert (Hl2 : live c w2 cn2 ch pfd) by (eapply live_mod_conn; [done..|apply (lv_ref _ _ _ _ _ Hl)]).
  assert (Hm2 : events_ ch = Z.lor Channel.kReadEvent Channel.kWriteEvent)
    by (rewrite Hm; destruct q; [unfold len in Hr; cbn in Hr; lia|done]).
  rewrite <-Hbc in Hw |- *.
  rewrite Buffer.readable_len by done. destruct (Z.eqb_spec (len (Buffer.contents b)) 0) as [E2|E2].
  - apply len_zero_nil in E2. rewrite E2, app_nil_r in Hw.
    change (channel_ cn) with (channel_ cn2).
    destruct (drained_Ok sent w2 cn2 ch pfd Hwc Hl2)
      as (w3 & cn3 & ch3 & pfd3 & He & Hst3 & Est & Es & Eb & Hsh); [done|cbn; lia|done..|].
    exists w3, cn3, ch3, pfd3. split_and!; [done..| |by intros; apply Hsh]. by rewrite Eb.
  - exists w2, cn2, ch, pfd. split_and!; try done; [|by intros E; rewrite E in E2].
    split; [done|done|cbn; lia| |done]. rewrite Hm2. cbn. by destruct (Buffer.contents b).
Qed.

Lemma HandleWrite_Ok sent w cn ch pfd :
  write_complete_ok c → stream c base sent w cn ch pfd → queue_limit sent →
  let q := Buffer.contents (snd_buffer_ cn) in
  let n := Z.to_nat (k_write (hist w) (socket_ cn) q).1 in
  ∃ w' cn' ch' pfd', HandleWrite c w = Ok (tt, w') ∧ stream c base sent w' cn' ch' pfd' ∧
    state_ cn' = state_ cn ∧ socket_ cn' = socket_ cn ∧
    Buffer.contents (snd_buffer_ cn') = drop n q ∧
    (q ≠ [] → drop n q = [] → state_ cn = kDisconnecting →
       ∃ h, hist w' = EvShutdown (socket_ cn) :: h ∧ wire (socket_ cn) h = base ++ sent).
Proof.
  intros Hwc Hst Hlim q n. destruct (stream_empty _ _ _ _ _ Hst) as [Hen Hrd].
  pose proof Hst as [Hl Hwf Hcap Hm Hb]. unfold HandleWrite.
  rewrite (M_bind_eq _ _ _ _ _ (assertInLoopThread_true w (rg_thread _ _ _ _ (lv_reg _ _ _ _ _ Hl)))).
  rewrite (M_bind_eq _ _ _ _ _ (get_conn_Ok _ _ _ (lv_conn _ _ _ _ _ Hl))).
  rewrite (M_bind_eq _ _ _ _ _ (get_chan_Ok _ _ _ (rg_chan _ _ _ _ (lv_reg _ _ _ _ _ Hl)))), Hen.
  fold q. destruct (Z.eqb_spec (len q) 0) as [E|E]; cbn [negb].
  { apply len_zero_nil in E. exists w, cn, ch, pfd. split_and!; try done. fold q. rewrite E. by rewrite drop_nil. }
  rewrite (Buffer.peek_contents _ Hwf). rewrite (M_bind_eq _ _ w q w) by done.
  rewrite (lv_fd _ _ _ _ _ Hl), (M_bind_eq _ _ _ _ _ (sys_write_eval _ _ _)).
  pose proof (write_ok (hist w) (socket_ cn) q) as Hle.
  set (r := (k_write (hist w) (socket_ cn) q).1) in *. subst n.
  set (w1 := w <| hist := EvWrite (socket_ cn) q r :: hist w |>).
  assert (Hl1 : live c w1 cn ch pfd) by by apply live_hist.
  rewrite Z.gtb_ltb. destruct (Z.ltb_spec 0 r) as [Hpos|Hneg].
  - destruct (taken_Ok sent w1 cn ch pfd q r Hwc Hl1 Hwf Hcap)
      as (w3 & cn3 & ch3 & pfd3 & He & Hst3 & Est & Es & Eb & Hsh); [done|lia| | |done|].
    { unfold queue_limit, Buffer.max_size in Hlim. unfold q. rewrite Buffer.len_contents by done.
      destruct Hwf. unfold Buffer.kCheapPrepend in *. lia. }
    { unfold w1. cbn [hist]. rewrite wire_app, <-app_assoc, take_drop. exact Hb. }
    exists w3, cn3, ch3, pfd3. split_and!; [done..|]. by intros; apply Hsh.
  - assert (Z.to_nat r = 0%nat) as Hr0 by lia. rewrite Hr0, drop_0.
    exists w1, cn, ch, pfd. split_and!; try done. split; try done.
    unfold w1. cbn [hist]. rewrite wire_app, Hr0. cbn. by rewrite app_nil_r.
Qed.

Lemma Shutdown_Ok sent w cn ch pfd :
  invoke (TcpConnection_shutdownInLoop c) = shutdownInLoop c →
  stream c base sent w cn ch pfd →
  ∃ w' cn', Shutdown c w = Ok (tt, w') ∧ stream c base sent w' cn' ch pfd ∧
    state_ cn' = (if connected cn then kDisconnecting else state_ cn) ∧
    hist w' = (if connected cn && (len (Buffer.contents (snd_buffer_ cn)) =? 0)
               then EvShutdown (socket_ cn) :: hist w else hist w) ∧
    snd_buffer_ cn' = snd_buffer_ cn ∧ socket_ cn' = socket_ cn ∧ use_count cn' = use_count cn.
Proof.
  intros Hinv Hst. pose proof Hst as [Hl Hwf Hcap Hm Hb]. unfold Shutdown, connected.
  rewrite (M_bind_eq _ _ _ _ _ (get_conn_Ok _ _ _ (lv_conn _ _ _ _ _ Hl))).
  case_bool_decide as Hs; [|by exists w, cn].
  unfold SetState. rewrite M_bind_unfold, (mod_conn_Ok _ _ _ _ (lv_conn _ _ _ _ _ Hl)).
  set (cn1 := cn <| state_ := kDisconnecting |>). set (w1 := w <| conns := <[c := cn1]> (conns w) |>).
  assert (Hst1 : stream c base sent w1 cn1 ch pfd).
  { split; try done. eapply live_mod_conn; [done..|apply (lv_ref _ _ _ _ _ Hl)]. }
  rewrite RunInLoop_here_eval, Hinv
    by apply (rg_thread _ _ _ _ (lv_reg _ _ _ _ _ (st_live _ _ _ _ _ _ _ Hst1))).
  destruct (shutdownInLoop_Ok sent w1 cn1 ch pfd Hst1) as (w2 & -> & Hst2 & Hh).
  by exists w2, cn1.
Qed.

Lemma stream_other sent w w' cn ch pfd :
  stream c base sent w cn ch pfd → other_step c w w' →
  ∃ cn' ch' pfd', stream c base sent w' cn' ch' pfd'.
Proof.
  intros [Hl Hwf Hcap Hm Hb] Ho.
  destruct (Ho cn ch pfd Hl) as (cn' & ch' & pfd' & Hl' & Ech & Es & Eb & Ee & Ew).
  exists cn', ch', pfd'. split; rewrite ?Eb; [done..|by rewrite Ee|by rewrite Es, Ew].
Qed.

(** A change that keeps the loop, the channels and the output side of the
    connection is a step of the rest of the program. *)
Lemma other_step_frame w w' cn cn' :
  conns w !! c = Some cn → conns w' !! c = Some cn' → chans w' = chans w → loop w' = loop w →
  tid w' = tid w → wire (socket_ cn) (hist w') = wire (socket_ cn) (hist w) →
  channel_ cn' = channel_ cn → socket_ cn' = socket_ cn → snd_buffer_ cn' = snd_buffer_ cn →
  1 ≤ use_count cn' → other_step c w w'.
Proof.
  intros Hc Hc' Hch Hl Ht Hw Ech Es Eb Hu cn1 ch pfd [Hc1 Hr Hf Hu1]. simplify_eq.
  exists cn', ch, pfd. split; [|by split_and!]. split; [done| |by rewrite Es|done].
  rewrite Ech. eapply (registered_frame _ w); [done|by rewrite ?Hch, ?Hl..].
Qed.

Lemma stream_established w cn ch pfd :
  live c w cn ch pfd → Buffer.Buffer_new Buffer.kInitialSize = Ok (snd_buffer_ cn) →
  events_ ch = Channel.kReadEvent → wire (socket_ cn) (hist w) = base → stream c base [] w cn ch pfd.
Proof.
  intros Hl Hb He Hw.
  destruct (Buffer.Buffer_new_Ok Buffer.kInitialSize) as (b & Hb' & Hbw & Hbc & Hbl); [by vm_compute|].
  assert (snd_buffer_ cn = b) as Eb by congruence.
  split; rewrite ?Eb, ?Hbc; [done|done| |done|by rewrite Hw]. rewrite Hbl, len_nil. lia.
Qed.

(** An update of the connection record that leaves the output side alone *)
Lemma stream_mod_conn sent w cn ch pfd (f : TcpConnection → TcpConnection) :
  stream c base sent w cn ch pfd → channel_ (f cn) = channel_ cn → socket_ (f cn) = socket_ cn →
  snd_buffer_ (f cn) = snd_buffer_ cn → 1 ≤ use_count (f cn) →
  mod_conn c f w = Ok (tt, w <| conns := <[c := f cn]> (conns w) |>) ∧
  stream c base sent (w <| conns := <[c := f cn]> (conns w) |>) (f cn) ch pfd.
Proof.
  intros [Hl Hwf Hcap Hm Hb] Ec Es Eb Hu. split; [by apply mod_conn_Ok, Hl|].
  split; rewrite ?Eb, ?Es; try done. by apply live_mod_conn with cn.
Qed.

Lemma reach_stream w sent :
  write_complete_ok c → invoke (TcpConnection_shutdownInLoop c) = shutdownInLoop c →
  reach c base w sent →
  queue_limit sent ∧ ∃ cn ch pfd, stream c base sent w cn ch pfd.
Proof.
  intros Hwc Hinv Hr. induction Hr as [w cn ch pfd Hl Hb He Hw|w w' sent s msg Hr [Hlim IH] Hs Hlim' Hst
    |w w' sent Hr [Hlim IH] Hst|w w' sent Hr [Hlim IH] Hst|w w' sent Hr [Hlim IH] Hst
    |w w' sent Hr [Hlim IH] Ho].
  - split; [by vm_compute|]. exists cn, ch, pfd. by apply stream_established.
  - destruct IH as (cn & ch & pfd & IH). split.
    { unfold accepted, queue_limit in *. case_match; [case_match; [by rewrite app_nil_r|done]|by rewrite app_nil_r]. }
    destruct (sendInLoop_Ok sent w cn ch pfd s msg Hwc IH Hs Hlim') as (w1 & cn1 & ch1 & pfd1 & E & ? & _).
    rewrite Hst in E. simplify_eq. eauto.
  - destruct IH as (cn & ch & pfd & IH). split; [done|].
    destruct (HandleWrite_Ok sent w cn ch pfd Hwc IH Hlim) as (w1 & cn1 & ch1 & pfd1 & E & ? & _).
    rewrite Hst in E. simplify_eq. eauto.
  - destruct IH as (cn & ch & pfd & IH). split; [done|].
    destruct (Shutdown_Ok sent w cn ch pfd Hinv IH) as (w1 & cn1 & E & ? & _).
    rewrite Hst in E. simplify_eq. eauto.
  - destruct IH as (cn & ch & pfd & IH). split; [done|].
    destruct (shutdownInLoop_Ok sent w cn ch pfd IH) as (w1 & E & ? & _).
    rewrite Hst in E. simplify_eq. eauto.
  - destruct IH as (cn & ch & pfd & IH). split; [done|]. by eapply stream_other.
Qed.

(** The loop reports the descriptor writable [n] times. *)
Fixpoint handle_writes (n : nat) : MW unit :=
  match n with O => mret tt | S n => HandleWrite c ;; handle_writes n end.

(** A kernel that takes at least one byte whenever it reports writability. *)
Definition write_progress : Prop := ∀ h fd d, d ≠ [] → 1 ≤ (k_write h fd d).1.

Lemma drains_Ok k sent w cn ch pfd :
  write_complete_ok c → write_progress → stream c base sent w cn ch pfd → queue_limit sent →
  let q := Buffer.contents (snd_buffer_ cn) in
  (length q ≤ k)%nat →
  ∃ n w' cn' ch' pfd', (n ≤ length q)%nat ∧ handle_writes n w = Ok (tt, w') ∧
    stream c base sent w' cn' ch' pfd' ∧ Buffer.contents (snd_buffer_ cn') = [] ∧
    (q ≠ [] → state_ cn = kDisconnecting →
       ∃ h, hist w' = EvShutdown (socket_ cn) :: h ∧ wire (socket_ cn) h = base ++ sent).
Proof.
  intros Hwc Hpr Hst Hlim. cbn zeta. revert w cn ch pfd Hst. induction k as [|k IH]; intros w cn ch pfd Hst Hk.
  all: destruct (Buffer.contents (snd_buffer_ cn)) as [|x q] eqn:Eq;
    [exists 0%nat, w, cn, ch, pfd; by split_and!|cbn in Hk; try lia].
  destruct (HandleWrite_Ok sent w cn ch pfd Hwc Hst Hlim)
    as (w1 & cn1 & ch1 & pfd1 & E1 & Hst1 & Est1 & Es1 & Eb1 & Hsh1).
  rewrite Eq in *. set (r := Z.to_nat _) in Eb1.
  assert (Hr : (1 ≤ r)%nat) by (pose proof (Hpr (hist w) (socket_ cn) (x :: q) ltac:(done)); lia).
  destruct (IH w1 cn1 ch1 pfd1 Hst1) as (n & w2 & cn2 & ch2 & pfd2 & Hn & E2 & Hst2 & Eb2 & Hsh2).
  { rewrite Eb1, length_drop. cbn. lia. }
  exists (S n), w2, cn2, ch2, pfd2. split_and!; try done.
  - rewrite Eb1, length_drop in Hn. cbn in *. lia.
  - cbn. by rewrite (M_bind_eq _ _ _ _ _ E1).
  - intros _ Hd. destruct (drop r (x :: q)) as [|y q'] eqn:Ed.
    + rewrite Eb1 in Hn. destruct n; [|cbn in Hn; lia]. injection E2 as <-. by apply Hsh1.
    + rewrite <-Es1. apply Hsh2; [by rewrite Eb1|by rewrite Est1].
Qed.

End Steps.
End TcpConnection.

(** A kernel whose writes on a non-blocking socket succeed or would block *)
Definition no_write_errors `{Kernel} : Prop :=
  ∀ h fd d, 0 ≤ (k_write h fd d).1 ∨ (k_write h fd d).2 = EWOULDBLOCK.

Lemma accepted_all `{Kernel} c msg w :
  no_write_errors → is_Some (conns w !! c) → accepted c msg w = msg.
Proof.
  intros Hk [cn Hc]. unfold accepted. rewrite Hc.
  destruct (Hk (hist w) (socket_ cn) msg) as [Hz|He].
  - by rewrite (proj2 (Z.ltb_ge _ _)), andb_false_r by done.
  - by rewrite He, andb_false_r.
Qed.

(** ** Theorems *)

Section Theorems.
Context `{HK : Kernel} `{!WriteOk} (invoke : Callback → MW unit) (c : conn_id).
(** The dispatcher runs the lambda of [Shutdown]; the application's
    write-complete callback behaves. *)
Context (Hshut : invoke (TcpConnection_shutdownInLoop c) = shutdownInLoop c).
Context (Hwc : write_complete_ok invoke c).

(** C3: at every point of a connection's life, in whatever order sends, write
    events, shutdown requests and steps of the rest of the program that leave
    this connection alone are interleaved in the loop thread, the bytes the
    kernel accepted followed by the bytes in the send buffer are exactly the
    bytes of the messages accepted so far, in order (behind what was written to
    the descriptor before); and the entry of the poller asks for write events
    exactly while the send buffer is not empty.  A message
    is accepted as a whole, except that it is dropped when the send buffer is
    empty and the direct write fails with an error other than EWOULDBLOCK.  A
    step leaves the connection alone if the connection stays alive, nothing is
    written to its socket and its entry of the poller stays at the index of its
    channel; that ends when an earlier entry is removed from the poller, which
    makes the index stale.  The write-complete callback of the application
    returns and does not send on this connection, and the messages together stay
    below the maximal size of a vector. *)
Theorem TcpConnection_stream (base sent : bytes) (w : World) :
  reach invoke c base w sent →
  ∃ cn ch pfd, live c w cn ch pfd ∧
    wire (socket_ cn) (hist w) ++ Buffer.contents (snd_buffer_ cn) = base ++ sent ∧
    pfd_fd pfd = socket_ cn ∧
    has (pfd_events pfd) POLLIN = true ∧
    (has (pfd_events pfd) POLLOUT = true ↔ Buffer.contents (snd_buffer_ cn) ≠ []).
Proof.
  intros Hr. destruct (reach_stream _ _ _ _ _ Hwc Hshut Hr) as (_ & cn & ch & pfd & [Hl Hwf _ Hm Hb]).
  exists cn, ch, pfd. split; [done|]. split; [done|].
  pose proof (lv_reg _ _ _ _ _ Hl) as Hrg. split.
  { by rewrite (rg_fd _ _ _ _ Hrg), (lv_fd _ _ _ _ _ Hl). }
  rewrite (rg_events _ _ _ _ Hrg), Hm. by destruct (Buffer.contents (snd_buffer_ cn)).
Qed.

(** C14: in every state of the connection that is reached by its own
    operations and by steps of the rest of the program that leave it alone (it
    stays alive, nothing else writes to its socket, and its entry of the poller
    stays at the index of its channel), each operation of its output side
    returns: [sendInLoop] of any message that keeps the buffer below the maximal
    vector size, [HandleWrite], [Shutdown] and [shutdownInLoop] fail none of
    their own assertions nor those of the buffer and the poller, provided the
    write-complete callback of the application returns and does not send on this
    connection.  The condition on the index is needed: in a world where the
    poller has another descriptor or nothing at it, as after the removal of an
    earlier entry, switching the interest in write events on or off fails an
    assertion of the poller. *)
Theorem TcpConnection_output_safe (base sent : bytes) (w : World) :
  reach invoke c base w sent →
  ((∀ s msg, strings w !! s = Some msg → queue_limit (sent ++ msg) →
     ∃ w', sendInLoop invoke c s w = Ok (tt, w')) ∧
   (∃ w', HandleWrite invoke c w = Ok (tt, w')) ∧
   (∃ w', Shutdown invoke c w = Ok (tt, w')) ∧
   (∃ w', shutdownInLoop c w = Ok (tt, w'))) ∧
  (∀ w2 cn ch, conns w2 !! c = Some cn → stale_index (channel_ cn) w2 ch →
     let e := AssertFailed (if index_ ch <? len (pollfds_ (poller (loop w2))) then "poller.cc:76" else "poller.cc:73") in
     EnableWriting (channel_ cn) w2 = Err e ∧ DisableWriting (channel_ cn) w2 = Err e).
Proof.
  intros Hr. destruct (reach_stream _ _ _ _ _ Hwc Hshut Hr) as (Hlim & cn & ch & pfd & Hst).
  split; [split_and!|].
  - intros s msg Hs Hl. destruct (sendInLoop_Ok _ _ _ _ _ _ _ _ _ _ Hwc Hst Hs Hl) as (w' & ? & ? & ? & ? & _).
    eauto.
  - destruct (HandleWrite_Ok _ _ _ _ _ _ _ _ Hwc Hst Hlim) as (w' & ? & ? & ? & ? & _). eauto.
  - destruct (Shutdown_Ok _ _ _ _ _ _ _ _ Hshut Hst) as (w' & ? & ? & _). eauto.
  - destruct (shutdownInLoop_Ok _ _ _ _ _ _ _ Hst) as (w' & ? & _). eauto.
  - intros w2 cn2 ch2 _ Hsi. split; (eapply stale_change_mask; [exact Hsi|reflexivity]).
Qed.

(** C13: when the kernel takes at least one byte per write event, the send
    buffer is empty after at most as many events in a row as bytes were queued:
    then the kernel has all bytes of the messages accepted, the interest in
    write events is off, and if a shutdown was requested meanwhile the last
    system call closes the write end, after the last byte.  The starting point is
    any state reached by the operations of the connection and by steps of the
    rest of the program that leave it alone (it stays alive, nothing else writes
    to its socket, and its entry of the poller stays at the index of its
    channel), with messages that together stay below the maximal size of a
    vector; the write-complete callback of the application returns and does not
    send on this connection. *)
Theorem TcpConnection_drains (base sent : bytes) (w : World) (cn : TcpConnection) :
  write_progress → reach invoke c base w sent → conns w !! c = Some cn →
  let q := Buffer.contents (snd_buffer_ cn) in
  ∃ n w' cn' ch' pfd', (n ≤ length q)%nat ∧ handle_writes invoke c n w = Ok (tt, w') ∧
    live c w' cn' ch' pfd' ∧ Buffer.contents (snd_buffer_ cn') = [] ∧
    wire (socket_ cn') (hist w') = base ++ sent ∧ pfd_events pfd' = i16 Channel.kReadEvent ∧
    (q ≠ [] → state_ cn = kDisconnecting →
       ∃ h, hist w' = EvShutdown (socket_ cn) :: h ∧ wire (socket_ cn) h = base ++ sent).
Proof.
  intros Hpr Hr Hc q. destruct (reach_stream _ _ _ _ _ Hwc Hshut Hr) as (Hlim & cn' & ch & pfd & Hst).
  pose proof (lv_conn _ _ _ _ _ (st_live _ _ _ _ _ _ _ Hst)). simplify_eq.
  destruct (drains_Ok invoke c base (length q) sent w cn ch pfd Hwc Hpr Hst Hlim)
    as (n & w' & cn' & ch' & pfd' & Hn & E & [Hl _ _ Hm Hb] & Hq & Hsh); [done|].
  exists n, w', cn', ch', pfd'. rewrite Hq in Hm, Hb. rewrite app_nil_r in Hb. split_and!; try done.
  by rewrite (rg_events _ _ _ _ (lv_reg _ _ _ _ _ Hl)), Hm.
Qed.

End Theorems.

(** The world after the read event was served: the system call is in the
    history and the connection has its new receive buffer. *)
Definition received (c : conn_id) (cn : TcpConnection) (r : Buffer.readv_result)
    (b : Buffer.Buffer) (w : World) : World :=
  w <| hist := EvReadv (socket_ cn) r :: hist w |>
    <| conns := <[c := cn <| rev_buffer_ := b |>]> (conns w) |>.

(** The three outcomes of a read event *)
Lemma HandleRead_eval `{HK : Kernel} `{HA : App}
    (close_callback : CloseCallback → conn_id → MW unit) (c : conn_id) (w : World)
    (cn : TcpConnection) (ch : Channel Callback) :
  conns w !! c = Some cn → chans w !! channel_ cn = Some ch → fd_ ch = socket_ cn →
  Buffer.wf (rev_buffer_ cn) →
  len (Buffer.buffer_ (rev_buffer_ cn)) + Buffer.extrabuf_size ≤ Buffer.max_size →
  (∀ vec, Forall (Z.le 0) vec → Buffer.readv_fits vec (k_readv (hist w) (socket_ cn) vec)) →
  let r := k_readv (hist w) (socket_ cn) (Buffer.iovec (rev_buffer_ cn)) in
  ∃ b, Buffer.wf b ∧
  match r with
  | Buffer.ReadvOk ((_ :: _) as d) =>
      Buffer.contents b = Buffer.contents (rev_buffer_ cn) ++ d ∧
      HandleRead close_callback c w =
        call_opt (fun u => t ← now; with_shared c (app_message u c t)) (msg_callback_ cn)
          (received c cn r b w)
  | Buffer.ReadvOk [] =>
      Buffer.contents b = Buffer.contents (rev_buffer_ cn) ∧
      HandleRead close_callback c w = HandleClose close_callback c (received c cn r b w)
  | Buffer.ReadvErr _ =>
      b = rev_buffer_ cn ∧ HandleRead close_callback c w = Ok (tt, received c cn r b w)
  end.
Proof.
  intros Hc Hch Hfd Hwf Hcap Hfits r.
  pose proof (Buffer.iovec_sum (rev_buffer_ cn) Hwf) as [Hpos Hsum].
  unfold HandleRead. rewrite (M_bind_eq _ _ _ _ _ (get_conn_Ok _ _ _ Hc)).
  rewrite (M_bind_eq _ _ _ _ _ (get_chan_Ok _ _ _ Hch)), Hfd.
  set (w1 := w <| hist := EvReadv (socket_ cn) r :: hist w |>).
  rewrite (M_bind_eq _ _ w r w1) by done.
  assert (Hc1 : conns w1 !! c = Some cn) by done.
  pose proof (Buffer.readFd_Ok (fun _ => r) None (rev_buffer_ cn) Hwf Hcap (Hfits _ Hpos)) as Hrd.
  cbn beta in Hrd. destruct r as [errno|d] eqn:Er.
  - rewrite Hrd. exists (rev_buffer_ cn). split; [done|]. split; [done|].
    rewrite (M_bind_eq _ _ w1 (-1, None, rev_buffer_ cn) w1) by done.
    by rewrite M_bind_unfold, (mod_conn_Ok _ _ _ _ Hc1).
  - destruct Hrd as (b & -> & Hb & Hbc & _). exists b. split; [done|].
    rewrite (M_bind_eq _ _ w1 (len d, None, b) w1) by done.
    rewrite M_bind_unfold, (mod_conn_Ok _ _ _ _ Hc1). cbn [fst snd].
    fold (received c cn (Buffer.ReadvOk d) b w). destruct d as [|x d]; [by rewrite app_nil_r in Hbc|].
    split; [done|]. rewrite (proj2 (Z.gtb_lt _ _)) by (rewrite len_cons; pose proof (len_nonneg d); lia).
    rewrite (M_bind_eq _ _ _ (cn <| rev_buffer_ := b |>) (received c cn (Buffer.ReadvOk (x :: d)) b w));
      [done|]. apply get_conn_Ok. apply lookup_insert_eq.
Qed.

(** A read event delivers to the message callback a receive buffer with
    exactly the bytes that had not been retrieved followed by the bytes just
    received; end of file goes to [HandleClose]; a read error leaves everything
    but the history of system calls alone. *)
Theorem TcpConnection_HandleRead_spec `{HK : Kernel} `{HA : App}
    (close_callback : CloseCallback → conn_id → MW unit) (c : conn_id) (w : World)
    (cn : TcpConnection) (ch : Channel Callback) :
  conns w !! c = Some cn → chans w !! channel_ cn = Some ch → fd_ ch = socket_ cn →
  Buffer.wf (rev_buffer_ cn) →
  len (Buffer.buffer_ (rev_buffer_ cn)) + Buffer.extrabuf_size ≤ Buffer.max_size →
  (∀ vec, Forall (Z.le 0) vec → Buffer.readv_fits vec (k_readv (hist w) (socket_ cn) vec)) →
  let r := k_readv (hist w) (socket_ cn) (Buffer.iovec (rev_buffer_ cn)) in
  ∃ b, Buffer.wf b ∧
  match r with
  | Buffer.ReadvOk ((_ :: _) as d) =>
      Buffer.contents b = Buffer.contents (rev_buffer_ cn) ++ d ∧
      HandleRead close_callback c w =
        call_opt (fun u => t ← now; with_shared c (app_message u c t)) (msg_callback_ cn)
          (received c cn r b w)
  | Buffer.ReadvOk [] =>
      Buffer.contents b = Buffer.contents (rev_buffer_ cn) ∧
      HandleRead close_callback c w = HandleClose close_callback c (received c cn r b w)
  | Buffer.ReadvErr _ =>
      b = rev_buffer_ cn ∧ HandleRead close_callback c w = Ok (tt, received c cn r b w)
  end.
Proof. intros. by eapply HandleRead_eval. Qed.

(** [Send] from another thread copies nothing: it queues a lambda with the
    address of the caller's string.  If the string is gone when the loop runs
    the lambda on a connection with an empty send buffer, [sendInLoop] reads a
    destroyed string.  In the loop thread [Send] is [sendInLoop]. *)
Theorem TcpConnection_Send_cross_thread `{HK : Kernel} (invoke : Callback → MW unit) (c : conn_id)
    (s : str_id) (w w2 : World) (cn : TcpConnection) (ch : Channel Callback) (pfd : pollfd) :
  threadId_ (loop w) ≠ tid w → live c w2 cn ch pfd → strings w2 !! s = None →
  Channel.isWritingEnabled ch = false → Buffer.readableBytes (snd_buffer_ cn) = 0 →
  Send invoke c s w = Ok (tt, queued (TcpConnection_sendInLoop c s) w) ∧
  strings (queued (TcpConnection_sendInLoop c s) w) = strings w ∧
  sendInLoop invoke c s w2 = Err (UseAfterFree "std::string") ∧
  Send invoke c s w2 = sendInLoop invoke c s w2.
Proof.
  intros Hthr Hl Hs Hen Hrd.
  pose proof (rg_thread _ _ _ _ (lv_reg _ _ _ _ _ Hl)) as Hthr2. unfold Send, isInLoopThread. split_and!.
  - rewrite (M_bind_eq _ _ w false w) by (unfold gets; by rewrite (proj2 (Z.eqb_neq _ _) Hthr)).
    by apply RunInLoop_other_eval.
  - done.
  - unfold sendInLoop, send_direct. rewrite (M_bind_eq _ _ _ _ _ (assertInLoopThread_true w2 Hthr2)).
    apply M_bind_Err_eq. rewrite (M_bind_eq _ _ _ _ _ (get_conn_Ok _ _ _ (lv_conn _ _ _ _ _ Hl))).
    rewrite (M_bind_eq _ _ _ _ _ (get_chan_Ok _ _ _ (rg_chan _ _ _ _ (lv_reg _ _ _ _ _ Hl)))), Hen, Hrd.
    cbn [negb andb Z.eqb]. apply M_bind_Err_eq. unfold get_str. by rewrite Hs.
  - rewrite (M_bind_eq _ _ w2 true w2) by (unfold gets; by rewrite Hthr2, Z.eqb_refl). done.
Qed.

(** ** A connection on a kernel that takes two bytes per write *)

Definition ex_slow_kernel : Kernel := {|
  k_gettimeofday := @k_gettimeofday ex_kernel;
  k_poll := @k_poll ex_kernel;
  k_write _ _ d := (Z.min 2 (len d), 0);
  k_read := @k_read ex_kernel;
  k_readv := @k_readv ex_kernel;
  k_accept := @k_accept ex_kernel;
  k_settime := @k_settime ex_kernel;
  k_eventfd := @k_eventfd ex_kernel;
  k_timerfd := @k_timerfd ex_kernel;
  k_socket := @k_socket ex_kernel;
  k_bind := @k_bind ex_kernel;
  k_listen := @k_listen ex_kernel;
  k_shutdown := @k_shutdown ex_kernel
|}.

#[export] Instance ex_slow_write_ok : WriteOk (H := ex_slow_kernel).
Proof. intros h fd d. cbn. lia. Qed.

Definition ex_invoke (cb : Callback) : MW unit :=
  match cb with
  | TcpConnection_shutdownInLoop c => shutdownInLoop (H := ex_slow_kernel) c
  | _ => mret tt
  end.

Definition run_in (m : MW unit) (w : World) : World :=
  match m w with Ok (_, w') => w' | Err _ => w end.

Definition ex_addr : sockaddr_in := mkSockaddr 2 16777343 20480.

(** Connection 10 with channel 11 on descriptor 9; string 7 is to be sent. *)
Definition ex_established : World :=
  run_in (SetState 10 kConnected)
    (run_in (_ ← TcpConnection_new (b_ "test#0") 9 ex_addr ex_addr; mret tt)
       (ex_world <| strings := <[7%nat := b_ "hello"]> (strings ex_world) |>)).

Definition ex_buffer : Buffer.Buffer := Buffer.mkBuffer (replicate 1032 Byte.x00) 8 8.
Definition ex_cn : TcpConnection :=
  mkTcpConnection (b_ "test#0") kConnected 9 11 ex_addr ex_addr None None None None ex_buffer ex_buffer 1.
Definition ex_ch : Channel Callback :=
  mkChannel 0 9 3 0 0 (Some (TcpConnection_HandleRead 10)) (Some (TcpConnection_HandleWrite 10))
    None (Some (TcpConnection_HandleClose 10)).

Definition ex_sent : World := run_in (sendInLoop (H := ex_slow_kernel) ex_invoke 10 7) ex_established.
Definition ex_closing : World := run_in (Shutdown (H := ex_slow_kernel) ex_invoke 10) ex_sent.

Lemma ex_live : live 10 ex_established ex_cn ex_ch (mkpollfd 9 3 0).
Proof. by repeat split; vm_compute. Qed.

Lemma ex_write_complete : write_complete_ok ex_invoke 10.
Proof. intros u w cn ch pfd Hl. exists w, cn, ch, pfd. split_and!; try done; lia. Qed.

Lemma ex_reach_sent : reach (H := ex_slow_kernel) ex_invoke 10 [] ex_sent (b_ "hello").
Proof.
  assert (b_ "hello" = [] ++ accepted (H := ex_slow_kernel) 10 (b_ "hello") ex_established) as -> by by vm_compute.
  apply (reach_send _ _ _ _ _ _ 7 (b_ "hello")); [|by vm_compute..].
  by apply (reach_established _ _ _ _ ex_cn ex_ch _ ex_live); vm_compute.
Qed.

Lemma ex_reach_closing : reach (H := ex_slow_kernel) ex_invoke 10 [] ex_closing (b_ "hello").
Proof. apply (reach_shutdown _ _ _ ex_sent); [apply ex_reach_sent|by vm_compute]. Qed.

Lemma TcpConnection_stream_witness :
  ∃ cn ch pfd, live 10 ex_sent cn ch pfd ∧
    wire (socket_ cn) (hist ex_sent) ++ Buffer.contents (snd_buffer_ cn) = b_ "hello" ∧
    pfd_fd pfd = socket_ cn ∧ has (pfd_events pfd) POLLIN = true ∧
    (has (pfd_events pfd) POLLOUT = true ↔ Buffer.contents (snd_buffer_ cn) ≠ []).
Proof.
  apply (TcpConnection_stream (HK := ex_slow_kernel) ex_invoke 10 eq_refl ex_write_complete []
    (b_ "hello") ex_sent). apply ex_reach_sent.
Defined.

(** The poller after an earlier entry was removed: the channel still has the
    old index. *)
Definition ex_stale : World :=
  ex_sent <| loop := (loop ex_sent) <| poller :=
    mkPoller [mkpollfd 5 1 0] (channels_ (poller (loop ex_sent))) |> |>.

Lemma TcpConnection_output_safe_witness :
  (∃ w', HandleWrite (H := ex_slow_kernel) ex_invoke 10 ex_sent = Ok (tt, w')) ∧
  DisableWriting 11 ex_stale = Err (AssertFailed "poller.cc:76").
Proof.
  destruct (TcpConnection_output_safe (HK := ex_slow_kernel) ex_invoke 10 eq_refl ex_write_complete []
    (b_ "hello") ex_sent ex_reach_sent) as [(_ & Hw & _) Hs]. split; [exact Hw|].
  destruct (conns ex_stale !! 10%nat) as [cn|] eqn:Hc; [|by vm_compute in Hc].
  destruct (chans ex_stale !! 11%nat) as [ch|] eqn:Hch; [|by vm_compute in Hch].
  assert (Hk : channel_ cn = 11%nat) by (vm_compute in Hc; by injection Hc as <-).
  assert (Hi : loop_ ch = this_ (loop ex_stale) ∧ fd_ ch = 9 ∧ index_ ch = 0)
    by (vm_compute in Hch; by injection Hch as <-).
  assert (Hp : pollfds_ (poller (loop ex_stale)) = [mkpollfd 5 1 0]) by (by vm_compute).
  assert (Ht : threadId_ (loop ex_stale) = tid ex_stale) by (by vm_compute).
  assert (Hm : channels_ (poller (loop ex_stale)) !! 9 = Some 11%nat) by (by vm_compute).
  revert Hi Hc Hch Hp Ht Hm. generalize ex_stale. intros w2 (Hl & Hf & Hi) Hc Hch Hp Ht Hm.
  destruct (Hs w2 cn ch Hc) as [_ Hd]; rewrite Hk in *; [|by rewrite Hi, Hp in Hd].
  split; rewrite ?Hf, ?Hi, ?Hp; try done. by intros pfd [= <-].
Defined.

Lemma TcpConnection_drains_witness :
  ∃ n w', (n ≤ 3)%nat ∧ handle_writes (H := ex_slow_kernel) ex_invoke 10 n ex_closing = Ok (tt, w') ∧
    ∃ h, hist w' = EvShutdown 9 :: h ∧ wire 9 h = b_ "hello".
Proof.
  destruct (conns ex_closing !! 10%nat) as [cn|] eqn:Hc; [|by vm_compute in Hc].
  assert (Hcn : Buffer.contents (snd_buffer_ cn) = b_ "llo" ∧ state_ cn = kDisconnecting ∧ socket_ cn = 9)
    by (vm_compute in Hc; injection Hc as <-; by vm_compute).
  destruct Hcn as (Hq & Hd & Hs).
  destruct (TcpConnection_drains (HK := ex_slow_kernel) ex_invoke 10 eq_refl ex_write_complete []
    (b_ "hello") ex_closing cn) as (n & w' & cn' & ch' & pfd' & Hn & E & _ & _ & _ & _ & Hsh);
    [intros h fd d Hne; cbn; destruct d; [by destruct Hne|rewrite len_cons; pose proof (len_nonneg d); lia]|apply ex_reach_closing|exact Hc|].
  rewrite Hq, Hs in *. exists n, w'. split; [exact Hn|]. split; [exact E|]. by apply Hsh.
Defined.

Definition ex_app : App := {|
  app_run _ := mret tt; app_connection _ _ := mret tt; app_message _ _ _ := mret tt;
  app_write_complete _ _ := mret tt; app_close _ _ := mret tt; app_new_connection _ _ _ := mret tt |}.

Lemma TcpConnection_HandleRead_spec_witness :
  ∃ b, Buffer.wf b ∧ Buffer.contents b = b_ "ping" ∧
    HandleRead (H := ex_slow_kernel) (H0 := ex_app) (fun _ _ => mret tt) 10 ex_established =
      Ok (tt, received 10 ex_cn (Buffer.ReadvOk (b_ "ping")) b ex_established).
Proof.
  apply (TcpConnection_HandleRead_spec (HK := ex_slow_kernel) (HA := ex_app) (fun _ _ => mret tt)
    10 ex_established ex_cn ex_ch); [by vm_compute..|].
  intros vec Hv. apply (Buffer.readv_queue_fits (b_ "ping")), Hv.
Defined.

Lemma TcpConnection_Send_cross_thread_witness :
  sendInLoop (H := ex_slow_kernel) ex_invoke 10 8 ex_established = Err (UseAfterFree "std::string").
Proof.
  apply (TcpConnection_Send_cross_thread (HK := ex_slow_kernel) ex_invoke 10 8
    (ex_established <| tid := 2 |>) ex_established ex_cn ex_ch (mkpollfd 9 3 0));
    [done|apply ex_live|by vm_compute..].
Defined.

End TcpConnection.
