(* ===== verification/Footprint.v ===== *)
(** * What the operations of one connection touch

    A small program logic for the monad of the reactor: [preserves J m Q] says
    that whenever [m] returns from a world with [J], the world it returns in has
    [J] again and its result has [Q].  [footprint] is such a [J]: everything that
    does not belong to one connection is as it was in a fixed earlier world, and
    the connection keeps its channel, its handlers and its entry in the poller.
    [sendInLoop] and [HandleWrite] preserve it ([sendInLoop_footprint],
    [HandleWrite_footprint]), so that they are steps of the rest of the program
    for every other connection ([footprint_other_step]). *)

From S2P Require Import Prelude Slice Buffer Timestamp Poller World EventLoop TcpConnection.
Import TcpConnection.

(** ** The logic *)

Definition preserves {A} (J : World → Prop) (m : MW A) (Q : A → Prop) : Prop :=
  ∀ w a w', J w → m w = Ok (a, w') → J w' ∧ Q a.

Abbreviation any := (fun _ => True).

Section Rules.
Context (J : World → Prop).

Lemma preserves_bind {A B} (m : MW A) (f : A → MW B) Q R :
  preserves J m Q → (∀ a, Q a → preserves J (f a) R) → preserves J (m ≫= f) R.
Proof.
  intros Hm Hf w b w' Hw Hb. apply M_bind_Ok in Hb as (a & w1 & H1 & H2).
  destruct (Hm _ _ _ Hw H1) as [? ?]. by eapply Hf.
Qed.

(** Computations that do not change the world *)
Definition reader {A} (m : MW A) : Prop := ∀ w a w', m w = Ok (a, w') → w' = w.

Lemma preserves_reader {A} (m : MW A) : reader m → preserves J m any.
Proof. intros Hm w a w' Hw He. by rewrite (Hm _ _ _ He). Qed.

Lemma preserves_ret {A} (a : A) (Q : A → Prop) : Q a → preserves J (mret a) Q.
Proof. intros HQ w b w' Hw He. by inv_ok. Qed.

Lemma preserves_mmod f : (∀ w, J w → J (f w)) → preserves J (mmod f) any.
Proof. intros Hf w [] w' Hw He. injection He as <-. split; [auto|done]. Qed.

Lemma preserves_if {A} (b : bool) (m k : MW A) Q :
  (b = true → preserves J m Q) → (b = false → preserves J k Q) →
  preserves J (if b then m else k) Q.
Proof. destruct b; auto. Qed.
End Rules.

Lemma reader_gets {A} (f : World → A) : reader (gets f).
Proof. intros w a w' He. by injection He. Qed.
Lemma reader_mget : reader (mget (S := World)).
Proof. intros w a w' He. by inv_ok. Qed.
Lemma reader_mlift {A} (m : res A) : reader (mlift (S := World) m).
Proof. intros w a w' He. by inv_ok. Qed.
Lemma reader_massert b s : reader (massert (S := World) b s).
Proof. apply reader_mlift. Qed.
Lemma reader_get_str s : reader (get_str s).
Proof. unfold get_str. intros w a w' He. case_match; by inv_ok. Qed.
Lemma reader_bind {A B} (m : MW A) (f : A → MW B) :
  reader m → (∀ a, reader (f a)) → reader (m ≫= f).
Proof.
  intros Hm Hf w b w' (a & w1 & H1 & H2)%M_bind_Ok.
  by rewrite (Hf _ _ _ _ H2), (Hm _ _ _ H1).
Qed.
Lemma reader_assertInLoopThread : reader assertInLoopThread.
Proof.
  apply reader_bind; [apply reader_gets|]. intros [] w a w' He; by inv_ok.
Qed.
Lemma reader_isInLoopThread : reader isInLoopThread.
Proof. apply reader_gets. Qed.

Create HintDb reader discriminated.
#[export] Hint Resolve reader_gets reader_mget reader_mlift reader_massert reader_get_str
  reader_assertInLoopThread reader_isInLoopThread : reader.

(** ** The footprint *)

(** The bytes received and sent on descriptor [fd] since it was last accepted,
    oldest first *)
Fixpoint session_in (fd : Z) (h : history) : bytes :=
  match h with
  | [] => []
  | EvAccept _ fd' :: h' => if fd' =? fd then [] else session_in fd h'
  | EvReadv fd' (Buffer.ReadvOk d) :: h' =>
      if fd' =? fd then session_in fd h' ++ d else session_in fd h'
  | _ :: h' => session_in fd h'
  end.

Fixpoint session_out (fd : Z) (h : history) : bytes :=
  match h with
  | [] => []
  | EvAccept _ fd' :: h' => if fd' =? fd then [] else session_out fd h'
  | EvWrite fd' d n :: h' =>
      if fd' =? fd then session_out fd h' ++ take (Z.to_nat n) d else session_out fd h'
  | _ :: h' => session_out fd h'
  end.

(** While [fd] is not accepted again, its session grows with the stream. *)
Lemma session_grows fd l h :
  (∀ lfd, EvAccept lfd fd ∉ l) →
  ∃ x, wire fd (l ++ h) = wire fd h ++ x ∧ session_out fd (l ++ h) = session_out fd h ++ x.
Proof.
  induction l as [|e l IH]; intros Ha; [exists []; by rewrite !app_nil_r|].
  destruct IH as (x & Hw & Ho); [intros lfd Hin; apply (Ha lfd); by constructor|].
  destruct e as [| | | | | |fd' d n| |lfd fd'| | | | |]; cbn; rewrite ?Hw, ?Ho; eauto.
  - destruct (fd' =? fd); [|eauto]. eexists. by rewrite <-!app_assoc.
  - destruct (Z.eqb_spec fd' fd) as [->|]; [|eauto]. exfalso. apply (Ha lfd). by constructor.
Qed.

(** System calls that receive no data, accept nothing and write to [fd0] only *)
Definition quiet (fd0 : Z) (e : sys_event) : Prop :=
  match e with
  | EvAccept _ _ | EvReadv _ (Buffer.ReadvOk _) => False
  | EvWrite fd _ _ => fd = fd0
  | _ => True
  end.

Lemma quiet_wire fd0 fd l h : Forall (quiet fd0) l → fd ≠ fd0 → wire fd (l ++ h) = wire fd h.
Proof.
  intros Hl Hne. induction Hl as [|e l He Hl IH]; [done|].
  destruct e; cbn in He |- *; try done. subst. by rewrite (proj2 (Z.eqb_neq _ _)) by done.
Qed.

Lemma quiet_in fd0 fd l h : Forall (quiet fd0) l → session_in fd (l ++ h) = session_in fd h.
Proof. induction 1 as [|e l He Hl IH]; [done|]. destruct e as [| | | | |? []| | | | | | | |]; cbn in *; done. Qed.

Lemma quiet_accept fd0 lfd fd l : Forall (quiet fd0) l → EvAccept lfd fd ∉ l.
Proof. intros Hl Hin. by apply (proj1 (Forall_forall _ _) Hl) in Hin. Qed.

Section Footprint.
Context `{HK : Kernel} (inv : Callback → MW unit).
(** what is known of the receive buffer *)
Context (RB : Buffer.Buffer → Prop).
(** the connection, and the world everything is compared with *)
Context (c : conn_id) (cn0 : TcpConnection) (ch0 : Channel Callback) (w0 : World).

Record footprint (w : World) : Prop := {
  fp_tid : tid w = tid w0;
  fp_loop : loop w = (loop w0) <| poller := poller (loop w) |>;
  fp_conns c' : c' ≠ c → conns w !! c' = conns w0 !! c';
  fp_chans k : k ≠ channel_ cn0 → chans w !! k = chans w0 !! k;
  fp_map : channels_ (poller (loop w)) = channels_ (poller (loop w0));
  fp_fds : Poller.fds (poller (loop w)) = Poller.fds (poller (loop w0));
  fp_entries i : i ≠ Z.to_nat (index_ ch0) →
    pollfds_ (poller (loop w)) !! i = pollfds_ (poller (loop w0)) !! i;
  fp_hist : ∃ l, hist w = l ++ hist w0 ∧ Forall (quiet (fd_ ch0)) l;
  fp_acceptor : acceptor_ w = acceptor_ w0;
  fp_server : server w = server w0;
  fp_next : (next_addr w0 ≤ next_addr w)%nat;
  fp_conn : ∃ cn, conns w !! c = Some cn ∧ channel_ cn = channel_ cn0 ∧
    socket_ cn = socket_ cn0 ∧ msg_callback_ cn = msg_callback_ cn0 ∧ write_complete_callback_ cn = None ∧
    name_ cn = name_ cn0 ∧ RB (rev_buffer_ cn);
  fp_chan : ∃ ch, chans w !! channel_ cn0 = Some ch ∧ same_handlers ch0 ch ∧
    index_ ch = index_ ch0 ∧ fd_ ch = fd_ ch0 ∧ Z.testbit (events_ ch) 0 = true
}.

Context (Hidx : 0 ≤ index_ ch0).

(** A change of the connection record, of the strings, the addresses or the
    history keeps the footprint. *)
(** What an update of the connection record must keep *)
Definition keeps_conn (cn cn' : TcpConnection) : Prop :=
  channel_ cn' = channel_ cn ∧ socket_ cn' = socket_ cn ∧ msg_callback_ cn' = msg_callback_ cn ∧
  write_complete_callback_ cn' = write_complete_callback_ cn ∧ name_ cn' = name_ cn ∧
  (RB (rev_buffer_ cn) → RB (rev_buffer_ cn')).

Lemma keeps_conn_refl cn : keeps_conn cn cn.
Proof. by repeat split. Qed.

Lemma footprint_frame l w w' :
  footprint w → tid w' = tid w → loop w' = loop w → chans w' = chans w →
  acceptor_ w' = acceptor_ w → server w' = server w → (next_addr w ≤ next_addr w')%nat →
  hist w' = l ++ hist w → Forall (quiet (fd_ ch0)) l →
  (∀ c', c' ≠ c → conns w' !! c' = conns w !! c') →
  (∀ cn, conns w !! c = Some cn → ∃ cn', conns w' !! c = Some cn' ∧ keeps_conn cn cn') →
  footprint w'.
Proof.
  intros [] Et El Ec Ea Es En Eh Hq Hcs Hcn. split; rewrite ?Et, ?El, ?Ec, ?Ea, ?Es; try done.
  - intros c' Hc'. by rewrite Hcs, fp_conns0.
  - destruct fp_hist0 as (l0 & E0 & ?). exists (l ++ l0). by rewrite Eh, E0, app_assoc, Forall_app.
  - lia.
  - destruct fp_conn0 as (cn & Hc & ? & ? & ? & ? & ? & ?).
    destruct (Hcn cn Hc) as (cn' & ? & ? & ? & ? & ? & ? & ?).
    exists cn'. split; [done|]. split_and!; [congruence..|auto].
Qed.

Lemma footprint_hist e w :
  footprint w → quiet (fd_ ch0) e → footprint (w <| hist := e :: hist w |>).
Proof.
  intros Hw He. apply (footprint_frame [e] w); try done; [by constructor|].
  intros cn Hc. exists cn. split; [done|apply keeps_conn_refl].
Qed.

Lemma footprint_mod_conn (f : TcpConnection → TcpConnection) w cn :
  footprint w → conns w !! c = Some cn → (∀ x, keeps_conn x (f x)) →
  footprint (w <| conns := <[c := f cn]> (conns w) |>).
Proof.
  intros Hw Hc Hf. apply (footprint_frame [] w); try done.
  - intros c' Hne. by apply lookup_insert_ne.
  - intros cn1 Hc1. simplify_eq. exists (f cn). split; [apply lookup_insert_eq|apply Hf].
Qed.

(** *** The primitive operations *)

Definition conn_view (cn : TcpConnection) : Prop :=
  channel_ cn = channel_ cn0 ∧ write_complete_callback_ cn = None.
Definition chan_view (ch : Channel Callback) : Prop :=
  fd_ ch = fd_ ch0 ∧ index_ ch = index_ ch0.

Lemma get_conn_footprint : preserves footprint (get_conn c) conn_view.
Proof.
  intros w a w' Hw He. destruct (fp_conn _ Hw) as (cn & Hc & ? & _ & _ & ? & _).
  rewrite (get_conn_Ok _ _ _ Hc) in He. by inv_ok.
Qed.

Lemma get_chan_footprint : preserves footprint (get_chan (channel_ cn0)) chan_view.
Proof.
  intros w a w' Hw He. destruct (fp_chan _ Hw) as (ch & Hc & _ & ? & ? & _).
  rewrite (get_chan_Ok _ _ _ Hc) in He. by inv_ok.
Qed.

Lemma mod_conn_footprint (f : TcpConnection → TcpConnection) :
  (∀ x, keeps_conn x (f x)) → preserves footprint (mod_conn c f) any.
Proof.
  intros Hf w [] w' Hw He. destruct (fp_conn _ Hw) as (cn & Hc & _).
  rewrite (mod_conn_Ok _ _ _ _ Hc) in He. inv_ok. split; [|done]. by apply footprint_mod_conn.
Qed.

Lemma sys_write_footprint d : preserves footprint (sys_write (fd_ ch0) d) any.
Proof.
  intros w a w' Hw He. rewrite sys_write_eval in He. inv_ok. split; [|done].
  by apply footprint_hist.
Qed.

Lemma sys_shutdown_footprint fd : preserves footprint (sys_shutdown fd) any.
Proof. intros w a w' Hw He. injection He as <- <-. split; [|done]. by apply footprint_hist. Qed.

(** Changing the event mask without giving up read events *)
Lemma change_events_footprint (f : Channel Callback → Channel Callback) :
  (∀ ch, Z.testbit (events_ ch) 0 = true → Z.testbit (events_ (f ch)) 0 = true) →
  (∀ ch, same_handlers ch (f ch) ∧ index_ (f ch) = index_ ch ∧ fd_ (f ch) = fd_ ch) →
  preserves footprint (mod_chan (channel_ cn0) f ;; update (channel_ cn0)) any.
Proof.
  intros He Hf w [] w' Hw Hok. split; [|done].
  destruct Hw as [Ht Hl Hcs Hch Hm Hfds Hen Hh Ha Hsv Hnx Hcn (ch & Hc & Hs & Hi & Hfd & Hb)].
  unfold mod_chan, update, mod_chans, mod_loop in Hok.
  apply M_bind_Ok in Hok as ([] & w1 & H1 & H2). rewrite (M_bind_eq _ _ _ _ _ (get_chan_Ok _ _ _ Hc)) in H1.
  inv_ok. destruct (Hf ch) as (Hs' & Hi' & Hfd').
  repeat match goal with
    | H : get_chan _ _ = _ |- _ => rewrite (get_chan_Ok _ _ (f ch)) in H by apply lookup_insert_eq; inv_ok
    | H : gets _ _ = _ |- _ => injection H as <- <-
    | H : assertInLoopThread _ = _ |- _ => apply reader_assertInLoopThread in H as ->
    end.
  match goal with H : Poller.UpdateChannel _ _ _ = Ok ?r |- _ => destruct r as [p' h'];
    apply Poller.UpdateChannel_effect in H as (ch1 & Hc1 & Heff) end.
  cbn in Hc1. rewrite lookup_insert_eq in Hc1. injection Hc1 as <-.
  inversion Heff as [|i pfd Ei Er Ep Efd Enz|i pfd Ei Er Ep Efd Ez]; subst p' h'; [exfalso; lia| |].
  2: { exfalso. specialize (He ch Hb). by rewrite Ez, Z.testbit_0_l in He. }
  cbn in Ep. split; cbn; try done.
  - by rewrite Hl.
  - intros k Hk. rewrite lookup_insert_ne by done. by apply Hch.
  - unfold Poller.fds in *. cbn. by rewrite (Poller.fds_insert_same _ _ pfd).
  - intros j Hj. rewrite list_lookup_insert_ne by lia. by apply Hen.
  - exists (f ch). rewrite lookup_insert_eq. split; [done|].
    split; [unfold same_handlers in *; intuition congruence|]. split_and!; [congruence|congruence|exact (He _ Hb)].
Qed.

Lemma EnableWriting_footprint : preserves footprint (EnableWriting (channel_ cn0)) any.
Proof.
  apply change_events_footprint; [|done]. intros ch Hb.
  cbn [Channel.events_reading Channel.events_writing events_]. by rewrite Z.lor_spec, Hb.
Qed.

Lemma DisableWriting_footprint : preserves footprint (DisableWriting (channel_ cn0)) any.
Proof.
  apply change_events_footprint; [|done]. intros ch Hb.
  cbn [Channel.events_no_writing events_]. by rewrite Z.land_spec, Hb.
Qed.

(** *** The operations of the connection *)

Create HintDb footprint discriminated.
#[local] Hint Resolve get_conn_footprint sys_write_footprint
  sys_shutdown_footprint EnableWriting_footprint DisableWriting_footprint : footprint.

#[local] Ltac fp_leaf := first
  [ apply preserves_reader; solve [eauto with reader]
  | apply preserves_ret; done
  | apply mod_conn_footprint; done
  | solve [eauto with footprint] ].

(** One step: a bind, a branch, or an operation of the lists above. *)
#[local] Ltac fp_step := lazymatch goal with
  | |- preserves _ (mbind _ (get_conn c)) _ =>
      eapply preserves_bind; [apply get_conn_footprint|intros ? [? ?]]
  | E : channel_ ?x = _ |- preserves _ (mbind _ (get_chan (channel_ ?x))) _ =>
      rewrite E; eapply preserves_bind; [apply get_chan_footprint|intros ? [? ?]]
  | E : fd_ ?x = _ |- preserves _ (mbind _ (sys_write (fd_ ?x) _)) _ =>
      rewrite E; eapply preserves_bind; [apply sys_write_footprint|intros ? _]
  | |- preserves _ (mbind _ (if _ then _ else _)) _ => eapply preserves_bind; [|intros ? _]
  | |- preserves _ (mbind _ _) _ => eapply preserves_bind; [fp_leaf|intros ? _]
  | |- preserves _ (if _ then _ else _) _ => apply preserves_if; intros ?
  | _ => fp_leaf
  end.

Lemma write_complete_footprint cn :
  write_complete_callback_ cn = None →
  preserves footprint (call_opt (fun u => RunInLoop_bind inv (WriteComplete u c))
    (write_complete_callback_ cn)) any.
Proof. intros ->. by apply preserves_ret. Qed.
#[local] Hint Resolve write_complete_footprint : footprint.

Lemma send_direct_footprint s : preserves footprint (send_direct inv c s) any.
Proof. unfold send_direct. repeat fp_step. Qed.

Lemma sendInLoop_footprint s : preserves footprint (sendInLoop inv c s) any.
Proof.
  unfold sendInLoop. fp_step. eapply preserves_bind; [apply send_direct_footprint|]. intros [n|] _; [|fp_step].
  repeat fp_step.
Qed.

Lemma shutdownInLoop_footprint : preserves footprint (shutdownInLoop c) any.
Proof. unfold shutdownInLoop, ShutdownWrite. repeat fp_step. Qed.

Lemma HandleWrite_footprint : preserves footprint (HandleWrite inv c) any.
Proof. unfold HandleWrite. pose proof shutdownInLoop_footprint. repeat fp_step. Qed.

(** In the loop thread [Send] is [sendInLoop]. *)
Lemma Send_footprint s : threadId_ (loop w0) = tid w0 → preserves footprint (Send inv c s) any.
Proof.
  intros Hthr w a w' Hw He. unfold Send in He. apply M_bind_Ok in He as (b & w1 & Hb & He).
  injection Hb as <- <-. rewrite (fp_tid _ Hw), (fp_loop _ Hw) in He. cbn in He.
  rewrite Hthr, Z.eqb_refl in He. by eapply sendInLoop_footprint.
Qed.

(** In the loop thread the lambda of [Shutdown] runs at once. *)
Lemma Shutdown_footprint :
  inv (TcpConnection_shutdownInLoop c) = shutdownInLoop c → threadId_ (loop w0) = tid w0 →
  preserves footprint (Shutdown inv c) any.
Proof.
  intros Hshut Hthr. unfold Shutdown, SetState. do 3 fp_step.
  intros w x w' Hw He. rewrite RunInLoop_here_eval, Hshut in He.
  - by eapply shutdownInLoop_footprint.
  - by rewrite (fp_tid _ Hw), (fp_loop _ Hw).
Qed.

(** A fresh address and a change of the strings *)
Lemma fresh_footprint : preserves footprint fresh any.
Proof.
  intros w a w' Hw He. injection He as <- <-. split; [|done].
  apply (footprint_frame [] w); try done; [cbn; lia|].
  intros cn Hc. exists cn. split; [done|apply keeps_conn_refl].
Qed.

Lemma strings_footprint (f : gmap str_id bytes → gmap str_id bytes) :
  preserves footprint (mmod (fun w : World => w <| strings := f (strings w) |>)) any.
Proof.
  apply preserves_mmod. intros w Hw. apply (footprint_frame [] w); try done.
  intros cn Hc. exists cn. split; [done|apply keeps_conn_refl].
Qed.

(** ** Consequences *)

Context (Hconn : conns w0 !! c = Some cn0) (Hchan : chans w0 !! channel_ cn0 = Some ch0).

Lemma footprint_refl :
  RB (rev_buffer_ cn0) → write_complete_callback_ cn0 = None → Z.testbit (events_ ch0) 0 = true → footprint w0.
Proof.
  intros Hrb Hwc Hb. split; try done; [by destruct (loop w0)|by exists []|by exists cn0|].
  exists ch0. split; [done|]. by repeat split.
Qed.

Lemma fp_wire w fd : footprint w → fd ≠ fd_ ch0 → wire fd (hist w) = wire fd (hist w0).
Proof. intros Hw Hne. destruct (fp_hist _ Hw) as (l & -> & Hq). by eapply quiet_wire. Qed.

Lemma fp_in w fd : footprint w → session_in fd (hist w) = session_in fd (hist w0).
Proof. intros Hw. destruct (fp_hist _ Hw) as (l & -> & Hq). by eapply quiet_in. Qed.

(** The session grows with the stream. *)
Lemma fp_out w fd : footprint w →
  ∃ x, wire fd (hist w) = wire fd (hist w0) ++ x ∧ session_out fd (hist w) = session_out fd (hist w0) ++ x.
Proof.
  intros Hw. destruct (fp_hist _ Hw) as (l & -> & Hq). apply session_grows.
  intros lfd. by eapply quiet_accept.
Qed.

Lemma footprint_reg_wf w :
  footprint w → Poller.reg_wf (poller (loop w0)) (chans w0) → Poller.reg_wf (poller (loop w)) (chans w).
Proof.
  intros Hw [Hnd Hdom Hlive Hpos]. split; rewrite ?(fp_fds _ Hw), ?(fp_map _ Hw); try done.
  intros fd k Hk. destruct (Hlive fd k Hk) as (ch & Hc & Hf & Hi).
  destruct (decide (k = channel_ cn0)) as [->|Hne]; [|rewrite (fp_chans _ Hw) by done; eauto].
  destruct (fp_chan _ Hw) as (ch1 & Hc1 & _ & Hi1 & Hf1 & _). simplify_eq.
  exists ch1. split; [done|]. split; [done|lia].
Qed.

(** For any other connection the operations are a step of the rest of the
    program, and its record and its channel are as before. *)
Lemma footprint_live w c' cn ch pfd :
  footprint w → c' ≠ c → live c' w0 cn ch pfd → channel_ cn ≠ channel_ cn0 →
  Z.to_nat (index_ ch) ≠ Z.to_nat (index_ ch0) →
  live c' w cn ch pfd.
Proof.
  intros Hw Hc [Hcn [] Hfd Hu] Hk Hi. split; [by rewrite (fp_conns _ Hw)| |done|done].
  pose proof (fp_loop _ Hw) as El. split; try done.
  - rewrite (fp_tid _ Hw), El. done.
  - by rewrite (fp_chans _ Hw).
  - by rewrite El.
  - by rewrite (fp_map _ Hw).
  - by rewrite (fp_entries _ Hw).
  - pose proof (f_equal length (fp_fds _ Hw)) as Hl. unfold Poller.fds in Hl. rewrite !length_fmap in Hl.
    unfold len in *. by rewrite Hl.
Qed.

Lemma footprint_other_step w c' cn ch pfd :
  footprint w → c' ≠ c → live c' w0 cn ch pfd → channel_ cn ≠ channel_ cn0 →
  Z.to_nat (index_ ch) ≠ Z.to_nat (index_ ch0) → fd_ ch ≠ fd_ ch0 →
  other_step c' w0 w.
Proof.
  intros Hw Hc Hl Hk Hi Hf cn1 ch1 pfd1 Hl1. exists cn1, ch1, pfd1.
  pose proof (lv_conn _ _ _ _ _ Hl) as E1. pose proof (lv_conn _ _ _ _ _ Hl1) as E2. simplify_eq.
  pose proof (rg_chan _ _ _ _ (lv_reg _ _ _ _ _ Hl)) as E3.
  pose proof (rg_chan _ _ _ _ (lv_reg _ _ _ _ _ Hl1)) as E4. simplify_eq.
  split; [by apply footprint_live|]. split_and!; try done.
  apply fp_wire; [done|]. by rewrite <-(lv_fd _ _ _ _ _ Hl).
Qed.

End Footprint.

(** Two connections of one loop have channels, descriptors and entries of their
    own. *)
Lemma live_distinct c1 c2 w cn1 ch1 pfd1 cn2 ch2 pfd2 :
  live c1 w cn1 ch1 pfd1 → live c2 w cn2 ch2 pfd2 → channel_ cn1 ≠ channel_ cn2 →
  fd_ ch1 ≠ fd_ ch2 ∧ Z.to_nat (index_ ch1) ≠ Z.to_nat (index_ ch2).
Proof.
  intros [_ [] _ _] [_ [] _ _] Hne.
  assert (fd_ ch1 ≠ fd_ ch2) by (intros E; rewrite E in *; congruence).
  split; [done|]. intros E. rewrite E in *. congruence.
Qed.
