(* ===== verification/TcpServer.v ===== *)
(** * Listening and accepting (net/inetaddress.h, net/socket.h, net/socket.cc,
    net/acceptor.h, net/acceptor.cc) and the server (net/tcp_server.h,
    net/tcp_server.cc)

    The server gives every accepted descriptor a connection with a name of its
    own and keeps one reference to it in [connections_]; the close callback
    removes it there and lets it be destroyed.  [newConnection] and
    [removeConnection] are the two lambdas of [TcpServer::Start]. *)

From stdpp Require Import sorting.
From S2P Require Import Prelude Printf Slice Buffer Timestamp Poller World EventLoop TcpConnection.

(** ** [InetAddress] *)
Module InetAddress.

Definition AF_INET : Z := 2.

(** [htons] and [ntohs] on a little-endian machine: the argument is converted to
    16 bits and its bytes are swapped. *)
Definition htons (x : Z) : Z := Z.lor (Z.shiftl (Z.land x 255) 8) (Z.land (Z.shiftr (u16 x) 8) 255).
Definition ntohs (x : Z) : Z := htons x.

(** [InetAddress(const char *ip, int port)]; [inet_aton] is the C library's and
    leaves the zeroed address alone when it cannot read the text. *)
Definition InetAddress_new (inet_aton : bytes → option Z) (ip : bytes) (port : Z) : sockaddr_in :=
  mkSockaddr AF_INET (default 0 (inet_aton ip)) (htons port).

Definition Port (a : sockaddr_in) : Z := ntohs (sin_port a).

Lemma swap_bytes x : 0 ≤ x < 2 ^ 16 → htons x = 256 * (x mod 256) + x / 256.
Proof.
  intros Hx. unfold htons, u16. rewrite (Z.mod_small x (2 ^ 16)) by lia.
  change 255 with (Z.ones 8). rewrite !Z.land_ones, Z.shiftr_div_pow2, Z.shiftl_mul_pow2 by lia.
  change (2 ^ 8) with 256. rewrite (Z.mod_small (x / 256)) by (split; [apply Z.div_pos|apply Z.div_lt_upper_bound]; lia).
  assert (0 ≤ x mod 256 < 256) by (apply Z.mod_pos_bound; lia).
  assert (0 ≤ x / 256 < 256) by (split; [apply Z.div_pos|apply Z.div_lt_upper_bound]; lia).
  assert (Hd : Z.land (x mod 256 * 256) (x / 256) = 0).
  { apply Z.bits_inj'. intros i Hi. rewrite Z.land_spec, Z.bits_0.
    change 256 with (2 ^ 8) at 2. rewrite Z.mul_pow2_bits by lia.
    destruct (decide (i < 8)); [by rewrite Z.testbit_neg_r by lia|].
    rewrite <-(Z.mod_small (x / 256) (2 ^ 8)), Z.mod_pow2_bits_high by lia. apply andb_false_r. }
  rewrite <-Z.lxor_lor, <-Z.add_nocarry_lxor by done. lia.
Qed.

(** The port of an address is the port it was made with. *)
Lemma Port_new f ip port : 0 ≤ port < 2 ^ 16 → Port (InetAddress_new f ip port) = port.
Proof.
  intros Hp. unfold Port, InetAddress_new, ntohs. cbn [sin_port].
  rewrite (swap_bytes port) by done.
  assert (0 ≤ port mod 256 < 256) by (apply Z.mod_pos_bound; lia).
  assert (0 ≤ port / 256 < 256) by (split; [apply Z.div_pos|apply Z.div_lt_upper_bound]; lia).
  rewrite swap_bytes by lia.
  replace (256 * (port mod 256) + port / 256) with (port / 256 + port mod 256 * 256) by lia.
  rewrite Z.mod_add, Z.div_add, (Z.mod_small (port / 256)), (Z.div_small (port / 256)) by lia.
  pose proof (Z.div_mod port 256). lia.
Qed.

(** [explicit InetAddress(const sockaddr_in &)] and the accessors *)
Definition InetAddress_of (a : sockaddr_in) : sockaddr_in := a.
Definition SockAddress (a : sockaddr_in) : sockaddr_in := a.
Definition Size : Z := 16.

(** [IP()]: [inet_ntoa] writes the four bytes in the order they have in memory. *)
Definition IP (a : sockaddr_in) : bytes :=
  let x := sin_addr a in
  dec (x mod 256) ++ b_ "." ++ dec (x / 256 mod 256) ++ b_ "." ++
  dec (x / 65536 mod 256) ++ b_ "." ++ dec (x / 16777216 mod 256).

(** The address that a dotted text stands for *)
Definition parse_ip (s : bytes) : Z :=
  let '(a, s) := split_dot s in
  let '(b, s) := split_dot s in
  let '(c, d) := split_dot s in
  undec a + 256 * undec b + 65536 * undec c + 16777216 * undec d.

(** The text determines the address. *)
Lemma parse_IP a : 0 ≤ sin_addr a < 2 ^ 32 → parse_ip (IP a) = sin_addr a.
Proof.
  intros Ha. unfold IP, parse_ip. set (x := sin_addr a) in *.
  assert (Hd : ∀ y, 0 ≤ y mod 256) by (intros; apply Z.mod_pos_bound; lia).
  rewrite !split_dot_digits by (apply dec_digits; apply Hd). rewrite !undec_dec by apply Hd.
  Z.to_euclidean_division_equations. lia.
Qed.

End InetAddress.

(** ** [Socket] *)
Module Socket.
Section Socket.
Context `{Kernel}.

Definition Bind (sockfd : Z) (addr : sockaddr_in) : MW unit :=
  ret ← sys_bind sockfd addr;
  if ret =? -1 then mfail Abort else mret tt.

Definition NewNonBlockingSocket : MW Z :=
  sockfd ← sys_socket;
  if sockfd =? -1 then mfail Abort else mret sockfd.

(** [getLocalAddr] and [getPeerAddr]: the zeroed structure when the system call,
    here its answer for the descriptor, fails *)
Definition no_addr : sockaddr_in := mkSockaddr 0 0 0.
Definition getLocalAddr (getsockname : Z → option sockaddr_in) (sockfd : Z) : sockaddr_in :=
  default no_addr (getsockname sockfd).
Definition getPeerAddr (getpeername : Z → option sockaddr_in) (sockfd : Z) : sockaddr_in :=
  default no_addr (getpeername sockfd).

(** [~Socket] *)
Definition Socket_dtor (sockfd : Z) : MW unit := log (EvClose sockfd).
End Socket.
End Socket.

(** ** [Acceptor] *)
Module Acceptor.
Section Acceptor.
Context `{Kernel} (new_connection : NewConnectionCallback → Z → sockaddr_in → MW unit).

Definition Acceptor_new (listen_addr : sockaddr_in) : MW unit :=
  fd ← Socket.NewNonBlockingSocket;
  c ← fresh;
  l ← gets loop;
  mod_chans (insert c (Channel.Channel_new (this_ l) fd)) ;;
  mmod (fun w : World => w <| acceptor_ := mkAcceptor fd c None |>) ;;
  Socket.Bind fd listen_addr ;;
  mod_chan c (Channel.SetReadCallback Acceptor_handleRead) ;;
  EnableReading c.

Definition SetNewConnectionCallback (cb : NewConnectionCallback) : MW unit :=
  mmod (fun w : World => w <| acceptor_ := (acceptor_ w) <| new_conn_callback_ := Some cb |> |>).

Definition listen : MW unit :=
  assertInLoopThread ;;
  a ← gets acceptor_;
  ret ← sys_listen (listen_socket_ a);
  if ret =? -1 then mfail Abort else mret tt.

Definition handleRead : MW unit :=
  assertInLoopThread ;;
  a ← gets acceptor_;
  r ← sys_accept (listen_socket_ a);
  let connfd := r.1 in
  if connfd <? 0 then mfail Abort
  else match new_conn_callback_ a with
       | Some cb => new_connection cb connfd r.2
       | None => log (EvClose connfd)
       end.

(** [~Acceptor]: the members die; the poller is not told. *)
Definition Acceptor_dtor : MW unit :=
  a ← gets acceptor_;
  mod_chans (delete (listen_channel_ a)) ;;
  Socket.Socket_dtor (listen_socket_ a).
End Acceptor.
End Acceptor.

(** ** [TcpServer] *)
Module TcpServer.
Import TcpConnection.
Section TcpServer.
Context `{Kernel} `{App} (invoke : Callback → MW unit).

Definition TcpServer_new (listen_addr : sockaddr_in) (name : bytes) : MW unit :=
  Acceptor.Acceptor_new listen_addr ;;
  mod_server (fun _ => mkTcpServer name None None None 0 listen_addr ∅).

Definition SetConnectionCallback (cb : nat) : MW unit :=
  mod_server (fun s : TcpServer => s <| server_conn_callback_ := Some cb |>).
Definition SetMessageCallback (cb : nat) : MW unit :=
  mod_server (fun s : TcpServer => s <| server_msg_callback_ := Some cb |>).
Definition SetWriteCompleteCallback (cb : nat) : MW unit :=
  mod_server (fun s : TcpServer => s <| server_wc_callback_ := Some cb |>).

(** [name_ + "#" + std::to_string(next_conn_id_)] *)
Definition conn_name (s : TcpServer) : bytes := server_name_ s ++ b_ "#" ++ fmt_d (next_conn_id_ s).

(** [connections_[name] = conn]: the map takes a reference; a connection that
    was stored under the name loses one. *)
Definition store_connection (name : bytes) (c : conn_id) : MW unit :=
  s ← gets server;
  conn_acquire c ;;
  mod_server (fun s : TcpServer => s <| connections_ := <[name := c]> (connections_ s) |>) ;;
  call_opt conn_release (connections_ s !! name).

(** The new-connection lambda of [Start] *)
Definition newConnection (connfd : Z) (remote : sockaddr_in) : MW unit :=
  assertInLoopThread ;;
  s ← gets server;
  let name := conn_name s in
  i ← mlift (check_i32 (next_conn_id_ s + 1));
  mod_server (fun s : TcpServer => s <| next_conn_id_ := i |>) ;;
  c ← TcpConnection_new name connfd (listen_addr_ s) remote;
  store_connection name c ;;
  s ← gets server;
  TcpConnection.SetConnectionCallback c (server_conn_callback_ s) ;;
  TcpConnection.SetMessageCallback c (server_msg_callback_ s) ;;
  TcpConnection.SetWriteCompleteCallback c (server_wc_callback_ s) ;;
  TcpConnection.SetCloseCallback c TcpServer_removeConnection ;;
  ConnectEstablished c ;;
  conn_release c.

(** The close lambda of [Start] *)
Definition removeConnection (c : conn_id) : MW unit :=
  assertInLoopThread ;;
  cn ← get_conn c;
  s ← gets server;
  mod_server (fun s : TcpServer => s <| connections_ := delete (name_ cn) (connections_ s) |>) ;;
  call_opt conn_release (connections_ s !! name_ cn) ;;
  massert (bool_decide (is_Some (connections_ s !! name_ cn))) "tcp_server.cc:57" ;;
  RunInLoop_bind invoke (TcpConnection_ConnectDestroyed c).

Definition Start : MW unit :=
  Acceptor.SetNewConnectionCallback TcpServer_newConnection ;;
  Acceptor.listen.

(** The entries of the map in key order *)
Definition key_le (a b : bytes * conn_id) : Prop := Slice.lex a.1 b.1 ≠ Gt.
#[local] Instance key_le_dec : RelDecision key_le.
Proof. intros a b. unfold key_le. destruct (Slice.lex a.1 b.1); [left|left|right]; congruence. Defined.
Definition entries (m : gmap bytes conn_id) : list (bytes * conn_id) :=
  merge_sort key_le (map_to_list m).

(** The body of the loop of [~TcpServer]: a local copy of the pointer, the
    pointer in the map reset, [ConnectDestroyed] run or queued, the copy gone.
    The map dies with the server and nothing looks a key up before that, so a
    key whose pointer was reset is one that is not in the map. *)
Definition destroy_entry (e : bytes * conn_id) : MW unit :=
  conn_acquire e.2 ;;
  mod_server (fun s : TcpServer => s <| connections_ := delete e.1 (connections_ s) |>) ;;
  conn_release e.2 ;;
  RunInLoop_bind invoke (TcpConnection_ConnectDestroyed e.2) ;;
  conn_release e.2.

(** [~TcpServer]; the acceptor dies with the other members. *)
Definition TcpServer_dtor : MW unit :=
  assertInLoopThread ;;
  s ← gets server;
  mfor destroy_entry (entries (connections_ s)) ;;
  Acceptor.Acceptor_dtor.

(** Calling the close callback a connection stores *)
Definition call_close (cb : CloseCallback) (c : conn_id) : MW unit :=
  match cb with
  | TcpServer_removeConnection => removeConnection c
  | UserClose u => app_close u c
  end.

(** ** Evaluation lemmas *)

Definition set_conn (c : conn_id) (cn : TcpConnection) (w : World) : World :=
  w <| conns := <[c := cn]> (conns w) |>.

Lemma set_conn_set_conn c cn cn' w : set_conn c cn' (set_conn c cn w) = set_conn c cn' w.
Proof. unfold set_conn. cbn. by rewrite insert_insert_eq. Qed.

Lemma set_conn_lookup c cn w : conns (set_conn c cn w) !! c = Some cn.
Proof. apply lookup_insert_eq. Qed.

Lemma mod_set_conn c cn w (f : TcpConnection → TcpConnection) :
  mod_conn c f (set_conn c cn w) = Ok (tt, set_conn c (f cn) w).
Proof.
  rewrite (mod_conn_Ok _ _ cn) by apply set_conn_lookup. do 2 f_equal.
  apply (set_conn_set_conn c cn (f cn) w).
Qed.

Lemma acquire_set_conn c cn w :
  conn_acquire c (set_conn c cn w) = Ok (tt, set_conn c (cn <| use_count := use_count cn + 1 |>) w).
Proof. apply mod_set_conn. Qed.

Lemma release_set_conn c cn w :
  use_count cn ≠ 1 →
  conn_release c (set_conn c cn w) = Ok (tt, set_conn c (cn <| use_count := use_count cn - 1 |>) w).
Proof.
  intros Hu. unfold conn_release.
  rewrite (M_bind_eq _ _ _ _ _ (get_conn_Ok _ _ _ (set_conn_lookup c cn w))).
  rewrite (proj2 (Z.eqb_neq _ _)) by lia. apply mod_set_conn.
Qed.

(** The last release destroys the connection, its channel and its socket. *)
Lemma release_last c cn w :
  use_count cn = 1 → state_ cn = kDisconnected →
  ∃ w', conn_release c (set_conn c cn w) = Ok (tt, w') ∧
    conns w' = delete c (conns w) ∧ chans w' = delete (channel_ cn) (chans w) ∧
    hist w' = EvClose (socket_ cn) :: hist w ∧ server w' = server w ∧ loop w' = loop w ∧ tid w' = tid w.
Proof.
  intros Hu Hs. unfold conn_release.
  rewrite (M_bind_eq _ _ _ _ _ (get_conn_Ok _ _ _ (set_conn_lookup c cn w))), Hu.
  change (1 - 1 =? 0) with true. cbv iota. unfold TcpConnection_dtor.
  rewrite (M_bind_eq _ _ _ tt (set_conn c cn w)) by (unfold massert; by rewrite Hs).
  eexists. split; [done|]. cbn. split_and!; try done. apply delete_insert_eq.
Qed.

Lemma registered_mod_chan c w ch pfd (f : Channel Callback → Channel Callback) :
  registered c w ch pfd → loop_ (f ch) = loop_ ch → fd_ (f ch) = fd_ ch →
  events_ (f ch) = events_ ch → index_ (f ch) = index_ ch →
  ∃ w', mod_chan c f w = Ok (tt, w') ∧ registered c w' (f ch) pfd ∧
        w' = w <| chans := <[c := f ch]> (chans w) |>.
Proof.
  intros [Hthr Hc Hl Hm Hi He Hf Hev Hlen] El Ef Ee Ei. unfold mod_chan.
  rewrite (M_bind_eq _ _ _ _ _ (get_chan_Ok _ _ _ Hc)).
  eexists. split; [done|]. split; [|done]. split; cbn; rewrite ?El, ?Ef, ?Ee, ?Ei; try done.
  apply lookup_insert_eq.
Qed.

(** The poller with one more descriptor, asked for read events *)
Definition registering (fd : Z) (k : chan_id) (p : Poller) : Poller :=
  mkPoller (pollfds_ p ++ [mkpollfd fd Channel.kReadEvent 0]) (<[fd := k]> (channels_ p)).

(** The constructor: a connection and a channel at fresh addresses, the channel
    registered for read events with the three handlers of the connection. *)
Lemma TcpConnection_new_Ok name fd local remote w :
  threadId_ (loop w) = tid w → channels_ (poller (loop w)) !! fd = None →
  len (pollfds_ (poller (loop w))) < 2 ^ 31 - 1 →
  let c := next_addr w in
  ∃ b w' ch pfd, Buffer.Buffer_new Buffer.kInitialSize = Ok b ∧
    TcpConnection_new name fd local remote w = Ok (c, w') ∧
    registered (S c) w' ch pfd ∧ fd_ ch = fd ∧ events_ ch = Channel.kReadEvent ∧
    read_callback_ ch = Some (TcpConnection_HandleRead c) ∧
    write_callback_ ch = Some (TcpConnection_HandleWrite c) ∧
    close_callback_ ch = Some (TcpConnection_HandleClose c) ∧
    conns w' = <[c := mkTcpConnection name kConnecting fd (S c) local remote None None None None b b 1]>
                 (conns w) ∧
    server w' = server w ∧ hist w' = hist w ∧ next_addr w' = S (S (next_addr w)) ∧
    threadId_ (loop w') = tid w' ∧ acceptor_ w' = acceptor_ w ∧
    (∀ k, k ≠ S c → chans w' !! k = chans w !! k) ∧ tid w' = tid w ∧
    loop w' = (loop w) <| poller := registering fd (S c) (poller (loop w)) |>.
Proof.
  intros Hthr Hfd Hlen c.
  destruct (Buffer.Buffer_new_Ok Buffer.kInitialSize) as (b & Hb & _); [by vm_compute|].
  unfold TcpConnection_new. rewrite Hb. rewrite (M_bind_eq _ _ w c (w <| next_addr := S c |>)) by done.
  set (w1 := w <| next_addr := S (S c) |>). rewrite (M_bind_eq _ _ _ (S c) w1) by done.
  rewrite (M_bind_eq _ _ w1 (loop w) w1) by done. rewrite !(M_bind_eq _ _ w1 b w1) by done.
  set (cn := mkTcpConnection name _ _ _ _ _ _ _ _ _ _ _ _).
  set (ch0 := Channel.Channel_new (this_ (loop w)) fd).
  set (w2 := w1 <| chans := <[S c := ch0]> (chans w1) |> <| conns := <[c := cn]> (conns w1) |>).
  rewrite (M_bind_eq _ _ w1 tt (w1 <| chans := <[S c := ch0]> (chans w1) |>)) by done.
  rewrite (M_bind_eq _ _ _ tt w2) by done.
  set (ch1 := Channel.SetReadCallback (TcpConnection_HandleRead c) ch0).
  assert (E1 : mod_chan (S c) (Channel.SetReadCallback (TcpConnection_HandleRead c)) w2 =
    Ok (tt, w2 <| chans := <[S c := ch1]> (chans w2) |>)).
  { unfold mod_chan. by rewrite (M_bind_eq _ _ w2 ch0 w2) by (apply get_chan_Ok, lookup_insert_eq). }
  rewrite (M_bind_eq _ _ _ _ _ E1). set (w3 := w2 <| chans := <[S c := ch1]> (chans w2) |>).
  unfold EnableReading.
  rewrite (M_bind_eq _ _ _ _ _ (register_eval (S c) w3 ch1 Channel.events_reading Channel.kReadEvent Hthr
    (lookup_insert_eq _ _ _) eq_refl ltac:(done) Hfd Hlen eq_refl)).
  pose proof (registered_with_new (S c) w3 ch1 Channel.kReadEvent Hthr eq_refl Hlen) as Hr3.
  destruct (registered_mod_chan _ _ _ _ (Channel.SetWriteCallback (TcpConnection_HandleWrite c)) Hr3
    eq_refl eq_refl eq_refl eq_refl) as (w4 & E4 & Hr4 & Hw4). rewrite (M_bind_eq _ _ _ _ _ E4).
  destruct (registered_mod_chan _ _ _ _ (Channel.SetCloseCallback (TcpConnection_HandleClose c)) Hr4
    eq_refl eq_refl eq_refl eq_refl) as (w5 & E5 & Hr5 & Hw5). rewrite (M_bind_eq _ _ _ _ _ E5).
  exists b, w5. do 2 eexists. split; [done|]. split; [done|]. split; [exact Hr5|].
  rewrite Hw5, Hw4. split_and!; try done.
  intros k Hk. cbn. by rewrite !lookup_insert_ne by done.
Qed.

Lemma set_conn_id c cn w : conns w !! c = Some cn → set_conn c cn w = w.
Proof. intros Hc. unfold set_conn. destruct w. cbn in *. by rewrite insert_id. Qed.

(** ** The server's map *)

(** Every entry has a name with an index already given out and refers to a
    live connection of that name. *)
Record server_wf (w : World) : Prop := {
  sw_names : ∀ name c, connections_ (server w) !! name = Some c →
    ∃ i, 0 ≤ i < next_conn_id_ (server w) ∧ name = server_name_ (server w) ++ b_ "#" ++ fmt_d i;
  sw_live : ∀ name c, connections_ (server w) !! name = Some c →
    ∃ cn, conns w !! c = Some cn ∧ name_ cn = name ∧ 1 ≤ use_count cn;
  sw_fresh : ∀ c, is_Some (conns w !! c) → (c < next_addr w)%nat;
  sw_next : 0 ≤ next_conn_id_ (server w)
}.

Lemma fmt_d_inj a b : 0 ≤ a → 0 ≤ b → fmt_d a = fmt_d b → a = b.
Proof.
  intros Ha Hb. unfold fmt_d. rewrite !(proj2 (Z.ltb_ge _ _)) by lia. by apply dec_inj.
Qed.

(** The next name is not in use. *)
Lemma conn_name_unused w : server_wf w → connections_ (server w) !! conn_name (server w) = None.
Proof.
  intros Hw. destruct (connections_ (server w) !! conn_name (server w)) as [c|] eqn:E; [|done].
  destruct (sw_names w Hw _ _ E) as (i & Hi & He). exfalso.
  unfold conn_name in He. apply app_inv_head, app_inv_head, fmt_d_inj in He; [lia| |lia].
  apply (sw_next w Hw).
Qed.

Lemma store_connection_Ok name c cn w :
  connections_ (server w) !! name = None →
  store_connection name c (set_conn c cn w) =
    Ok (tt, set_conn c (cn <| use_count := use_count cn + 1 |>)
              (w <| server := (server w) <| connections_ := <[name := c]> (connections_ (server w)) |> |>)).
Proof.
  intros Hn. unfold store_connection. rewrite (M_bind_eq _ _ _ (server w) (set_conn c cn w)) by done.
  rewrite (M_bind_eq _ _ _ _ _ (acquire_set_conn _ _ _)). by rewrite Hn.
Qed.

(** The connection the server sets up for an accepted descriptor *)
Definition new_conn (s : TcpServer) (c : conn_id) (connfd : Z) (remote : sockaddr_in)
    (b : Buffer.Buffer) : TcpConnection :=
  mkTcpConnection (conn_name s) kConnected connfd (S c) (listen_addr_ s) remote
    (server_conn_callback_ s) (server_msg_callback_ s) (Some TcpServer_removeConnection)
    (server_wc_callback_ s) b b 2.

Lemma newConnection_Ok connfd remote w :
  threadId_ (loop w) = tid w → channels_ (poller (loop w)) !! connfd = None →
  len (pollfds_ (poller (loop w))) < 2 ^ 31 - 1 → server_wf w →
  next_conn_id_ (server w) < 2 ^ 31 - 1 →
  let s := server w in let c := next_addr w in
  ∃ b wE ch pfd, Buffer.Buffer_new Buffer.kInitialSize = Ok b ∧
    newConnection connfd remote w =
      (call_opt (fun u => with_shared c (app_connection u c)) (server_conn_callback_ s) ;;
       conn_release c) wE ∧
    live c wE (new_conn s c connfd remote b) ch pfd ∧ events_ ch = Channel.kReadEvent ∧
    read_callback_ ch = Some (TcpConnection_HandleRead c) ∧
    write_callback_ ch = Some (TcpConnection_HandleWrite c) ∧
    close_callback_ ch = Some (TcpConnection_HandleClose c) ∧
    conns wE = <[c := new_conn s c connfd remote b]> (conns w) ∧ hist wE = hist w ∧
    server wE = s <| next_conn_id_ := next_conn_id_ s + 1 |>
                  <| connections_ := <[conn_name s := c]> (connections_ s) |> ∧
    next_addr wE = S (S (next_addr w)) ∧ acceptor_ wE = acceptor_ w ∧
    (∀ k, k ≠ S c → chans wE !! k = chans w !! k) ∧ tid wE = tid w ∧
    loop wE = (loop w) <| poller := registering connfd (S c) (poller (loop w)) |>.
Proof.
  intros Hthr Hfd Hlen Hw Hnext s c. pose proof (conn_name_unused w Hw) as Hun.
  pose proof (sw_next w Hw) as Hge. unfold newConnection.
  rewrite (M_bind_eq _ _ _ _ _ (assertInLoopThread_true w Hthr)).
  rewrite (M_bind_eq _ _ w s w) by done.
  assert (Hi : check_i32 (next_conn_id_ s + 1) = Ok (next_conn_id_ s + 1))
    by (apply check_i32_Ok; subst s; lia).
  rewrite Hi. rewrite (M_bind_eq _ _ w (next_conn_id_ s + 1) w) by done.
  set (w1 := w <| server := s <| next_conn_id_ := next_conn_id_ s + 1 |> |>).
  rewrite (M_bind_eq _ _ w tt w1) by done.
  destruct (TcpConnection_new_Ok (conn_name s) connfd (listen_addr_ s) remote w1 Hthr Hfd Hlen)
    as (b & w2 & ch & pfd & Hb & E2 & Hr & Ef & Ee & Erd & Ewr & Ecl & Hc2 & Hs2 & Hh2 & Hn2 & Ht2 & Ha2 & Hk2 & Hd2 & Hl2).
  rewrite (M_bind_eq _ _ _ _ _ E2). change (next_addr w1) with c in *.
  set (cn0 := mkTcpConnection _ _ _ _ _ _ _ _ _ _ _ _ _) in Hc2.
  rewrite <-(set_conn_id c cn0 w2) by (by rewrite Hc2, lookup_insert_eq).
  assert (Hun2 : connections_ (server w2) !! conn_name s = None) by by rewrite Hs2.
  rewrite (M_bind_eq _ _ _ _ _ (store_connection_Ok _ _ _ _ Hun2)). rewrite Hs2.
  set (w3 := w2 <| server := (server w1) <| connections_ := <[conn_name s := c]> (connections_ (server w1)) |> |>).
  set (cn1 := cn0 <| use_count := use_count cn0 + 1 |>).
  rewrite (M_bind_eq _ _ _ (server w3) (set_conn c cn1 w3)) by done.
  do 4 (erewrite M_bind_eq; [|apply mod_set_conn]).
  exists b, (set_conn c (new_conn s c connfd remote b) w3), ch, pfd. split; [done|]. split.
  { rewrite !M_bind_unfold. unfold ConnectEstablished, SetState. rewrite M_bind_unfold, mod_set_conn.
    rewrite (M_bind_eq _ _ _ _ _ (get_conn_Ok _ _ _ (set_conn_lookup _ _ _))). reflexivity. }
  assert (Hreg : registered (S c) (set_conn c (new_conn s c connfd remote b) w3) ch pfd) by by destruct Hr.
  split_and!; try done; [by split; try apply set_conn_lookup|].
  unfold set_conn. cbn. by rewrite Hc2, insert_insert_eq.
Qed.

Lemma server_wf_new connfd remote b w wE :
  server_wf w →
  let s := server w in let c := next_addr w in
  conns wE = <[c := new_conn s c connfd remote b]> (conns w) →
  server wE = s <| next_conn_id_ := next_conn_id_ s + 1 |>
                <| connections_ := <[conn_name s := c]> (connections_ s) |> →
  next_addr wE = S (S (next_addr w)) → server_wf wE.
Proof.
  intros Hw s c Hc Hs Hn. subst s c. pose proof (sw_next w Hw). split; rewrite ?Hs, ?Hc, ?Hn; cbn.
  - intros name d [[<- <-]|[_ Hd]]%lookup_insert_Some.
    + exists (next_conn_id_ (server w)). split; [lia|done].
    + destruct (sw_names w Hw _ _ Hd) as (i & ? & ?). exists i. split; [lia|done].
  - intros name d [[<- <-]|[_ Hd]]%lookup_insert_Some.
    + rewrite lookup_insert_eq. by eexists.
    + destruct (sw_live w Hw _ _ Hd) as (cn & Hcn & ? & ?).
      pose proof (sw_fresh w Hw d ltac:(eauto)). rewrite lookup_insert_ne by lia. eauto.
  - intros d. rewrite lookup_insert_is_Some. intros [<-|[_ Hd]]; [lia|].
    pose proof (sw_fresh w Hw d Hd). lia.
  - lia.
Qed.

(** ** Closing *)

(** The connection callback of the application returns and leaves the objects
    of the library alone, as one that prints a line does. *)
Definition connection_callback_ok : Prop :=
  ∀ u c w, is_Some (conns w !! c) → ∃ w', app_connection u c w = Ok (tt, w') ∧ conns w' = conns w ∧ chans w' = chans w ∧
    loop w' = loop w ∧ tid w' = tid w ∧ server w' = server w.

(** The application's connection callback [o] ran for [c], in state [st], with
    the loop and the server as [l] and [s], and took the history from [h] to
    [h']. *)
Definition told (o : option nat) (c : conn_id) (st : State) (l : EventLoop) (s : TcpServer) (h h' : history) : Prop :=
  match o with
  | None => h' = h
  | Some u => ∃ wi wo cn, app_connection u c wi = Ok (tt, wo) ∧ conns wi !! c = Some cn ∧ state_ cn = st ∧
      loop wi = l ∧ server wi = s ∧ hist wi = h ∧ hist wo = h'
  end.

Lemma with_shared_Ok c cn w o :
  connection_callback_ok → 1 ≤ use_count cn →
  ∃ w', call_opt (fun u => with_shared c (app_connection u c)) o (set_conn c cn w) =
          Ok (tt, set_conn c cn w') ∧ conns w' = <[c := cn]> (conns w) ∧ chans w' = chans w ∧
        loop w' = loop w ∧ tid w' = tid w ∧ server w' = server w ∧
        told o c (state_ cn) (loop w) (server w) (hist w) (hist w').
Proof.
  intros Hcb Hu. destruct o as [u|].
  2: { exists (set_conn c cn w). cbn [call_opt]. rewrite set_conn_set_conn. by split_and!. }
  cbn [call_opt]. unfold with_shared. set (cn1 := cn <| use_count := use_count cn + 1 |>).
  rewrite (M_bind_eq _ _ _ _ _ (acquire_set_conn _ _ _)). fold cn1.
  destruct (Hcb u c (set_conn c cn1 w) ltac:(rewrite set_conn_lookup; eauto)) as (w1 & E1 & Hc1 & Hch & Hl & Ht & Hs).
  rewrite (M_bind_eq _ _ _ _ _ E1).
  rewrite <-(set_conn_id c cn1 w1) by (rewrite Hc1; apply set_conn_lookup).
  rewrite release_set_conn by (cbn; lia).
  assert (cn1 <| use_count := use_count cn1 - 1 |> = cn) as ->.
  { unfold cn1. cbn. replace (use_count cn + 1 - 1) with (use_count cn) by lia. by destruct cn. }
  exists (set_conn c cn w1). rewrite set_conn_set_conn. split; [done|]. split_and!; try done.
  - unfold set_conn in *. cbn [conns] in *. by rewrite Hc1, insert_insert_eq.
  - exists (set_conn c cn1 w), w1, cn1. split_and!; try done. apply set_conn_lookup.
Qed.

(** [ConnectDestroyed] of a connection that is already disconnected tells the
    application and changes nothing else. *)
Lemma ConnectDestroyed_Ok c cn w :
  connection_callback_ok → threadId_ (loop w) = tid w → state_ cn = kDisconnected → 1 ≤ use_count cn →
  ∃ w', ConnectDestroyed c (set_conn c cn w) = Ok (tt, set_conn c cn w') ∧
        conns w' = <[c := cn]> (conns w) ∧ chans w' = chans w ∧
        loop w' = loop w ∧ tid w' = tid w ∧ server w' = server w ∧
        told (conn_callback_ cn) c kDisconnected (loop w) (server w) (hist w) (hist w').
Proof.
  intros Hcb Hthr Hst Hu. unfold ConnectDestroyed, SetState.
  rewrite (M_bind_eq _ _ _ _ _ (assertInLoopThread_true (set_conn c cn w) Hthr)).
  rewrite (M_bind_eq _ _ _ _ _ (get_conn_Ok _ _ _ (set_conn_lookup _ _ _))), Hst.
  rewrite bool_decide_eq_false_2 by naive_solver.
  rewrite (M_bind_eq _ _ _ tt (set_conn c cn w)) by done.
  rewrite (M_bind_eq _ _ _ _ _ (mod_set_conn _ _ _ _)).
  assert (cn <| state_ := kDisconnected |> = cn) as -> by (destruct cn; cbn in Hst |- *; by rewrite Hst).
  rewrite (M_bind_eq _ _ _ _ _ (get_conn_Ok _ _ _ (set_conn_lookup _ _ _))).
  destruct (with_shared_Ok c cn w (conn_callback_ cn) Hcb Hu) as (w' & ? & ? & ? & ? & ? & ? & Ht).
  rewrite Hst in Ht. by exists w'.
Qed.

(** The close lambda for a connection the server owns, called through a
    temporary reference: the map's reference and the bound functor's are gone
    afterwards. *)
Lemma removeConnection_Ok c cn w :
  invoke (TcpConnection_ConnectDestroyed c) = ConnectDestroyed c →
  connection_callback_ok → threadId_ (loop w) = tid w → state_ cn = kDisconnected →
  use_count cn = 2 → connections_ (server w) !! name_ cn = Some c →
  ∃ w', removeConnection c (set_conn c cn w) =
          Ok (tt, set_conn c (cn <| use_count := 1 |>) w') ∧
    delete c (conns w') = delete c (conns w) ∧ chans w' = chans w ∧ loop w' = loop w ∧
    connections_ (server w') = delete (name_ cn) (connections_ (server w)) ∧
    told (conn_callback_ cn) c kDisconnected (loop w') (server w') (hist w) (hist w').
Proof.
  intros Hinv Hcb Hthr Hst Hu Hmap. unfold removeConnection.
  rewrite (M_bind_eq _ _ _ _ _ (assertInLoopThread_true (set_conn c cn w) Hthr)).
  rewrite (M_bind_eq _ _ _ _ _ (get_conn_Ok _ _ _ (set_conn_lookup _ _ _))).
  rewrite (M_bind_eq _ _ _ (server w) (set_conn c cn w)) by done. rewrite Hmap. cbn [call_opt].
  set (w1 := w <| server := (server w) <| connections_ := delete (name_ cn) (connections_ (server w)) |> |>).
  rewrite (M_bind_eq _ _ _ tt (set_conn c cn w1)) by done.
  rewrite (M_bind_eq _ _ _ _ _ (release_set_conn c cn w1 ltac:(lia))), Hu.
  set (cn1 := cn <| use_count := 2 - 1 |>).
  rewrite (M_bind_eq _ _ _ tt (set_conn c cn1 w1)) by done.
  unfold RunInLoop_bind, cb_copy, cb_destroy. cbn [cb_owner].
  rewrite (M_bind_eq _ _ _ _ _ (acquire_set_conn _ _ _)). set (cn2 := cn1 <| use_count := use_count cn1 + 1 |>).
  rewrite M_bind_unfold, RunInLoop_here_eval, Hinv by done.
  destruct (ConnectDestroyed_Ok c cn2 w1 Hcb Hthr Hst ltac:(done))
    as (w2 & -> & Hc2 & Hch2 & Hl2 & Ht2 & Hs2 & Htold).
  rewrite release_set_conn by done. exists w2. split_and!; try done.
  - by rewrite Hc2, delete_insert_eq.
  - by rewrite Hs2.
  - rewrite Hl2, Hs2. exact Htold.
Qed.

Lemma HandleClose_destroys c w cn ch pfd :
  invoke (TcpConnection_ConnectDestroyed c) = ConnectDestroyed c → connection_callback_ok →
  live c w cn ch pfd → use_count cn = 1 → state_ cn = kConnected ∨ state_ cn = kDisconnecting →
  conn_close_callback_ cn = Some TcpServer_removeConnection →
  connections_ (server w) !! name_ cn = Some c →
  ∃ w', HandleClose call_close c w = Ok (tt, w') ∧
    conns w' = delete c (conns w) ∧ chans w' = delete (channel_ cn) (chans w) ∧
    connections_ (server w') = delete (name_ cn) (connections_ (server w)) ∧
    (socket_ cn ∉ dom (channels_ (poller (loop w')))) ∧
    ∃ h, hist w' = EvClose (socket_ cn) :: h ∧
      told (conn_callback_ cn) c kDisconnected (loop w') (server w') (hist w) h.
Proof.
  intros Hinv Hcb Hl Hu Hst Hclose Hmap. pose proof (lv_reg _ _ _ _ _ Hl) as Hr.
  pose proof (lv_conn _ _ _ _ _ Hl) as Hc. unfold HandleClose.
  rewrite (M_bind_eq _ _ _ _ _ (assertInLoopThread_true w (rg_thread _ _ _ _ Hr))).
  rewrite (M_bind_eq _ _ _ _ _ (get_conn_Ok _ _ _ Hc)).
  rewrite (M_bind_eq _ _ _ tt w) by (unfold massert; by rewrite bool_decide_eq_true_2).
  unfold DisbaleAll. rewrite (M_bind_eq _ _ _ _ _ (change_mask_eval _ _ _ _ Channel.events_none 0 Hr eq_refl)).
  set (w1 := with_events (channel_ cn) ch 0 w).
  rewrite <-(set_conn_id c cn w1) by done. unfold SetState.
  rewrite (M_bind_eq _ _ _ _ _ (mod_set_conn _ _ _ _)). set (cn1 := cn <| state_ := kDisconnected |>).
  rewrite (M_bind_eq _ _ _ _ _ (get_conn_Ok _ _ _ (set_conn_lookup _ _ _))).
  change (conn_close_callback_ cn1) with (conn_close_callback_ cn). rewrite Hclose.
  cbn [call_opt call_close]. unfold with_shared.
  rewrite (M_bind_eq _ _ _ _ _ (acquire_set_conn _ _ _)).
  set (cn2 := cn1 <| use_count := use_count cn1 + 1 |>).
  destruct (removeConnection_Ok c cn2 w1 Hinv Hcb) as (w2 & E2 & Hc2 & Hch2 & Hl2 & Hs2 & Htold);
    [apply (rg_thread _ _ _ _ Hr)|done|cbn; lia|done|].
  rewrite (M_bind_eq _ _ _ _ _ E2).
  destruct (release_last c (cn2 <| use_count := 1 |>) w2) as (w3 & -> & Hc3 & Hch3 & Hh3 & Hs3 & Hl3 & _); [done..|].
  exists w3. split; [done|]. rewrite Hc3, Hc2, Hch3, Hch2, Hs3, Hl3. split_and!; try done.
  - cbn. apply delete_insert_eq.
  - rewrite Hl2. cbn. rewrite <-(lv_fd _ _ _ _ _ Hl). set_solver.
  - by exists (hist w2).
Qed.

End TcpServer.

(** ** Theorems *)

(** C18: the server turns every accepted descriptor into a connection at a fresh
    address with a name no other connection has, so that no entry of the map is
    ever replaced: when the application's connection callback is called the
    connection is established, owned by the map and by the running function,
    registered for read events with its three handlers, and carries the
    server's callbacks; the map and the counter stay consistent. *)
Theorem TcpServer_newConnection_spec `{HA : App} (connfd : Z) (remote : sockaddr_in)
    (w : World) :
  threadId_ (loop w) = tid w → channels_ (poller (loop w)) !! connfd = None →
  len (pollfds_ (poller (loop w))) < 2 ^ 31 - 1 → server_wf w →
  next_conn_id_ (server w) < 2 ^ 31 - 1 →
  let s := server w in let c := next_addr w in
  ∃ b wE ch pfd, Buffer.Buffer_new Buffer.kInitialSize = Ok b ∧
    newConnection connfd remote w =
      (call_opt (fun u => with_shared c (app_connection u c)) (server_conn_callback_ s) ;;
       conn_release c) wE ∧
    conns w !! c = None ∧ connections_ s !! conn_name s = None ∧
    connections_ (server wE) = <[conn_name s := c]> (connections_ s) ∧
    live c wE (new_conn s c connfd remote b) ch pfd ∧ events_ ch = Channel.kReadEvent ∧
    read_callback_ ch = Some (TcpConnection_HandleRead c) ∧
    write_callback_ ch = Some (TcpConnection_HandleWrite c) ∧
    close_callback_ ch = Some (TcpConnection_HandleClose c) ∧
    server_wf wE.
Proof.
  intros Hthr Hfd Hlen Hw Hnext s c.
  destruct (newConnection_Ok connfd remote w Hthr Hfd Hlen Hw Hnext)
    as (b & wE & ch & pfd & Hb & E & Hl & He & Hrd & Hwr & Hcl & Hc & _ & Hs & Hn & _).
  exists b, wE, ch, pfd. split_and!; try done.
  - destruct (conns w !! c) eqn:Ec; [|done]. pose proof (sw_fresh w Hw c ltac:(eauto)). subst c. lia.
  - by apply conn_name_unused.
  - by rewrite Hs.
  - by eapply server_wf_new.
Qed.

(** C19: closing a connection that only the server refers to destroys it: the
    descriptor leaves the poller, the name leaves the map, then the
    application's connection callback, if it set one, is called with the
    disconnected connection (and runs before anything else happens: what it
    adds to the history is all there is before the close), and when
    [HandleClose] returns the connection and its channel are freed and the
    socket is closed, with no assertion failing on the way.  The callback is one
    that leaves the library's objects alone.  (A comment of newConnection says
    that the connection object is kept until the server is destructed; it is
    not.) *)
Theorem TcpServer_close_destroys `{HK : Kernel} `{HA : App} (invoke : Callback → MW unit)
    (c : conn_id) (w : World) (cn : TcpConnection) (ch : Channel Callback) (pfd : pollfd) :
  invoke (TcpConnection_ConnectDestroyed c) = ConnectDestroyed c → connection_callback_ok →
  live c w cn ch pfd → use_count cn = 1 → state_ cn = kConnected ∨ state_ cn = kDisconnecting →
  conn_close_callback_ cn = Some TcpServer_removeConnection →
  connections_ (server w) !! name_ cn = Some c →
  ∃ w', HandleClose (call_close invoke) c w = Ok (tt, w') ∧
    conns w' = delete c (conns w) ∧ chans w' = delete (channel_ cn) (chans w) ∧
    connections_ (server w') = delete (name_ cn) (connections_ (server w)) ∧
    (socket_ cn ∉ dom (channels_ (poller (loop w')))) ∧
    ∃ h, hist w' = EvClose (socket_ cn) :: h ∧
      told (conn_callback_ cn) c kDisconnected (loop w') (server w') (hist w) h.
Proof. intros. by eapply HandleClose_destroys. Qed.

(** ** Witnesses: the first connection of a server *)

Lemma ex_server_wf : server_wf ex_world.
Proof.
  split; [by intros ?? Hc; cbn in Hc; rewrite lookup_empty in Hc..| |done].
  intros c [? Hc]. cbn in Hc. by rewrite lookup_empty in Hc.
Qed.

Lemma TcpServer_newConnection_spec_witness :
  ∃ b wE ch pfd, Buffer.Buffer_new Buffer.kInitialSize = Ok b ∧
    newConnection (H0 := ex_app) 9 ex_addr ex_world = conn_release 10 wE ∧
    live 10 wE (new_conn (server ex_world) 10 9 ex_addr b) ch pfd ∧
    connections_ (server wE) !! b_ "test#0" = Some 10%nat.
Proof.
  destruct (TcpServer_newConnection_spec (HA := ex_app) 9 ex_addr ex_world)
    as (b & wE & ch & pfd & Hb & E & _ & _ & Hm & Hl & _); [done..|apply ex_server_wf|done|].
  exists b, wE, ch, pfd. split; [exact Hb|]. split; [exact E|]. split; [exact Hl|].
  rewrite Hm. apply lookup_insert_eq.
Defined.

Definition ex_served : World := run_in (newConnection (H0 := ex_app) 9 ex_addr) ex_world.

Lemma ex_served_live :
  ∃ cn ch pfd, live 10 ex_served cn ch pfd ∧ use_count cn = 1 ∧ state_ cn = kConnected ∧
    name_ cn = b_ "test#0" ∧ conn_close_callback_ cn = Some TcpServer_removeConnection ∧
    socket_ cn = 9 ∧ channel_ cn = 11%nat.
Proof.
  exists ((new_conn (server ex_world) 10 9 ex_addr ex_buffer) <| use_count := 1 |>), ex_ch, (mkpollfd 9 3 0).
  by repeat split; vm_compute.
Qed.

Definition ex_dispatch (cb : Callback) : MW unit :=
  match cb with TcpConnection_ConnectDestroyed c => ConnectDestroyed (H0 := ex_app) c | _ => mret tt end.

Lemma ex_app_ok : connection_callback_ok (H0 := ex_app).
Proof. intros u c w _. by exists w. Qed.

Lemma TcpServer_close_destroys_witness :
  ∃ w', HandleClose (call_close (H := ex_kernel) (H0 := ex_app) ex_dispatch) 10 ex_served = Ok (tt, w') ∧
        conns w' !! 10%nat = None ∧ chans w' !! 11%nat = None ∧ ∃ h, hist w' = EvClose 9 :: h.
Proof.
  destruct ex_served_live as (cn & ch & pfd & Hl & Hu & Hs & Hn & Hc & Hfd & Hch).
  destruct (TcpServer_close_destroys (HK := ex_kernel) (HA := ex_app) ex_dispatch 10 ex_served cn ch pfd)
    as (w' & E & Hc' & Hch' & _ & _ & h & Hh & _); [done|apply ex_app_ok|done|done|by left|done| |].
  { rewrite Hn. by vm_compute. }
  exists w'. rewrite Hch in Hch'. rewrite Hc', Hch', !lookup_delete_eq, Hh, Hfd. eauto.
Defined.

End TcpServer.
