(* ===== verification/TimerQueue.v ===== *)
(** * The timer queue (net/timer_queue.h, net/timer_queue.cc)

    The multimap of timers is its iteration order: a list sorted by key in
    which [emplace] puts a new entry behind the entries with an equal key.
    The queue keeps one [timerfd] armed for the earliest timer.  The theorems:
    the table stays sorted and consistent with the timers' own expirations;
    [GetExpired] splits it exactly at [now]; handling the alarm fires every
    expired timer once, in order, and puts back exactly the repeating ones,
    not before [now]; the time given to the kernel is never zero.  Two theorems
    describe defects: the alarm is re-armed even when no timer is left, and a
    timer added from another thread reaches the loop as a lambda whose
    captured references are dead. *)

From Stdlib Require Import Sorted.
From S2P Require Import Prelude Slice Buffer Timestamp Poller World EventLoop.

Abbreviation TimerTable := (list (Timestamp * Timer Callback)).

(** [std::multimap::emplace] *)
Fixpoint mm_insert (k : Timestamp) (v : Timer Callback) (l : TimerTable) : TimerTable :=
  match l with
  | [] => [(k, v)]
  | (k', v') :: l' => if Timestamp_ltb k k' then (k, v) :: l else (k', v') :: mm_insert k v l'
  end.

(** The entries before [lower_bound(now)]: those with a key less than [now]. *)
Fixpoint before (now : Timestamp) (l : TimerTable) : TimerTable :=
  match l with
  | [] => []
  | (k, v) :: l' => if Timestamp_ltb k now then (k, v) :: before now l' else []
  end.

(** [howMuchTimeFromNow(when)] for the current time [t]: tv_sec and tv_nsec *)
Definition howMuchTimeFromNow (when t : Timestamp) : res (Z * Z) :=
  d ← check_i64 (microSecondsSinceEpoch when - microSecondsSinceEpoch t);
  let microseconds := if d <? 100 then 100 else d in
  mret (Z.quot microseconds kMicroSecondsPerSecond,
        Z.rem microseconds kMicroSecondsPerSecond * 1000).

Section TimerQueue.
Context `{Kernel} (invoke : Callback → MW unit).

(** [createTimerfd()]: a failure is only logged. *)
Definition createTimerfd : MW Z := h ← gets hist; mret (k_timerfd h).

Definition readTimerfd (timerfd : Z) : MW unit := _ ← sys_read timerfd 8; mret tt.

Definition resetTimerfd (timerfd : Z) (expiration : Timestamp) : MW unit :=
  t ← now;
  ts ← mlift (howMuchTimeFromNow expiration t);
  _ ← sys_settime timerfd ts.1 ts.2;
  mret tt.

(** [TimerQueue::GetExpired]: move the expired entries out, one [emplace] each. *)
Definition GetExpired (t : Timestamp) : MW TimerTable :=
  timers ← gets (fun w => timers_ (timer_queue (loop w)));
  let moved := before t timers in
  let expired := foldl (fun e kv => mm_insert kv.1 kv.2 e) [] moved in
  mod_timers (fun l => drop (length moved) l) ;;
  mret expired.

(** [Timestamp nextExpire = timers_.begin()->second->Expiration(); if
    (nextExpire.valid()) resetTimerfd(timerfd_, nextExpire)] *)
Definition arm (nextExpire : Timestamp) : MW unit :=
  q ← gets (fun w => timer_queue (loop w));
  if valid nextExpire then resetTimerfd (timerfd_ q) nextExpire else mret tt.

Definition addTimer (cb : Callback) (when : Timestamp) (interval : double) : MW unit :=
  assertInLoopThread ;;
  timers ← gets (fun w => timers_ (timer_queue (loop w)));
  let needUpdate := match timers with
    | [] => true
    | (_, t) :: _ => Timestamp_ltb when (Expiration t)
    end in
  n ← gets CreatedNum_;
  let tn := Timer_new cb when interval n in
  mmod (fun w : World => w <| CreatedNum_ := tn.2 |>) ;;
  mod_timers (mm_insert when tn.1) ;;
  if needUpdate : bool then
    timers ← gets (fun w => timers_ (timer_queue (loop w)));
    match timers with
    | [] => mret tt
    | (_, t) :: _ => arm (Expiration t)
    end
  else mret tt.

(** The lambda of [AddTimer]: [cb], [when] and [interval] are read through
    references into the frame of the call that created it. *)
Definition addTimer_lambda (f : frame_id) : MW unit :=
  fr ← gets (fun w => frames w !! f);
  match fr with
  | Some (cb, when, interval) => addTimer cb when interval
  | None => mfail (UseAfterFree "frame of TimerQueue::AddTimer")
  end.

Definition AddTimer (cb : Callback) (when : Timestamp) (interval : double) : MW unit :=
  f ← fresh;
  mmod (fun w : World => w <| frames := <[f := (cb, when, interval)]> (frames w) |>) ;;
  RunInLoop invoke (TimerQueue_addTimer f) ;;
  mmod (fun w : World => w <| frames := delete f (frames w) |>).

(** The loop of [TimerQueue::reset] over the expired timers *)
Fixpoint rearm_all (expired : TimerTable) (t : Timestamp) : MW unit :=
  match expired with
  | [] => mret tt
  | (_, tm) :: rest =>
      (if isRepeat tm then
         tm' ← mlift (ReArm tm t);
         mod_timers (mm_insert (Expiration tm') tm')
       else mret tt) ;;
      rearm_all rest t
  end.

Definition reset (expired : TimerTable) (t : Timestamp) : MW unit :=
  rearm_all expired t ;;
  timers ← gets (fun w => timers_ (timer_queue (loop w)));
  let nextExpire := match timers with
    | [] => Timestamp_default
    | (_, tm) :: _ => Expiration tm
    end in
  arm nextExpire.

(** [TimerQueue::HandleRead]: called when timerfd alarms *)
Definition HandleRead : MW unit :=
  t ← now;
  q ← gets (fun w => timer_queue (loop w));
  readTimerfd (timerfd_ q) ;;
  expired ← GetExpired t;
  mfor (fun kv => invoke (Fire kv.2)) expired ;;
  reset expired t.

(** [EventLoop::RunAt], [RunAfter], [RunEvery] *)
Definition RunAt (ts : Timestamp) (cb : Callback) : MW unit := AddTimer cb ts double_zero.
Definition RunAfter (delay : double) (cb : Callback) : MW unit :=
  t ← now; when ← mlift (Timestamp_plus t delay); AddTimer cb when double_zero.
Definition RunEvery (interval : double) (cb : Callback) : MW unit :=
  t ← now; when ← mlift (Timestamp_plus t interval); AddTimer cb when interval.

(** [TimerQueue::TimerQueue]; the record is stored in the loop first, so that
    the registration below finds it. *)
Definition TimerQueue_ctor : MW unit :=
  fd ← createTimerfd;
  l ← gets loop;
  c ← fresh;
  mod_chans (insert c (Channel.Channel_new (this_ l) fd)) ;;
  mod_loop (fun l : EventLoop => l <| timer_queue := mkTimerQueue fd c [] |>) ;;
  mod_chan c (Channel.SetReadCallback TimerQueue_HandleRead) ;;
  EnableReading c.

(** [TimerQueue::~TimerQueue], and then the members: the timers and the channel.
    The channel stays in the poller's tables. *)
Definition TimerQueue_dtor : MW unit :=
  l ← gets loop;
  let tq := timer_queue l in
  log (EvClose (timerfd_ tq)) ;;
  mod_chans (delete (timerfd_channel_ tq)) ;;
  mod_loop (fun l : EventLoop => l <| timer_queue := (timer_queue l) <| timers_ := @nil (Timestamp * Timer Callback) |> |>).
End TimerQueue.

(** ** The table *)

Definition tle (a b : Timestamp) : Prop := micro_since_epoch_ a ≤ micro_since_epoch_ b.

(** Sorted by key, and every key is its timer's expiration. *)
Definition table_wf (l : TimerTable) : Prop :=
  StronglySorted (fun x y => tle x.1 y.1) l ∧ Forall (fun x => x.1 = expiration_ x.2) l.

Lemma mm_insert_perm k v l : mm_insert k v l ≡ₚ (k, v) :: l.
Proof.
  induction l as [|[k' v'] l IH]; cbn; [done|]. case_match; [done|].
  rewrite IH. apply Permutation_swap.
Qed.

Lemma mm_insert_Forall (P : Timestamp * Timer Callback → Prop) k v l :
  P (k, v) → Forall P l → Forall P (mm_insert k v l).
Proof. intros. rewrite mm_insert_perm. by constructor. Qed.

Lemma mm_insert_sorted k v l :
  StronglySorted (fun x y => tle x.1 y.1) l →
  StronglySorted (fun x y => tle x.1 y.1) (mm_insert k v l).
Proof.
  unfold tle. induction 1 as [|[k' v'] l Hs IH Hf]; cbn; [by repeat constructor|].
  unfold Timestamp_ltb. case_match eqn:E; bool_prop.
  - constructor; [by constructor|]. constructor; [cbn; lia|].
    eapply Forall_impl; [done|]. cbn. lia.
  - constructor; [done|]. apply mm_insert_Forall; [cbn; lia|done].
Qed.

Lemma mm_insert_wf k v l : k = expiration_ v → table_wf l → table_wf (mm_insert k v l).
Proof.
  intros Hk [Hs Hf]. split; [by apply mm_insert_sorted|]. by apply mm_insert_Forall.
Qed.

(** Inserting behind everything not larger. *)
Lemma mm_insert_snoc l k v :
  Forall (fun x => tle x.1 k) l → mm_insert k v l = l ++ [(k, v)].
Proof.
  unfold tle. induction 1 as [|[k' v'] l Hx Hl IH]; cbn in *; [done|].
  unfold Timestamp_ltb. by rewrite (proj2 (Z.ltb_ge _ _)), IH by lia.
Qed.

Lemma sorted_app_le (acc l : TimerTable) (kv : Timestamp * Timer Callback) :
  StronglySorted (fun x y => tle x.1 y.1) (acc ++ kv :: l) → Forall (fun x => tle x.1 kv.1) acc.
Proof.
  induction acc as [|x acc IH]; cbn; intros Hs; [done|].
  inversion Hs as [|?? Hs' Hf]; subst. constructor; [|by apply IH].
  by apply Forall_app in Hf as [_ [? _]%Forall_cons].
Qed.

Lemma foldl_mm_insert_sorted (l acc : TimerTable) :
  StronglySorted (fun x y => tle x.1 y.1) (acc ++ l) →
  foldl (fun e kv => mm_insert kv.1 kv.2 e) acc l = acc ++ l.
Proof.
  revert acc. induction l as [|[k v] l IH]; intros acc Hs; cbn; [by rewrite app_nil_r|].
  rewrite mm_insert_snoc by (by apply (sorted_app_le acc l (k, v))).
  rewrite IH by (by rewrite <-app_assoc). by rewrite <-app_assoc.
Qed.

Lemma before_split t l : l = before t l ++ drop (length (before t l)) l.
Proof. induction l as [|[k v] l IH]; cbn; [done|]. case_match; cbn; [by f_equal|done]. Qed.

Lemma before_lt t l : Forall (fun x => micro_since_epoch_ x.1 < micro_since_epoch_ t) (before t l).
Proof.
  induction l as [|[k v] l IH]; cbn; [done|]. unfold Timestamp_ltb.
  case_match eqn:E; [|done]. constructor; [cbn; bool_lia|done].
Qed.

Lemma before_rest_ge t l :
  StronglySorted (fun x y => tle x.1 y.1) l →
  Forall (fun x => tle t x.1) (drop (length (before t l)) l).
Proof.
  unfold tle. induction 1 as [|[k v] l Hs IH Hf]; cbn; [done|]. unfold Timestamp_ltb.
  case_match eqn:E; cbn; [done|]. bool_prop. constructor; [done|].
  eapply Forall_impl; [done|]. cbn. lia.
Qed.

Lemma sorted_app_l {A} (R : A → A → Prop) l k : StronglySorted R (l ++ k) → StronglySorted R l.
Proof.
  induction l as [|x l IH]; cbn; [constructor|]. intros Hs. inversion Hs as [|?? Hs' Hf]; subst.
  constructor; [by apply IH|]. by apply Forall_app in Hf as [? _].
Qed.

Lemma sorted_app_r {A} (R : A → A → Prop) l k : StronglySorted R (l ++ k) → StronglySorted R k.
Proof. induction l as [|x l IH]; cbn; [done|]. inversion 1; auto. Qed.

(** ** Evaluating the operations *)

Abbreviation tq w := (timers_ (timer_queue (loop w))).

(** The world with another table, another history. *)
Definition with_timers (l : TimerTable) (w : World) : World :=
  w <| loop := (loop w) <| timer_queue := (timer_queue (loop w)) <| timers_ := l |> |> |>.
Definition with_hist (h : history) (w : World) : World := w <| hist := h |>.

Lemma tq_with_timers l w : tq (with_timers l w) = l.
Proof. done. Qed.

Lemma mod_timers_eval f w : mod_timers f w = Ok (tt, with_timers (f (tq w)) w).
Proof. done. Qed.

(** What is assumed of the clock: it reads a time after the epoch that leaves
    room for delays in 64 bits (the year 148000 is far enough). *)
Class ClockOk `{Kernel} := clock_ok : ∀ h, ∃ t,
  Timestamp_now (k_gettimeofday h).1 (k_gettimeofday h).2 = Ok t ∧
  0 ≤ micro_since_epoch_ t < 2 ^ 62.

(** A timer the queue can handle without overflow. *)
Definition timer_ok (tm : Timer Callback) : Prop :=
  - 2 ^ 62 ≤ micro_since_epoch_ (expiration_ tm) < 2 ^ 63 ∧
  (repeat_ tm = true → ∃ d,
     double_to_i64 (double_mul (interval_ tm) (double_of_Z kMicroSecondsPerSecond)) = Ok d ∧
     0 ≤ d < 2 ^ 62).

Abbreviation table_ok l := (Forall (fun kv : Timestamp * Timer Callback => timer_ok kv.2) l).

(** Time until [when], in nanoseconds: at least 100 microseconds. *)
Lemma howMuch_eval when t :
  - 2 ^ 63 ≤ micro_since_epoch_ when - micro_since_epoch_ t < 2 ^ 63 →
  ∃ s ns, howMuchTimeFromNow when t = Ok (s, ns) ∧ 0 ≤ s ∧ 0 ≤ ns < 1000000000 ∧
    s * 1000000000 + ns = 1000 * Z.max 100 (micro_since_epoch_ when - micro_since_epoch_ t).
Proof.
  intros Hr. unfold howMuchTimeFromNow, microSecondsSinceEpoch, check_i64, in_i64.
  rewrite (proj2 (Z.leb_le _ _)), (proj2 (Z.ltb_lt _ _)) by lia. cbn -[Z.quot Z.rem].
  set (d := micro_since_epoch_ when - micro_since_epoch_ t) in *.
  set (m := if d <? 100 then 100 else d).
  assert (m = Z.max 100 d) by (subst m; destruct (Z.ltb_spec d 100); lia).
  unfold kMicroSecondsPerSecond. change (1000 * 1000) with 1000000.
  exists (Z.quot m 1000000), (Z.rem m 1000000 * 1000). split; [done|].
  rewrite Z.quot_div_nonneg, Z.rem_mod_nonneg by lia.
  pose proof (Z.mod_pos_bound m 1000000). pose proof (Z.div_mod m 1000000).
  pose proof (Z.div_pos m 1000000). lia.
Qed.

Section Eval.
Context `{HK : Kernel}.

(** The constructor registers the timer's channel at the next free address. *)
Lemma TimerQueue_ctor_eval w :
  let tfd := k_timerfd (hist w) in let c := next_addr w in
  let ch0 := Channel.Channel_new (this_ (loop w)) tfd in
  let ch := Channel.SetReadCallback TimerQueue_HandleRead ch0 in
  threadId_ (loop w) = tid w → channels_ (poller (loop w)) !! tfd = None →
  len (pollfds_ (poller (loop w))) < 2 ^ 31 - 1 →
  TimerQueue_ctor w = Ok (tt, with_new c ch Channel.kReadEvent
    (w <| next_addr := S c |> <| chans := <[c := ch]> (<[c := ch0]> (chans w)) |>
       <| loop := (loop w) <| timer_queue := mkTimerQueue tfd c [] |> |>)).
Proof.
  intros tfd c ch0 ch Hthr Hm Hlen. unfold TimerQueue_ctor, createTimerfd.
  rewrite (M_bind_eq _ _ w tfd w), (M_bind_eq _ _ w (loop w) w) by done.
  rewrite (M_bind_eq _ _ w c (w <| next_addr := S c |>)) by done.
  set (w1 := w <| next_addr := S c |> <| chans := <[c := ch0]> (chans w) |>).
  rewrite (M_bind_eq _ _ _ tt w1) by done.
  set (w2 := w1 <| loop := (loop w) <| timer_queue := mkTimerQueue tfd c [] |> |>).
  rewrite (M_bind_eq _ _ _ tt w2) by done.
  by rewrite (read_channel_eval c w2 ch0) by (done || apply lookup_insert_eq).
Qed.

Lemma now_eval t w :
  Timestamp_now (k_gettimeofday (hist w)).1 (k_gettimeofday (hist w)).2 = Ok t →
  now w = Ok (t, with_hist (EvGettimeofday :: hist w) w).
Proof.
  intros Ht. unfold now. rewrite M_bind_unfold.
  change (sys_gettimeofday w)
    with (Ok (k_gettimeofday (hist w), with_hist (EvGettimeofday :: hist w) w)).
  cbv beta iota. unfold mlift. by rewrite Ht.
Qed.

(** Arming always reaches the kernel: [valid()] does not filter anything. *)
Lemma arm_eval `{!ClockOk} when w :
  - 2 ^ 62 ≤ micro_since_epoch_ when < 2 ^ 63 →
  ∃ t s ns, howMuchTimeFromNow when t = Ok (s, ns) ∧
    Timestamp_now (k_gettimeofday (hist w)).1 (k_gettimeofday (hist w)).2 = Ok t ∧
    0 ≤ micro_since_epoch_ t < 2 ^ 62 ∧
    arm when w = Ok (tt, with_hist (EvSettime (timerfd_ (timer_queue (loop w))) s ns ::
                                    EvGettimeofday :: hist w) w).
Proof.
  intros Hw. destruct (clock_ok (hist w)) as (t & Ht & Hb).
  destruct (howMuch_eval when t ltac:(lia)) as (s & ns & Hs & _).
  exists t, s, ns. split; [done|]. split; [done|]. split; [done|].
  unfold arm. rewrite M_bind_unfold. cbn -[resetTimerfd valid].
  assert (valid when = true) as ->.
  { unfold valid. by destruct (Z.eqb_spec (micro_since_epoch_ when) 0) as [->|]. }
  unfold resetTimerfd. rewrite (M_bind_eq _ _ _ _ _ (now_eval t w Ht)).
  rewrite M_bind_unfold. unfold mlift. by rewrite Hs.
Qed.

Lemma GetExpired_eval t w :
  StronglySorted (fun x y => tle x.1 y.1) (tq w) →
  GetExpired t w = Ok (before t (tq w), with_timers (drop (length (before t (tq w))) (tq w)) w).
Proof.
  intros Hs. unfold GetExpired. rewrite M_bind_unfold. cbn -[mod_timers before].
  rewrite M_bind_unfold, mod_timers_eval. cbn -[before].
  rewrite foldl_mm_insert_sorted; [done|]. cbn.
  rewrite (before_split t (tq w)) in Hs. by apply sorted_app_l in Hs.
Qed.

(** The timers [reset] puts back: the repeating ones, re-armed at [t]. *)
Definition rearmed (t : Timestamp) (expired re : TimerTable) : Prop :=
  Forall2 (fun x y => ReArm x.2 t = Ok y.2 ∧ y.1 = expiration_ y.2)
    (filter (fun x => repeat_ x.2 = true) expired) re.

Lemma rearm_timer t tm :
  0 ≤ micro_since_epoch_ t < 2 ^ 62 → timer_ok tm → repeat_ tm = true →
  ∃ tm', ReArm tm t = Ok tm' ∧ timer_ok tm' ∧ tle t (expiration_ tm').
Proof.
  intros Ht [Hb Hrep] Hr. destruct (Hrep Hr) as (d & Hd & Hdb).
  unfold ReArm. rewrite Hr. unfold Timestamp_plus. rewrite Hd. cbn. unfold check_i64, in_i64.
  rewrite (proj2 (Z.leb_le _ _)), (proj2 (Z.ltb_lt _ _)) by lia. cbn.
  eexists. split; [done|]. unfold tle, timer_ok. cbn.
  split; [split; [lia|intros _; by exists d]|lia].
Qed.

Lemma rearm_all_eval t expired w :
  0 ≤ micro_since_epoch_ t < 2 ^ 62 → table_ok expired → table_ok (tq w) →
  ∃ re l, rearm_all expired t w = Ok (tt, with_timers l w) ∧ rearmed t expired re ∧
    l ≡ₚ re ++ tq w ∧ (table_wf (tq w) → table_wf l) ∧ table_ok l ∧
    Forall (fun kv => tle t kv.1) re.
Proof.
  intros Ht. revert w. induction expired as [|[k tm] rest IH]; intros w Hex Hok.
  { exists [], (tq w). split; [by destruct w as [?? [] ????????]; destruct timer_queue|].
    split; [by constructor|done]. }
  apply Forall_cons in Hex as [Htm Hex]. cbn [rearm_all snd] in *. unfold isRepeat.
  unfold rearmed. setoid_rewrite filter_cons. cbn [snd].
  destruct (repeat_ tm) eqn:Hr; cbn [decide].
  - destruct (rearm_timer t tm Ht Htm Hr) as (tm' & Htm' & Hok' & Hle).
    destruct (IH (with_timers (mm_insert (expiration_ tm') tm' (tq w)) w)) as (re & l & He & Hre & Hp & Hwf & Hlok & Hf).
    { done. } { rewrite tq_with_timers. by apply mm_insert_Forall. }
    exists ((expiration_ tm', tm') :: re), l. rewrite tq_with_timers in *.
    rewrite !M_bind_unfold. unfold mlift. rewrite Htm'. cbv beta iota.
    rewrite mod_timers_eval. cbv beta iota. change (Expiration tm') with (expiration_ tm').
    rewrite He.
    split; [done|]. split; [case_decide; [|done]; constructor; [done|exact Hre]|].
    split; [rewrite Hp, mm_insert_perm; cbn; symmetry; apply Permutation_middle|].
    split; [intros; apply Hwf; by apply mm_insert_wf|]. split; [done|by constructor].
  - destruct (IH w Hex Hok) as (re & l & He & Hre & Hrest). exists re, l.
    rewrite M_bind_unfold. cbn -[rearm_all]. case_decide; [done|]. rewrite He. done.
Qed.

End Eval.

(** ** Theorems *)

(** C39: the time until an expiration handed to the kernel is a proper
    [timespec] for the distance in microseconds, rounded up to 100: it is never
    zero, so arming can never disarm the timer. *)
Theorem howMuchTimeFromNow_spec (when t : Timestamp) :
  - 2 ^ 63 ≤ micro_since_epoch_ when - micro_since_epoch_ t < 2 ^ 63 →
  ∃ s ns, howMuchTimeFromNow when t = Ok (s, ns) ∧ 0 ≤ s ∧ 0 ≤ ns < 1000000000 ∧
    (s, ns) ≠ (0, 0) ∧
    s * 1000000000 + ns = 1000 * Z.max 100 (micro_since_epoch_ when - micro_since_epoch_ t).
Proof.
  intros Hr. destruct (howMuch_eval when t Hr) as (s & ns & He & Hs & Hns & Hsum).
  exists s, ns. repeat split; try done; try lia. intros [= -> ->]. lia.
Qed.

Lemma howMuchTimeFromNow_spec_witness :
  ∃ s ns, howMuchTimeFromNow (mkTimestamp 5300000) (mkTimestamp 1000000) = Ok (s, ns) ∧
    0 ≤ s ∧ 0 ≤ ns < 1000000000 ∧ (s, ns) ≠ (0, 0) ∧ s * 1000000000 + ns = 1000 * 4300000.
Proof. apply (howMuchTimeFromNow_spec (mkTimestamp 5300000) (mkTimestamp 1000000)). cbn. lia. Defined.

(** [GetExpired(now)] moves out exactly the timers whose key is before
    [now], in expiration order, leaves exactly the others, and both tables are
    well formed; nothing else changes. *)
Theorem GetExpired_splits (t : Timestamp) (w : World) :
  table_wf (tq w) →
  ∃ expired rest, GetExpired t w = Ok (expired, with_timers rest w) ∧
    expired ++ rest = tq w ∧ table_wf expired ∧ table_wf rest ∧
    Forall (fun x => micro_since_epoch_ x.1 < micro_since_epoch_ t) expired ∧
    Forall (fun x => micro_since_epoch_ t ≤ micro_since_epoch_ x.1) rest.
Proof.
  intros [Hs Hf]. rewrite GetExpired_eval by done. do 2 eexists. split; [done|].
  pose proof (before_split t (tq w)) as Hsplit. split; [by rewrite <-Hsplit|].
  pose proof (before_rest_ge t (tq w) Hs). pose proof (before_lt t (tq w)).
  rewrite Hsplit in Hs, Hf. apply Forall_app in Hf as [Hf1 Hf2].
  split; [split; [by eapply sorted_app_l|done]|].
  split; [split; [by eapply sorted_app_r|done]|]. done.
Qed.

Definition ex_timer (e : Z) : Timer Callback := fst (Timer_new (User 0) (mkTimestamp e) double_zero 0).
Definition ex_table : TimerTable :=
  [(mkTimestamp 10, ex_timer 10); (mkTimestamp 10, ex_timer 10); (mkTimestamp 30, ex_timer 30)].

Lemma ex_table_wf : table_wf ex_table.
Proof. split; repeat constructor; unfold tle; cbn; lia. Qed.

Lemma GetExpired_splits_witness :
  ∃ expired rest, GetExpired (mkTimestamp 30) (with_timers ex_table ex_world)
      = Ok (expired, with_timers rest (with_timers ex_table ex_world)) ∧
    expired ++ rest = ex_table ∧ table_wf expired ∧ table_wf rest ∧
    Forall (fun x => micro_since_epoch_ x.1 < 30) expired ∧
    Forall (fun x => 30 ≤ micro_since_epoch_ x.1) rest.
Proof. apply (GetExpired_splits (mkTimestamp 30) (with_timers ex_table ex_world)), ex_table_wf. Defined.

#[export] Instance ex_clock_ok : ClockOk (H := ex_kernel).
Proof.
  intros h. exists (mkTimestamp (1000000000 + Z.min 999999 (len h))).
  pose proof (len_nonneg h). split; [|cbn; lia].
  assert (check_i64 (1000000000 + Z.min 999999 (len h)) = Ok (1000000000 + Z.min 999999 (len h))) as Hc.
  { unfold check_i64, in_i64. by rewrite (proj2 (Z.leb_le _ _)), (proj2 (Z.ltb_lt _ _)) by lia. }
  change (Timestamp_now _ _) with (Timestamp_now 1000 (Z.min 999999 (len h))).
  unfold Timestamp_now. change (check_i64 (1000 * kMicroSecondsPerSecond)) with (Ok 1000000000).
  cbn [mbind res_bind]. by rewrite Hc.
Qed.

(** The table after an insertion in front of everything. *)
Lemma mm_insert_front k v l :
  Forall (fun x => micro_since_epoch_ k < micro_since_epoch_ x.1) l →
  mm_insert k v l = (k, v) :: l.
Proof.
  destruct 1 as [|[k' v'] l Hx Hl]; [done|]. cbn in *. unfold Timestamp_ltb.
  by rewrite (proj2 (Z.ltb_lt _ _) Hx).
Qed.

(** [needUpdate] is "earlier than every timer". *)
Lemma needUpdate_earliest (when : Timestamp) (l : TimerTable) :
  table_wf l →
  match l with [] => true | (_, t) :: _ => Timestamp_ltb when (Expiration t) end =
  bool_decide (Forall (fun x => micro_since_epoch_ when < micro_since_epoch_ x.1) l).
Proof.
  intros [Hs Hf]. destruct l as [|[k t] l]; [by rewrite bool_decide_eq_true_2|].
  apply Forall_cons in Hf as [Hk _]. cbn in Hk. unfold Timestamp_ltb, Expiration. rewrite <-Hk.
  inversion Hs as [|?? _ Hle]; subst. unfold tle in Hle. cbn in Hle.
  destruct (Z.ltb_spec (micro_since_epoch_ (expiration_ t)) (micro_since_epoch_ (expiration_ t)));
    [lia|].
  symmetry. destruct (Z.ltb_spec (micro_since_epoch_ when) (micro_since_epoch_ (expiration_ t))).
  - apply bool_decide_eq_true_2. constructor; [done|]. eapply Forall_impl; [done|]. cbn. lia.
  - apply bool_decide_eq_false_2. intros [Hlt _]%Forall_cons. cbn in Hlt. lia.
Qed.

(** The world after a timer was added in the loop thread *)
Definition timer_added (cb : Callback) (when : Timestamp) (interval : double) (h : history) (w : World) : World :=
  let tn := Timer_new cb when interval (CreatedNum_ w) in
  with_hist h (with_timers (mm_insert when tn.1 (tq w)) (w <| CreatedNum_ := tn.2 |>)).

Lemma addTimer_eval `{HK : Kernel} `{!ClockOk} cb when interval w :
  threadId_ (loop w) = tid w → table_wf (tq w) → - 2 ^ 62 ≤ micro_since_epoch_ when < 2 ^ 63 →
  ∃ h, addTimer cb when interval w = Ok (tt, timer_added cb when interval h w) ∧
    if bool_decide (Forall (fun x => micro_since_epoch_ when < micro_since_epoch_ x.1) (tq w))
    then ∃ t s ns, howMuchTimeFromNow when t = Ok (s, ns) ∧
         Timestamp_now (k_gettimeofday (hist w)).1 (k_gettimeofday (hist w)).2 = Ok t ∧
         h = EvSettime (timerfd_ (timer_queue (loop w))) s ns :: EvGettimeofday :: hist w
    else h = hist w.
Proof.
  intros Hthr Hwf Hb. unfold addTimer, timer_added.
  rewrite (M_bind_eq _ _ _ _ _ (assertInLoopThread_true w Hthr)).
  rewrite M_bind_unfold. cbv beta iota delta [gets].
  rewrite (needUpdate_earliest when (tq w) Hwf).
  set (tn := Timer_new cb when interval (CreatedNum_ w)).
  set (w1 := with_timers (mm_insert when tn.1 (tq w)) (w <| CreatedNum_ := tn.2 |>)).
  rewrite M_bind_unfold. cbv beta iota. fold tn.
  case_bool_decide as Hfirst.
  - destruct (arm_eval when w1 Hb) as (t & s & ns & Hs & Ht & _ & Harm).
    exists (EvSettime (timerfd_ (timer_queue (loop w))) s ns :: EvGettimeofday :: hist w).
    split; [|by exists t, s, ns].
    rewrite !M_bind_unfold. cbv beta iota delta [mmod]. rewrite M_bind_unfold, mod_timers_eval.
    cbv beta iota. rewrite M_bind_unfold. cbv beta iota.
    change (with_timers _ _) with w1. change (tq w1) with (mm_insert when tn.1 (tq w)).
    rewrite mm_insert_front by done. exact Harm.
  - exists (hist w). done.
Qed.

(** In the loop thread [addTimer] inserts one new timer, keeps the table
    sorted and consistent, and re-arms the kernel timer exactly when the new
    timer is earlier than all others, and then for the new timer's time. *)
Theorem addTimer_spec `{HK : Kernel} `{!ClockOk} (cb : Callback) (when : Timestamp)
    (interval : double) (w : World) :
  threadId_ (loop w) = tid w → table_wf (tq w) →
  - 2 ^ 62 ≤ micro_since_epoch_ when < 2 ^ 63 →
  ∃ w' tm, addTimer cb when interval w = Ok (tt, w') ∧
    callback_ tm = cb ∧ expiration_ tm = when ∧ interval_ tm = interval ∧
    repeat_ tm = double_gtb interval double_zero ∧
    tq w' = mm_insert when tm (tq w) ∧ tq w' ≡ₚ (when, tm) :: tq w ∧ table_wf (tq w') ∧
    if bool_decide (Forall (fun x => micro_since_epoch_ when < micro_since_epoch_ x.1) (tq w))
    then ∃ t s ns, howMuchTimeFromNow when t = Ok (s, ns) ∧
         Timestamp_now (k_gettimeofday (hist w)).1 (k_gettimeofday (hist w)).2 = Ok t ∧
         hist w' = EvSettime (timerfd_ (timer_queue (loop w))) s ns :: EvGettimeofday :: hist w
    else hist w' = hist w.
Proof.
  intros Hthr Hwf Hb. destruct (addTimer_eval cb when interval w Hthr Hwf Hb) as (h & E & Hh).
  eexists _, (Timer_new cb when interval (CreatedNum_ w)).1. split; [exact E|]. repeat (split; [done|]).
  split; [apply mm_insert_perm|]. split; [by apply mm_insert_wf|]. exact Hh.
Qed.

Lemma addTimer_spec_witness :
  ∃ w' tm, addTimer (H := ex_kernel) (User 1) (mkTimestamp 5) double_zero (with_timers ex_table ex_world)
      = Ok (tt, w') ∧
    callback_ tm = User 1 ∧ expiration_ tm = mkTimestamp 5 ∧ interval_ tm = double_zero ∧
    repeat_ tm = false ∧
    tq w' = mm_insert (mkTimestamp 5) tm ex_table ∧ tq w' ≡ₚ (mkTimestamp 5, tm) :: ex_table ∧
    table_wf (tq w') ∧
    if bool_decide (Forall (fun x => 5 < micro_since_epoch_ x.1) ex_table)
    then ∃ t s ns, howMuchTimeFromNow (mkTimestamp 5) t = Ok (s, ns) ∧
         Timestamp_now 1000 0 = Ok t ∧ hist w' = [EvSettime 4 s ns; EvGettimeofday]
    else hist w' = [].
Proof.
  apply (addTimer_spec (HK := ex_kernel) (User 1) (mkTimestamp 5) double_zero
           (with_timers ex_table ex_world)); [done|apply ex_table_wf|cbn; lia].
Defined.

(** An alarm, evaluated: the callbacks run in the world [alarmed t w], in which
    the expired timers have left the table. *)
Definition alarmed `{HK : Kernel} (t : Timestamp) (w : World) : World :=
  with_timers (drop (length (before t (tq w))) (tq w))
    (with_hist (EvRead (timerfd_ (timer_queue (loop w))) :: EvGettimeofday :: hist w) w).

Lemma HandleRead_alarm_eval `{HK : Kernel} `{!ClockOk} (invoke : Callback → MW unit) t w w2 :
  table_wf (tq w) → table_ok (tq w) →
  Timestamp_now (k_gettimeofday (hist w)).1 (k_gettimeofday (hist w)).2 = Ok t → 0 ≤ micro_since_epoch_ t < 2 ^ 62 →
  mfor invoke ((fun x => callback_ x.2) <$> before t (tq w)) (alarmed t w) = Ok (tt, w2) → table_ok (tq w2) →
  ∃ re l s ns, HandleRead invoke w = Ok (tt, with_hist (EvSettime (timerfd_ (timer_queue (loop w2))) s ns ::
      EvGettimeofday :: hist w2) (with_timers l w2)) ∧
    rearmed t (before t (tq w)) re ∧ l ≡ₚ re ++ tq w2 ∧ (table_wf (tq w2) → table_wf l) ∧ table_ok l ∧
    Forall (fun x => tle t x.1) re.
Proof.
  intros Hwf Hok Ht Htb Hfire Hok2. set (ex := before t (tq w)) in *.
  pose proof Hok as Hok'. rewrite (before_split t (tq w)) in Hok'. fold ex in Hok'. apply Forall_app in Hok' as [Hokx _].
  destruct (rearm_all_eval t ex w2 Htb Hokx Hok2) as (re & l & Hre & Hrearm & Hp & Hwfl & Hokl & Hle).
  set (next := match l with [] => Timestamp_default | (_, tm) :: _ => Expiration tm end).
  assert (Hnext : - 2 ^ 62 ≤ micro_since_epoch_ next < 2 ^ 63).
  { subst next. destruct Hokl as [|[k tm] l [Hb _] _]; cbn; [lia|exact Hb]. }
  destruct (arm_eval next (with_timers l w2) Hnext) as (t' & s & ns & _ & _ & _ & Harm).
  exists re, l, s, ns. split; [|done].
  set (w0 := with_hist (EvRead (timerfd_ (timer_queue (loop w))) :: EvGettimeofday :: hist w) w).
  unfold HandleRead. rewrite (M_bind_eq _ _ _ _ _ (now_eval t w Ht)).
  rewrite M_bind_unfold. cbv beta iota delta [gets].
  rewrite (M_bind_eq (readTimerfd _) _ _ tt w0) by done.
  assert (Hge : GetExpired t w0 = Ok (ex, alarmed t w)) by (apply GetExpired_eval; apply Hwf).
  rewrite (M_bind_eq _ _ _ _ _ Hge).
  assert (Hf : mfor (fun kv : Timestamp * Timer Callback => invoke (Fire kv.2)) ex (alarmed t w) = Ok (tt, w2)).
  { rewrite <-Hfire. clear. generalize (alarmed t w). induction ex as [|x ex IH]; intros w'; [done|].
    cbn. rewrite !M_bind_unfold. unfold Fire. destruct (invoke _ w') as [[[] ?]|]; [apply IH|done]. }
  rewrite (M_bind_eq _ _ _ _ _ Hf). unfold reset.
  rewrite (M_bind_eq _ _ _ _ _ Hre), M_bind_unfold. cbv beta iota delta [gets].
  rewrite tq_with_timers. exact Harm.
Qed.

(** What is left in the table when the expired timers have gone *)
Lemma table_rest t l : table_wf l → table_wf (drop (length (before t l)) l).
Proof.
  intros [Hs Hf]. rewrite (before_split t l) in Hs, Hf.
  split; [by eapply sorted_app_r|by apply Forall_app in Hf as [_ ?]].
Qed.

(** C6: when the timer descriptor alarms, [HandleRead] reads the time [t],
    calls the callbacks of exactly the timers before [t], once each and in
    order of expiration, and returns with a table that holds what the callbacks
    left there and, re-armed at [t] plus their interval and so not before [t],
    exactly the repeating timers among the expired ones; the kernel timer is
    re-armed at the end.  No assertion fails and nothing overflows, whatever
    timers the callbacks themselves add. *)
Theorem HandleRead_spec `{HK : Kernel} `{!ClockOk} (invoke : Callback → MW unit) (w : World) :
  table_wf (tq w) → table_ok (tq w) →
  (∀ cbs w1, cbs `prefix_of` ((fun x => callback_ x.2) <$> tq w) → table_ok (tq w1) →
     ∃ w2, mfor invoke cbs w1 = Ok (tt, w2) ∧ table_ok (tq w2) ∧
           (table_wf (tq w1) → table_wf (tq w2))) →
  ∃ t expired rest w1 w2 w' re s ns h,
    HandleRead invoke w = Ok (tt, w') ∧
    Timestamp_now (k_gettimeofday (hist w)).1 (k_gettimeofday (hist w)).2 = Ok t ∧
    tq w = expired ++ rest ∧
    Forall (fun x => micro_since_epoch_ x.1 < micro_since_epoch_ t) expired ∧
    Forall (fun x => micro_since_epoch_ t ≤ micro_since_epoch_ x.1) rest ∧
    tq w1 = rest ∧ mfor invoke ((fun x => callback_ x.2) <$> expired) w1 = Ok (tt, w2) ∧
    rearmed t expired re ∧ tq w' ≡ₚ re ++ tq w2 ∧ Forall (fun x => tle t x.1) re ∧
    table_wf (tq w') ∧ hist w' = EvSettime (timerfd_ (timer_queue (loop w2))) s ns :: h.
Proof.
  intros Hwf Hok Hinv. destruct (clock_ok (hist w)) as (t & Ht & Htb).
  set (ex := before t (tq w)). set (rest := drop (length ex) (tq w)).
  pose proof (before_split t (tq w)) as Hsplit. fold ex rest in Hsplit.
  pose proof Hok as Hok'. rewrite Hsplit in Hok'. apply Forall_app in Hok' as [_ Hokr].
  destruct (Hinv ((fun x => callback_ x.2) <$> ex) (alarmed t w)) as (w2 & Hfire & Hok2 & Hwf2); [|done|].
  { rewrite Hsplit, fmap_app. by apply prefix_app_r. }
  destruct (HandleRead_alarm_eval invoke t w w2 Hwf Hok Ht Htb Hfire Hok2)
    as (re & l & s & ns & E & Hrearm & Hp & Hwfl & Hokl & Hle).
  do 2 eexists. exists rest, (alarmed t w), w2. do 5 eexists. split; [exact E|]. split; [exact Ht|].
  split; [exact Hsplit|]. split; [apply before_lt|]. split; [apply before_rest_ge, Hwf|]. split; [done|].
  split; [exact Hfire|]. split; [exact Hrearm|]. split; [exact Hp|]. split; [exact Hle|].
  split; [by apply Hwfl, Hwf2, table_rest|reflexivity].
Qed.

Lemma mfor_ret_eval {S A} (l : list A) (s : S) : mfor (fun _ => mret tt) l s = Ok (tt, s).
Proof. induction l as [|a l IH]; [done|exact IH]. Qed.

Lemma HandleRead_spec_witness :
  ∃ w', HandleRead (H := ex_kernel) (fun _ => mret tt) (with_timers ex_table ex_world) = Ok (tt, w') ∧
        table_wf (tq w').
Proof.
  destruct (HandleRead_spec (HK := ex_kernel) (fun _ => mret tt) (with_timers ex_table ex_world))
    as (t & ex & rest & w1 & w2 & w' & re & s & ns & h & He & _ & _ & _ & _ & _ & _ & _ & _ & _ & Hwf & _).
  - apply ex_table_wf.
  - repeat constructor; cbn; done || lia.
  - intros cbs w1 _ Hok. exists w1. split; [apply mfor_ret_eval|done].
  - by exists w'.
Defined.

(** An alarm with no timer in the queue arms the timer again, for 100
    microseconds, because the test [nextExpire.valid()] never fails: once the
    last one-shot timer has fired, the loop is woken up ten thousand times a
    second for ever. *)
Theorem HandleRead_idle_rearms `{HK : Kernel} `{!ClockOk} (invoke : Callback → MW unit) (w : World) :
  tq w = [] →
  ∃ w', HandleRead invoke w = Ok (tt, w') ∧ tq w' = [] ∧
        hist w' = EvSettime (timerfd_ (timer_queue (loop w))) 0 100000 :: EvGettimeofday ::
                  EvRead (timerfd_ (timer_queue (loop w))) :: EvGettimeofday :: hist w.
Proof.
  intros Hnil. destruct (clock_ok (hist w)) as (t & Ht & _).
  set (w0 := with_hist (EvRead (timerfd_ (timer_queue (loop w))) :: EvGettimeofday :: hist w) w).
  set (w1 := with_timers [] w0).
  destruct (arm_eval Timestamp_default w1) as (t' & s & ns & Hs & _ & Hb & Harm); [by cbn|].
  assert ((s, ns) = (0, 100000)) as [= -> ->].
  { unfold howMuchTimeFromNow, microSecondsSinceEpoch, check_i64, in_i64 in Hs. cbn [micro_since_epoch_ Timestamp_default] in Hs.
    rewrite (proj2 (Z.leb_le _ _)), (proj2 (Z.ltb_lt _ _)) in Hs by lia. cbn -[Z.quot Z.rem] in Hs.
    rewrite (proj2 (Z.ltb_lt (0 - micro_since_epoch_ t') 100)) in Hs by lia.
    injection Hs as <- <-. done. }
  exists (with_hist (EvSettime (timerfd_ (timer_queue (loop w1))) 0 100000 ::
            EvGettimeofday :: hist w1) w1). split; [|done].
  unfold HandleRead. rewrite (M_bind_eq _ _ _ _ _ (now_eval t w Ht)).
  rewrite M_bind_unfold. cbv beta iota delta [gets].
  rewrite (M_bind_eq (readTimerfd _) _ _ tt w0) by done.
  assert (Hge : GetExpired t w0 = Ok ([], w1)).
  { rewrite GetExpired_eval; change (tq w0) with (tq w); rewrite Hnil; [done|constructor]. }
  rewrite (M_bind_eq _ _ _ _ _ Hge). exact Harm.
Qed.

Lemma HandleRead_idle_rearms_witness :
  ∃ w', HandleRead (H := ex_kernel) (fun _ => mret tt) ex_world = Ok (tt, w') ∧ tq w' = [] ∧
        hist w' = [EvSettime 4 0 100000; EvGettimeofday; EvRead 4; EvGettimeofday].
Proof. apply (HandleRead_idle_rearms (HK := ex_kernel) (fun _ => mret tt) ex_world). done. Defined.

(** The frame of a call of [AddTimer], while the call is running *)
Definition with_frame (f : frame_id) (a : Callback * Timestamp * double) (w : World) : World :=
  w <| next_addr := S f |> <| frames := <[f := a]> (frames w) |>.

(** C37: [AddTimer] hands the loop a lambda that refers to the stack frame of
    the call.  In the loop thread the lambda runs inside the call: the timer is
    added from the live frame.  From another thread the call only queues the
    lambda, and its frame is gone when it returns: when nothing else was queued,
    the loop reads dead references as soon as it runs its queue, and otherwise
    whenever it comes to that lambda, unless an object of the same address has
    been made meanwhile.  ([invoke] calls the lambda.) *)
Theorem AddTimer_cross_thread_dangles `{HK : Kernel} (invoke : Callback → MW unit)
    (cb : Callback) (when : Timestamp) (interval : double) (w : World) :
  (∀ f, invoke (TimerQueue_addTimer f) = addTimer_lambda f) →
  let f := next_addr w in
  if threadId_ (loop w) =? tid w then
    AddTimer invoke cb when interval w =
      (addTimer cb when interval ;; mmod (fun w : World => w <| frames := delete f (frames w) |>))
        (with_frame f (cb, when, interval) w)
  else
    ∃ w', AddTimer invoke cb when interval w = Ok (tt, w') ∧
      functors_ (loop w') = functors_ (loop w) ++ [TimerQueue_addTimer f] ∧ tq w' = tq w ∧ frames w' !! f = None ∧
      (functors_ (loop w) = [] →
         doPendingFunctors invoke (w' <| tid := threadId_ (loop w) |>) =
           Err (UseAfterFree "frame of TimerQueue::AddTimer")) ∧
      ∀ w2 pre rest w3, functors_ (loop w2) = pre ++ TimerQueue_addTimer f :: rest →
        mfor invoke pre (w2 <| loop := (loop w2) <| functors_ := @nil Callback |> |>) = Ok (tt, w3) →
        frames w3 !! f = None →
        doPendingFunctors invoke w2 = Err (UseAfterFree "frame of TimerQueue::AddTimer").
Proof.
  intros Hinv f.
  assert (Hgone : ∀ w2 pre rest w3, functors_ (loop w2) = pre ++ TimerQueue_addTimer f :: rest →
    mfor invoke pre (w2 <| loop := (loop w2) <| functors_ := @nil Callback |> |>) = Ok (tt, w3) →
    frames w3 !! f = None →
    doPendingFunctors invoke w2 = Err (UseAfterFree "frame of TimerQueue::AddTimer")).
  { intros w2 pre rest w3 Hq Hpre Hf. unfold doPendingFunctors.
    rewrite (M_bind_eq _ _ w2 (functors_ (loop w2)) w2), Hq by done.
    rewrite M_bind_unfold. cbv beta iota delta [mod_loop mmod]. apply M_bind_Err_eq.
    rewrite mfor_app, (M_bind_eq _ _ _ _ _ Hpre). cbn [mfor]. apply M_bind_Err_eq. rewrite Hinv.
    unfold addTimer_lambda, gets. rewrite M_bind_unfold. by rewrite Hf. }
  unfold AddTimer. set (w0 := w <| next_addr := S (next_addr w) |>).
  rewrite (M_bind_eq fresh _ w (next_addr w) w0) by done. fold f.
  rewrite (M_bind_eq _ _ w0 tt (with_frame f (cb, when, interval) w)) by done.
  rewrite M_bind_unfold. destruct (Z.eqb_spec (threadId_ (loop w)) (tid w)) as [Hthr|Hthr].
  - rewrite RunInLoop_here_eval, Hinv by done. unfold addTimer_lambda.
    rewrite (M_bind_eq _ _ _ (Some (cb, when, interval)) (with_frame f (cb, when, interval) w)).
    2:{ unfold gets. cbn. by rewrite lookup_insert_eq. }
    by rewrite M_bind_unfold.
  - rewrite RunInLoop_other_eval by done. eexists. split; [reflexivity|]. split; [reflexivity|].
    split; [reflexivity|]. split; [apply lookup_delete_eq|]. split; [|exact Hgone].
    intros Hq. eapply (Hgone _ [] []); [cbn; by rewrite Hq|done|]. cbn. apply lookup_delete_eq.
Qed.

Definition ex_run_lambda (cb : Callback) : MW unit :=
  match cb with TimerQueue_addTimer f => addTimer_lambda (H := ex_kernel) f | _ => mret tt end.

Lemma AddTimer_cross_thread_dangles_witness :
  ∃ w', AddTimer (H := ex_kernel) ex_run_lambda (User 3) (mkTimestamp 7) double_zero
      (ex_world <| tid := 2 |>) = Ok (tt, w') ∧
    functors_ (loop w') = [TimerQueue_addTimer 10] ∧ tq w' = [] ∧ frames w' !! 10%nat = None ∧
    doPendingFunctors ex_run_lambda (w' <| tid := 1 |>) = Err (UseAfterFree "frame of TimerQueue::AddTimer").
Proof.
  destruct (AddTimer_cross_thread_dangles (HK := ex_kernel) ex_run_lambda (User 3)
    (mkTimestamp 7) double_zero (ex_world <| tid := 2 |>) (fun _ => eq_refl)) as (w' & E & Hf & Ht & Hg & Hnow & _).
  exists w'. split_and!; [exact E|exact Hf|exact Ht|exact Hg|]. by apply Hnow.
Defined.
