(* ===== verification/Reactor.v ===== *)
(** * The reactor: the components tied together (net/eventloop.cc)

    [invoke] gives every function object of [Callback] its body, so that the
    operations of the other files, which take it as an argument, call each
    other as the code does; its fuel bounds the depth of calls through function
    objects.  This file also has the constructor and the destructor of
    [EventLoop].  The first theorem is about a fresh loop; [HandleEvent_eof]
    follows an end of file from the handler of a channel to the read of that
    channel after it was freed. *)

From S2P Require Import Prelude Slice Buffer Timestamp Poller World EventLoop TcpConnection TcpServer TimerQueue.

Section Reactor.
Context `{Kernel} `{App}.

Definition new_connection (cb : NewConnectionCallback) (connfd : Z) (remote : sockaddr_in) : MW unit :=
  match cb with
  | TcpServer_newConnection => TcpServer.newConnection connfd remote
  | UserNewConnection u => app_new_connection u connfd remote
  end.

(** Calling a function object *)
Fixpoint invoke (fuel : nat) (cb : Callback) : MW unit :=
  match fuel with
  | O => mfail OutOfFuel
  | S f =>
      match cb with
      | EventLoop_handleRead => EventLoop.handleRead
      | TimerQueue_HandleRead => TimerQueue.HandleRead (invoke f)
      | Acceptor_handleRead => Acceptor.handleRead new_connection
      | TcpConnection_HandleRead c => TcpConnection.HandleRead (TcpServer.call_close (invoke f)) c
      | TcpConnection_HandleWrite c => TcpConnection.HandleWrite (invoke f) c
      | TcpConnection_HandleClose c => TcpConnection.HandleClose (TcpServer.call_close (invoke f)) c
      | TimerQueue_addTimer fr => addTimer_lambda fr
      | TcpConnection_sendInLoop c s => TcpConnection.sendInLoop (invoke f) c s
      | TcpConnection_shutdownInLoop c => TcpConnection.shutdownInLoop c
      | TcpConnection_ConnectDestroyed c => TcpConnection.ConnectDestroyed c
      | WriteComplete u c => app_write_complete u c
      | User u => app_run u
      end
  end.

(** [createEventfd()] *)
Definition createEventfd : MW Z :=
  h ← gets hist;
  let evtfd := k_eventfd h in
  if evtfd <? 0 then mfail Abort else mret evtfd.

(** The initialisation of [wakeup_fd_] and [wakeup_channel_] *)
Definition init_wakeup (this : nat) : MW unit :=
  fd ← createEventfd;
  c ← fresh;
  mod_chans (insert c (Channel.Channel_new this fd)) ;;
  mod_loop (fun l : EventLoop => l <| wakeup_fd_ := fd |>) ;;
  mod_loop (fun l : EventLoop => l <| wakeup_channel_ := c |>).

(** The body of the constructor *)
Definition EventLoop_body : MW unit :=
  another ← gets t_loopInThisThread;
  if another : bool then
    mfail (RuntimeError "EventLoop(): another EventLoop alreadyexists in this thread")
  else
    mmod (fun w : World => w <| t_loopInThisThread := true |>) ;;
    c ← gets (fun w => wakeup_channel_ (loop w));
    mod_chan c (Channel.SetReadCallback EventLoop_handleRead) ;;
    EnableReading c.

(** The constructor; members not yet initialised have no meaning before their
    own line. *)
Definition EventLoop_ctor : MW unit :=
  this ← fresh;
  t ← gets tid;
  mod_loop (fun _ => mkEventLoop this false false false t Poller.Poller_new [] (mkTimerQueue 0 0 []) 0 0 []) ;;
  TimerQueue_ctor ;;
  init_wakeup this ;;
  EventLoop_body.

(** The destructor; then the members in the reverse of their order: the queued
    functions, with the references they hold, the wake-up channel and the timer
    queue. *)
Definition EventLoop_dtor : MW unit :=
  l ← gets loop;
  massert (negb (looping_ l)) "eventloop.cc:51" ;;
  mmod (fun w : World => w <| t_loopInThisThread := false |>) ;;
  log (EvClose (wakeup_fd_ l)) ;;
  mod_loop (fun l : EventLoop => l <| functors_ := @nil Callback |>) ;;
  mfor cb_destroy (functors_ l) ;;
  mod_chans (delete (wakeup_channel_ l)) ;;
  TimerQueue_dtor.

(** What the members' initialisation leaves for the body *)
Record before_body (w : World) (tfd efd : Z) (t c : chan_id) (w' : World) : Prop := {
  bb_flag : t_loopInThisThread w' = t_loopInThisThread w;
  bb_thread : threadId_ (loop w') = tid w';
  bb_idle : looping_ (loop w') = false ∧ functors_ (loop w') = [] ∧ timers_ (timer_queue (loop w')) = [];
  bb_pollfds : pollfds_ (poller (loop w')) = [mkpollfd tfd Channel.kReadEvent 0];
  bb_channels : channels_ (poller (loop w')) = <[tfd := t]> ∅;
  bb_timer : ∃ ch, registered t w' ch (mkpollfd tfd Channel.kReadEvent 0) ∧ fd_ ch = tfd ∧
    read_callback_ ch = Some TimerQueue_HandleRead;
  bb_wakeup : wakeup_channel_ (loop w') = c ∧
    chans w' !! c = Some (Channel.Channel_new (this_ (loop w')) efd);
  bb_distinct : t ≠ c
}.

Lemma init_timers_Ok (w : World) (this : nat) :
  let tfd := k_timerfd (hist w) in
  let l := mkEventLoop this false false false (tid w) Poller.Poller_new [] (mkTimerQueue 0 0 []) 0 0 [] in
  ∃ w' ch, TimerQueue_ctor (w <| loop := l |>) = Ok (tt, w') ∧
    registered (next_addr w) w' ch (mkpollfd tfd Channel.kReadEvent 0) ∧
    fd_ ch = tfd ∧ read_callback_ ch = Some TimerQueue_HandleRead ∧
    loop w' = l <| poller := mkPoller [mkpollfd tfd Channel.kReadEvent 0] (<[tfd := next_addr w]> ∅) |>
                <| timer_queue := mkTimerQueue tfd (next_addr w) [] |> ∧
    tid w' = tid w ∧ hist w' = hist w ∧ next_addr w' = S (next_addr w) ∧
    t_loopInThisThread w' = t_loopInThisThread w.
Proof.
  intros tfd l. rewrite TimerQueue_ctor_eval by done.
  do 2 eexists. split; [reflexivity|]. split; [apply registered_with_new; done|]. by split_and!.
Qed.

Lemma init_wakeup_Ok (w : World) (this : nat) :
  let efd := k_eventfd (hist w) in let c := next_addr w in
  0 ≤ efd →
  ∃ w', init_wakeup this w = Ok (tt, w') ∧
    chans w' = <[c := Channel.Channel_new this efd]> (chans w) ∧
    loop w' = (loop w) <| wakeup_fd_ := efd |> <| wakeup_channel_ := c |> ∧
    tid w' = tid w ∧ t_loopInThisThread w' = t_loopInThisThread w ∧
    conns w' = conns w ∧ next_addr w' = S c ∧ hist w' = hist w.
Proof.
  intros efd c He. unfold init_wakeup, createEventfd. rewrite !M_bind_unfold. cbn [gets].
  fold efd. rewrite (proj2 (Z.ltb_ge efd 0)) by lia. eexists. split; [reflexivity|]. by split_and!.
Qed.

Lemma init_members_Ok (w : World) :
  let tfd := k_timerfd (hist w) in let efd := k_eventfd (hist w) in let a := next_addr w in
  0 ≤ tfd → 0 ≤ efd →
  ∃ w', EventLoop_ctor w = EventLoop_body w' ∧ before_body w tfd efd (S a) (S (S a)) w'.
Proof.
  intros tfd efd a Ht He. unfold EventLoop_ctor.
  set (w1 := w <| next_addr := S a |>).
  rewrite (M_bind_eq _ _ w a w1), (M_bind_eq _ _ w1 (tid w) w1) by done.
  destruct (init_timers_Ok w1 a) as (w2 & ch & E2 & Hr2 & Hf2 & Hrd2 & Hl2 & Ht2 & Hh2 & Hn2 & Hb2).
  rewrite M_bind_unfold. cbn [mod_loop mmod]. rewrite (M_bind_eq _ _ _ _ _ E2).
  destruct (init_wakeup_Ok w2 a) as (w3 & E3 & Hch3 & Hl3 & Ht3 & Hb3 & _); [by rewrite Hh2|].
  rewrite (M_bind_eq _ _ _ _ _ E3). exists w3. split; [done|].
  rewrite Hh2, Hn2 in *. split.
  - by rewrite Hb3.
  - by rewrite Hl3, Ht3, Hl2, Ht2.
  - by rewrite Hl3, Hl2.
  - by rewrite Hl3, Hl2.
  - by rewrite Hl3, Hl2.
  - exists ch. split; [|done]. eapply (registered_frame _ w2); [exact Hr2| |by rewrite ?Hl3..].
    rewrite Hch3. apply lookup_insert_ne. cbn. lia.
  - rewrite Hl3, Hch3, Hl2. split; [done|]. apply lookup_insert_eq.
  - lia.
Qed.

End Reactor.

(** ** Theorems *)

(** Constructing a loop in a thread that has none registers exactly the
    timer descriptor and the wake-up descriptor for read events, with sound
    indices, and leaves the loop idle with nothing queued; in a thread that
    already has a loop the constructor throws. *)
Theorem EventLoop_ctor_spec `{HK : Kernel} (w : World) :
  let tfd := k_timerfd (hist w) in let efd := k_eventfd (hist w) in
  0 ≤ tfd → 0 ≤ efd → tfd ≠ efd →
  if t_loopInThisThread w
  then EventLoop_ctor w = Err (RuntimeError "EventLoop(): another EventLoop alreadyexists in this thread")
  else ∃ w' t c cht chw, EventLoop_ctor w = Ok (tt, w') ∧ t_loopInThisThread w' = true ∧
    looping_ (loop w') = false ∧ functors_ (loop w') = [] ∧ timers_ (timer_queue (loop w')) = [] ∧
    pollfds_ (poller (loop w')) =
      [mkpollfd tfd Channel.kReadEvent 0; mkpollfd efd Channel.kReadEvent 0] ∧
    t ≠ c ∧ registered t w' cht (mkpollfd tfd Channel.kReadEvent 0) ∧
    registered c w' chw (mkpollfd efd Channel.kReadEvent 0) ∧
    read_callback_ cht = Some TimerQueue_HandleRead ∧
    read_callback_ chw = Some EventLoop_handleRead.
Proof.
  intros tfd efd Ht He Hne. destruct (init_members_Ok w Ht He)
    as (w1 & -> & [Hb Hthr (Hlp & Hfn & Htm) Hp Hc (cht & Hr & Hf & Hrd) [Hw Hch] Hd]).
  unfold EventLoop_body. rewrite (M_bind_eq _ _ w1 (t_loopInThisThread w) w1) by (unfold gets; by rewrite Hb).
  destruct (t_loopInThisThread w); [done|].
  set (w2 := w1 <| t_loopInThisThread := true |>). rewrite (M_bind_eq _ _ w1 tt w2) by done.
  set (c := S (S (next_addr w))) in *. rewrite (M_bind_eq _ _ w2 c w2) by (unfold gets; by rewrite <-Hw).
  assert (Hlen : len (pollfds_ (poller (loop w1))) = 1) by by rewrite Hp.
  assert (Hnone : channels_ (poller (loop w1)) !! efd = None)
    by (rewrite Hc, lookup_insert_ne, lookup_empty; done).
  rewrite (read_channel_eval c w2 _ _ Hthr Hch); [|done|done|done|done|cbn; lia].
  set (chw := Channel.SetReadCallback _ _). set (w3 := w2 <| chans := <[c := chw]> (chans w2) |>).
  assert (Hr3 : registered (S (next_addr w)) w3 cht (mkpollfd tfd Channel.kReadEvent 0)).
  { eapply (registered_frame _ w1); [exact Hr| |done..]. by apply lookup_insert_ne. }
  do 5 eexists. split; [reflexivity|]. split; [reflexivity|]. split; [exact Hlp|].
  split; [exact Hfn|]. split; [exact Htm|].
  split; [cbn; by rewrite Hp|]. split; [exact Hd|].
  split; [apply registered_with_other; [exact Hr3|done|by rewrite Hf|cbn; lia]|].
  split; [apply registered_with_new; [done|done|cbn; lia]|]. by split.
Qed.

Lemma EventLoop_ctor_spec_witness :
  ∃ w' t c cht chw, EventLoop_ctor (H := ex_kernel) ex_world = Ok (tt, w') ∧ t_loopInThisThread w' = true ∧
    looping_ (loop w') = false ∧ functors_ (loop w') = [] ∧ timers_ (timer_queue (loop w')) = [] ∧
    pollfds_ (poller (loop w')) = [mkpollfd 40 3 0; mkpollfd 50 3 0] ∧
    t ≠ c ∧ registered t w' cht (mkpollfd 40 3 0) ∧ registered c w' chw (mkpollfd 50 3 0) ∧
    read_callback_ cht = Some TimerQueue_HandleRead ∧ read_callback_ chw = Some EventLoop_handleRead.
Proof. by apply (EventLoop_ctor_spec (HK := ex_kernel) ex_world). Defined.

(** Functions that hold no connection die without effect. *)
Lemma cb_destroy_none cbs w : Forall (fun cb => cb_owner cb = None) cbs → mfor cb_destroy cbs w = Ok (tt, w).
Proof.
  induction 1 as [|cb cbs Hcb _ IH]; [done|]. cbn [mfor]. rewrite M_bind_unfold.
  unfold cb_destroy at 1. by rewrite Hcb.
Qed.

(** Destroying a loop that is running fails its assertion; destroying an idle
    one closes its two descriptors, takes its two channels and its timers away
    and lets the thread have a loop again.  No queued function is run. *)
Theorem EventLoop_dtor_spec (w : World) :
  let l := loop w in
  Forall (fun cb => cb_owner cb = None) (functors_ l) →
  if looping_ l then EventLoop_dtor w = Err (AssertFailed "eventloop.cc:51")
  else ∃ w', EventLoop_dtor w = Ok (tt, w') ∧ t_loopInThisThread w' = false ∧
    hist w' = EvClose (timerfd_ (timer_queue l)) :: EvClose (wakeup_fd_ l) :: hist w ∧
    chans w' = delete (timerfd_channel_ (timer_queue l)) (delete (wakeup_channel_ l) (chans w)) ∧
    functors_ (loop w') = [] ∧ timers_ (timer_queue (loop w')) = [] ∧ conns w' = conns w.
Proof.
  intros l Hf. unfold EventLoop_dtor. rewrite (M_bind_eq _ _ w l w) by done.
  destruct (looping_ l) eqn:Hl; [by rewrite M_bind_unfold|].
  set (w1 := w <| t_loopInThisThread := false |>).
  set (w2 := w1 <| hist := EvClose (wakeup_fd_ l) :: hist w |>).
  set (w3 := w2 <| loop := l <| functors_ := @nil Callback |> |>).
  rewrite (M_bind_eq _ _ w tt w) by done.
  rewrite (M_bind_eq _ _ w tt w1), (M_bind_eq _ _ w1 tt w2), (M_bind_eq _ _ w2 tt w3) by done.
  rewrite (M_bind_eq _ _ w3 tt w3) by by apply cb_destroy_none.
  unfold TimerQueue_dtor. rewrite !M_bind_unfold. cbn.
  eexists. split; [reflexivity|]. by split_and!.
Qed.

Lemma EventLoop_dtor_spec_witness :
  ∃ w', EventLoop_dtor ex_world = Ok (tt, w') ∧ t_loopInThisThread w' = false ∧
    hist w' = EvClose (timerfd_ (timer_queue (loop ex_world))) :: EvClose (wakeup_fd_ (loop ex_world)) :: hist ex_world ∧
    chans w' = delete (timerfd_channel_ (timer_queue (loop ex_world))) (delete (wakeup_channel_ (loop ex_world)) (chans ex_world)) ∧
    functors_ (loop w') = [] ∧ timers_ (timer_queue (loop w')) = [] ∧ conns w' = conns ex_world.
Proof. by apply (EventLoop_dtor_spec ex_world). Defined.

(** The end of file reported as a plain read event on a connection of the server
    to which nobody else refers: the connection and its channel are destroyed
    inside the read callback, and [HandleEvent] then reads [revents_] of that
    channel. *)
Lemma HandleEvent_eof `{HK : Kernel} `{HA : App} (fuel : nat) (c : conn_id) (w : World)
    (cn : TcpConnection) (ch : Channel Callback) (pfd : pollfd) :
  TcpServer.connection_callback_ok → TcpConnection.live c w cn ch pfd → use_count cn = 1 →
  state_ cn = kConnected ∨ state_ cn = kDisconnecting →
  conn_close_callback_ cn = Some TcpServer_removeConnection →
  connections_ (server w) !! name_ cn = Some c →
  read_callback_ ch = Some (TcpConnection_HandleRead c) → revents_ ch = POLLIN →
  Buffer.wf (rev_buffer_ cn) →
  len (Buffer.buffer_ (rev_buffer_ cn)) + Buffer.extrabuf_size ≤ Buffer.max_size →
  (∀ vec, k_readv (hist w) (socket_ cn) vec = Buffer.ReadvOk []) →
  HandleEvent (invoke (S (S fuel))) (channel_ cn) w = Err (UseAfterFree "Channel").
Proof.
  intros Hcb Hl Hu Hst Hcl Hmap Hrd Hrev Hwf Hcap Hread.
  pose proof (TcpConnection.lv_conn _ _ _ _ _ Hl) as Hc.
  pose proof (rg_chan _ _ _ _ (TcpConnection.lv_reg _ _ _ _ _ Hl)) as Hch.
  destruct (TcpConnection.HandleRead_eval (TcpServer.call_close (invoke (S fuel))) c w cn ch Hc Hch
    (TcpConnection.lv_fd _ _ _ _ _ Hl) Hwf Hcap) as (b & Hb & Hcase).
  { intros vec Hv. rewrite Hread. unfold Buffer.readv_fits, len. induction Hv; cbn in *; lia. }
  rewrite Hread in Hcase. destruct Hcase as [_ E].
  destruct (TcpServer.HandleClose_destroys (invoke (S fuel)) c
    (TcpConnection.received c cn (Buffer.ReadvOk []) b w) (cn <| rev_buffer_ := b |>) ch pfd)
    as (w' & E' & _ & Hgone & _); [done|done| |done..|].
  { refine (TcpConnection.live_mod_conn c (w <| hist := EvReadv (socket_ cn) (Buffer.ReadvOk []) :: hist w |>)
      cn ch pfd (cn <| rev_buffer_ := b |>) _ eq_refl eq_refl (TcpConnection.lv_ref _ _ _ _ _ Hl)).
    by apply TcpConnection.live_hist. }
  eapply (HandleEvent_after_free _ _ _ w' ch (TcpConnection_HandleRead c)); [done|done|by rewrite Hrev..| |].
  - change (invoke (S (S fuel)) (TcpConnection_HandleRead c))
      with (TcpConnection.HandleRead (TcpServer.call_close (invoke (S fuel))) c).
    by rewrite E, E'.
  - rewrite Hgone. apply lookup_delete_eq.
Qed.
