(* ===== verification/Iteration.v ===== *)
(** * One iteration of the event loop (net/eventloop.cc, net/poller.cc)

    [loop_body_spec] composes the poller with the dispatch: an iteration of
    [while (!quit_)] handles the channels of the ready descriptors, once each and
    in the order of the poll array, with the events the kernel reported, and then
    runs the queue of functors. *)

From S2P Require Import Prelude Slice Buffer Timestamp Poller World EventLoop TcpConnection Footprint TcpServer TimerQueue Reactor.

(** Events with neither hang-up nor error *)
Definition calm (r : Z) : Prop :=
  Z.land r (Z.lor POLLHUP (Z.lor POLLERR POLLNVAL)) = 0.

Lemma calm_has r : calm r → has r POLLHUP = false ∧ has r (Z.lor POLLERR POLLNVAL) = false.
Proof.
  unfold calm, has. rewrite Z.land_lor_distr_r, Z.lor_eq_0_iff. by intros [-> ->].
Qed.

Section Iteration.
Context `{HK : Kernel} (inv : Callback → MW unit).

(** The poll array after the system call, and the channels of its ready entries *)
Definition stored (rs : list Z) (w : World) : list pollfd :=
  Poller.store_revents (pollfds_ (poller (loop w))) rs.
Definition ready_channels (rs : list Z) (w : World) : list chan_id :=
  Poller.picked (channels_ (poller (loop w))) (stored rs w) (length (stored rs w)).

(** [poll(2)] answered with [rs], one result per entry: either it reports the
    number of ready entries, or it was interrupted. *)
Definition poll_answer (n : Z) (rs : list Z) (w : World) : Prop :=
  k_poll (hist w) (pollfds_ (poller (loop w))) (-1) = (n, rs) ∧
  length rs = length (pollfds_ (poller (loop w))) ∧
  (n ≤ 0 ∨ n = len (filter (fun pfd => Poller.ready pfd = true) (stored rs w))).

(** The world in which the handlers start *)
Definition polled (rs : list Z) (active : list chan_id) (h : gmap chan_id (Channel Callback)) (w : World)
    : World :=
  let p := mkPoller (stored rs w) (channels_ (poller (loop w))) in
  w <| hist := EvGettimeofday :: EvPoll (len (pollfds_ (poller (loop w)))) :: hist w |>
    <| loop := (loop w) <| active_channels_ := active |> <| poller := p |> |>
    <| chans := h |>.

Lemma loop_poll_eval n rs w t active h :
  k_poll (hist w) (pollfds_ (poller (loop w))) (-1) = (n, rs) → active_channels_ (loop w) = [] →
  Timestamp_now (k_gettimeofday (EvPoll (len (pollfds_ (poller (loop w)))) :: hist w)).1
    (k_gettimeofday (EvPoll (len (pollfds_ (poller (loop w)))) :: hist w)).2 = Ok t →
  Poller.Poll (poller (loop w)) (chans w) n rs [] =
    Ok (mkPoller (stored rs w) (channels_ (poller (loop w))), h, active) →
  loop_poll w = Ok (t, polled rs active h w).
Proof.
  intros Hk Ha Ht Hp. unfold loop_poll. rewrite (M_bind_eq _ _ w w w) by done.
  set (w1 := w <| hist := EvPoll (len (pollfds_ (poller (loop w)))) :: hist w |>).
  rewrite (M_bind_eq _ _ w (n, rs) w1); [|by rewrite <-Hk].
  rewrite (M_bind_eq _ _ _ _ _ (now_eval t w1 Ht)). set (w2 := with_hist _ w1).
  rewrite (M_bind_eq _ _ w2 w2 w2) by done.
  change (poller (loop w2)) with (poller (loop w)). change (chans w2) with (chans w).
  change (active_channels_ (loop w2)) with (active_channels_ (loop w)). rewrite Ha. cbn [fst snd].
  rewrite Hp. done.
Qed.

(** An iteration in which the poller faults *)
Lemma loop_body_fails `{!ClockOk} n rs w e :
  k_poll (hist w) (pollfds_ (poller (loop w))) (-1) = (n, rs) →
  Poller.Poll (poller (loop w)) (chans w) n rs [] = Err e →
  loop_body inv w = Err e.
Proof.
  intros Hk Hp. set (ev := EvPoll (len (pollfds_ (poller (loop w)))) :: hist w).
  destruct (clock_ok ev) as (t & Ht & _).
  set (w1 := w <| loop := (loop w) <| active_channels_ := @nil chan_id |> |>).
  unfold loop_body. rewrite (M_bind_eq _ _ w tt w1), M_bind_unfold by done. unfold loop_poll.
  rewrite (M_bind_eq _ _ w1 w1 w1) by done. set (w2 := w1 <| hist := ev |>).
  rewrite (M_bind_eq _ _ w1 (n, rs) w2); [|by rewrite <-Hk].
  rewrite (M_bind_eq _ _ _ _ _ (now_eval t w2 Ht)). set (w3 := with_hist _ w2).
  rewrite (M_bind_eq _ _ w3 w3 w3) by done. rewrite M_bind_unfold. unfold mlift. cbn. by rewrite Hp.
Qed.

(** An iteration, evaluated up to the handlers *)
Lemma loop_body_eval `{!ClockOk} (n : Z) (rs : list Z) (w : World) :
  Poller.reg_wf (poller (loop w)) (chans w) → poll_answer n rs w →
  let active := if n <=? 0 then [] else ready_channels rs w in
  ∃ h, loop_body inv w = (mfor (HandleEvent inv) active ;; doPendingFunctors inv) (polled rs active h w) ∧
    (∀ pfd c, 0 < n → pfd ∈ stored rs w → Poller.ready pfd = true →
       channels_ (poller (loop w)) !! pfd_fd pfd = Some c →
       c ∈ active ∧ h !! c = Channel.set_revents (pfd_revents pfd) <$> chans w !! c) ∧
    (∀ c, c ∉ active → h !! c = chans w !! c) ∧ NoDup active.
Proof.
  intros Hwf (Hk & Hlen & Hn) active.
  set (w1 := w <| loop := (loop w) <| active_channels_ := @nil chan_id |> |>).
  set (ev := EvPoll (len (pollfds_ (poller (loop w)))) :: hist w).
  destruct (clock_ok ev) as (t & Ht & _).
  assert (Hrun : ∀ h, Poller.Poll (poller (loop w)) (chans w) n rs [] =
      Ok (mkPoller (stored rs w) (channels_ (poller (loop w))), h, active) →
    loop_body inv w = (mfor (HandleEvent inv) active ;; doPendingFunctors inv) (polled rs active h w)).
  { intros h Hp. unfold loop_body. rewrite (M_bind_eq _ _ w tt w1) by done.
    rewrite (M_bind_eq _ _ _ _ _ (loop_poll_eval n rs w1 t active h Hk eq_refl Ht Hp)). done. }
  destruct (Z.leb_spec n 0) as [Hle|Hgt].
  - exists (chans w). split_and!; [|intros; lia|done|constructor].
    apply Hrun. unfold Poller.Poll. rewrite Z.gtb_ltb, (proj2 (Z.ltb_ge _ _)) by lia. done.
  - destruct Hn as [?|Hn]; [lia|].
    destruct (Poller.Poller_poll_active (poller (loop w)) (chans w) rs Hwf Hlen) as (h & Hp & Hin & Hout).
    unfold stored in Hn. rewrite <-Hn in Hp. exists h. split_and!; [by apply Hrun|intros; by apply Hin|done|].
    by apply Poller.ready_nodup with (chans w).
Qed.

Lemma doPendingFunctors_none w : functors_ (loop w) = [] → doPendingFunctors inv w = Ok (tt, w).
Proof.
  intros Hf. unfold doPendingFunctors. rewrite (M_bind_eq _ _ w [] w) by (unfold gets; by rewrite Hf).
  assert (w <| loop := (loop w) <| functors_ := @nil Callback |> |> = w) as E.
  { destruct w as [? ? l]. destruct l. cbn in *. by subst. }
  rewrite (M_bind_eq _ _ w tt w); [done|]. unfold mod_loop, mmod. by rewrite E.
Qed.

(** *** From the poller to the handlers *)

Section Polled.
Context (n : Z) (rs : list Z) (w : World).
Let active : list chan_id := if n <=? 0 then [] else ready_channels rs w.

(** The entry that made a channel active *)
Lemma active_entry k :
  k ∈ active → ∃ pfd, 0 < n ∧ pfd ∈ stored rs w ∧ Poller.ready pfd = true ∧
    channels_ (poller (loop w)) !! pfd_fd pfd = Some k.
Proof.
  unfold active, ready_channels, Poller.picked. destruct (Z.leb_spec n 0); [by intros ?%elem_of_nil|].
  intros (pfd & Hp & Hk)%list_elem_of_omap. exists pfd. split; [done|].
  apply elem_of_take in Hp as (i & Hi & _).
  apply list_elem_of_lookup_2, list_elem_of_filter in Hi as [Hr Hs]. by split_and!.
Qed.

Context (h : gmap chan_id (Channel Callback)) (Hpoll : poll_answer n rs w).
Context (Hin : ∀ pfd c, 0 < n → pfd ∈ stored rs w → Poller.ready pfd = true →
  channels_ (poller (loop w)) !! pfd_fd pfd = Some c →
  c ∈ active ∧ h !! c = Channel.set_revents (pfd_revents pfd) <$> chans w !! c).
Context (Hout : ∀ c, c ∉ active → h !! c = chans w !! c).
Let w' : World := polled rs active h w.

(** The events a channel was found ready with *)
Definition polled_events (k : chan_id) (r : Z) : Prop :=
  k ∈ active → ∃ pfd, pfd ∈ stored rs w ∧ Poller.ready pfd = true ∧
    channels_ (poller (loop w)) !! pfd_fd pfd = Some k ∧ r = pfd_revents pfd.

(** [poll(2)] changes nothing of a channel but its [revents_]. *)
Lemma polled_chan k ch :
  chans w !! k = Some ch → ∃ r, h !! k = Some (Channel.set_revents r ch) ∧ polled_events k r.
Proof.
  intros Hk. destruct (decide (k ∈ active)) as [Ha|Ha].
  - destruct (active_entry k Ha) as (pfd & Hn & Hs & Hr & Hm). exists (pfd_revents pfd).
    destruct (Hin pfd k Hn Hs Hr Hm) as [_ ->]. rewrite Hk. split; [done|]. intros _. by exists pfd.
  - exists (revents_ ch). rewrite (Hout k Ha), Hk. split; [by destruct ch|by intros ?].
Qed.

Lemma polled_dom k : is_Some (h !! k) → is_Some (chans w !! k).
Proof.
  destruct (decide (k ∈ active)) as [Ha|Ha]; [|by rewrite Hout].
  destruct (active_entry k Ha) as (pfd & Hn & Hs & Hr & Hm).
  destruct (Hin pfd k Hn Hs Hr Hm) as [_ ->]. by rewrite fmap_is_Some.
Qed.

Lemma polled_fds : Poller.fds (poller (loop w')) = Poller.fds (poller (loop w)).
Proof. destruct Hpoll as (_ & Hlen & _). apply (Poller.store_revents_fds _ _ Hlen). Qed.

Lemma polled_reg :
  Poller.reg_wf (poller (loop w)) (chans w) → Poller.reg_wf (poller (loop w')) (chans w').
Proof.
  intros [Hnd Hdom Hlive Hpos]. split; rewrite ?polled_fds; try done.
  intros fd k Hk. destruct (Hlive fd k Hk) as (ch & Hc & Hfd & Hi).
  destruct (polled_chan k ch Hc) as (r & Hr & _). by exists (Channel.set_revents r ch).
Qed.

Lemma polled_live c cn ch pfd :
  TcpConnection.live c w cn ch pfd → ∃ r r', polled_events (channel_ cn) r ∧
    TcpConnection.live c w' cn (Channel.set_revents r ch) (mkpollfd (pfd_fd pfd) (pfd_events pfd) r').
Proof.
  destruct Hpoll as (_ & Hlen & _). intros [Hc [] Hf Hu].
  destruct (polled_chan _ _ rg_chan) as (r & Hk & Ha).
  destruct (lookup_lt_is_Some_2 rs (Z.to_nat (index_ ch))) as [r' Hr'].
  { rewrite Hlen. by eapply lookup_lt_Some. }
  exists r, r'. split; [done|]. split; [done| |done|done]. split; try done.
  - unfold w', polled, stored, Poller.store_revents. cbn. rewrite lookup_zip_with, rg_entry, Hr'. done.
  - unfold w', polled, stored, Poller.store_revents, len. cbn. rewrite length_zip_with, Hlen.
    unfold len in rg_len. lia.
Qed.

End Polled.

(** C8: one iteration of the loop over a well-formed poller: the channels
    of the ready descriptors are handled once each, in array order, each with the
    events the kernel stored and with every other channel untouched, and then the
    pending functors run; an interrupted [poll(2)] leaves only the functors.  None
    of the assertions of the poller fails. *)
Theorem loop_body_spec `{!ClockOk} (n : Z) (rs : list Z) (w : World) :
  Poller.reg_wf (poller (loop w)) (chans w) → poll_answer n rs w →
  let active := if n <=? 0 then [] else ready_channels rs w in
  ∃ h, loop_body inv w = (mfor (HandleEvent inv) active ;; doPendingFunctors inv) (polled rs active h w) ∧
    (∀ pfd c, 0 < n → pfd ∈ stored rs w → Poller.ready pfd = true →
       channels_ (poller (loop w)) !! pfd_fd pfd = Some c →
       c ∈ active ∧ h !! c = Channel.set_revents (pfd_revents pfd) <$> chans w !! c) ∧
    (∀ c, c ∉ active → h !! c = chans w !! c) ∧ NoDup active.
Proof. apply loop_body_eval. Qed.

End Iteration.

(** *** One connection whose descriptor has become readable *)
Definition ex_poll_kernel : Kernel := {|
  k_gettimeofday := @k_gettimeofday ex_kernel; k_poll _ _ _ := (1, [POLLIN]);
  k_write := @k_write ex_kernel; k_read := @k_read ex_kernel; k_readv := @k_readv ex_kernel;
  k_accept := @k_accept ex_kernel; k_settime := @k_settime ex_kernel;
  k_eventfd := @k_eventfd ex_kernel; k_timerfd := @k_timerfd ex_kernel;
  k_socket := @k_socket ex_kernel; k_bind := @k_bind ex_kernel;
  k_listen := @k_listen ex_kernel; k_shutdown := @k_shutdown ex_kernel |}.

#[export] Instance ex_poll_clock_ok : ClockOk (H := ex_poll_kernel).
Proof. exact ex_clock_ok. Qed.

Lemma ex_established_reg : Poller.reg_wf (poller (loop TcpConnection.ex_established)) (chans TcpConnection.ex_established).
Proof.
  assert (Hf : Poller.fds (poller (loop TcpConnection.ex_established)) = [9]) by (by vm_compute).
  assert (Hm : channels_ (poller (loop TcpConnection.ex_established)) = {[9 := 11%nat]}) by (by vm_compute).
  split; rewrite ?Hf, ?Hm.
  - apply NoDup_singleton.
  - intros fd. rewrite list_elem_of_singleton, lookup_singleton_is_Some. done.
  - intros fd c [<- <-]%lookup_singleton_Some. exists TcpConnection.ex_ch. by split_and!; vm_compute.
  - by intros fd ->%list_elem_of_singleton.
Qed.

Lemma loop_body_spec_witness :
  let w := TcpConnection.ex_established in let inv := fun _ : Callback => mret tt in
  ∃ h, loop_body (H := ex_poll_kernel) inv w =
      (mfor (HandleEvent inv) [11%nat] ;; doPendingFunctors inv) (polled [POLLIN] [11%nat] h w) ∧
    h !! 11%nat = Some (Channel.set_revents POLLIN TcpConnection.ex_ch).
Proof.
  intros w inv. assert (ready_channels [POLLIN] w = [11%nat]) as Ea by (by vm_compute).
  destruct (loop_body_spec (HK := ex_poll_kernel) inv 1 [POLLIN] w ex_established_reg) as (h & E & Hin & _).
  - split; [by vm_compute|]. split; [by vm_compute|]. right. by vm_compute.
  - exists h. change (1 <=? 0) with false in E, Hin. cbv iota in E, Hin. rewrite Ea in E, Hin. split; [exact E|].
    assert (stored [POLLIN] w = [mkpollfd 9 3 POLLIN]) as Es by (by vm_compute).
    destruct (Hin (mkpollfd 9 3 POLLIN) 11%nat) as [_ ->];
      [done|by rewrite Es; apply list_elem_of_singleton|by vm_compute..].
Defined.
