(* ===== verification/Teardown.v ===== *)
(** * Destroying what the loop still uses (net/tcp_server.cc, net/acceptor.h,
      net/poller.cc, net/channel.cc)

    [~TcpServer] runs [ConnectDestroyed] for every connection of its map and
    then destroys the acceptor.  Two theorems follow it into the poller: with
    two connections, the removal of the first shifts the entry of the second,
    whose own removal then stops at an assertion; and the channel of the
    acceptor is freed while the poller still refers to it, so that the next
    iteration in which the kernel answers for the closed descriptor reads freed
    memory.  A third follows an end of file through one iteration of the loop:
    the connection, and with it its channel, is destroyed inside the read
    callback of that channel. *)

From S2P Require Import Prelude Slice Buffer Timestamp Poller World EventLoop TcpConnection Footprint TcpServer TimerQueue Reactor Iteration.

(** The run stops at one of the two assertions of [UpdateChannel] about the
    index of a channel. *)
Definition aborts_on_index (m : MW unit) (w : World) : Prop :=
  m w = Err (AssertFailed "poller.cc:73") ∨ m w = Err (AssertFailed "poller.cc:76").

(** The run stops at the read of a member of a freed channel. *)
Definition reads_freed_channel (m : MW unit) (w : World) : Prop := m w = Err (UseAfterFree "Channel").

(** The poller has a pointer to channel [k] under descriptor [fd], and the
    channel is gone. *)
Definition dangling (fd : Z) (k : chan_id) (w : World) : Prop :=
  channels_ (poller (loop w)) !! fd = Some k ∧ chans w !! k = None.

Section Teardown.
Context `{HK : Kernel} `{HA : App} (inv : Callback → MW unit).
Hypothesis Hinv : ∀ c, inv (TcpConnection_ConnectDestroyed c) = TcpConnection.ConnectDestroyed c.
Hypothesis Hcb : TcpServer.connection_callback_ok.
Import TcpConnection TcpServer.

(** [ConnectDestroyed] of a connection that is still up *)
Lemma ConnectDestroyed_live c cn ch pfd w :
  live c w cn ch pfd → state_ cn = kConnected ∨ state_ cn = kDisconnecting →
  let w1 := with_events (channel_ cn) ch 0 w in let cn' := cn <| state_ := kDisconnected |> in
  ∃ w', ConnectDestroyed c w = Ok (tt, set_conn c cn' w') ∧
    conns w' = <[c := cn']> (conns w) ∧ chans w' = chans w1 ∧ loop w' = loop w1 ∧ tid w' = tid w ∧
    server w' = server w.
Proof.
  intros Hl Hst w1 cn'. pose proof (lv_reg _ _ _ _ _ Hl) as Hr. pose proof (lv_conn _ _ _ _ _ Hl) as Hc.
  unfold ConnectDestroyed, SetState, DisbaleAll.
  rewrite (M_bind_eq _ _ _ _ _ (assertInLoopThread_true w (rg_thread _ _ _ _ Hr))).
  rewrite (M_bind_eq _ _ _ _ _ (get_conn_Ok _ _ _ Hc)). rewrite bool_decide_eq_true_2 by done.
  rewrite (M_bind_eq _ _ _ _ _ (change_mask_eval _ _ _ _ Channel.events_none 0 Hr eq_refl)). fold w1.
  rewrite <-(set_conn_id c cn w1) by done.
  rewrite (M_bind_eq _ _ _ _ _ (mod_set_conn _ _ _ _)). fold cn'.
  rewrite (M_bind_eq _ _ _ _ _ (get_conn_Ok _ _ _ (set_conn_lookup _ _ _))).
  destruct (with_shared_Ok c cn' w1 (conn_callback_ cn') Hcb) as (w2 & E & ?); [apply Hl|]. naive_solver.
Qed.

(** One round of the loop of the destructor: the connection, its channel and
    its socket are gone, and its entry is out of the poller. *)
Lemma destroy_entry_live name c cn ch pfd w :
  live c w cn ch pfd → use_count cn = 1 → state_ cn = kConnected ∨ state_ cn = kDisconnecting →
  ∃ w', destroy_entry inv (name, c) w = Ok (tt, w') ∧
    conns w' = delete c (conns w) ∧ chans w' = delete (channel_ cn) (chans w) ∧
    loop w' = loop (with_events (channel_ cn) ch 0 w) ∧ tid w' = tid w ∧
    connections_ (server w') = delete name (connections_ (server w)) ∧
    ∃ h, hist w' = EvClose (socket_ cn) :: h.
Proof.
  intros Hl Hu Hst. pose proof (lv_conn _ _ _ _ _ Hl) as Hc. unfold destroy_entry. cbn [fst snd].
  set (cn1 := cn <| use_count := use_count cn + 1 |>).
  rewrite (M_bind_eq _ _ w tt (set_conn c cn1 w)) by by apply (mod_conn_Ok _ _ cn).
  set (w1 := w <| server := (server w) <| connections_ := delete name (connections_ (server w)) |> |>).
  rewrite (M_bind_eq _ _ _ tt (set_conn c cn1 w1)) by done.
  rewrite (M_bind_eq _ _ _ _ _ (release_set_conn c cn1 w1 ltac:(cbn; lia))).
  set (cn2 := cn1 <| use_count := use_count cn1 - 1 |>).
  unfold RunInLoop_bind, cb_copy, cb_destroy. cbn [cb_owner]. rewrite M_bind_unfold.
  rewrite (M_bind_eq _ _ _ _ _ (acquire_set_conn _ _ _)). set (cn3 := cn2 <| use_count := use_count cn2 + 1 |>).
  assert (Hl3 : live c (set_conn c cn3 w1) cn3 ch pfd).
  { split; [apply set_conn_lookup|by destruct (lv_reg _ _ _ _ _ Hl)|apply Hl|cbn; lia]. }
  rewrite (M_bind_unfold (RunInLoop _ _)), RunInLoop_here_eval by apply (lv_reg _ _ _ _ _ Hl).
  rewrite Hinv. destruct (ConnectDestroyed_live c cn3 ch pfd _ Hl3 Hst) as (w2 & -> & Hc2 & Hch2 & Hl2 & Ht2 & Hs2).
  set (cn4 := cn3 <| state_ := kDisconnected |>). rewrite release_set_conn by (cbn; lia).
  destruct (release_last c (cn4 <| use_count := use_count cn4 - 1 |>) w2) as (w3 & -> & Hc3 & Hch3 & Hh3 & Hs3 & Hl3' & Ht3);
    [cbn; lia|done|].
  exists w3. split; [done|]. rewrite Hc3, Hc2, Hch3, Hch2, Hl3', Hl2, Hs3, Hs2, Hh3, Ht3, Ht2. split_and!; try done; [|..|by eexists].
  - cbn. by rewrite !delete_insert_eq.
  - cbn. by rewrite delete_insert_eq.
Qed.

(** A round in which the update of the channel fails *)
Lemma destroy_entry_fails name c cn w e :
  conns w !! c = Some cn → 1 ≤ use_count cn → threadId_ (loop w) = tid w →
  state_ cn = kConnected ∨ state_ cn = kDisconnecting →
  (∀ w', chans w' = chans w → loop w' = loop w → tid w' = tid w → DisbaleAll (channel_ cn) w' = Err e) →
  destroy_entry inv (name, c) w = Err e.
Proof.
  intros Hc Hu Hthr Hst Hdis. unfold destroy_entry. cbn [fst snd].
  set (cn1 := cn <| use_count := use_count cn + 1 |>).
  rewrite (M_bind_eq _ _ w tt (set_conn c cn1 w)) by by apply (mod_conn_Ok _ _ cn).
  set (w1 := w <| server := (server w) <| connections_ := delete name (connections_ (server w)) |> |>).
  rewrite (M_bind_eq _ _ _ tt (set_conn c cn1 w1)) by done.
  rewrite (M_bind_eq _ _ _ _ _ (release_set_conn c cn1 w1 ltac:(cbn; lia))).
  set (cn2 := cn1 <| use_count := use_count cn1 - 1 |>).
  unfold RunInLoop_bind, cb_copy, cb_destroy. cbn [cb_owner]. rewrite M_bind_unfold.
  rewrite (M_bind_eq _ _ _ _ _ (acquire_set_conn _ _ _)). set (cn3 := cn2 <| use_count := use_count cn2 + 1 |>).
  rewrite (M_bind_unfold (RunInLoop _ _)), RunInLoop_here_eval by done. rewrite Hinv. unfold ConnectDestroyed.
  rewrite (M_bind_eq _ _ _ _ _ (assertInLoopThread_true (set_conn c cn3 w1) Hthr)).
  rewrite (M_bind_eq _ _ _ _ _ (get_conn_Ok _ _ _ (set_conn_lookup _ _ _))).
  rewrite bool_decide_eq_true_2 by done. by rewrite M_bind_unfold, Hdis.
Qed.

(** The mask of a channel the poller refuses to update *)
Lemma DisbaleAll_fails k w ch e :
  threadId_ (loop w) = tid w → chans w !! k = Some ch → loop_ ch = this_ (loop w) →
  Poller.UpdateChannel (poller (loop w)) (<[k := Channel.set_events 0 ch]> (chans w)) k = Err e →
  DisbaleAll k w = Err e.
Proof.
  intros Hthr Hc Hl Hup. by apply (change_mask_fails _ _ ch _ 0).
Qed.

End Teardown.

(** C20: destroying a server that has two or more connections aborts: the first
    connection of the map leaves the poller, which shifts the entry of the
    second when that lies behind it, and the update that should remove the
    second fails an assertion of [UpdateChannel], whatever the application
    does in its connection callback within [connection_callback_ok]. *)
Theorem TcpServer_dtor_aborts `{HK : Kernel} `{HA : App} (inv : Callback → MW unit) (w : World)
    (n1 n2 : bytes) (c1 c2 : conn_id) (rest : list (bytes * conn_id))
    (cn1 cn2 : TcpConnection) (ch1 ch2 : Channel Callback) (pfd1 pfd2 : pollfd) :
  (∀ c, inv (TcpConnection_ConnectDestroyed c) = TcpConnection.ConnectDestroyed c) →
  TcpServer.connection_callback_ok → Poller.reg_wf (poller (loop w)) (chans w) →
  TcpServer.entries (connections_ (server w)) = (n1, c1) :: (n2, c2) :: rest →
  TcpConnection.live c1 w cn1 ch1 pfd1 → use_count cn1 = 1 → state_ cn1 = kConnected ∨ state_ cn1 = kDisconnecting →
  TcpConnection.live c2 w cn2 ch2 pfd2 → state_ cn2 = kConnected ∨ state_ cn2 = kDisconnecting →
  c1 ≠ c2 → index_ ch1 < index_ ch2 → aborts_on_index (TcpServer.TcpServer_dtor inv) w.
Proof.
  intros Hinv Hcb Hwf Hent Hl1 Hu1 Hst1 Hl2 Hst2 Hne Hidx.
  pose proof (TcpConnection.lv_reg _ _ _ _ _ Hl1) as Hr1. pose proof (TcpConnection.lv_reg _ _ _ _ _ Hl2) as Hr2.
  destruct (destroy_entry_live inv Hinv Hcb n1 c1 cn1 ch1 pfd1 w Hl1 Hu1 Hst1)
    as (w1 & E1 & Hc & Hch & Hl & Ht & _).
  assert (Hfd : channel_ cn1 ≠ channel_ cn2).
  { intros E. pose proof (rg_chan _ _ _ _ Hr1). pose proof (rg_chan _ _ _ _ Hr2). rewrite E in *. simplify_eq. lia. }
  set (p := poller (loop w)) in *.
  set (p' := Poller.mkPoller (delete (Z.to_nat (index_ ch1)) (pollfds_ p)) (delete (fd_ ch1) (channels_ p))).
  assert (Hp1 : poller (loop w1) = p') by by rewrite Hl.
  assert (Hup : ∃ e, (e = AssertFailed "poller.cc:73" ∨ e = AssertFailed "poller.cc:76") ∧
      Poller.UpdateChannel p' (<[channel_ cn2 := Channel.set_events 0 ch2]> (chans w1)) (channel_ cn2) = Err e).
  { destruct Hr1 as [_ _ _ _ Hi1 He1 Hf1 _ Hlen], Hr2 as [_ _ _ Hm2 Hi2 He2 Hf2 _ _].
    unfold p'. rewrite <-Hf1.
    destruct (Poller.stale_update p (chans w) (<[channel_ cn2 := Channel.set_events 0 ch2]> (chans w1))
      (Z.to_nat (index_ ch1)) (Z.to_nat (index_ ch2)) pfd1 pfd2 (channel_ cn2) (Channel.set_events 0 ch2))
      as (_ & [E|E]); [done|done|done|lia|apply lookup_insert_eq|cbn; lia|done|done|done|by eauto|by eauto]. }
  destruct Hup as (e & He & Hup).
  assert (E2 : TcpServer.destroy_entry inv (n2, c2) w1 = Err e).
  { apply (destroy_entry_fails inv Hinv n2 c2 cn2); [|apply Hl2| |done|].
    - rewrite Hc, lookup_delete_ne by done. apply Hl2.
    - rewrite Hl, Ht. apply (rg_thread _ _ _ _ Hr1).
    - intros w' Hch' Hl' Ht'. apply (DisbaleAll_fails _ _ ch2).
      + rewrite Hl', Hl, Ht', Ht. apply (rg_thread _ _ _ _ Hr1).
      + rewrite Hch', Hch, lookup_delete_ne by done. apply Hr2.
      + rewrite Hl', Hl. apply (rg_loop _ _ _ _ Hr2).
      + by rewrite Hl', Hp1, Hch'. }
  assert (E : TcpServer.TcpServer_dtor inv w = Err e).
  { unfold TcpServer.TcpServer_dtor.
    rewrite (M_bind_eq _ _ _ _ _ (assertInLoopThread_true w (rg_thread _ _ _ _ Hr1))).
    rewrite (M_bind_eq _ _ w (server w) w) by done. rewrite Hent, M_bind_unfold. cbn [mfor].
    rewrite (M_bind_eq _ _ _ _ _ E1). by rewrite M_bind_unfold, E2. }
  unfold aborts_on_index. rewrite E. destruct He as [-> | ->]; auto.
Qed.

(** C36: after the destructor of a server without connections the poller still
    refers to the channel of the acceptor, which is freed: when the kernel then
    answers for that descriptor, as it does for one that was closed
    ([POLLNVAL]), the next iteration of the loop reads freed memory. *)
Theorem TcpServer_dtor_dangles `{HK : Kernel} `{!ClockOk} (inv : Callback → MW unit) (w : World)
    (ch : Channel Callback) (pfd : pollfd) :
  let k := listen_channel_ (acceptor_ w) in
  connections_ (server w) = ∅ → registered k w ch pfd → Poller.reg_wf (poller (loop w)) (chans w) →
  ∃ w', TcpServer.TcpServer_dtor inv w = Ok (tt, w') ∧ chans w' = delete k (chans w) ∧ dangling (fd_ ch) k w' ∧
    hist w' = EvClose (listen_socket_ (acceptor_ w)) :: hist w ∧
    ∀ n rs, poll_answer n rs w' → 0 < n → rs !! Z.to_nat (index_ ch) = Some POLLNVAL →
      reads_freed_channel (loop_body inv) w'.
Proof.
  intros k Hno Hr Hwf.
  set (w' := w <| chans := delete k (chans w) |> <| hist := EvClose (listen_socket_ (acceptor_ w)) :: hist w |>).
  exists w'. split.
  { unfold TcpServer.TcpServer_dtor.
    rewrite (M_bind_eq _ _ _ _ _ (assertInLoopThread_true w (rg_thread _ _ _ _ Hr))).
    rewrite (M_bind_eq _ _ w (server w) w) by done. rewrite Hno. reflexivity. }
  split_and!; [done|split; [apply Hr|apply lookup_delete_eq]|done|]. intros n rs (Hk & Hlen & Hn) Hpos Hrs. destruct Hn as [?|Hn]; [lia|].
  apply (loop_body_fails inv n rs w' _ Hk). subst n. destruct Hr as [_ _ _ Hm _ He Hf _ _].
  apply (Poller.Poll_dangling (poller (loop w)) (chans w) rs k (Z.to_nat (index_ ch)) pfd POLLNVAL); try done.
  by rewrite Hf.
Qed.

(** C35: an end of file on a connection of the server: when its descriptor is the
    first of the poll array that is ready, the iteration calls the read callback of
    its channel, which closes the connection, removes it from the server and
    destroys the last reference to it, and so the channel whose [HandleEvent] is
    running, which reads [revents_] again. *)
Theorem eof_use_after_free `{HK : Kernel} `{HA : App} `{!ClockOk} (fuel : nat) (n : Z) (rs : list Z)
    (c : conn_id) (w : World) (cn : TcpConnection) (ch : Channel Callback) (pfd : pollfd) :
  TcpServer.connection_callback_ok → Poller.reg_wf (poller (loop w)) (chans w) →
  TcpConnection.live c w cn ch pfd → use_count cn = 1 → state_ cn = kConnected ∨ state_ cn = kDisconnecting →
  conn_close_callback_ cn = Some TcpServer_removeConnection → connections_ (server w) !! name_ cn = Some c →
  read_callback_ ch = Some (TcpConnection_HandleRead c) → Buffer.wf (rev_buffer_ cn) →
  len (Buffer.buffer_ (rev_buffer_ cn)) + Buffer.extrabuf_size ≤ Buffer.max_size →
  poll_answer n rs w → 0 < n → rs !! Z.to_nat (index_ ch) = Some POLLIN →
  head (ready_channels rs w) = Some (channel_ cn) →
  (∀ h vec, k_readv h (socket_ cn) vec = Buffer.ReadvOk []) →
  reads_freed_channel (loop_body (invoke (S (S fuel)))) w.
Proof.
  intros Hcb Hwf Hl Hu Hst Hcl Hmap Hrd Hb Hcap Hpoll Hn Hrs Hhd Hread.
  destruct (loop_body_eval (invoke (S (S fuel))) n rs w Hwf Hpoll) as (h & E & Hin & Hout & _).
  destruct (polled_live n rs w h Hpoll Hin Hout c cn ch pfd Hl) as (r & r' & _ & Hl').
  pose proof (TcpConnection.lv_reg _ _ _ _ _ Hl) as Hr.
  destruct (Hin (mkpollfd (pfd_fd pfd) (pfd_events pfd) POLLIN) (channel_ cn)) as [_ Hk]; [done|..].
  { apply list_elem_of_lookup. exists (Z.to_nat (index_ ch)).
    unfold stored, Poller.store_revents. by rewrite lookup_zip_with, (rg_entry _ _ _ _ Hr), Hrs. }
  { apply andb_true_intro. split; [|done]. apply Z.geb_le. cbn. rewrite (rg_fd _ _ _ _ Hr).
    apply (Poller.reg_nonneg _ _ Hwf), (Poller.reg_dom _ _ Hwf). eexists. apply Hr. }
  { cbn. rewrite (rg_fd _ _ _ _ Hr). apply Hr. }
  assert (r = POLLIN) as ->.
  { pose proof (rg_chan _ _ _ _ (TcpConnection.lv_reg _ _ _ _ _ Hl')) as Hc. cbn in Hc.
    rewrite Hk, (rg_chan _ _ _ _ Hr) in Hc. by injection Hc. }
  unfold reads_freed_channel. rewrite E, (proj2 (Z.leb_gt n 0)) by done.
  rewrite (proj2 (Z.leb_gt n 0)) in Hl' by done.
  destruct (ready_channels rs w) as [|k ks]; [done|]. injection Hhd as ->. cbn [mfor].
  by rewrite !M_bind_unfold, (HandleEvent_eof fuel c _ cn _ _ Hcb Hl').
Qed.

(** *** A server with two connections *)

Definition ex_two : World := TcpConnection.run_in (TcpServer.newConnection (H0 := TcpConnection.ex_app) 12 TcpConnection.ex_addr) TcpServer.ex_served.

Definition ex_cn1 : TcpConnection :=
  (TcpServer.new_conn (server ex_world) 10 9 TcpConnection.ex_addr TcpConnection.ex_buffer) <| use_count := 1 |>.
Definition ex_cn2 : TcpConnection :=
  (TcpServer.new_conn (server TcpServer.ex_served) 12 12 TcpConnection.ex_addr TcpConnection.ex_buffer) <| use_count := 1 |>.
Definition ex_ch2 : Channel Callback :=
  mkChannel 0 12 3 0 1 (Some (TcpConnection_HandleRead 12)) (Some (TcpConnection_HandleWrite 12))
    None (Some (TcpConnection_HandleClose 12)).

Lemma ex_two_reg : Poller.reg_wf (poller (loop ex_two)) (chans ex_two).
Proof.
  assert (Hf : Poller.fds (poller (loop ex_two)) = [9; 12]) by (by vm_compute).
  assert (Hm : channels_ (poller (loop ex_two)) = {[9 := 11%nat; 12 := 13%nat]}) by (by vm_compute).
  split; rewrite ?Hf, ?Hm.
  - apply (bool_decide_unpack _). by vm_compute.
  - intros fd. rewrite !elem_of_cons, elem_of_nil, lookup_insert_is_Some, lookup_singleton_is_Some. lia.
  - intros fd c [[<- <-]|[_ [<- <-]%lookup_singleton_Some]]%lookup_insert_Some;
      [exists TcpConnection.ex_ch|exists ex_ch2]; by split_and!; vm_compute.
  - intros fd. rewrite !elem_of_cons, elem_of_nil. lia.
Qed.

Lemma TcpServer_dtor_aborts_witness :
  aborts_on_index (TcpServer.TcpServer_dtor (H := ex_kernel) TcpServer.ex_dispatch) ex_two.
Proof.
  apply (TcpServer_dtor_aborts (HK := ex_kernel) (HA := TcpConnection.ex_app) TcpServer.ex_dispatch ex_two
    (b_ "test#0") (b_ "test#1") 10 12 [] ex_cn1 ex_cn2 TcpConnection.ex_ch ex_ch2 (mkpollfd 9 3 0) (mkpollfd 12 3 0));
    [done|apply TcpServer.ex_app_ok|apply ex_two_reg|by vm_compute| |done|by left| |by left|done|done].
  - by repeat split; vm_compute.
  - by repeat split; vm_compute.
Defined.

(** *** A server that was never connected to, and a kernel that reports its
    closed descriptor *)
Definition ex_nval_kernel : Kernel := {|
  k_gettimeofday := @k_gettimeofday ex_kernel; k_poll _ _ _ := (1, [POLLNVAL]);
  k_write := @k_write ex_kernel; k_read := @k_read ex_kernel; k_readv := @k_readv ex_kernel;
  k_accept := @k_accept ex_kernel; k_settime := @k_settime ex_kernel;
  k_eventfd := @k_eventfd ex_kernel; k_timerfd := @k_timerfd ex_kernel;
  k_socket := @k_socket ex_kernel; k_bind := @k_bind ex_kernel;
  k_listen := @k_listen ex_kernel; k_shutdown := @k_shutdown ex_kernel |}.

#[export] Instance ex_nval_clock_ok : ClockOk (H := ex_nval_kernel).
Proof. exact ex_clock_ok. Qed.

Definition ex_bound : World :=
  TcpConnection.run_in (TcpServer.TcpServer_new (H := ex_nval_kernel) TcpConnection.ex_addr (b_ "test")) ex_world.
Definition ex_listen_ch : Channel Callback := mkChannel 0 60 3 0 0 (Some Acceptor_handleRead) None None None.

Lemma ex_bound_reg : Poller.reg_wf (poller (loop ex_bound)) (chans ex_bound).
Proof.
  assert (Hf : Poller.fds (poller (loop ex_bound)) = [60]) by (by vm_compute).
  assert (Hm : channels_ (poller (loop ex_bound)) = {[60 := 10%nat]}) by (by vm_compute).
  split; rewrite ?Hf, ?Hm.
  - apply NoDup_singleton.
  - intros fd. rewrite list_elem_of_singleton, lookup_singleton_is_Some. done.
  - intros fd c [<- <-]%lookup_singleton_Some. exists ex_listen_ch. by split_and!; vm_compute.
  - by intros fd ->%list_elem_of_singleton.
Qed.

Lemma TcpServer_dtor_dangles_witness :
  ∃ w', TcpServer.TcpServer_dtor (H := ex_nval_kernel) TcpServer.ex_dispatch ex_bound = Ok (tt, w') ∧
    reads_freed_channel (loop_body (H := ex_nval_kernel) TcpServer.ex_dispatch) w'.
Proof.
  destruct (TcpServer_dtor_dangles (HK := ex_nval_kernel) TcpServer.ex_dispatch ex_bound
    ex_listen_ch (mkpollfd 60 3 0)) as (w' & E & _ & _ & _ & H);
    [by vm_compute|by repeat split; vm_compute|apply ex_bound_reg|].
  exists w'. split; [exact E|]. vm_compute in E. injection E as <-.
  apply (H 1 [POLLNVAL]); [|done|by vm_compute]. split_and!; [done|by vm_compute|right; by vm_compute].
Defined.

(** *** A served connection whose peer has closed *)
Definition ex_eof_kernel : Kernel := {|
  k_gettimeofday := @k_gettimeofday ex_kernel; k_poll _ _ _ := (1, [POLLIN]);
  k_write := @k_write ex_kernel; k_read := @k_read ex_kernel;
  k_readv _ _ _ := Buffer.ReadvOk [];
  k_accept := @k_accept ex_kernel; k_settime := @k_settime ex_kernel;
  k_eventfd := @k_eventfd ex_kernel; k_timerfd := @k_timerfd ex_kernel;
  k_socket := @k_socket ex_kernel; k_bind := @k_bind ex_kernel;
  k_listen := @k_listen ex_kernel; k_shutdown := @k_shutdown ex_kernel |}.

#[export] Instance ex_eof_clock_ok : ClockOk (H := ex_eof_kernel).
Proof. exact ex_clock_ok. Qed.

Lemma ex_served_reg : Poller.reg_wf (poller (loop TcpServer.ex_served)) (chans TcpServer.ex_served).
Proof.
  assert (Hf : Poller.fds (poller (loop TcpServer.ex_served)) = [9]) by (by vm_compute).
  assert (Hm : channels_ (poller (loop TcpServer.ex_served)) = {[9 := 11%nat]}) by (by vm_compute).
  split; rewrite ?Hf, ?Hm.
  - apply NoDup_singleton.
  - intros fd. rewrite list_elem_of_singleton, lookup_singleton_is_Some. done.
  - intros fd c [<- <-]%lookup_singleton_Some. exists TcpConnection.ex_ch. by split_and!; vm_compute.
  - by intros fd ->%list_elem_of_singleton.
Qed.

Lemma eof_use_after_free_witness :
  reads_freed_channel
    (loop_body (H := ex_eof_kernel) (invoke (H := ex_eof_kernel) (H0 := TcpConnection.ex_app) 2)) TcpServer.ex_served.
Proof.
  apply (eof_use_after_free (HK := ex_eof_kernel) (HA := TcpConnection.ex_app) 0 1 [POLLIN] 10 TcpServer.ex_served
    ex_cn1 TcpConnection.ex_ch (mkpollfd 9 3 0));
    [apply TcpServer.ex_app_ok|apply ex_served_reg|by repeat split; vm_compute|reflexivity|by left|by vm_compute..| |
     done|by vm_compute|by vm_compute|done].
  split_and!; [done|by vm_compute|right; by vm_compute].
Defined.
