(* ===== verification/Startup.v ===== *)
(** * Starting an event loop (net/eventloop.cc, net/timer_queue.cc)

    The state a program is in after it has constructed its [EventLoop], as the
    composed theorems need it: the two descriptors the loop registers, their
    channels and the empty timer queue; and the state after it has made an
    acceptor and a server listen. *)

From S2P Require Import Prelude Slice Buffer Timestamp Poller World EventLoop TcpConnection TcpServer TimerQueue Reactor Iteration.

(** A channel with nothing but a read callback *)
Definition reads (ch : Channel Callback) (cb : Callback) : Prop :=
  read_callback_ ch = Some cb ∧ write_callback_ ch = None ∧ error_callback_ ch = None ∧ close_callback_ ch = None.

(** Registering a fresh channel keeps the poller well formed. *)
Lemma reg_wf_registering (p : Poller) (h h' : gmap chan_id (Channel Callback)) fd k ch :
  Poller.reg_wf p h → channels_ p !! fd = None → 0 ≤ fd → h' !! k = Some ch → fd_ ch = fd → 0 ≤ index_ ch →
  (∀ j, j ≠ k → h' !! j = h !! j) → h !! k = None → Poller.reg_wf (TcpServer.registering fd k p) h'.
Proof.
  intros [Hnd Hdom Hlive Hpos] Hfd Hge Hk Hf Hi Hsame Hfresh.
  unfold TcpServer.registering. split; rewrite ?Poller.fds_app; cbn.
  - apply NoDup_app. split; [done|]. split; [|apply NoDup_singleton].
    intros fd' Hin ->%list_elem_of_singleton. apply Hdom in Hin. rewrite Hfd in Hin. by destruct Hin.
  - intros fd'. rewrite elem_of_app, list_elem_of_singleton, Hdom, lookup_insert_is_Some.
    destruct (decide (fd = fd')) as [<-|]; split; [by left|by right|intros [?|?]; by right|].
    intros [?|[_ ?]]; by left.
  - intros fd' j [[<- <-]|[Hne Hm]]%lookup_insert_Some; [eauto|].
    destruct (Hlive fd' j Hm) as (x & Hx & ? & ?). rewrite Hsame by (intros ->; congruence). eauto.
  - intros fd'. rewrite elem_of_app, list_elem_of_singleton. intros [?| ->]; [by apply Hpos|done].
Qed.

Section Startup.
Context `{HK : Kernel}.

(** A loop of this thread with descriptors [ks] registered and no connections *)
Record idle (ks : list Z) (w : World) : Prop := {
  id_reg : Poller.reg_wf (poller (loop w)) (chans w);
  id_thread : threadId_ (loop w) = tid w;
  id_functors : functors_ (loop w) = [];
  id_conns : conns w = ∅;
  id_fresh k : is_Some (chans w !! k) → (k < next_addr w)%nat;
  id_fds : Poller.fds (poller (loop w)) = ks
}.

Lemma idle_unregistered ks w fd :
  idle ks w → fd ∉ ks → channels_ (poller (loop w)) !! fd = None.
Proof.
  intros [[_ Hdom _ _] _ _ _ _ <-] Hn. destruct (channels_ _ !! fd) eqn:E; [|done].
  exfalso. apply Hn, Hdom. eauto.
Qed.

Lemma idle_len ks w : idle ks w → len (pollfds_ (poller (loop w))) = len ks.
Proof. intros [_ _ _ _ _ <-]. unfold Poller.fds, len. by rewrite length_fmap. Qed.

(** A channel at a fresh address is registered. *)
Lemma idle_with_new ks w w1 k ch :
  idle ks w → poller (loop w1) = poller (loop w) → threadId_ (loop w1) = tid w1 →
  functors_ (loop w1) = [] → conns w1 = ∅ → (next_addr w ≤ k < next_addr w1)%nat →
  (∀ j, j ≠ k → chans w1 !! j = chans w !! j) → fd_ ch ∉ ks → 0 ≤ fd_ ch →
  idle (ks ++ [fd_ ch]) (with_new k ch Channel.kReadEvent w1).
Proof.
  intros Hid Ep Ht Hf Hc Hk Hsame Hn Hge. pose proof Hid as [Hreg _ _ _ Hfr Hfds].
  assert (Hfresh : chans w !! k = None).
  { destruct (chans w !! k) eqn:E; [|done]. specialize (Hfr k ltac:(eauto)). lia. }
  unfold with_new. split; cbn; rewrite ?Ep; try done.
  - apply (reg_wf_registering _ (chans w) _ (fd_ ch) k (Channel.set_index (len (pollfds_ (poller (loop w))))
      (Channel.set_events Channel.kReadEvent ch))); try done.
    + by apply idle_unregistered with ks.
    + apply lookup_insert_eq.
    + cbn. apply len_nonneg.
    + intros j Hj. rewrite lookup_insert_ne by done. by apply Hsame.
  - intros j [<-|[Hj Hs]]%lookup_insert_is_Some; [lia|]. rewrite Hsame in Hs by done. specialize (Hfr j Hs). lia.
  - rewrite <-Hfds. unfold Poller.fds. cbn. by rewrite fmap_app.
Qed.

(** What the process starts from *)
Record process_start (w : World) : Prop := {
  ps_loop : t_loopInThisThread w = false;
  ps_chans : chans w = ∅;
  ps_conns : conns w = ∅
}.
(** The members up to the timer queue *)
Lemma timers_idle w :
  process_start w → 0 ≤ k_timerfd (hist w) →
  ∃ w', EventLoop_ctor w = (init_wakeup (this_ (loop w')) ;; EventLoop_body) w' ∧
    idle [k_timerfd (hist w)] w' ∧ t_loopInThisThread w' = false ∧ hist w' = hist w ∧
    looping_ (loop w') = false ∧ ∃ t ch, timer_queue (loop w') = mkTimerQueue (k_timerfd (hist w)) t [] ∧
      channels_ (poller (loop w')) = {[k_timerfd (hist w) := t]} ∧
      chans w' !! t = Some ch ∧ reads ch TimerQueue_HandleRead.
Proof.
  intros [Hb Hch Hcn] Ht. unfold EventLoop_ctor. set (a := next_addr w).
  set (tfd := k_timerfd (hist w)) in *. set (w1 := w <| next_addr := S a |>).
  rewrite (M_bind_eq _ _ w a w1), (M_bind_eq _ _ w1 (tid w) w1) by done.
  set (l := mkEventLoop a _ _ _ _ _ _ _ _ _ _). set (w2 := w1 <| loop := l |>).
  assert (Hid2 : idle [] w2).
  { split; try done; [|intros k; cbn; rewrite Hch, lookup_empty; by intros []].
    split; cbn.
    - apply NoDup_nil_2.
    - intros fd. rewrite lookup_empty. split; [by intros ?%elem_of_nil|by intros []].
    - intros fd c. by rewrite lookup_empty.
    - by intros fd ?%elem_of_nil. }
  rewrite (M_bind_eq _ _ w1 tt w2) by done.
  rewrite (M_bind_eq _ _ _ _ _ (TimerQueue_ctor_eval w2 eq_refl (lookup_empty _) ltac:(done))).
  change (k_timerfd (hist w2)) with tfd. change (next_addr w2) with (S a).
  set (cht := Channel.SetReadCallback _ _).
  match goal with |- context [with_new (S a) cht Channel.kReadEvent ?x] => set (w3 := x) end.
  exists (with_new (S a) cht Channel.kReadEvent w3). split; [done|]. split.
  2: { split_and!; try done. eexists _, _. split; [reflexivity|]. split; [reflexivity|].
       split; [apply lookup_insert_eq|done]. }
  apply (idle_with_new [] w2 w3 (S a) cht); try done; [cbn; lia| |by intros ?%elem_of_nil].
  intros j Hj. cbn. by rewrite !lookup_insert_ne.
Qed.

(** A channel that was just created at a fresh address asks for read events. *)
Lemma read_channel_idle ks w w1 k fd cb :
  idle ks w → len ks < 2 ^ 31 - 1 → fd ∉ ks → 0 ≤ fd →
  poller (loop w1) = poller (loop w) → this_ (loop w1) = this_ (loop w) → threadId_ (loop w1) = tid w1 →
  functors_ (loop w1) = [] → conns w1 = ∅ → (next_addr w ≤ k < next_addr w1)%nat →
  chans w1 = <[k := Channel.Channel_new (this_ (loop w)) fd]> (chans w) →
  ∃ w' ch, (mod_chan k (Channel.SetReadCallback cb) ;; EnableReading k) w1 = Ok (tt, w') ∧
    idle (ks ++ [fd]) w' ∧ chans w' !! k = Some ch ∧ reads ch cb ∧
    hist w' = hist w1 ∧ acceptor_ w' = acceptor_ w1 ∧ tid w' = tid w1 ∧
    (∀ j, j ≠ k → chans w' !! j = chans w !! j) ∧
    ∃ pfds, loop w' = (loop w1) <| poller := mkPoller pfds (<[fd := k]> (channels_ (poller (loop w)))) |>.
Proof.
  intros Hid Hlen Hn Hge Ep Eth Ht Hf Hc Hk Hch.
  assert (Hck : chans w1 !! k = Some (Channel.Channel_new (this_ (loop w)) fd))
    by (rewrite Hch; apply lookup_insert_eq).
  rewrite (read_channel_eval k w1 _ cb Ht Hck); try done.
  - set (ch := Channel.SetReadCallback cb _). do 2 eexists. split; [done|].
    assert (Hsame : ∀ j, j ≠ k → <[k := ch]> (chans w1) !! j = chans w !! j)
      by (intros j Hj; by rewrite lookup_insert_ne, Hch, lookup_insert_ne by done).
    split; [by apply (idle_with_new ks w _ k ch)|].
    split; [apply lookup_insert_eq|]. split_and!; try done.
    + intros j Hj. cbn. rewrite lookup_insert_ne by done. by apply Hsame.
    + eexists. cbn. by rewrite Ep.
  - rewrite Ep. by apply idle_unregistered with ks.
  - by rewrite Ep, (idle_len _ _ Hid).
Qed.

(** The two channels of a new loop *)
Definition fresh_loop (tfd efd : Z) (w : World) : Prop :=
  looping_ (loop w) = false ∧ ∃ t cht chw, timer_queue (loop w) = mkTimerQueue tfd t [] ∧
    channels_ (poller (loop w)) = <[efd := wakeup_channel_ (loop w)]> {[tfd := t]} ∧
    chans w !! t = Some cht ∧ reads cht TimerQueue_HandleRead ∧
    chans w !! wakeup_channel_ (loop w) = Some chw ∧ reads chw EventLoop_handleRead.

Lemma EventLoop_ctor_idle w :
  process_start w → 0 ≤ k_timerfd (hist w) → 0 ≤ k_eventfd (hist w) → k_timerfd (hist w) ≠ k_eventfd (hist w) →
  ∃ w', EventLoop_ctor w = Ok (tt, w') ∧ idle [k_timerfd (hist w); k_eventfd (hist w)] w' ∧ hist w' = hist w ∧
    fresh_loop (k_timerfd (hist w)) (k_eventfd (hist w)) w'.
Proof.
  intros Hps Ht He Hne. destruct (timers_idle w Hps Ht) as (w4 & -> & Hid & Hb & Hh & Hlp & t & cht & Htq & Hcs & Hct & Hrt).
  set (a := this_ (loop w4)). set (k := next_addr w4).
  destruct (init_wakeup_Ok w4 a) as (w5 & E5 & Hch5 & Hl5 & Ht5 & Hb5 & Hc5 & Hn5 & Hh5); [by rewrite Hh|].
  rewrite (M_bind_eq _ _ _ _ _ E5). rewrite Hh in Hch5, Hl5. fold k in Hch5, Hl5, Hn5. unfold EventLoop_body.
  rewrite (M_bind_eq _ _ w5 false w5) by (unfold gets; by rewrite Hb5, <-Hb).
  set (w6 := w5 <| t_loopInThisThread := true |>). rewrite (M_bind_eq _ _ w5 tt w6) by done.
  rewrite (M_bind_eq _ _ w6 k w6) by (unfold gets; cbn; by rewrite Hl5).
  destruct (read_channel_idle [k_timerfd (hist w)] w4 w6 k (k_eventfd (hist w)) EventLoop_handleRead Hid)
    as (w' & ch & E & Hid' & Hk & Hrd & Hh' & _ & _ & Hsame & pfds & Hl'); try done; cbn.
  - rewrite list_elem_of_singleton. congruence.
  - by rewrite Hl5.
  - by rewrite Hl5.
  - rewrite Hl5, Ht5. apply Hid.
  - rewrite Hl5. apply Hid.
  - rewrite Hc5. apply Hid.
  - rewrite Hn5. lia.
  - exists w'. split; [done|]. split; [done|]. split; [rewrite Hh'; cbn; by rewrite Hh5|].
    assert (Htk : t ≠ k).
    { pose proof (id_fresh _ _ Hid t ltac:(eauto)). unfold k. lia. }
    unfold fresh_loop. rewrite Hl'. cbn. rewrite Hl5. cbn. split; [done|].
    exists t, cht, ch. split; [done|]. split; [by rewrite Hcs|].
    split; [by rewrite Hsame|done].
Qed.

(** ** A listening socket *)

(** What the kernel must answer while a loop and an acceptor are set up *)
Record setup_answers (addr : sockaddr_in) (w : World) : Prop := {
  sa_timer : 0 ≤ k_timerfd (hist w);
  sa_event : 0 ≤ k_eventfd (hist w);
  sa_socket : 0 ≤ k_socket (hist w);
  sa_distinct : NoDup [k_timerfd (hist w); k_eventfd (hist w); k_socket (hist w)];
  sa_bind : k_bind (EvSocket (k_socket (hist w)) :: hist w) (k_socket (hist w)) addr ≠ -1;
  sa_listen : ∀ h, k_listen h (k_socket (hist w)) ≠ -1
}.

Lemma Acceptor_new_idle ks w addr :
  let fd := k_socket (hist w) in
  idle ks w → len ks < 2 ^ 31 - 1 → fd ∉ ks → 0 ≤ fd → k_bind (EvSocket fd :: hist w) fd addr ≠ -1 →
  ∃ w' k ch, Acceptor.Acceptor_new addr w = Ok (tt, w') ∧ idle (ks ++ [fd]) w' ∧
    acceptor_ w' = mkAcceptor fd k None ∧ chans w' !! k = Some ch ∧ reads ch Acceptor_handleRead.
Proof.
  intros fd Hid Hlen Hn Hge Hbind. unfold Acceptor.Acceptor_new. set (k := next_addr w).
  set (w1 := w <| hist := EvSocket fd :: hist w |>).
  assert (Es : Socket.NewNonBlockingSocket w = Ok (fd, w1)).
  { unfold Socket.NewNonBlockingSocket. rewrite (M_bind_eq _ _ w fd w1) by done.
    by rewrite (proj2 (Z.eqb_neq _ _)) by lia. }
  rewrite (M_bind_eq _ _ _ _ _ Es). rewrite (M_bind_eq _ _ w1 k (w1 <| next_addr := S k |>)) by done.
  rewrite (M_bind_eq _ _ _ (loop w) (w1 <| next_addr := S k |>)) by done.
  set (w2 := w1 <| next_addr := S k |> <| chans := <[k := Channel.Channel_new (this_ (loop w)) fd]> (chans w) |>).
  rewrite (M_bind_eq _ _ _ tt w2) by done.
  set (w3 := w2 <| acceptor_ := mkAcceptor fd k None |>). rewrite (M_bind_eq _ _ w2 tt w3) by done.
  set (w4 := w3 <| hist := EvBind fd addr :: hist w3 |>).
  assert (Eb : Socket.Bind fd addr w3 = Ok (tt, w4)).
  { unfold Socket.Bind. rewrite (M_bind_eq _ _ w3 (k_bind (EvSocket fd :: hist w) fd addr) w4) by done.
    by rewrite (proj2 (Z.eqb_neq _ _)) by done. }
  rewrite (M_bind_eq _ _ _ _ _ Eb).
  destruct (read_channel_idle ks w w4 k fd Acceptor_handleRead Hid)
    as (w' & ch & E & Hid' & Hk & Hrd & _ & Ha & _); try done; [apply Hid..|cbn; lia|].
  exists w', k, ch. by split_and!.
Qed.

Lemma listen_Ok w :
  let fd := listen_socket_ (acceptor_ w) in
  threadId_ (loop w) = tid w → k_listen (hist w) fd ≠ -1 →
  Acceptor.listen w = Ok (tt, w <| hist := EvListen fd :: hist w |>).
Proof.
  intros fd Hthr Hl. unfold Acceptor.listen. rewrite (M_bind_eq _ _ _ _ _ (assertInLoopThread_true w Hthr)).
  rewrite (M_bind_eq _ _ w (acceptor_ w) w) by done.
  rewrite (M_bind_eq _ _ w (k_listen (hist w) fd) (w <| hist := EvListen fd :: hist w |>)) by done.
  by rewrite (proj2 (Z.eqb_neq _ _)).
Qed.

(** The loop and an acceptor *)
Lemma acceptor_constructed addr w :
  process_start w → setup_answers addr w →
  ∃ w1 w2 k ch, EventLoop_ctor w = Ok (tt, w1) ∧ Acceptor.Acceptor_new addr w1 = Ok (tt, w2) ∧
    idle [k_timerfd (hist w); k_eventfd (hist w); k_socket (hist w)] w2 ∧
    acceptor_ w2 = mkAcceptor (k_socket (hist w)) k None ∧ chans w2 !! k = Some ch ∧ reads ch Acceptor_handleRead.
Proof.
  intros Hps [Ht He Hs Hd Hb Hl]. apply NoDup_cons in Hd as [Hd1 Hd2]. apply NoDup_cons in Hd2 as [Hd2 _].
  destruct (EventLoop_ctor_idle w Hps Ht He) as (w1 & E1 & Hid1 & Hh1 & _); [set_solver|].
  destruct (Acceptor_new_idle _ w1 addr Hid1) as (w2 & k & ch & E2 & Hid2 & Ha & Hk & Hrd);
    [done|rewrite Hh1; set_solver|by rewrite Hh1|by rewrite Hh1|]. rewrite Hh1 in Hid2, Ha.
  by exists w1, w2, k, ch.
Qed.

(** [TcpServer::Start] *)
Definition started (fd : Z) (k : chan_id) (w : World) : World :=
  w <| acceptor_ := mkAcceptor fd k (Some TcpServer_newConnection) |> <| hist := EvListen fd :: hist w |>.

Lemma Start_Ok fd k w :
  threadId_ (loop w) = tid w → acceptor_ w = mkAcceptor fd k None → k_listen (hist w) fd ≠ -1 →
  TcpServer.Start w = Ok (tt, started fd k w).
Proof.
  intros Hthr Ha Hl. unfold TcpServer.Start.
  set (w1 := w <| acceptor_ := mkAcceptor fd k (Some TcpServer_newConnection) |>).
  rewrite (M_bind_eq _ _ w tt w1) by (unfold Acceptor.SetNewConnectionCallback, mmod; by rewrite Ha).
  by apply listen_Ok.
Qed.

End Startup.
