(* ===== verification/Listener.v ===== *)
(** * Iterations that find only the listening socket ready (net/eventloop.cc, net/acceptor.cc)

    What the poll of such an iteration hands to the loop: the channel of the
    listening socket is active exactly when its entry is ready, and its read
    callback runs exactly when a client waits. *)

From S2P Require Import Prelude Slice Buffer Timestamp Poller World EventLoop TcpConnection TcpServer TimerQueue Reactor Iteration Startup.

Section Listener.
Context `{HK : Kernel} `{!ClockOk} (inv : Callback → MW unit).

(** A poll that reports nothing but the listening socket *)
Record listener_poll (n : Z) (rs : list Z) (w : World) : Prop := {
  lp_poll : poll_answer n rs w;
  lp_only pfd k : pfd ∈ stored rs w → Poller.ready pfd = true →
    channels_ (poller (loop w)) !! pfd_fd pfd = Some k →
    calm (pfd_revents pfd) ∧ k = listen_channel_ (acceptor_ w)
}.

(** The poll reports one entry, that of the listening socket. *)
Lemma listener_poll_one rs w pfd :
  k_poll (hist w) (pollfds_ (poller (loop w))) (-1) = (1, rs) → length rs = length (pollfds_ (poller (loop w))) →
  filter (fun p => Poller.ready p = true) (stored rs w) = [pfd] → calm (pfd_revents pfd) →
  channels_ (poller (loop w)) !! pfd_fd pfd = Some (listen_channel_ (acceptor_ w)) → listener_poll 1 rs w.
Proof.
  intros Hk Hlen Hf Hc Hm. split.
  - split; [done|]. split; [done|]. right. by rewrite Hf.
  - intros q k Hq Hr. assert (q = pfd) as ->.
    { apply list_elem_of_singleton. rewrite <-Hf. by apply list_elem_of_filter. }
    rewrite Hm. by intros [= <-].
Qed.

Definition readable (r : Z) : bool := has r (Z.lor POLLIN (Z.lor POLLPRI POLLRDHUP)).

(** Does the poll report a waiting client? *)
Definition client_waits (n : Z) (rs : list Z) (w : World) : bool :=
  (0 <? n) && existsb (fun pfd => Poller.ready pfd && readable (pfd_revents pfd)) (stored rs w).

Section Polled.
Context (n : Z) (rs : list Z) (w : World) (lc : Channel Callback).
Let active : list chan_id := if n <=? 0 then [] else ready_channels rs w.
Let k : chan_id := listen_channel_ (acceptor_ w).

Context (h : gmap chan_id (Channel Callback)).
Context (Hreg : Poller.reg_wf (poller (loop w)) (chans w)) (Hlc : chans w !! k = Some lc).
Context (Hlp : listener_poll n rs w).
Context (Hin : ∀ pfd c, 0 < n → pfd ∈ stored rs w → Poller.ready pfd = true →
  channels_ (poller (loop w)) !! pfd_fd pfd = Some c →
  c ∈ active ∧ h !! c = Channel.set_revents (pfd_revents pfd) <$> chans w !! c).

(** Only the listening channel can be active. *)
Lemma active_listener c : c ∈ active → c = k.
Proof.
  intros Hc. destruct (active_entry n rs w c Hc) as (pfd & _ & Hs & Hr & Hm).
  by destruct (lp_only _ _ _ Hlp pfd c Hs Hr Hm).
Qed.

(** A ready entry makes it active, with the events of the entry. *)
Lemma ready_listener pfd :
  0 < n → pfd ∈ stored rs w → Poller.ready pfd = true →
  k ∈ active ∧ calm (pfd_revents pfd) ∧ h !! k = Some (Channel.set_revents (pfd_revents pfd) lc).
Proof.
  intros Hn Hs Hr.
  assert (is_Some (channels_ (poller (loop w)) !! pfd_fd pfd)) as [c Hc].
  { apply (Poller.reg_dom _ _ Hreg). rewrite <-(polled_fds n rs w h (lp_poll _ _ _ Hlp)).
    unfold Poller.fds. apply list_elem_of_fmap. by exists pfd. }
  destruct (lp_only _ _ _ Hlp pfd c Hs Hr Hc) as [Hcalm ->]. fold k in Hc.
  destruct (Hin pfd k Hn Hs Hr Hc) as [Ha ->]. by rewrite Hlc.
Qed.

Lemma polled_waits :
  k ∈ active →
  ∃ r, h !! k = Some (Channel.set_revents r lc) ∧ calm r ∧ readable r = client_waits n rs w.
Proof.
  intros Ha. destruct (active_entry n rs w k Ha) as (pfd & Hn & Hs & Hr & Hm).
  destruct (ready_listener pfd Hn Hs Hr) as (_ & Hcalm & Hk). exists (pfd_revents pfd).
  split; [done|]. split; [done|]. unfold client_waits. rewrite (proj2 (Z.ltb_lt _ _)) by done. cbn [andb].
  apply eq_true_iff_eq. rewrite existsb_exists. split.
  - intros Hrd. exists pfd. rewrite Hr, Hrd. split; [by apply list_elem_of_In|done].
  - intros (q & Hq%list_elem_of_In & [Hqr Hqd]%andb_true_iff).
    destruct (ready_listener q Hn Hq Hqr) as (_ & _ & Hk'). rewrite Hk in Hk'.
    by injection Hk' as ->.
Qed.

Lemma idle_waits : k ∉ active → client_waits n rs w = false.
Proof.
  intros Ha. unfold client_waits. destruct (Z.ltb_spec 0 n) as [Hn|]; [|done]. cbn [andb].
  apply not_true_iff_false. rewrite existsb_exists. intros (q & Hq%list_elem_of_In & [Hqr _]%andb_true_iff).
  by destruct (ready_listener q Hn Hq Hqr).
Qed.
End Polled.

(** An iteration up to the handler of the listening channel *)
Lemma listener_iteration n rs w lc :
  let k := listen_channel_ (acceptor_ w) in
  Poller.reg_wf (poller (loop w)) (chans w) → chans w !! k = Some lc → listener_poll n rs w →
  ∃ active h r, let w1 := polled rs active h w in
    Poller.reg_wf (poller (loop w1)) (chans w1) ∧ Poller.fds (poller (loop w1)) = Poller.fds (poller (loop w)) ∧
    (∀ j, is_Some (h !! j) → is_Some (chans w !! j)) ∧
    h !! k = Some (Channel.set_revents r lc) ∧ (active = [k] → calm r ∧ readable r = client_waits n rs w) ∧
    loop_body inv w = (mfor (HandleEvent inv) active ;; doPendingFunctors inv) w1 ∧
    (active = [k] ∨ active = [] ∧ client_waits n rs w = false).
Proof.
  intros k Hreg Hlc Hlp.
  destruct (loop_body_eval inv n rs w Hreg (lp_poll _ _ _ Hlp)) as (h & E & Hin & Hout & Hnd).
  set (active := if n <=? 0 then [] else ready_channels rs w) in *.
  pose proof (active_listener n rs w Hlp) as Hk. change (∀ c, c ∈ active → c = k) in Hk.
  destruct (polled_chan n rs w h Hin Hout k lc Hlc) as (r & Hr & _).
  exists active, h, r. split; [exact (polled_reg n rs w h (lp_poll _ _ _ Hlp) Hin Hout Hreg)|].
  split; [exact (polled_fds n rs w h (lp_poll _ _ _ Hlp))|].
  split; [exact (polled_dom n rs w h Hin Hout)|]. split; [done|]. split.
  - intros Ea. destruct (polled_waits n rs w lc h Hreg Hlc Hlp Hin) as (r' & Hr' & ? & ?).
    { fold active. rewrite Ea. by apply list_elem_of_singleton. }
    fold k in Hr'. rewrite Hr in Hr'. by injection Hr' as ->.
  - split; [done|]. destruct (decide (k ∈ active)) as [Ha|Ha]; [left; by apply singleton_nodup|right].
    split; [|by apply (idle_waits n rs w lc h Hreg Hlc Hlp Hin)].
    destruct active as [|c rest]; [done|]. destruct Ha. rewrite <-(Hk c) by constructor. constructor.
Qed.

(** The events of the listening channel *)
Lemma listener_event w lc k :
  chans w !! k = Some lc → read_callback_ lc = Some Acceptor_handleRead → write_callback_ lc = None →
  calm (revents_ lc) →
  (∀ w2, inv Acceptor_handleRead w = Ok (tt, w2) →
     ∃ lc2, chans w2 !! k = Some lc2 ∧ write_callback_ lc2 = None) →
  HandleEvent inv k w = if readable (revents_ lc) then inv Acceptor_handleRead w else Ok (tt, w).
Proof.
  intros Hlc Hrd Hwt [Hhup Herr]%calm_has Hkeep. unfold HandleEvent.
  rewrite (M_bind_eq _ _ _ _ _ (get_chan_Ok _ _ _ Hlc)), Hhup, Herr. cbn [andb].
  rewrite (M_bind_eq _ _ w tt w) by done. rewrite (M_bind_eq _ _ _ _ _ (get_chan_Ok _ _ _ Hlc)), Hrd.
  fold (readable (revents_ lc)). cbn [call_opt]. rewrite M_bind_unfold. destruct (readable (revents_ lc)).
  - destruct (inv Acceptor_handleRead w) as [[[] w2]|e]; [|done].
    destruct (Hkeep w2 eq_refl) as (lc2 & Hlc2 & Hw2).
    rewrite (M_bind_eq _ _ _ _ _ (get_chan_Ok _ _ _ Hlc2)), Hw2. by destruct (has _ POLLOUT).
  - cbn. rewrite (M_bind_eq _ _ _ _ _ (get_chan_Ok _ _ _ Hlc)), Hwt. by destruct (has _ POLLOUT).
Qed.

End Listener.
