(* ===== verification/Echo.v ===== *)
(** * The echo server (examples/echo/main.cc)

    The two callbacks of the example and the server set up by its [main].  The
    theorem composes the receive path with the send path: a read event of a
    connection that serves the echo callback puts exactly the bytes received on
    the connection's outgoing stream and leaves the receive buffer empty. *)

From S2P Require Import Prelude Slice Buffer Timestamp Poller World EventLoop TcpConnection Footprint TcpServer TimerQueue Reactor.
Import TcpConnection.

Section Echo.
Context `{Kernel} (inv : Callback → MW unit).

(** The connection callback reads the connection and prints. *)
Definition echo_connection (c : conn_id) : MW unit := _ ← get_conn c; mret tt.

(** The message callback: the readable bytes become a local string, the buffer
    is emptied, the string is sent, and dies at the end of the callback. *)
Definition echo_message (c : conn_id) : MW unit :=
  cn ← get_conn c;
  let buffer := rev_buffer_ cn in
  msg ← mlift (Slice.read_mem (Buffer.peek buffer) (Buffer.readableBytes buffer));
  s ← fresh;
  mmod (fun w : World => w <| strings := <[s := msg]> (strings w) |>) ;;
  mod_conn c (fun cn : TcpConnection => cn <| rev_buffer_ := Buffer.retrieveAll buffer |>) ;;
  Send inv c s ;;
  mmod (fun w : World => w <| strings := delete s (strings w) |>).

#[export] Instance echo_app : App := {|
  app_run _ := mret tt;
  app_connection _ c := echo_connection c;
  app_message _ c _ := echo_message c;
  app_write_complete _ _ := mret tt;
  app_close _ _ := mret tt;
  app_new_connection _ _ _ := mret tt
|}.

(** [main] up to [loop.loop()] *)
Definition echo_setup (inet_aton : bytes → option Z) : MW unit :=
  EventLoop_ctor ;;
  TcpServer.TcpServer_new (InetAddress.InetAddress_new inet_aton (b_ "127.0.0.1") 5000) (b_ "test") ;;
  TcpServer.SetConnectionCallback 0 ;;
  TcpServer.SetMessageCallback 0 ;;
  TcpServer.Start.

End Echo.

(** ** Lemmas *)

Section Theorems.
Context `{HK : Kernel} `{!WriteOk} `{!ClockOk} (inv : Callback → MW unit) (c : conn_id) (base : bytes).
Context (Hshut : inv (TcpConnection_shutdownInLoop c) = shutdownInLoop c).
Context (Hwc : write_complete_ok inv c) (Hwr : no_write_errors).

(** The callback moves what is readable to the outgoing stream. *)
Lemma echo_message_Ok sent w cn :
  reach inv c base w sent → conns w !! c = Some cn → Buffer.wf (rev_buffer_ cn) →
  queue_limit (sent ++ Buffer.contents (rev_buffer_ cn)) →
  ∃ w' cn', echo_message inv c w = Ok (tt, w') ∧
    reach inv c base w' (sent ++ Buffer.contents (rev_buffer_ cn)) ∧
    conns w' !! c = Some cn' ∧ Buffer.contents (rev_buffer_ cn') = [] ∧ Buffer.wf (rev_buffer_ cn') ∧
    use_count cn ≤ use_count cn'.
Proof.
  intros Hr Hc Hwf Hlim. unfold echo_message. set (msg := Buffer.contents (rev_buffer_ cn)) in *.
  rewrite (M_bind_eq _ _ _ _ _ (get_conn_Ok _ _ _ Hc)). rewrite (Buffer.peek_contents _ Hwf). fold msg.
  rewrite (M_bind_eq _ _ w msg w) by done. set (s := next_addr w).
  rewrite (M_bind_eq _ _ w s (w <| next_addr := S s |>)) by done.
  set (w1 := w <| next_addr := S s |> <| strings := <[s := msg]> (strings w) |>).
  rewrite (M_bind_eq _ _ _ tt w1) by done.
  rewrite (M_bind_eq _ _ _ _ _ (mod_conn_Ok c w1 cn _ Hc)).
  set (cn2 := cn <| rev_buffer_ := Buffer.retrieveAll (rev_buffer_ cn) |>).
  set (w2 := w1 <| conns := <[c := cn2]> (conns w1) |>).
  destruct (reach_stream inv c base w sent Hwc Hshut Hr) as (_ & cn0 & ch & pfd & Hst).
  pose proof (st_live _ _ _ _ _ _ _ Hst) as Hl. pose proof (lv_conn _ _ _ _ _ Hl). simplify_eq.
  assert (Hc2 : conns w2 !! c = Some cn2) by apply lookup_insert_eq.
  assert (Hr2 : reach inv c base w2 sent).
  { apply (reach_other inv c base w); [done|].
    apply (other_step_frame c w w2 cn cn2); try done. apply (lv_ref _ _ _ _ _ Hl). }
  destruct (reach_stream inv c base w2 sent Hwc Hshut Hr2) as (_ & cn0 & ch2 & pfd2 & Hst2).
  pose proof (lv_conn _ _ _ _ _ (st_live _ _ _ _ _ _ _ Hst2)). simplify_eq.
  assert (Hs2 : strings w2 !! s = Some msg) by apply lookup_insert_eq.
  destruct (sendInLoop_Ok inv c base sent w2 cn2 ch2 pfd2 s msg Hwc Hst2 Hs2 Hlim)
    as (w3 & cn3 & ch3 & pfd3 & E3 & Hst3 & (Hrv & _ & Hu) & _).
  assert (Hr3 : reach inv c base w3 (sent ++ msg)).
  { rewrite <-(accepted_all c msg w2) at 1; [|done|by rewrite Hc2; eauto]. by eapply reach_send. }
  pose proof (lv_conn _ _ _ _ _ (st_live _ _ _ _ _ _ _ Hst3)) as Hc3.
  assert (Esend : Send inv c s w2 = Ok (tt, w3)).
  { unfold Send, isInLoopThread. rewrite (M_bind_eq _ _ w2 true w2); [done|]. unfold gets.
    by rewrite (rg_thread _ _ _ _ (lv_reg _ _ _ _ _ (st_live _ _ _ _ _ _ _ Hst2))), Z.eqb_refl. }
  rewrite (M_bind_eq _ _ _ _ _ Esend).
  exists (w3 <| strings := delete s (strings w3) |>), cn3. split; [done|].
  split; [|split; [done|rewrite Hrv; split_and!;
    [by apply Buffer.contents_retrieveAll|by apply Buffer.wf_retrieveAll|done]]].
  apply (reach_other inv c base w3); [done|]. apply (other_step_frame c w3 _ cn3 cn3); try done.
  apply (lv_ref _ _ _ _ _ (st_live _ _ _ _ _ _ _ Hst3)).
Qed.

(** The callback touches nothing but its connection and its string. *)
Lemma echo_message_footprint cn0 ch0 w0 :
  0 ≤ index_ ch0 → threadId_ (loop w0) = tid w0 →
  preserves (footprint (fun _ => True) c cn0 ch0 w0) (echo_message inv c) (fun _ => True).
Proof.
  intros Hi Hthr. unfold echo_message.
  eapply preserves_bind; [apply get_conn_footprint|intros cn _].
  eapply preserves_bind; [apply preserves_reader, reader_mlift|intros msg _].
  eapply preserves_bind; [apply fresh_footprint|intros s _].
  eapply preserves_bind; [apply strings_footprint|intros _ _].
  eapply preserves_bind; [by apply mod_conn_footprint|intros _ _].
  eapply preserves_bind; [by apply Send_footprint|intros _ _]. apply strings_footprint.
Qed.

(** A read event that finds data: what it does to its connection, and that it
    does nothing else once the data is in the receive buffer. *)
Lemma echo_read_Ok (close_callback : CloseCallback → conn_id → MW unit) (w : World)
    (sent d : bytes) (u : nat) (cn : TcpConnection) (ch : Channel Callback) (pfd : pollfd) :
  reach inv c base w sent → live c w cn ch pfd → msg_callback_ cn = Some u →
  Buffer.wf (rev_buffer_ cn) →
  len (Buffer.buffer_ (rev_buffer_ cn)) + Buffer.extrabuf_size ≤ Buffer.max_size →
  (∀ vec, Forall (Z.le 0) vec → Buffer.readv_fits vec (k_readv (hist w) (socket_ cn) vec)) →
  k_readv (hist w) (socket_ cn) (Buffer.iovec (rev_buffer_ cn)) = Buffer.ReadvOk d → d ≠ [] →
  let msg := Buffer.contents (rev_buffer_ cn) ++ d in
  queue_limit (sent ++ msg) →
  ∃ b w' cn', HandleRead (H0 := echo_app inv) close_callback c w = Ok (tt, w') ∧
    reach inv c base w' (sent ++ msg) ∧ conns w' !! c = Some cn' ∧
    Buffer.contents (rev_buffer_ cn') = [] ∧ Buffer.wf (rev_buffer_ cn') ∧
    (write_complete_callback_ cn = None → Z.testbit (events_ ch) 0 = true →
     footprint (fun _ => True) c (cn <| rev_buffer_ := b |>) ch (received c cn (Buffer.ReadvOk d) b w) w').
Proof.
  intros Hr Hl Hu Hwf Hcap Hfits Hread Hd msg Hlim. pose proof (lv_conn _ _ _ _ _ Hl) as Hc.
  pose proof (lv_reg _ _ _ _ _ Hl) as Hreg.
  destruct (HandleRead_eval (HA := echo_app inv) close_callback c w cn ch Hc
    (rg_chan _ _ _ _ Hreg) (lv_fd _ _ _ _ _ Hl) Hwf Hcap Hfits) as (b & Hb & Hcase).
  rewrite Hread in Hcase. destruct d as [|x d]; [done|]. destruct Hcase as [Hbc ->].
  exists b. set (cn1 := cn <| rev_buffer_ := b |>). rewrite Hu. cbn [call_opt]. set (w1 := received c cn _ b w).
  destruct (clock_ok (hist w1)) as (t & Ht & _). rewrite (M_bind_eq _ _ _ _ _ (now_eval t w1 Ht)).
  set (w2 := with_hist _ w1). unfold with_shared, conn_acquire.
  assert (Hc2 : conns w2 !! c = Some cn1) by apply lookup_insert_eq.
  rewrite (M_bind_eq _ _ _ _ _ (mod_conn_Ok c w2 cn1 _ Hc2)).
  set (cn3 := cn1 <| use_count := use_count cn1 + 1 |>). set (w3 := w2 <| conns := <[c := cn3]> (conns w2) |>).
  pose proof (lv_ref _ _ _ _ _ Hl) as Href.
  assert (Hc3 : conns w3 !! c = Some cn3) by apply lookup_insert_eq.
  assert (Hr3 : reach inv c base w3 sent).
  { apply (reach_other inv c base w); [done|]. apply (other_step_frame c w w3 cn cn3); try done. cbn. lia. }
  destruct (echo_message_Ok sent w3 cn3 Hr3 Hc3 Hb) as (w4 & cn4 & E4 & Hr4 & Hc4 & Hrv4 & Hwf4 & Hu4);
    [cbn; by rewrite Hbc|]. change (rev_buffer_ cn3) with b in Hr4. rewrite Hbc in Hr4. fold msg in Hr4.
  rewrite (M_bind_eq _ _ _ _ _ E4). unfold conn_release.
  rewrite (M_bind_eq _ _ _ _ _ (get_conn_Ok _ _ _ Hc4)).
  assert (use_count cn + 1 ≤ use_count cn4) by exact Hu4.
  rewrite (proj2 (Z.eqb_neq _ _)) by lia. rewrite (mod_conn_Ok c w4 cn4 _ Hc4).
  do 2 eexists. split; [reflexivity|]. split; [|split; [apply lookup_insert_eq|split; [exact Hrv4|split]]].
  - apply (reach_other inv c base w4); [done|].
    eapply (other_step_frame c w4 _ cn4); [done|apply lookup_insert_eq|done..|cbn; lia].
  - exact Hwf4.
  - intros Hnone Hbit.
    apply (footprint_mod_conn (fun _ => True) c cn1 ch w1 (fun cn : TcpConnection => cn <| use_count := use_count cn - 1 |>) w4 cn4);
      [|done|done].
    eapply echo_message_footprint; [exact (rg_idx _ _ _ _ Hreg)|exact (rg_thread _ _ _ _ Hreg)| |exact E4].
    apply (footprint_mod_conn (fun _ => True) c cn1 ch w1 (fun cn : TcpConnection => cn <| use_count := use_count cn + 1 |>) w2 cn1);
      [|done|done].
    apply (footprint_hist (fun _ => True) c cn1 ch w1 EvGettimeofday w1); [|done].
    apply footprint_refl; [apply lookup_insert_eq|exact (rg_chan _ _ _ _ Hreg)|done..].
Qed.

(** A read event on a connection of the echo server sends back exactly the
    bytes received: what was readable and what has just arrived joins the
    outgoing stream in order, and the receive buffer is empty afterwards, so
    that the connection is ready for the next event. *)
Theorem echo_serves (close_callback : CloseCallback → conn_id → MW unit) (w : World)
    (sent d : bytes) (u : nat) (cn : TcpConnection) :
  reach inv c base w sent → conns w !! c = Some cn → msg_callback_ cn = Some u →
  Buffer.wf (rev_buffer_ cn) →
  len (Buffer.buffer_ (rev_buffer_ cn)) + Buffer.extrabuf_size ≤ Buffer.max_size →
  (∀ vec, Forall (Z.le 0) vec → Buffer.readv_fits vec (k_readv (hist w) (socket_ cn) vec)) →
  k_readv (hist w) (socket_ cn) (Buffer.iovec (rev_buffer_ cn)) = Buffer.ReadvOk d → d ≠ [] →
  let msg := Buffer.contents (rev_buffer_ cn) ++ d in
  queue_limit (sent ++ msg) →
  ∃ w' cn', HandleRead (H0 := echo_app inv) close_callback c w = Ok (tt, w') ∧
    reach inv c base w' (sent ++ msg) ∧ conns w' !! c = Some cn' ∧
    Buffer.contents (rev_buffer_ cn') = [].
Proof.
  intros Hr Hc Hu Hwf Hcap Hfits Hread Hd msg Hlim.
  destruct (reach_stream inv c base w sent Hwc Hshut Hr) as (_ & cn0 & ch & pfd & Hst).
  pose proof (st_live _ _ _ _ _ _ _ Hst) as Hl. pose proof (lv_conn _ _ _ _ _ Hl). simplify_eq.
  destruct (echo_read_Ok close_callback w sent d u cn ch pfd Hr Hl Hu Hwf Hcap Hfits Hread Hd Hlim)
    as (b & w' & cn' & ? & ? & ? & ? & _). by exists w', cn'.
Qed.

End Theorems.

#[export] Instance ex_slow_clock_ok : ClockOk (H := ex_slow_kernel).
Proof. exact ex_clock_ok. Qed.

Definition ex_echo : World := run_in (SetMessageCallback 10 (Some 0%nat)) ex_established.

Lemma echo_serves_witness :
  ∃ w' cn', HandleRead (H := ex_slow_kernel) (H0 := echo_app (H := ex_slow_kernel) ex_invoke)
              (fun _ _ => mret tt) 10 ex_echo = Ok (tt, w') ∧
    reach (H := ex_slow_kernel) ex_invoke 10 [] w' (b_ "ping") ∧ conns w' !! 10%nat = Some cn' ∧
    Buffer.contents (rev_buffer_ cn') = [].
Proof.
  set (cn := ex_cn <| msg_callback_ := Some 0%nat |>).
  apply (echo_serves (HK := ex_slow_kernel) ex_invoke 10 [] eq_refl ex_write_complete
    ltac:(intros h fd d; left; cbn; pose proof (len_nonneg d); lia)
    (fun _ _ => mret tt) ex_echo [] (b_ "ping") 0 cn); try by vm_compute.
  - apply (reach_established _ _ _ _ cn ex_ch (mkpollfd 9 3 0)); [|by vm_compute..].
    by repeat split; vm_compute.
  - intros vec Hv. apply (Buffer.readv_queue_fits (b_ "ping")), Hv.
Defined.
