(* ===== verification/EchoServer.v ===== *)
(** * The echo server over its event loop (examples/echo/main.cc, net/)

    Iterations of the loop of the echo server that serve any number of
    connections at once.  [serving] is the invariant of one connection, [step_of]
    what the handling of its events does to the program: it keeps the invariant of
    this connection and changes nothing that belongs to another one.  The theorem
    is about every state the iterations reach: on every connection the bytes sent
    and queued are the bytes received, and the next iteration returns. *)

From S2P Require Import Prelude Slice Buffer Timestamp Poller World EventLoop TcpConnection Footprint TcpServer TimerQueue Reactor Iteration Startup Listener Echo.
Import TcpConnection.

(** The kernel: [readv(2)] gives no more than was asked for, and no peer closes
    its end (what happens then is the subject of [eof_use_after_free]). *)
Class ReadvOk `{Kernel} := readv_ok : ∀ h fd vec,
  Forall (Z.le 0) vec → Buffer.readv_fits vec (k_readv h fd vec).
Class PeersOpen `{Kernel} := peers_open : ∀ h fd b,
  Buffer.wf b → k_readv h fd (Buffer.iovec b) ≠ Buffer.ReadvOk [].

Section EchoServer.
Context `{HK : Kernel} `{!WriteOk} `{!ClockOk} `{!ReadvOk} `{!PeersOpen} (Hwr : no_write_errors).
(** calling function objects from the loop, and from inside the callbacks *)
Context (inv inv' : Callback → MW unit) (close_callback : CloseCallback → conn_id → MW unit).
Context (Hread : ∀ c, inv (TcpConnection_HandleRead c) =
  HandleRead (H0 := echo_app inv') close_callback c).
Context (Hwrite : ∀ c w, inv (TcpConnection_HandleWrite c) w = HandleWrite inv' c w).
Context (Haccept : inv Acceptor_handleRead = Acceptor.handleRead (new_connection (H0 := echo_app inv'))).
Context (Hshut : ∀ c, inv' (TcpConnection_shutdownInLoop c) = shutdownInLoop c).
Context (Hwc : ∀ u c, inv' (WriteComplete u c) = mret tt).

(** Connection [c] is in service: its outgoing stream has, since the descriptor
    was accepted, what the connection received; both handlers are installed, and
    nothing is left in the receive buffer. *)
Record serving (c : conn_id) (w : World) (cn : TcpConnection) (ch : Channel Callback) (pfd : pollfd)
    : Prop := {
  sv_reach : ∃ base, reach inv' c base w (session_in (socket_ cn) (hist w)) ∧
    wire (socket_ cn) (hist w) = base ++ session_out (socket_ cn) (hist w);
  sv_live : live c w cn ch pfd;
  sv_msg : is_Some (msg_callback_ cn);
  sv_wc : write_complete_callback_ cn = None;
  sv_read : read_callback_ ch = Some (TcpConnection_HandleRead c);
  sv_write : write_callback_ ch = Some (TcpConnection_HandleWrite c);
  sv_wf : Buffer.wf (rev_buffer_ cn);
  sv_empty : Buffer.contents (rev_buffer_ cn) = []
}.

Definition serves (c : conn_id) (w : World) : Prop := ∃ cn ch pfd, serving c w cn ch pfd.

(** Room for one more read on the connection *)
Definition room (cn : TcpConnection) (h : history) : Prop :=
  Buffer.kCheapPrepend + Buffer.kInitialSize + len (session_in (socket_ cn) h) +
    len (Buffer.buffer_ (rev_buffer_ cn)) + Buffer.extrabuf_size ≤ Buffer.max_size.

(** The listening side: the channel of the listening socket calls the acceptor,
    which calls the server; the server hands out the callbacks of the example;
    the map and the addresses are well formed. *)
Record listening (w : World) : Prop := {
  ls_thread : threadId_ (loop w) = tid w;
  ls_chan : ∃ ch, chans w !! listen_channel_ (acceptor_ w) = Some ch ∧
    read_callback_ ch = Some Acceptor_handleRead ∧ write_callback_ ch = None;
  ls_accept : new_conn_callback_ (acceptor_ w) = Some TcpServer_newConnection;
  ls_callbacks : is_Some (server_msg_callback_ (server w)) ∧ server_wc_callback_ (server w) = None;
  ls_server : TcpServer.server_wf w;
  ls_fresh k : is_Some (chans w !! k) → (k < next_addr w)%nat
}.

(** The next descriptor can be accepted: the counters are not exhausted, and the
    kernel hands out a descriptor the poller does not know. *)
Definition can_accept (w : World) : Prop :=
  next_conn_id_ (server w) < 2 ^ 31 - 1 ∧ len (Poller.fds (poller (loop w))) < 2 ^ 31 - 1 ∧
  ∀ h, hist w `suffix_of` h →
    let fd := (k_accept h (listen_socket_ (acceptor_ w))).1 in
    0 ≤ fd ∧ channels_ (poller (loop w)) !! fd = None.

(** What the operations of connection [c] with channel [k] do to the program *)
Record step_of (c : conn_id) (k : chan_id) (w w' : World) : Prop := {
  so_others c' cn ch pfd : c' ≠ c → serving c' w cn ch pfd →
    serving c' w' cn ch pfd ∧ session_in (socket_ cn) (hist w') = session_in (socket_ cn) (hist w);
  so_conns c' : is_Some (conns w' !! c') → is_Some (conns w !! c');
  so_reg : Poller.reg_wf (poller (loop w)) (chans w) → Poller.reg_wf (poller (loop w')) (chans w');
  so_functors : functors_ (loop w') = functors_ (loop w);
  so_listen : listening w → listening w';
  so_accept : can_accept w → can_accept w';
  so_acceptor : acceptor_ w' = acceptor_ w;
  so_chans k' : k' ≠ k → chans w' !! k' = chans w !! k'
}.

(** ** Lemmas *)

Lemma step_of_refl c k w : step_of c k w w.
Proof. by split. Qed.

Lemma step_of_trans c k w1 w2 w3 : step_of c k w1 w2 → step_of c k w2 w3 → step_of c k w1 w3.
Proof.
  intros S1 S2. split.
  - intros c' cn ch pfd Hne Hs. destruct (so_others _ _ _ _ S1 c' cn ch pfd Hne Hs) as [Hs2 E2].
    destruct (so_others _ _ _ _ S2 c' cn ch pfd Hne Hs2) as [Hs3 E3]. split; [done|congruence].
  - intros c' Hc. by eapply (so_conns _ _ _ _ S1), (so_conns _ _ _ _ S2).
  - intros. by apply (so_reg _ _ _ _ S2), (so_reg _ _ _ _ S1).
  - by rewrite (so_functors _ _ _ _ S2), (so_functors _ _ _ _ S1).
  - intros. by apply (so_listen _ _ _ _ S2), (so_listen _ _ _ _ S1).
  - intros. by apply (so_accept _ _ _ _ S2), (so_accept _ _ _ _ S1).
  - by rewrite (so_acceptor _ _ _ _ S2), (so_acceptor _ _ _ _ S1).
  - intros k' Hk. by rewrite (so_chans _ _ _ _ S2), (so_chans _ _ _ _ S1).
Qed.

Lemma write_complete_echo c : write_complete_ok inv' c.
Proof.
  intros u w cn ch pfd Hl. exists w, cn, ch, pfd. rewrite Hwc. split; [done|]. split; [done|].
  split; [by repeat split|]. split; [done|]. apply kept_refl.
Qed.

(** A live connection has one record, one channel and one entry. *)
Lemma live_unique c w cn ch pfd cn' ch' pfd' :
  live c w cn ch pfd → live c w cn' ch' pfd' → cn' = cn ∧ ch' = ch ∧ pfd' = pfd.
Proof.
  intros [Hc [] _ _] [Hc' [] _ _]. simplify_eq. done.
Qed.

(** The outgoing stream of a connection in service *)
Lemma serving_stream c w cn ch pfd :
  serving c w cn ch pfd → let got := session_in (socket_ cn) (hist w) in
  queue_limit got ∧ ∃ base, reach inv' c base w got ∧ stream c base got w cn ch pfd ∧
    wire (socket_ cn) (hist w) = base ++ session_out (socket_ cn) (hist w).
Proof.
  intros [(base & Hr & Hw) Hl _ _ _ _ _ _] got.
  destruct (reach_stream inv' c base w got (write_complete_echo c) (Hshut c) Hr)
    as (Hq & cn1 & ch1 & pfd1 & Hst). split; [done|]. exists base. split; [done|]. split; [|done].
  by destruct (live_unique _ _ _ _ _ _ _ _ Hl (st_live _ _ _ _ _ _ _ Hst)) as (-> & -> & ->).
Qed.

Lemma serving_bit c w cn ch pfd : serving c w cn ch pfd → Z.testbit (events_ ch) 0 = true.
Proof.
  intros Hs. destruct (serving_stream _ _ _ _ _ Hs) as (_ & base & _ & Hst & _).
  rewrite (st_mask _ _ _ _ _ _ _ Hst). by destruct (Buffer.contents _).
Qed.

(** Connections in service have channels, descriptors and entries of their own:
    the read callback of a channel tells whose it is. *)
Lemma other_channel c cn0 ch0 pfd0 w c' cn ch pfd :
  live c w cn0 ch0 pfd0 → read_callback_ ch0 = Some (TcpConnection_HandleRead c) → c' ≠ c →
  serving c' w cn ch pfd →
  channel_ cn ≠ channel_ cn0 ∧ fd_ ch ≠ fd_ ch0 ∧ Z.to_nat (index_ ch) ≠ Z.to_nat (index_ ch0).
Proof.
  intros Hl0 Hr0 Hne Hs. pose proof (sv_live _ _ _ _ _ Hs) as Hl. pose proof (sv_read _ _ _ _ _ Hs) as Hr.
  assert (channel_ cn ≠ channel_ cn0); [|split; [done|by eapply live_distinct]].
  intros E. pose proof (rg_chan _ _ _ _ (lv_reg _ _ _ _ _ Hl)).
  pose proof (rg_chan _ _ _ _ (lv_reg _ _ _ _ _ Hl0)). rewrite E in *. by simplify_eq.
Qed.

(** A step of the rest of the program in which the session goes on *)
Lemma serving_other c w w' cn ch pfd ch' pfd' l :
  serving c w cn ch pfd → other_step c w w' → live c w' cn ch' pfd' →
  read_callback_ ch' = read_callback_ ch → write_callback_ ch' = write_callback_ ch →
  hist w' = l ++ hist w → (∀ lfd, EvAccept lfd (socket_ cn) ∉ l) →
  session_in (socket_ cn) (hist w') = session_in (socket_ cn) (hist w) →
  serving c w' cn ch' pfd'.
Proof.
  intros [(base & Hre & Hwi) Hl Hm Hw Hrd Hwt Hwf He] Ho Hl' Er Ew Hh Ha Hin.
  split; try done; [|congruence..].
  exists base. rewrite Hin. split; [by apply (reach_other _ _ _ w)|].
  destruct (session_grows (socket_ cn) l (hist w) Ha) as (x & Ex & Eo). rewrite Hh, Ex, Eo, Hwi.
  by rewrite app_assoc.
Qed.

(** The listening side is kept by what changes one connection and its channel. *)
Lemma listening_kept c k w w' cn cn' ch ch' :
  tid w' = tid w → threadId_ (loop w') = threadId_ (loop w) → acceptor_ w' = acceptor_ w →
  server w' = server w → (next_addr w ≤ next_addr w')%nat →
  conns w !! c = Some cn → conns w' !! c = Some cn' → name_ cn' = name_ cn → 1 ≤ use_count cn' →
  (∀ d, d ≠ c → conns w' !! d = conns w !! d) →
  chans w !! k = Some ch → chans w' !! k = Some ch' → same_handlers ch ch' →
  (∀ j, j ≠ k → chans w' !! j = chans w !! j) → listening w → listening w'.
Proof.
  intros Et El Ea Es Hn Hc Hc' Enm Hu Hcs Hk Hk' Hsh Hks [Hthr Hch Hacc Hcb [Hnames Hlive Hfresh Hge] Hfr].
  assert (Hd : ∀ d, is_Some (conns w' !! d) → is_Some (conns w !! d)).
  { intros d. destruct (decide (d = c)) as [->|]; [by rewrite Hc|by rewrite Hcs]. }
  split; rewrite ?Et, ?El, ?Ea, ?Es; try done.
  - destruct Hch as (lc & Hlc & Hr & Hw). destruct (decide (listen_channel_ (acceptor_ w) = k)) as [E|Hne].
    + rewrite E in *. simplify_eq. exists ch'. destruct Hsh as (_ & ? & ? & _). split_and!; congruence.
    + exists lc. by rewrite Hks.
  - split; rewrite ?Es; try done.
    + intros name d Hm. destruct (Hlive name d Hm) as (x & Hx & Hxn & Hxu).
      destruct (decide (d = c)) as [->|]; [|rewrite Hcs by done; eauto].
      simplify_eq. exists cn'. by split_and!.
    + intros d Hs. specialize (Hfresh d (Hd d Hs)). lia.
  - intros j Hj. assert (is_Some (chans w !! j)) as Hs.
    { destruct (decide (j = k)) as [->|]; [by rewrite Hk|by rewrite <-Hks]. }
    specialize (Hfr j Hs). lia.
Qed.

Lemma can_accept_kept l w w' :
  server w' = server w → acceptor_ w' = acceptor_ w → hist w' = l ++ hist w →
  Poller.fds (poller (loop w')) = Poller.fds (poller (loop w)) →
  channels_ (poller (loop w')) = channels_ (poller (loop w)) → can_accept w → can_accept w'.
Proof.
  intros Es Ea Eh Ef Em (Hid & Hlen & Hacc). unfold can_accept. rewrite Es, Ea, Ef, Em, Eh.
  split; [done|]. split; [done|]. intros h Hh. apply Hacc. etrans; [|exact Hh]. by exists l.
Qed.

(** Whatever has the footprint of one connection is a step of it. *)
Lemma footprint_step_of RB c cn0 ch0 pfd0 w0 w cn :
  footprint RB c cn0 ch0 w0 w → live c w0 cn0 ch0 pfd0 →
  read_callback_ ch0 = Some (TcpConnection_HandleRead c) →
  conns w !! c = Some cn → 1 ≤ use_count cn → step_of c (channel_ cn0) w0 w.
Proof.
  intros Hf Hl Hr Hc Hu. pose proof (rg_chan _ _ _ _ (lv_reg _ _ _ _ _ Hl)) as Hch.
  pose proof (lv_conn _ _ _ _ _ Hl) as Hc0. destruct (fp_hist _ _ _ _ _ _ Hf) as (l & Hh & Hq).
  pose proof (fp_loop _ _ _ _ _ _ Hf) as El.
  destruct (fp_conn _ _ _ _ _ _ Hf) as (cn1 & Hc1 & _ & _ & _ & _ & Enm & _). simplify_eq.
  destruct (fp_chan _ _ _ _ _ _ Hf) as (ch1 & Hch1 & Hsh & _). split.
  - intros c' cn' ch' pfd' Hne Hs.
    destruct (other_channel c cn0 ch0 pfd0 w0 c' cn' ch' pfd' Hl Hr Hne Hs) as (Hk & Hfd & Hi).
    split; [|by eapply fp_in]. pose proof (sv_live _ _ _ _ _ Hs) as Hl'.
    eapply (serving_other c' w0 w cn' ch' pfd' ch' pfd' l); try done.
    + by eapply footprint_other_step.
    + by eapply footprint_live.
    + intros lfd. by eapply quiet_accept.
    + by eapply fp_in.
  - intros c' Hs. destruct (decide (c' = c)) as [->|Hne]; [by rewrite Hc0|].
    by rewrite <-(fp_conns _ _ _ _ _ _ Hf).
  - by eapply footprint_reg_wf.
  - by rewrite El.
  - eapply (listening_kept c (channel_ cn0) w0 w cn0 cn ch0 ch1); try done; [apply Hf|by rewrite El|apply Hf..].
  - eapply can_accept_kept; try done; apply Hf.
  - apply Hf.
  - apply Hf.
Qed.

(** The connection itself after operations with its footprint *)
Lemma serving_self RB c cn0 ch0 w0 w cn base :
  let fd := socket_ cn0 in
  footprint RB c cn0 ch0 w0 w → reach inv' c base w (session_in fd (hist w0)) → conns w !! c = Some cn →
  wire fd (hist w0) = base ++ session_out fd (hist w0) → is_Some (msg_callback_ cn0) →
  read_callback_ ch0 = Some (TcpConnection_HandleRead c) →
  write_callback_ ch0 = Some (TcpConnection_HandleWrite c) →
  Buffer.wf (rev_buffer_ cn) → Buffer.contents (rev_buffer_ cn) = [] →
  ∃ ch pfd, serving c w cn ch pfd ∧ channel_ cn = channel_ cn0.
Proof.
  intros fd Hf Hr Hc Hwi Hm Hrd Hwt Hwf He.
  destruct (reach_stream inv' c base w _ (write_complete_echo c) (Hshut c) Hr)
    as (_ & cn1 & ch & pfd & Hst). pose proof (st_live _ _ _ _ _ _ _ Hst) as Hl.
  pose proof (lv_conn _ _ _ _ _ Hl). simplify_eq.
  destruct (fp_conn _ _ _ _ _ _ Hf) as (cn2 & Hc2 & Ek & Es & Em & Ew & _). simplify_eq.
  destruct (fp_chan _ _ _ _ _ _ Hf) as (ch2 & Hch2 & Hsh & _).
  pose proof (rg_chan _ _ _ _ (lv_reg _ _ _ _ _ Hl)) as Hch. rewrite Ek in Hch.
  assert (ch2 = ch) as -> by congruence.
  exists ch, pfd. split; [|done]. pose proof Hsh as (_ & E1 & E2 & _).
  split; try done; [|by rewrite Em|congruence|congruence]. exists base. rewrite Es. fold fd.
  destruct (fp_out _ _ _ _ _ w fd Hf) as (x & Ex & Eo).
  rewrite (fp_in _ _ _ _ _ w fd Hf), Ex, Eo, Hwi. split; [done|]. by rewrite app_assoc.
Qed.

(** *** Write events *)
Lemma write_event_Ok c w cn ch pfd :
  serving c w cn ch pfd →
  ∃ w' cn' ch' pfd', HandleWrite inv' c w = Ok (tt, w') ∧ serving c w' cn' ch' pfd' ∧
    channel_ cn' = channel_ cn ∧ step_of c (channel_ cn) w w'.
Proof.
  intros Hs. destruct (serving_stream _ _ _ _ _ Hs) as (Hq & base & Hr & Hst & Hwi).
  pose proof (serving_bit _ _ _ _ _ Hs) as Hbit. pose proof Hs as [_ Hl Hm Hn Hrd Hwt Hwf He].
  pose proof (lv_conn _ _ _ _ _ Hl) as Hc. pose proof (lv_reg _ _ _ _ _ Hl) as Hreg.
  destruct (HandleWrite_Ok inv' c base _ w cn ch pfd (write_complete_echo c) Hst Hq)
    as (w' & cn' & ch' & pfd' & E & _).
  assert (Hf : footprint (eq (rev_buffer_ cn)) c cn ch w w').
  { eapply HandleWrite_footprint; [exact (rg_idx _ _ _ _ Hreg)| |exact E].
    apply footprint_refl; [done|exact (rg_chan _ _ _ _ Hreg)|done..]. }
  destruct (fp_conn _ _ _ _ _ _ Hf) as (cn1 & Hc1 & _ & _ & _ & _ & _ & Hrv).
  destruct (serving_self _ c cn ch w w' cn1 base Hf) as (ch1 & pfd1 & Hs1 & Hk1);
    [by eapply reach_write|done..|by rewrite <-Hrv|by rewrite <-Hrv|].
  exists w', cn1, ch1, pfd1. split; [done|]. split; [done|]. split; [done|].
  eapply footprint_step_of; [done..|]. apply (lv_ref _ _ _ _ _ (sv_live _ _ _ _ _ Hs1)).
Qed.

(** *** Read events *)

Lemma live_received c w cn ch pfd r b :
  live c w cn ch pfd → live c (received c cn r b w) (cn <| rev_buffer_ := b |>) ch pfd.
Proof.
  intros Hl. refine (live_mod_conn c (w <| hist := EvReadv (socket_ cn) r :: hist w |>)
    cn ch pfd (cn <| rev_buffer_ := b |>) _ eq_refl eq_refl (lv_ref _ _ _ _ _ Hl)).
  by apply live_hist.
Qed.

Lemma received_step_of c cn ch pfd r b w :
  live c w cn ch pfd → read_callback_ ch = Some (TcpConnection_HandleRead c) →
  step_of c (channel_ cn) w (received c cn r b w).
Proof.
  intros Hl0 Hr0. set (w' := received c cn r b w). pose proof (lv_conn _ _ _ _ _ Hl0) as Hc0.
  pose proof (rg_chan _ _ _ _ (lv_reg _ _ _ _ _ Hl0)) as Hch. split; try done.
  - intros c' cn' ch' pfd' Hne Hs. pose proof (sv_live _ _ _ _ _ Hs) as Hl.
    destruct (other_channel c cn ch pfd w c' cn' ch' pfd' Hl0 Hr0 Hne Hs) as (_ & Hfd & _).
    rewrite (lv_fd _ _ _ _ _ Hl), (lv_fd _ _ _ _ _ Hl0) in Hfd.
    assert (Hin : session_in (socket_ cn') (hist w') = session_in (socket_ cn') (hist w)).
    { cbn. destruct r; [done|]. by rewrite (proj2 (Z.eqb_neq _ _)) by done. }
    assert (Hc' : conns w' !! c' = Some cn').
    { cbn. rewrite lookup_insert_ne by done. apply (lv_conn _ _ _ _ _ Hl). }
    split; [|done]. eapply (serving_other c' w w' cn' ch' pfd' ch' pfd' [EvReadv (socket_ cn) r]); try done.
    + apply (other_step_frame c' w _ cn' cn'); try done; apply Hl.
    + destruct Hl as [? Hreg ? ?]. split; try done. by eapply registered_frame.
    + intros lfd Hin'. by apply list_elem_of_singleton in Hin'.
  - intros c' Hs. cbn in Hs. destruct (decide (c' = c)) as [->|Hne]; [by rewrite Hc0|].
    by rewrite lookup_insert_ne in Hs by done.
  - apply (listening_kept c (channel_ cn) w w' cn (cn <| rev_buffer_ := b |>) ch ch); try done.
    + apply lookup_insert_eq.
    + apply (lv_ref _ _ _ _ _ Hl0).
    + intros d Hne. by apply lookup_insert_ne.
  - by apply (can_accept_kept [EvReadv (socket_ cn) r]).
Qed.

(** A read fits into the room that is left. *)
Lemma room_limits cn h d :
  Buffer.wf (rev_buffer_ cn) → room cn h →
  k_readv h (socket_ cn) (Buffer.iovec (rev_buffer_ cn)) = Buffer.ReadvOk d →
  queue_limit (session_in (socket_ cn) h ++ d).
Proof.
  intros Hwf Hroom Hk. destruct (Buffer.iovec_sum _ Hwf) as [Hpos Hsum].
  pose proof (readv_ok h (socket_ cn) _ Hpos) as Hfit. rewrite Hk in Hfit. cbn in Hfit. rewrite Hsum in Hfit.
  clear Hsum. unfold room, queue_limit in *. rewrite len_app.
  unfold Buffer.wf, Buffer.kCheapPrepend, Buffer.kInitialSize, Buffer.extrabuf_size in *.
  case_match; lia.
Qed.

Lemma room_cap cn h : room cn h → len (Buffer.buffer_ (rev_buffer_ cn)) + Buffer.extrabuf_size ≤ Buffer.max_size.
Proof.
  unfold room. pose proof (len_nonneg (session_in (socket_ cn) h)).
  unfold Buffer.kCheapPrepend, Buffer.kInitialSize. lia.
Qed.

(** [readv(2)] failed: the error is logged and nothing else happens. *)
Lemma read_error_Ok c w cn ch pfd e :
  serving c w cn ch pfd → room cn (hist w) →
  k_readv (hist w) (socket_ cn) (Buffer.iovec (rev_buffer_ cn)) = Buffer.ReadvErr e →
  ∃ w', inv (TcpConnection_HandleRead c) w = Ok (tt, w') ∧
    serving c w' cn ch pfd ∧ step_of c (channel_ cn) w w'.
Proof.
  intros Hs Hroom Hk. pose proof Hs as [_ Hl _ _ Hrd _ Hwf _]. rewrite Hread.
  pose proof (lv_conn _ _ _ _ _ Hl) as Hc.
  destruct (HandleRead_eval (HA := echo_app inv') close_callback c w cn ch Hc
    (rg_chan _ _ _ _ (lv_reg _ _ _ _ _ Hl)) (lv_fd _ _ _ _ _ Hl) Hwf (room_cap _ _ Hroom)
    (fun vec => readv_ok (hist w) (socket_ cn) vec)) as (b & _ & Hcase).
  rewrite Hk in Hcase. destruct Hcase as [-> ->].
  pose proof (live_received c w cn ch pfd (Buffer.ReadvErr e) (rev_buffer_ cn) Hl) as Hl1.
  assert (cn <| rev_buffer_ := rev_buffer_ cn |> = cn) as Ecn by (by destruct cn). rewrite Ecn in Hl1.
  pose proof (received_step_of c cn ch pfd (Buffer.ReadvErr e) (rev_buffer_ cn) w Hl Hrd) as Hso.
  set (w1 := received _ _ _ _ _) in *. exists w1. split; [done|]. split; [|done].
  eapply (serving_other c w w1 cn ch pfd ch pfd [EvReadv (socket_ cn) (Buffer.ReadvErr e)]); try done.
  - apply (other_step_frame c w w1 cn cn); try done; [apply Hl1|apply Hl].
  - intros lfd Hin. by apply list_elem_of_singleton in Hin.
Qed.

Lemma read_event_Ok c w cn ch pfd :
  serving c w cn ch pfd → room cn (hist w) →
  ∃ w' cn' ch' pfd', inv (TcpConnection_HandleRead c) w = Ok (tt, w') ∧
    serving c w' cn' ch' pfd' ∧ channel_ cn' = channel_ cn ∧ step_of c (channel_ cn) w w'.
Proof.
  intros Hs Hroom.
  destruct (k_readv (hist w) (socket_ cn) (Buffer.iovec (rev_buffer_ cn))) as [e|d] eqn:Hk.
  { destruct (read_error_Ok c w cn ch pfd e Hs Hroom Hk) as (w' & ? & ? & ?). by exists w', cn, ch, pfd. }
  pose proof (serving_bit _ _ _ _ _ Hs) as Hbit. pose proof Hs as [(base & Hr & Hwi) Hl [u Hu] Hn Hrd Hwt Hwf He].
  assert (Hd : d ≠ []) by (intros ->; by eapply peers_open).
  pose proof (room_limits cn (hist w) d Hwf Hroom Hk) as Hlim. rewrite Hread.
  destruct (echo_read_Ok inv' c base (Hshut c) (write_complete_echo c) Hwr close_callback w _ d u
    cn ch pfd Hr Hl Hu Hwf (room_cap _ _ Hroom) (fun vec => readv_ok (hist w) (socket_ cn) vec))
    as (b & w' & cn' & E & Hr' & Hc' & He' & Hwf' & Hf); [done|done|by rewrite He|].
  rewrite He in Hr'. cbn [app] in Hr'. specialize (Hf Hn Hbit).
  pose proof (live_received c w cn ch pfd (Buffer.ReadvOk d) b Hl) as Hl1.
  pose proof (received_step_of c cn ch pfd (Buffer.ReadvOk d) b w Hl Hrd) as Hso.
  set (w1 := received _ _ _ _ _) in *.
  destruct (serving_self _ c _ ch w1 w' cn' base Hf) as (ch' & pfd' & Hs' & Hk');
    [|done|done|by eexists|done..|].
  { cbn [w1 received hist socket_ session_in]. by rewrite Z.eqb_refl. }
  exists w', cn', ch', pfd'. split; [done|]. split; [done|]. split; [done|].
  eapply step_of_trans; [done|].
  apply (footprint_step_of _ c (cn <| rev_buffer_ := b |>) ch pfd w1 w' cn' Hf Hl1 Hrd Hc').
  apply (lv_ref _ _ _ _ _ (sv_live _ _ _ _ _ Hs')).
Qed.

(** *** All events of a connection *)

Lemma event_Ok c w cn ch pfd :
  serving c w cn ch pfd → room cn (hist w) → calm (revents_ ch) →
  ∃ w' cn' ch' pfd', HandleEvent inv (channel_ cn) w = Ok (tt, w') ∧ serving c w' cn' ch' pfd' ∧
    channel_ cn' = channel_ cn ∧ step_of c (channel_ cn) w w'.
Proof.
  intros Hs Hroom [Hhup Herr]%calm_has.
  pose proof (rg_chan _ _ _ _ (lv_reg _ _ _ _ _ (sv_live _ _ _ _ _ Hs))) as Hch.
  unfold HandleEvent. rewrite (M_bind_eq _ _ _ _ _ (get_chan_Ok _ _ _ Hch)), Hhup, Herr. cbn [andb].
  rewrite (M_bind_eq _ _ w tt w) by done. rewrite (M_bind_eq _ _ _ _ _ (get_chan_Ok _ _ _ Hch)).
  rewrite (sv_read _ _ _ _ _ Hs). cbn [call_opt].
  set (rd := has (revents_ ch) (Z.lor POLLIN (Z.lor POLLPRI POLLRDHUP))).
  assert (∃ w1 cn1 ch1 pfd1, (if rd then inv (TcpConnection_HandleRead c) else mret tt) w = Ok (tt, w1) ∧
      serving c w1 cn1 ch1 pfd1 ∧ channel_ cn1 = channel_ cn ∧ step_of c (channel_ cn) w w1)
    as (w1 & cn1 & ch1 & pfd1 & E1 & Hs1 & Hk1 & Hst1).
  { destruct rd; [by apply read_event_Ok with ch pfd|].
    exists w, cn, ch, pfd. split_and!; [done..|apply step_of_refl]. }
  rewrite (M_bind_eq _ _ _ _ _ E1). rewrite <-Hk1.
  pose proof (rg_chan _ _ _ _ (lv_reg _ _ _ _ _ (sv_live _ _ _ _ _ Hs1))) as Hch1.
  rewrite (M_bind_eq _ _ _ _ _ (get_chan_Ok _ _ _ Hch1)). rewrite (sv_write _ _ _ _ _ Hs1).
  cbn [call_opt]. rewrite <-Hk1 in Hst1. destruct (has (revents_ ch1) POLLOUT).
  - destruct (write_event_Ok c w1 cn1 ch1 pfd1 Hs1) as (w2 & cn2 & ch2 & pfd2 & E2 & Hs2 & Hk2 & Hst2).
    rewrite Hwrite. exists w2, cn2, ch2, pfd2. split_and!; [done..|by eapply step_of_trans].
  - by exists w1, cn1, ch1, pfd1.
Qed.

(** *** Accepting *)

(** World [w'] is [w] after a new connection was accepted. *)
Record accepts (w w' : World) (cn : TcpConnection) (ch : Channel Callback) (pfd : pollfd) : Prop := {
  ac_fd : 0 ≤ socket_ cn ∧ channels_ (poller (loop w)) !! socket_ cn = None;
  ac_live : live (next_addr w) w' cn ch pfd;
  ac_chan : channel_ cn = S (next_addr w);
  ac_events : events_ ch = Channel.kReadEvent ∧
    read_callback_ ch = Some (TcpConnection_HandleRead (next_addr w)) ∧
    write_callback_ ch = Some (TcpConnection_HandleWrite (next_addr w));
  ac_buffers : Buffer.Buffer_new Buffer.kInitialSize = Ok (snd_buffer_ cn) ∧ rev_buffer_ cn = snd_buffer_ cn;
  ac_callbacks : msg_callback_ cn = server_msg_callback_ (server w) ∧
    write_complete_callback_ cn = server_wc_callback_ (server w);
  ac_conns : conns w' = <[next_addr w := cn]> (conns w);
  ac_hist : hist w' = EvAccept (listen_socket_ (acceptor_ w)) (socket_ cn) :: hist w;
  ac_server : server_msg_callback_ (server w') = server_msg_callback_ (server w) ∧
    server_wc_callback_ (server w') = server_wc_callback_ (server w) ∧ TcpServer.server_wf w';
  ac_next : next_addr w' = S (S (next_addr w));
  ac_acceptor : acceptor_ w' = acceptor_ w;
  ac_chans k : k ≠ S (next_addr w) → chans w' !! k = chans w !! k;
  ac_tid : tid w' = tid w;
  ac_loop : loop w' = (loop w) <| poller :=
    TcpServer.registering (socket_ cn) (S (next_addr w)) (poller (loop w)) |>
}.

(** The connection callback of the example changes nothing. *)
Lemma echo_connection_Ok c cn o w :
  1 ≤ use_count cn →
  call_opt (fun u => with_shared c (app_connection (App := echo_app inv') u c)) o (TcpServer.set_conn c cn w) =
    Ok (tt, TcpServer.set_conn c cn w).
Proof.
  intros Hu. destruct o as [u|]; [|done]. cbn [call_opt]. unfold with_shared.
  set (cn1 := cn <| use_count := use_count cn + 1 |>).
  rewrite (M_bind_eq _ _ _ _ _ (TcpServer.acquire_set_conn _ _ _)). fold cn1.
  rewrite (M_bind_eq _ _ _ tt (TcpServer.set_conn c cn1 w)).
  2: { cbn. unfold echo_connection.
       by rewrite (M_bind_eq _ _ _ _ _ (get_conn_Ok _ _ _ (TcpServer.set_conn_lookup c cn1 w))). }
  rewrite TcpServer.release_set_conn by (cbn; lia). do 3 f_equal.
  unfold cn1. cbn. replace (use_count cn + 1 - 1) with (use_count cn) by lia. by destruct cn.
Qed.

Lemma accept_Ok w :
  listening w → can_accept w →
  ∃ w' cn ch pfd, inv Acceptor_handleRead w = Ok (tt, w') ∧ accepts w w' cn ch pfd.
Proof.
  intros [Hthr _ Hacc _ Hsw _] (Hid & Hlen & Hk). destruct (Hk (hist w)) as [Hfd Hm]; [done|].
  set (lfd := listen_socket_ (acceptor_ w)) in *. set (fd := (k_accept (hist w) lfd).1) in *.
  set (w1 := w <| hist := EvAccept lfd fd :: hist w |>).
  rewrite Haccept. unfold Acceptor.handleRead.
  rewrite (M_bind_eq _ _ _ _ _ (assertInLoopThread_true w Hthr)).
  rewrite (M_bind_eq _ _ w (acceptor_ w) w) by done.
  rewrite (M_bind_eq _ _ w (k_accept (hist w) lfd) w1) by done. cbv zeta. fold fd.
  rewrite (proj2 (Z.ltb_ge _ _)), Hacc by done. cbn [new_connection].
  assert (Hsw1 : TcpServer.server_wf w1) by by destruct Hsw.
  unfold Poller.fds, len in Hlen. rewrite length_fmap in Hlen.
  destruct (TcpServer.newConnection_Ok (H0 := echo_app inv') fd (k_accept (hist w) lfd).2 w1 Hthr Hm Hlen Hsw1 Hid)
    as (b & wE & ch & pfd & Hb & -> & Hl & He & Hrd & Hwt & _ & Hcs & Hh & Hs & Hn & Ha & Hch & Ht & Hlp).
  change (next_addr w1) with (next_addr w) in *. set (c := next_addr w) in *.
  pose proof (TcpServer.server_wf_new fd _ b w1 wE Hsw1 Hcs Hs Hn) as HswE.
  set (cn := TcpServer.new_conn _ _ _ _ _) in *.
  assert (TcpServer.set_conn c cn wE = wE) as EwE.
  { apply TcpServer.set_conn_id. by rewrite Hcs, lookup_insert_eq. }
  pose proof (echo_connection_Ok c cn (server_conn_callback_ (server w1)) wE ltac:(done)) as E1.
  pose proof (TcpServer.release_set_conn c cn wE ltac:(done)) as E2. rewrite EwE in E1, E2.
  rewrite (M_bind_eq _ _ _ _ _ E1), E2. set (cn1 := cn <| use_count := use_count cn - 1 |>).
  exists (TcpServer.set_conn c cn1 wE), cn1, ch, pfd. split; [done|]. split; try done.
  - by apply live_mod_conn with cn.
  - unfold TcpServer.set_conn. cbn [conns]. by rewrite Hcs, insert_insert_eq.
  - change (server (TcpServer.set_conn c cn1 wE)) with (server wE).
    rewrite Hs at 1 2. split; [done|]. split; [done|]. destruct HswE as [Hnm Hlv Hfr Hge]. split; try done.
    + intros name d Hd. destruct (Hlv name d Hd) as (x & Hx & Hxn & Hxu). cbn.
      destruct (decide (d = c)) as [->|Hne]; [|rewrite lookup_insert_ne by done; eauto].
      rewrite lookup_insert_eq. exists cn1. split; [done|]. rewrite Hcs, lookup_insert_eq in Hx. by simplify_eq.
    + intros d Hd. apply Hfr. rewrite Hcs. cbn in Hd. rewrite Hcs in Hd.
      rewrite lookup_insert_is_Some in Hd |- *. destruct Hd as [|[? Hd]]; [by left|].
      by rewrite lookup_insert_is_Some in Hd.
Qed.

Section Accepted.
Context (w w' : World) (cn : TcpConnection) (ch : Channel Callback) (pfd : pollfd).
Context (Hls : listening w) (Hac : accepts w w' cn ch pfd).

Lemma accepted_conn c : is_Some (conns w !! c) → (c < next_addr w)%nat.
Proof. apply (TcpServer.sw_fresh _ (ls_server _ Hls)). Qed.

Lemma accepted_serving : serving (next_addr w) w' cn ch pfd.
Proof.
  destruct Hac as [_ Hl _ (He & Hrd & Hwt) (Hb & Erv) (Em & Ew) _ Hh _ _ _ _ _ _].
  destruct (ls_callbacks _ Hls) as [Hm Hn].
  destruct (Buffer.Buffer_new_Ok Buffer.kInitialSize) as (b & Hb' & Hbw & Hbc & _); [by vm_compute|].
  assert (snd_buffer_ cn = b) as Eb by congruence.
  split; [|done|by rewrite Em|by rewrite Ew|done|done|by rewrite Erv, Eb|by rewrite Erv, Eb].
  exists (wire (socket_ cn) (hist w')). rewrite Hh. cbn [session_in session_out]. rewrite Z.eqb_refl.
  rewrite app_nil_r. split; [|done]. eapply reach_established; [done..|]. by rewrite Hh.
Qed.

(** Everything that was registered stays registered. *)
Lemma accepted_live c cn' ch' pfd' : live c w cn' ch' pfd' → live c w' cn' ch' pfd'.
Proof.
  intros [Hc [] Hf Hu]. pose proof (accepted_conn c ltac:(eauto)) as Hlt.
  assert (channel_ cn' < next_addr w)%nat as Hk by (apply (ls_fresh _ Hls); eauto).
  destruct Hac as [[_ Hfd] [_ [] _ _] _ _ _ _ Hcs _ _ _ _ Hchs Ht Hlp].
  split; [rewrite Hcs, lookup_insert_ne by lia; done| |done|done]. rewrite Hlp in *.
  split; rewrite ?Hlp; cbn in *; try done.
  - by rewrite Hchs by lia.
  - rewrite lookup_insert_ne; [done|]. intros E. rewrite E in *. congruence.
  - by rewrite lookup_app_l by (by eapply lookup_lt_Some).
Qed.

Lemma accepted_others c cn' ch' pfd' :
  serving c w cn' ch' pfd' →
  serving c w' cn' ch' pfd' ∧ session_in (socket_ cn') (hist w') = session_in (socket_ cn') (hist w).
Proof.
  intros Hs. pose proof (sv_live _ _ _ _ _ Hs) as Hl. pose proof (accepted_live c cn' ch' pfd' Hl) as Hl'.
  assert (socket_ cn ≠ socket_ cn') as Hne.
  { destruct (ac_fd _ _ _ _ _ Hac) as [_ Hm]. rewrite <-(lv_fd _ _ _ _ _ Hl). intros E.
    rewrite E, (rg_map _ _ _ _ (lv_reg _ _ _ _ _ Hl)) in Hm. done. }
  assert (Hin : session_in (socket_ cn') (hist w') = session_in (socket_ cn') (hist w)).
  { rewrite (ac_hist _ _ _ _ _ Hac). cbn. by rewrite (proj2 (Z.eqb_neq _ _)). }
  split; [|done]. eapply (serving_other c w w' cn' ch' pfd' ch' pfd'
    [EvAccept (listen_socket_ (acceptor_ w)) (socket_ cn)]); try done.
  - intros cn1 ch1 pfd1 Hl1. destruct (live_unique _ _ _ _ _ _ _ _ Hl Hl1) as (-> & -> & ->).
    exists cn', ch', pfd'. split; [done|]. unfold same_output. by rewrite (ac_hist _ _ _ _ _ Hac).
  - apply (ac_hist _ _ _ _ _ Hac).
  - intros lfd [= _ E]%list_elem_of_singleton. by apply Hne.
Qed.

Lemma accepted_reg_wf : Poller.reg_wf (poller (loop w)) (chans w) → Poller.reg_wf (poller (loop w')) (chans w').
Proof.
  destruct Hac as [[Hge Hfd] [Hcn [] Hf _] Hk _ _ _ _ _ _ _ _ Hchs _ Hlp]. rewrite Hlp. cbn [poller].
  rewrite Hk in *. intros Hwf. eapply (reg_wf_registering _ (chans w)); try done.
  destruct (chans w !! S (next_addr w)) eqn:E; [|done].
  pose proof (ls_fresh _ Hls (S (next_addr w)) ltac:(eauto)). lia.
Qed.

Lemma accepted_listening : listening w'.
Proof.
  destruct Hls as [Hthr (lc & Hlc & Hr & Hw) Hacc [Hcb1 Hcb2] Hsw Hfr].
  destruct Hac as [_ Hl Hk _ _ _ Hcs _ (Es1 & Es2 & Hsw') Hn Ha Hchs Ht Hlp].
  split; rewrite ?Ha, ?Es1, ?Es2; try done.
  - by rewrite Hlp, Ht.
  - exists lc. pose proof (Hfr _ ltac:(eauto)). rewrite Hchs by lia. done.
  - intros k. rewrite Hn. destruct (decide (k = S (next_addr w))) as [->|Hne]; [lia|].
    rewrite Hchs by done. intros Hs. specialize (Hfr k Hs). lia.
Qed.
End Accepted.

(** *** Any ready channel *)

(** What handling the events of channel [k] does to the program *)
Record handled (k : chan_id) (w w' : World) : Prop := {
  hd_same c cn ch pfd : serving c w cn ch pfd → channel_ cn ≠ k →
    serving c w' cn ch pfd ∧ session_in (socket_ cn) (hist w') = session_in (socket_ cn) (hist w);
  hd_self c cn ch pfd : serving c w cn ch pfd → channel_ cn = k → serves c w';
  hd_new c : is_Some (conns w' !! c) → is_Some (conns w !! c) ∨ serves c w';
  hd_reg : Poller.reg_wf (poller (loop w)) (chans w) → Poller.reg_wf (poller (loop w')) (chans w');
  hd_functors : functors_ (loop w') = functors_ (loop w);
  hd_listen : listening w';
  hd_acceptor : acceptor_ w' = acceptor_ w;
  hd_listener : k ≠ listen_channel_ (acceptor_ w) → (can_accept w → can_accept w') ∧
    chans w' !! listen_channel_ (acceptor_ w) = chans w !! listen_channel_ (acceptor_ w)
}.

Lemma connection_handled c w cn ch pfd :
  listening w → serving c w cn ch pfd → room cn (hist w) → calm (revents_ ch) →
  ∃ w', HandleEvent inv (channel_ cn) w = Ok (tt, w') ∧ handled (channel_ cn) w w'.
Proof.
  intros Hls Hs Hroom Hcalm.
  destruct (event_Ok c w cn ch pfd Hs Hroom Hcalm) as (w' & cn' & ch' & pfd' & E & Hs' & _ & Hso).
  exists w'. split; [done|]. split; try apply Hso; try done.
  - intros d cnd chd pfdd Hsd Hk. apply Hso; [|done]. intros ->. apply Hk.
    by destruct (live_unique _ _ _ _ _ _ _ _ (sv_live _ _ _ _ _ Hs) (sv_live _ _ _ _ _ Hsd)) as (-> & _).
  - intros d cnd chd pfdd Hsd Hk. destruct (decide (d = c)) as [->|Hne]; [by exists cn', ch', pfd'|].
    by destruct (other_channel c cn ch pfd w d cnd chd pfdd (sv_live _ _ _ _ _ Hs) (sv_read _ _ _ _ _ Hs) Hne Hsd).
  - intros d Hd. left. by apply Hso.
  - intros Hk. split; [apply Hso|]. by apply Hso.
Qed.

Lemma listener_handled w lc :
  let k := listen_channel_ (acceptor_ w) in
  listening w → can_accept w → chans w !! k = Some lc → calm (revents_ lc) →
  ∃ w', HandleEvent inv k w = Ok (tt, w') ∧ handled k w w'.
Proof.
  intros k Hls Hcan Hlc Hcalm.
  destruct (ls_chan _ Hls) as (lc' & Hlc' & Hrd & Hwt). fold k in Hlc'. simplify_eq.
  destruct (accept_Ok w Hls Hcan) as (w' & cn & ch & pfd & E & Hac).
  pose proof (accepted_listening w w' cn ch pfd Hls Hac) as Hls'.
  rewrite (listener_event inv w lc k Hlc Hrd Hwt Hcalm), E.
  2: { rewrite E. intros w2 [= <-]. destruct (ls_chan _ Hls') as (lc2 & Hlc2 & _ & ?). rewrite (ac_acceptor _ _ _ _ _ Hac) in Hlc2.
       by exists lc2. }
  destruct (readable (revents_ lc)).
  - exists w'. split; [done|]. split; try done.
    + intros. by eapply accepted_others.
    + intros c cn' ch' pfd' Hs _. exists cn', ch', pfd'. by eapply (accepted_others w w').
    + intros c. rewrite (ac_conns _ _ _ _ _ Hac), lookup_insert_is_Some.
      intros [<-|[_ ?]]; [right|by left]. exists cn, ch, pfd. by apply accepted_serving.
    + by eapply accepted_reg_wf.
    + by rewrite (ac_loop _ _ _ _ _ Hac).
    + apply Hac.
  - exists w. split; [done|]. split; try done; [|by intros; left].
    intros c cn' ch' pfd' Hs _. by exists cn', ch', pfd'.
Qed.

(** *** All ready channels of an iteration *)

Definition server_ready (w : World) : Prop :=
  Poller.reg_wf (poller (loop w)) (chans w) ∧ functors_ (loop w) = [] ∧ listening w ∧
  ∀ c, is_Some (conns w !! c) → serves c w.

(** A ready channel is that of a connection with room, or the listening one while
    a connection can be accepted; its events are neither hang-up nor error. *)
Definition expected (k : chan_id) (w : World) : Prop :=
  (∃ c cn ch pfd, serving c w cn ch pfd ∧ channel_ cn = k ∧ room cn (hist w) ∧ calm (revents_ ch)) ∨
  (k = listen_channel_ (acceptor_ w) ∧ can_accept w ∧ ∃ lc, chans w !! k = Some lc ∧ calm (revents_ lc)).

Lemma expected_kept k k' w w' : handled k w w' → k' ≠ k → expected k' w → expected k' w'.
Proof.
  intros Hh Hne [(c & cn & ch & pfd & Hs & <- & Hr & Hc)|(-> & Hcan & lc & Hlc & Hc)].
  - left. destruct (hd_same _ _ _ Hh c cn ch pfd Hs Hne) as [Hs' Ein].
    exists c, cn, ch, pfd. split_and!; try done. unfold room. by rewrite Ein.
  - right. destruct (hd_listener _ _ _ Hh) as [Hcan' Elc]; [done|].
    rewrite (hd_acceptor _ _ _ Hh). split_and!; [done|auto|]. exists lc. by rewrite Elc.
Qed.

Lemma handle_one k w :
  server_ready w → expected k w → ∃ w', HandleEvent inv k w = Ok (tt, w') ∧ handled k w w'.
Proof.
  intros (_ & _ & Hls & _) [(c & cn & ch & pfd & Hs & <- & Hr & Hc)|(-> & Hcan & lc & Hlc & Hc)].
  - by apply connection_handled with c ch pfd.
  - by apply listener_handled with lc.
Qed.

Lemma handled_ready k w w' : server_ready w → handled k w w' → server_ready w'.
Proof.
  intros (Hreg & Hfn & Hls & Hall) Hh. split_and!.
  - by apply Hh.
  - by rewrite (hd_functors _ _ _ Hh).
  - apply Hh.
  - intros c Hc. destruct (hd_new _ _ _ Hh c Hc) as [Hc0|]; [|done].
    destruct (Hall c Hc0) as (cn & ch & pfd & Hs). destruct (decide (channel_ cn = k)) as [E|Hne].
    + by eapply Hh.
    + exists cn, ch, pfd. by apply Hh.
Qed.

Lemma handle_all active w :
  NoDup active → server_ready w → (∀ k, k ∈ active → expected k w) →
  ∃ w', mfor (HandleEvent inv) active w = Ok (tt, w') ∧ server_ready w'.
Proof.
  revert w. induction active as [|k active IH]; intros w Hnd Hrdy Hex; [by exists w|].
  apply NoDup_cons in Hnd as [Hk Hnd]. cbn [mfor].
  destruct (handle_one k w Hrdy) as (w1 & E1 & Hh); [apply Hex; by constructor|].
  rewrite (M_bind_eq _ _ _ _ _ E1). apply IH; [done|by eapply handled_ready|].
  intros k' Hk'. apply (expected_kept k k' w); [done|by intros ->|]. apply Hex. by constructor.
Qed.

(** *** From the poller to the handlers *)

Section Polled.
Context (n : Z) (rs : list Z) (w : World).
Let active : list chan_id := if n <=? 0 then [] else ready_channels rs w.

Context (h : gmap chan_id (Channel Callback)) (Hpoll : poll_answer n rs w).
Context (Hin : ∀ pfd c, 0 < n → pfd ∈ stored rs w → Poller.ready pfd = true →
  channels_ (poller (loop w)) !! pfd_fd pfd = Some c →
  c ∈ active ∧ h !! c = Channel.set_revents (pfd_revents pfd) <$> chans w !! c).
Context (Hout : ∀ c, c ∉ active → h !! c = chans w !! c).
Let w' : World := polled rs active h w.

Lemma polled_serving c cn ch pfd :
  serving c w cn ch pfd → ∃ ch' pfd', serving c w' cn ch' pfd' ∧ polled_events n rs w (channel_ cn) (revents_ ch').
Proof.
  intros Hs. destruct (polled_live n rs w h Hpoll Hin Hout c cn ch pfd (sv_live _ _ _ _ _ Hs)) as (r & r' & Ha & Hl').
  exists (Channel.set_revents r ch). eexists. split; [|exact Ha].
  eapply (serving_other c w w' cn ch pfd _ _ [EvGettimeofday; EvPoll _]); try done.
  - intros cn1 ch1 pfd1 Hl1. destruct (polled_live n rs w h Hpoll Hin Hout c cn1 ch1 pfd1 Hl1) as (r1 & r1' & _ & Hl1').
    do 3 eexists. split; [exact Hl1'|]. by repeat split.
  - intros lfd [E|[E|E%elem_of_nil]%elem_of_cons]%elem_of_cons; done.
Qed.

Lemma polled_ready : server_ready w → server_ready w'.
Proof.
  intros (Hreg & Hfn & [Hthr (lc & Hlc & Hrd & Hwt) Hacc Hcb [] Hfr] & Hall). split_and!.
  - exact (polled_reg n rs w h Hpoll Hin Hout Hreg).
  - done.
  - split; try done; [|intros k Hk; by apply Hfr, (polled_dom n rs w h)].
    destruct (polled_chan n rs w h Hin Hout _ _ Hlc) as (r & Hr & _). by exists (Channel.set_revents r lc).
  - intros c Hc. destruct (Hall c Hc) as (cn & ch & pfd & Hs).
    destruct (polled_serving c cn ch pfd Hs) as (ch' & pfd' & ? & _). by exists cn, ch', pfd'.
Qed.

Lemma polled_accept : can_accept w → can_accept w'.
Proof.
  apply (can_accept_kept [EvGettimeofday; EvPoll (len (pollfds_ (poller (loop w))))]); try done.
  exact (polled_fds n rs w h Hpoll).
Qed.
End Polled.

(** ** The server *)

(** What an iteration needs: a poll that reports connections or the listening
    socket, without hang-up or error; memory for the bytes that may come; and, for
    the listening socket, a free descriptor. *)
Record fair_iteration (n : Z) (rs : list Z) (w : World) : Prop := {
  fi_poll : poll_answer n rs w;
  fi_events pfd k : pfd ∈ stored rs w → Poller.ready pfd = true →
    channels_ (poller (loop w)) !! pfd_fd pfd = Some k →
    calm (pfd_revents pfd) ∧
    (k = listen_channel_ (acceptor_ w) ∨ ∃ c cn, conns w !! c = Some cn ∧ channel_ cn = k);
  fi_room c cn : conns w !! c = Some cn → room cn (hist w);
  fi_accept pfd : pfd ∈ stored rs w → Poller.ready pfd = true →
    channels_ (poller (loop w)) !! pfd_fd pfd = Some (listen_channel_ (acceptor_ w)) → can_accept w
}.

Lemma iteration_Ok n rs w :
  server_ready w → fair_iteration n rs w →
  ∃ w', loop_body inv w = Ok (tt, w') ∧ server_ready w'.
Proof.
  intros Hrdy [Hpoll Hev Hroom Hcan]. pose proof Hrdy as (Hwf & _ & Hls & Hall).
  destruct (loop_body_eval inv n rs w Hwf Hpoll) as (h & E & Hin & Hout & Hnd). rewrite E.
  set (active := if n <=? 0 then [] else ready_channels rs w) in *. set (w1 := polled rs active h w).
  destruct (handle_all active w1) as (w2 & E2 & Hrdy2); [done|by apply polled_ready| |].
  2: { rewrite (M_bind_eq _ _ _ _ _ E2). exists w2. split; [|done]. apply doPendingFunctors_none, Hrdy2. }
  intros k Hk. destruct (active_entry n rs w k Hk) as (pfd & _ & Hs & Hr & Hm).
  destruct (Hev pfd k Hs Hr Hm) as [_ [->|(c & cn & Hcn & <-)]].
  - right. split; [done|]. split; [exact (polled_accept n rs w h Hpoll (Hcan pfd Hs Hr Hm))|].
    destruct (ls_chan _ Hls) as (lc & Hlc & _).
    destruct (polled_chan n rs w h Hin Hout _ lc Hlc) as (r & Hr' & Ha).
    exists (Channel.set_revents r lc). split; [done|]. destruct (Ha Hk) as (q & Hqs & Hqr & Hqm & ->).
    by eapply Hev.
  - left. destruct (Hall c) as (cn' & ch & pfd' & Hsv); [by rewrite Hcn|].
    pose proof (lv_conn _ _ _ _ _ (sv_live _ _ _ _ _ Hsv)) as Hcn'. rewrite Hcn in Hcn'. injection Hcn' as <-.
    destruct (polled_serving n rs w h Hpoll Hin Hout c cn ch pfd' Hsv) as (ch1 & pfd1 & Hs1 & Ha).
    exists c, cn, ch1, pfd1. split; [done|]. split; [done|]. split; [by apply (Hroom c)|].
    destruct (Ha Hk) as (q & Hqs & Hqr & Hqm & ->). by eapply Hev.
Qed.

(** The states that iterations of the loop reach *)
Inductive echo_run (w0 : World) : World → Prop :=
  | run_start : echo_run w0 w0
  | run_iterate n rs w w' :
      echo_run w0 w → fair_iteration n rs w → loop_body inv w = Ok (tt, w') → echo_run w0 w'.

Lemma echo_run_ready w0 w : server_ready w0 → echo_run w0 w → server_ready w.
Proof.
  intros H0w. induction 1 as [|n rs w w' _ IH Hf E]; [done|].
  destruct (iteration_Ok n rs w IH Hf) as (w1 & E1 & ?). rewrite E in E1. by simplify_eq.
Qed.

End EchoServer.
