(* ===== verification/EchoMain.v ===== *)
(** * The echo program (examples/echo/main.cc)

    [main] builds the loop and the server and enters the loop.  [echo_invoke] ties
    the callbacks of the example to the reactor; [echo_setup_ready] shows that the
    set-up ends in a state the iterations of EchoServer.v start from, and
    [echo_program] that from there every client gets back what it sent. *)

From S2P Require Import Prelude Slice Buffer Timestamp Poller World EventLoop TcpConnection Footprint TcpServer TimerQueue Reactor Iteration Startup Echo EchoServer.
Import TcpConnection.

Section Main.
Context `{HK : Kernel}.

(** Calling function objects in the echo program; the fuel is the depth of
    calls through function objects. *)
Fixpoint echo_invoke (n : nat) : Callback → MW unit :=
  match n with
  | O => fun _ => mfail OutOfFuel
  | S m => invoke (H0 := echo_app (echo_invoke m)) (S m)
  end.

(** [HandleWrite] calls nothing but the write-complete callback. *)
Lemma bind_same {A B} (m : MW A) (f g : A → MW B) w :
  (∀ a w', f a w' = g a w') → (m ≫= f) w = (m ≫= g) w.
Proof. intros E. rewrite !M_bind_unfold. by destruct (m w) as [[a w']|]. Qed.

Lemma HandleWrite_ext (inv1 inv2 : Callback → MW unit) c w :
  (∀ u w', inv1 (WriteComplete u c) w' = inv2 (WriteComplete u c) w') →
  HandleWrite inv1 c w = HandleWrite inv2 c w.
Proof.
  intros E.
  assert (Hcall : ∀ o w', call_opt (fun u => RunInLoop_bind inv1 (WriteComplete u c)) o w' =
                          call_opt (fun u => RunInLoop_bind inv2 (WriteComplete u c)) o w').
  { intros [u|] w'; [|done]. unfold call_opt, RunInLoop_bind. apply bind_same. intros _ w1.
    rewrite !M_bind_unfold. unfold RunInLoop. rewrite !M_bind_unfold. unfold isInLoopThread, gets.
    destruct (_ =? _); [by rewrite E|done]. }
  unfold HandleWrite. do 3 (apply bind_same; intros ? ?).
  destruct (Channel.isWritingEnabled _); [|done]. do 2 (apply bind_same; intros ? ?).
  destruct (_ >? 0); [|done]. do 2 (apply bind_same; intros ? ?).
  destruct (_ =? 0); [|done]. do 2 (apply bind_same; intros ? ?).
  rewrite !M_bind_unfold. by rewrite Hcall.
Qed.

(** ** Setting up *)

(** The set-up of [main] ends in a server that is ready to serve. *)
Lemma echo_setup_ready inet_aton inv' w :
  let addr := InetAddress.InetAddress_new inet_aton (b_ "127.0.0.1") 5000 in
  process_start w → setup_answers addr w →
  ∃ w', echo_setup inet_aton w = Ok (tt, w') ∧ server_ready inv' w' ∧ conns w' = ∅.
Proof.
  intros addr Hps Hsa. unfold echo_setup. fold addr.
  destruct (acceptor_constructed addr w Hps Hsa)
    as (w1 & w2 & k & ch & E1 & E2 & [Hreg Hthr Hfn Hcn Hfr _] & Ha & Hk & Hrd & Hwt & _).
  rewrite (M_bind_eq _ _ _ _ _ E1). unfold TcpServer.TcpServer_new.
  rewrite M_bind_unfold, (M_bind_eq _ _ _ _ _ E2). cbn [mod_server mmod].
  set (fd := k_socket (hist w)) in *.
  set (s3 := mkTcpServer (b_ "test") None None None 0 addr ∅). set (w3 := w2 <| server := s3 |>).
  set (w4 := w3 <| server := s3 <| server_conn_callback_ := Some 0%nat |> |>).
  set (w5 := w4 <| server := s3 <| server_conn_callback_ := Some 0%nat |> <| server_msg_callback_ := Some 0%nat |> |>).
  rewrite (M_bind_eq _ _ w3 tt w4), (M_bind_eq _ _ w4 tt w5) by done.
  rewrite (Start_Ok fd k w5 Hthr Ha) by apply Hsa. eexists. split; [done|]. split; [|done].
  split_and!; try done; [|cbn; rewrite Hcn; intros c; rewrite lookup_empty; by intros []].
  split; [done|by exists ch|done|by split; [eexists|]| |exact Hfr].
  split; try done.
  cbn. rewrite Hcn. intros c. rewrite lookup_empty. by intros [].
Qed.

Lemma server_ready_started inv' w : server_ready inv' w → conns w = ∅ → server_ready inv' (loop_started w).
Proof.
  intros (Hreg & Hfn & [? ? ? ? [] ?] & _) Hc. split_and!; try done.
  intros c. cbn. rewrite Hc, lookup_empty. by intros [].
Qed.

(** C1: the echo program: its set-up succeeds, and after any number of
    iterations of the loop, serving any number of clients that connect, send and
    read in any order, every connection has sent (and still queues) exactly the
    bytes it received since it was accepted, in order and without mixing clients,
    nothing is left unanswered in a receive buffer, and the next iteration returns
    without a fault as long as no peer closes. *)
Theorem echo_program `{!WriteOk} `{!ClockOk} `{!ReadvOk} `{!PeersOpen} (m : nat)
    (inet_aton : bytes → option Z) (w0 : World) :
  no_write_errors → process_start w0 →
  setup_answers (InetAddress.InetAddress_new inet_aton (b_ "127.0.0.1") 5000) w0 →
  ∃ w1, echo_setup inet_aton w0 = Ok (tt, w1) ∧
    ∀ w, echo_run (echo_invoke (S (S m))) (loop_started w1) w →
      (∀ c cn, conns w !! c = Some cn →
         session_out (socket_ cn) (hist w) ++ Buffer.contents (snd_buffer_ cn) =
           session_in (socket_ cn) (hist w) ∧
         Buffer.contents (rev_buffer_ cn) = []) ∧
      (∀ n rs, fair_iteration n rs w → ∃ w', loop_body (echo_invoke (S (S m))) w = Ok (tt, w')).
Proof.
  intros Hwr Hps Hsa. set (inv' := echo_invoke (S m)).
  destruct (echo_setup_ready inet_aton inv' w0 Hps Hsa) as (w1 & E & Hr1 & Hc1).
  exists w1. split; [done|]. intros w Hrun.
  set (inv := echo_invoke (S (S m))) in *.
  set (cl := TcpServer.call_close (H0 := echo_app inv') (invoke (H0 := echo_app inv') (S m))).
  assert (Hread : ∀ c, inv (TcpConnection_HandleRead c) = HandleRead (H0 := echo_app inv') cl c) by done.
  assert (Hwrite : ∀ c w, inv (TcpConnection_HandleWrite c) w = HandleWrite inv' c w).
  { intros c w2. by apply (HandleWrite_ext (invoke (H0 := echo_app inv') (S m)) inv'). }
  assert (Hacc : inv Acceptor_handleRead = Acceptor.handleRead (new_connection (H0 := echo_app inv'))) by done.
  assert (Hshut : ∀ c, inv' (TcpConnection_shutdownInLoop c) = shutdownInLoop c) by done.
  assert (Hwc : ∀ u c, inv' (WriteComplete u c) = mret tt) by done.
  pose proof (echo_run_ready Hwr inv inv' cl Hread Hwrite Hacc Hshut Hwc (loop_started w1) w
    (server_ready_started inv' w1 Hr1 Hc1) Hrun) as Hrdy.
  split.
  - intros c cn Hc. destruct Hrdy as (_ & _ & _ & Hall). destruct (Hall c) as (cn' & ch & pfd & Hs); [by rewrite Hc|].
    pose proof (lv_conn _ _ _ _ _ (sv_live _ _ _ _ _ _ Hs)). simplify_eq.
    destruct (serving_stream inv' Hshut Hwc c w cn ch pfd Hs) as (_ & base & _ & Hst & Hwi).
    split; [|apply Hs]. pose proof (st_bytes _ _ _ _ _ _ _ Hst) as Hb. rewrite Hwi, <-app_assoc in Hb.
    by apply app_inv_head in Hb.
  - intros n rs Hf.
    destruct (iteration_Ok Hwr inv inv' cl Hread Hwrite Hacc Hshut Hwc n rs w Hrdy Hf) as (w' & ? & _). eauto.
Qed.

End Main.

(** ** A client that connects and sends four bytes *)

(** The first poll reports the listening socket, the next one the connection. *)
Definition ex_echo_kernel : Kernel := {|
  k_gettimeofday := @k_gettimeofday ex_kernel;
  k_poll h pfds _ :=
    let who := if existsb (fun e => match e with EvAccept _ _ => true | _ => false end) h then 9 else 60 in
    (1, (fun p => if pfd_fd p =? who then POLLIN else 0) <$> pfds);
  k_write := @k_write ex_kernel; k_read := @k_read ex_kernel; k_readv := @k_readv ex_kernel;
  k_accept _ _ := (9, ex_addr); k_settime := @k_settime ex_kernel;
  k_eventfd := @k_eventfd ex_kernel; k_timerfd := @k_timerfd ex_kernel;
  k_socket := @k_socket ex_kernel; k_bind := @k_bind ex_kernel;
  k_listen := @k_listen ex_kernel; k_shutdown := @k_shutdown ex_kernel |}.

#[export] Instance ex_echo_write_ok : WriteOk (H := ex_echo_kernel).
Proof. intros h fd d. cbn. lia. Qed.
#[export] Instance ex_echo_clock_ok : ClockOk (H := ex_echo_kernel).
Proof. exact ex_clock_ok. Qed.
#[export] Instance ex_echo_readv_ok : ReadvOk (H := ex_echo_kernel).
Proof. intros h fd vec. apply (Buffer.readv_queue_fits (b_ "ping")). Qed.
#[export] Instance ex_echo_peers_open : PeersOpen (H := ex_echo_kernel).
Proof.
  intros h fd b Hb [= E]. destruct (Buffer.iovec_sum b Hb) as [_ Hsum]. rewrite Hsum in E.
  apply (f_equal length) in E. rewrite length_take in E. cbn [length b_] in E.
  unfold Buffer.wf, Buffer.extrabuf_size in *. destruct (Z.ltb_spec (len (Buffer.buffer_ b) - Buffer.writerIndex_ b) 65536);
    vm_compute length in E; lia.
Qed.

Definition ex_aton (_ : bytes) : option Z := Some 16777343.
Definition ex_up : World := loop_started (run_in (echo_setup (H := ex_echo_kernel) ex_aton) ex_world).
Definition ex_body : MW unit := loop_body (H := ex_echo_kernel) (echo_invoke (HK := ex_echo_kernel) 2).
Definition ex_one : World := run_in ex_body ex_up.
Definition ex_two : World := run_in ex_body ex_one.

#[local] Instance room_dec cn h : Decision (room cn h).
Proof. unfold room. apply _. Defined.

Lemma ex_room (w : World) :
  bool_decide (map_Forall (fun _ cn => room cn (hist w)) (conns w)) = true →
  ∀ c cn, conns w !! c = Some cn → room cn (hist w).
Proof. intros H%bool_decide_eq_true_1 c cn Hc. exact (H c cn Hc). Qed.

(** Only entry [pfd] is ready. *)
Lemma ex_ready (l : list pollfd) pfd :
  filter (fun p => Poller.ready p = true) l = [pfd] → ∀ q, q ∈ l → Poller.ready q = true → q = pfd.
Proof.
  intros Hl q Hq Hr. apply list_elem_of_singleton. rewrite <-Hl. by apply list_elem_of_filter.
Qed.

Lemma ex_fair_up : fair_iteration (HK := ex_echo_kernel) 1 [0; 0; 1] ex_up.
Proof.
  assert (Hst : filter (fun p => Poller.ready p = true) (stored [0; 0; 1] ex_up) = [mkpollfd 60 3 1])
    by (by vm_compute).
  assert (Hm : channels_ (poller (loop ex_up)) !! 60 = Some 13%nat) by (by vm_compute).
  split.
  - split; [by vm_compute|]. split; [by vm_compute|]. right. by rewrite Hst.
  - intros pfd k Hp Hr. rewrite (ex_ready _ _ Hst pfd Hp Hr). cbn [pfd_fd]. rewrite Hm. intros [= <-].
    split; [by vm_compute|]. by left.
  - apply ex_room. by vm_compute.
  - intros pfd _ _ _. split; [by vm_compute|]. split; [by vm_compute|]. intros h _. by split; vm_compute.
Qed.

Lemma ex_fair_one : fair_iteration (HK := ex_echo_kernel) 1 [0; 0; 0; 1] ex_one.
Proof.
  assert (Hst : filter (fun p => Poller.ready p = true) (stored [0; 0; 0; 1] ex_one) = [mkpollfd 9 3 1])
    by (by vm_compute).
  assert (Hm : channels_ (poller (loop ex_one)) !! 9 = Some 15%nat) by (by vm_compute).
  split.
  - split; [by vm_compute|]. split; [by vm_compute|]. right. by rewrite Hst.
  - intros pfd k Hp Hr. rewrite (ex_ready _ _ Hst pfd Hp Hr). cbn [pfd_fd]. rewrite Hm. intros [= <-].
    split; [by vm_compute|]. right. exists 14%nat. destruct (conns ex_one !! 14%nat) as [cn|] eqn:E; [|by vm_compute in E].
    exists cn. split; [done|]. assert (channel_ <$> conns ex_one !! 14%nat = Some 15%nat) as Hk by (by vm_compute).
    rewrite E in Hk. by injection Hk.
  - apply ex_room. by vm_compute.
  - intros pfd Hp Hr. rewrite (ex_ready _ _ Hst pfd Hp Hr). cbn [pfd_fd]. rewrite Hm.
    assert (listen_channel_ (acceptor_ ex_one) = 13%nat) as -> by (by vm_compute). intros [=].
Qed.

Lemma run_in_Ok (m : MW unit) w :
  match m w with Ok _ => true | Err _ => false end = true → m w = Ok (tt, run_in m w).
Proof. unfold run_in. by destruct (m w) as [[[] w']|]. Qed.

Lemma echo_program_witness :
  ∃ w1, echo_setup (H := ex_echo_kernel) ex_aton ex_world = Ok (tt, w1) ∧
    session_in 9 (hist ex_two) = b_ "ping" ∧ socket_ <$> conns ex_two !! 14%nat = Some 9 ∧
    (∀ c cn, conns ex_two !! c = Some cn →
       session_out (socket_ cn) (hist ex_two) ++ Buffer.contents (snd_buffer_ cn) =
         session_in (socket_ cn) (hist ex_two)).
Proof.
  destruct (echo_program (HK := ex_echo_kernel) 0 ex_aton ex_world) as (w1 & E & Hrun).
  - intros h fd d. left. cbn. apply len_nonneg.
  - by split.
  - split; try by vm_compute. apply (bool_decide_eq_true_1 _). by vm_compute.
  - exists w1. split; [done|]. split; [by vm_compute|]. split; [by vm_compute|].
    assert (w1 = run_in (echo_setup (H := ex_echo_kernel) ex_aton) ex_world) as -> by (unfold run_in; by rewrite E).
    destruct (Hrun ex_two) as [Hall _]; [|intros c cn Hc; exact (proj1 (Hall c cn Hc))].
    apply (run_iterate _ _ 1 [0; 0; 0; 1] ex_one); [|exact ex_fair_one|apply run_in_Ok; by vm_compute].
    apply (run_iterate _ _ 1 [0; 0; 1] ex_up); [apply run_start|exact ex_fair_up|apply run_in_Ok; by vm_compute].
Defined.
