(* ===== verification/AcceptorTest.v ===== *)
(** * An acceptor on its own (tests/acceptor_test.cc)

    The program gives an [Acceptor] a function that writes a line to every new
    connection and closes it, and runs the loop.  The theorem is about all
    iterations of the loop: every client is accepted, written to and closed, in
    this order and once, no descriptor stays open, and an iteration ends the
    process exactly when [accept4] fails. *)

From S2P Require Import Prelude Slice Buffer Timestamp Poller World EventLoop TcpConnection TcpServer TimerQueue Reactor Iteration Startup Listener.

(** "How are you?\n" *)
Definition how_are_you : bytes := b_ "How are you?" ++ [Byte.x0a].

Section Program.
Context `{Kernel}.

(** The function the acceptor calls; what it prints is left out. *)
Definition test_new_connection (connfd : Z) (client : sockaddr_in) : MW unit :=
  _ ← sys_write connfd how_are_you;
  log (EvClose connfd).

Definition acceptor_app : App := {|
  app_run _ := mret tt;
  app_connection _ _ := mret tt;
  app_message _ _ _ := mret tt;
  app_write_complete _ _ := mret tt;
  app_close _ _ := mret tt;
  app_new_connection _ connfd client := test_new_connection connfd client
|}.

(** The test up to [loop.loop()] *)
Definition acceptor_setup (inet_aton : bytes → option Z) : MW unit :=
  EventLoop_ctor ;;
  Acceptor.Acceptor_new (InetAddress.InetAddress_new inet_aton (b_ "127.0.0.1") 5000) ;;
  Acceptor.SetNewConnectionCallback (UserNewConnection 0) ;;
  Acceptor.listen.

Definition acceptor_invoke (n : nat) : Callback → MW unit := invoke (H0 := acceptor_app) n.

End Program.

(** ** What a client sees *)

(** The system calls on a client's descriptor, oldest first *)
Definition about_client (e : sys_event) : bool :=
  match e with
  | EvAccept _ _ | EvReadv _ _ | EvWrite _ _ _ | EvShutdown _ | EvClose _ => true
  | _ => false
  end.
Definition client_calls (l : history) : list sys_event :=
  reverse (filter (fun e => about_client e = true) l).

(** A client with descriptor [x.1]; [write(2)] answered [x.2]. *)
Definition greet_calls (lfd : Z) (x : Z * Z) : list sys_event :=
  [EvAccept lfd x.1; EvWrite x.1 how_are_you x.2; EvClose x.1].

Lemma client_calls_app l k : client_calls (l ++ k) = client_calls k ++ client_calls l.
Proof. unfold client_calls. by rewrite filter_app, reverse_app. Qed.

Section Theorems.
Context `{HK : Kernel} `{!ClockOk} (m : nat).
Let inv : Callback → MW unit := acceptor_invoke (S m).

(** The acceptor listens on [lfd] and calls the function of the program. *)
Record accepting (lfd : Z) (w : World) : Prop := {
  ag_reg : Poller.reg_wf (poller (loop w)) (chans w);
  ag_thread : threadId_ (loop w) = tid w;
  ag_functors : functors_ (loop w) = [];
  ag_acceptor : listen_socket_ (acceptor_ w) = lfd ∧ new_conn_callback_ (acceptor_ w) = Some (UserNewConnection 0);
  ag_listener : ∃ lc, chans w !! listen_channel_ (acceptor_ w) = Some lc ∧ reads lc Acceptor_handleRead
}.

(** The world after a client was served *)
Definition greeted (lfd fd : Z) (w : World) : World :=
  w <| hist := EvClose fd :: EvWrite fd how_are_you (k_write (EvAccept lfd fd :: hist w) fd how_are_you).1 ::
               EvAccept lfd fd :: hist w |>.

Lemma accepting_hist lfd w e : accepting lfd w → accepting lfd (w <| hist := e :: hist w |>).
Proof. by intros []. Qed.

Lemma accept_eval lfd w :
  accepting lfd w → let fd := (k_accept (hist w) lfd).1 in
  inv Acceptor_handleRead w = if fd <? 0 then Err Abort else Ok (tt, greeted lfd fd w).
Proof.
  intros [_ Hthr _ [Hfd Hcb] _] fd. change (inv Acceptor_handleRead) with
    (Acceptor.handleRead (new_connection (H0 := acceptor_app))).
  unfold Acceptor.handleRead. rewrite (M_bind_eq _ _ _ _ _ (assertInLoopThread_true w Hthr)).
  rewrite (M_bind_eq _ _ w (acceptor_ w) w) by done. rewrite Hfd, Hcb.
  rewrite (M_bind_eq _ _ w (k_accept (hist w) lfd) (w <| hist := EvAccept lfd fd :: hist w |>)) by done.
  fold fd. by destruct (fd <? 0).
Qed.

Lemma greeted_accepting lfd fd w : accepting lfd w → accepting lfd (greeted lfd fd w).
Proof. by intros []. Qed.

(** An iteration polls and then serves the client that waits, if there is one. *)
Lemma accept_iteration lfd n rs w :
  let h := EvGettimeofday :: EvPoll (len (pollfds_ (poller (loop w)))) :: hist w in
  let fd := (k_accept h lfd).1 in
  accepting lfd w → listener_poll n rs w →
  ∃ w1, accepting lfd w1 ∧ hist w1 = h ∧
    loop_body inv w = if client_waits n rs w
      then (if fd <? 0 then Err Abort else Ok (tt, greeted lfd fd w1)) else Ok (tt, w1).
Proof.
  intros h fd Hag Hlp. destruct (ag_listener _ _ Hag) as (lc & Hlc & Hrd).
  destruct (listener_iteration inv n rs w lc (ag_reg _ _ Hag) Hlc Hlp)
    as (active & hp & r & Hreg & _ & _ & Hr & Hact & -> & Hcase).
  set (w1 := polled rs active hp w) in *. exists w1.
  assert (Hag1 : accepting lfd w1) by (destruct Hag; split; try done; by exists (Channel.set_revents r lc)).
  assert (Hpend : ∀ w2, accepting lfd w2 → doPendingFunctors inv w2 = Ok (tt, w2))
    by (intros w2 Hw2; apply doPendingFunctors_none, Hw2).
  split; [done|]. split; [done|]. destruct Hcase as [Ea|[-> ->]]; [|by apply Hpend].
  destruct (Hact Ea) as [Hcalm Hrb]. rewrite Ea. cbn [mfor]. rewrite !M_bind_unfold.
  pose proof (accept_eval lfd w1 Hag1) as Eacc. change (hist w1) with h in Eacc. cbv zeta in Eacc. fold fd in Eacc.
  destruct Hrd as (Hrd & Hwt & _). rewrite (listener_event inv w1 (Channel.set_revents r lc)); [|done..|].
  - cbn [Channel.set_revents revents_]. rewrite Hrb, Eacc. destruct (client_waits n rs w); [|by apply Hpend].
    destruct (fd <? 0); [done|]. by apply Hpend, greeted_accepting.
  - intros w2. rewrite Eacc. destruct (fd <? 0); [done|]. intros [= <-]. by exists (Channel.set_revents r lc).
Qed.

(** *** The program *)

Lemma acceptor_setup_accepting inet_aton w :
  process_start w → setup_answers (InetAddress.InetAddress_new inet_aton (b_ "127.0.0.1") 5000) w →
  ∃ w', acceptor_setup inet_aton w = Ok (tt, w') ∧ accepting (k_socket (hist w)) w'.
Proof.
  intros Hps Hsa. unfold acceptor_setup. set (addr := InetAddress.InetAddress_new _ _ _) in *.
  destruct (acceptor_constructed addr w Hps Hsa) as (w1 & w2 & k & ch & E1 & E2 & [Hreg Hthr Hfn _ _ _] & Ha & Hk & Hrd).
  rewrite (M_bind_eq _ _ _ _ _ E1), (M_bind_eq _ _ _ _ _ E2).
  set (w3 := w2 <| acceptor_ := mkAcceptor (k_socket (hist w)) k (Some (UserNewConnection 0)) |>).
  rewrite (M_bind_eq _ _ w2 tt w3) by (unfold Acceptor.SetNewConnectionCallback, mmod; by rewrite Ha).
  rewrite (listen_Ok w3 Hthr) by apply Hsa. eexists. split; [done|]. split; try done. by exists ch.
Qed.

(** The states that iterations of the loop reach *)
Inductive acceptor_run (w0 : World) : World → Prop :=
  | accept_start : acceptor_run w0 w0
  | accept_iterate n rs w w' :
      acceptor_run w0 w → listener_poll n rs w → loop_body inv w = Ok (tt, w') → acceptor_run w0 w'.

(** All clients so far were served. *)
Definition all_served (lfd : Z) (h0 h : history) : Prop :=
  ∃ l clients, h = l ++ h0 ∧ client_calls l = clients ≫= greet_calls lfd.

Lemma acceptor_run_accepting lfd w0 w :
  accepting lfd w0 → acceptor_run w0 w → accepting lfd w ∧ all_served lfd (hist w0) (hist w).
Proof.
  intros H0. induction 1 as [|n rs w w' _ (IH & l & cs & Hl & Hcs) Hlp E]; [by split; [|exists [], []]|].
  destruct (accept_iteration lfd n rs w IH Hlp) as (w1 & Hag & Hh & E1). rewrite E in E1.
  destruct (client_waits n rs w); [case_match; [done|]|]; injection E1 as ->.
  - split; [by apply greeted_accepting|]. unfold greeted. cbn [hist]. rewrite Hh, Hl.
    set (fd := (k_accept _ lfd).1). set (r := (k_write _ fd how_are_you).1).
    exists (EvClose fd :: EvWrite fd how_are_you r :: EvAccept lfd fd :: EvGettimeofday ::
            EvPoll (len (pollfds_ (poller (loop w)))) :: l), (cs ++ [(fd, r)]). split; [done|].
    rewrite bind_app, <-Hcs. etrans; [apply (client_calls_app [_; _; _; _; _] l)|done].
  - split; [done|]. rewrite Hh, Hl. exists (EvGettimeofday :: EvPoll (len (pollfds_ (poller (loop w)))) :: l), cs.
    split; [done|]. rewrite <-Hcs, <-(app_nil_r (client_calls l)). etrans; [apply (client_calls_app [_; _] l)|done].
Qed.

(** C17: the acceptor program: its set-up succeeds, and after any number of
    iterations the system calls on client descriptors are, client after client, an
    accept, one write of the whole line and a close, so that no descriptor is
    leaked or written to twice; and the next iteration returns, except that it
    aborts the process when a client is reported and [accept4] fails, whatever the
    reason. *)
Theorem acceptor_program (inet_aton : bytes → option Z) (w0 : World) :
  process_start w0 → setup_answers (InetAddress.InetAddress_new inet_aton (b_ "127.0.0.1") 5000) w0 →
  let lfd := k_socket (hist w0) in
  ∃ w1, acceptor_setup inet_aton w0 = Ok (tt, w1) ∧
    ∀ w, acceptor_run (loop_started w1) w →
      all_served lfd (hist w1) (hist w) ∧
      ∀ n rs, listener_poll n rs w →
        let fd := (k_accept (EvGettimeofday :: EvPoll (len (pollfds_ (poller (loop w)))) :: hist w) lfd).1 in
        (client_waits n rs w = true → fd < 0 → loop_body inv w = Err Abort) ∧
        (client_waits n rs w = false ∨ 0 ≤ fd → ∃ w', loop_body inv w = Ok (tt, w')).
Proof.
  intros Hps Hsa lfd. destruct (acceptor_setup_accepting inet_aton w0 Hps Hsa) as (w1 & E & Hag).
  exists w1. split; [done|]. intros w Hrun.
  destruct (acceptor_run_accepting lfd (loop_started w1) w) as [Hag' Hall]; [by destruct Hag|done|].
  split; [done|]. intros n rs Hlp fd.
  destruct (accept_iteration lfd n rs w Hag' Hlp) as (w2 & _ & _ & ->). fold fd. split.
  - intros -> Hneg. by rewrite (proj2 (Z.ltb_lt _ _)).
  - intros [->|Hge]; [eauto|]. rewrite (proj2 (Z.ltb_ge _ _)) by done. destruct (client_waits n rs w); eauto.
Qed.

End Theorems.

(** ** A client, and then a connection that is gone when it is accepted *)

Definition ex_accept_kernel : Kernel := {|
  k_gettimeofday := @k_gettimeofday ex_kernel;
  k_poll h pfds _ := (1, (fun p => if pfd_fd p =? 60 then POLLIN else 0) <$> pfds);
  k_write := @k_write ex_kernel; k_read := @k_read ex_kernel; k_readv := @k_readv ex_kernel;
  k_accept h _ :=
    (if existsb (fun e => match e with EvAccept _ _ => true | _ => false end) h then -1 else 9, TcpConnection.ex_addr);
  k_settime := @k_settime ex_kernel;
  k_eventfd := @k_eventfd ex_kernel; k_timerfd := @k_timerfd ex_kernel;
  k_socket := @k_socket ex_kernel; k_bind := @k_bind ex_kernel;
  k_listen := @k_listen ex_kernel; k_shutdown := @k_shutdown ex_kernel |}.

#[export] Instance ex_accept_clock_ok : ClockOk (H := ex_accept_kernel).
Proof. exact ex_clock_ok. Qed.

Definition ex_aton_accept (_ : bytes) : option Z := Some 16777343.
Definition ex_accept_setup : MW unit := acceptor_setup (H := ex_accept_kernel) ex_aton_accept.
Definition ex_accept_body : MW unit := loop_body (H := ex_accept_kernel) (acceptor_invoke (H := ex_accept_kernel) 1).
Definition ex_accept_up : World := loop_started (TcpConnection.run_in ex_accept_setup ex_world).
Definition ex_accept_one : World := TcpConnection.run_in ex_accept_body ex_accept_up.

Lemma acceptor_program_witness :
  client_calls (hist ex_accept_one) = greet_calls 60 (9, 13) ∧
  all_served 60 (hist (TcpConnection.run_in ex_accept_setup ex_world)) (hist ex_accept_one) ∧
  ex_accept_body ex_accept_one = Err Abort.
Proof.
  destruct (acceptor_program (HK := ex_accept_kernel) 0 ex_aton_accept ex_world) as (w1 & E & Hrun).
  - by split.
  - split; try by vm_compute. apply (bool_decide_eq_true_1 _). by vm_compute.
  - split; [by vm_compute|].
    assert (w1 = TcpConnection.run_in ex_accept_setup ex_world) as -> by (unfold TcpConnection.run_in, ex_accept_setup; by rewrite E).
    destruct (Hrun ex_accept_one) as [Hall Hnext].
    + apply (accept_iterate (HK := ex_accept_kernel) 0 _ 1 [0; 0; 1] ex_accept_up); [apply accept_start| |by vm_compute].
      apply (listener_poll_one [0; 0; 1] _ (mkpollfd 60 3 1)); by vm_compute.
    + split; [exact Hall|]. apply (Hnext 1 [0; 0; 1]); [apply (listener_poll_one [0; 0; 1] _ (mkpollfd 60 3 1))| |]; by vm_compute.
Defined.
