(* ===== verification/ShutdownTest.v ===== *)
(** * A server that greets and hangs up (tests/tcp_connection_test.cc)

    The connection callback of the program sends two strings and asks for a
    shutdown.  The theorem follows one client through the iterations of the loop:
    from the accept to the shutdown of the write end, the kernel gets exactly the
    two strings, however few bytes it takes at a time, and the shutdown comes
    after the last of them. *)

From S2P Require Import Prelude Slice Buffer Timestamp Poller World EventLoop TcpConnection Footprint TcpServer TimerQueue Reactor Iteration Startup Listener.
Import TcpConnection.

Definition hello : bytes := b_ "hello".
Definition world_nl : bytes := b_ " world!" ++ [Byte.x0a].
Definition greeting : bytes := hello ++ world_nl.

Section Program.
Context `{Kernel} (inv : Callback → MW unit).

(** [conn->Send("...")]: the literal becomes a temporary string that dies with
    the statement. *)
Definition send_literal (c : conn_id) (msg : bytes) : MW unit :=
  s ← fresh;
  mmod (fun w : World => w <| strings := <[s := msg]> (strings w) |>) ;;
  Send inv c s ;;
  mmod (fun w : World => w <| strings := delete s (strings w) |>).

(** The connection callback; the line it prints and the five seconds it sleeps
    are left out. *)
Definition greet_connection (c : conn_id) : MW unit :=
  cn ← get_conn c;
  if connected cn then
    send_literal c hello ;;
    send_literal c world_nl ;;
    Shutdown inv c
  else mret tt.

Definition greet_app : App := {|
  app_run _ := mret tt;
  app_connection _ c := greet_connection c;
  app_message _ _ _ := mret tt;
  app_write_complete _ _ := mret tt;
  app_close _ _ := mret tt;
  app_new_connection _ _ _ := mret tt
|}.

(** The test up to [loop.loop()]; ignoring SIGPIPE and the log level are left
    out. *)
Definition shutdown_setup (inet_aton : bytes → option Z) : MW unit :=
  EventLoop_ctor ;;
  TcpServer.TcpServer_new (InetAddress.InetAddress_new inet_aton (b_ "127.0.0.1") 5000) (b_ "test") ;;
  TcpServer.SetConnectionCallback 0 ;;
  TcpServer.Start.
End Program.

(** Calling function objects in this program; the fuel is the depth of calls
    through function objects. *)
Fixpoint greet_invoke `{Kernel} (n : nat) : Callback → MW unit :=
  match n with
  | O => fun _ => mfail OutOfFuel
  | S m => invoke (H0 := greet_app (greet_invoke m)) (S m)
  end.

Section Callback.
Context `{HK : Kernel} `{!WriteOk} (Hwr : no_write_errors) (inv : Callback → MW unit) (c : conn_id) (base : bytes).
Context (Hshut : inv (TcpConnection_shutdownInLoop c) = shutdownInLoop c) (Hwc : write_complete_ok inv c).

(** Strings and addresses do not matter to the stream. *)
Lemma stream_strings sent w cn ch pfd x a :
  stream c base sent w cn ch pfd →
  stream c base sent (w <| next_addr := a |> <| strings := x |>) cn ch pfd.
Proof. intros [[Hc [] Hf Hu] Hwf Hcap Hm Hb]. split; [split; [done|by split|done|done]|done..]. Qed.

Lemma send_literal_Ok sent msg w cn ch pfd :
  stream c base sent w cn ch pfd → queue_limit (sent ++ msg) →
  ∃ w' cn' ch' pfd', send_literal inv c msg w = Ok (tt, w') ∧
    stream c base (sent ++ msg) w' cn' ch' pfd' ∧ kept cn cn'.
Proof.
  intros Hst Hlim. unfold send_literal. set (s := next_addr w).
  rewrite (M_bind_eq _ _ w s (w <| next_addr := S s |>)) by done.
  set (w1 := w <| next_addr := S s |> <| strings := <[s := msg]> (strings w) |>).
  rewrite (M_bind_eq _ _ _ tt w1) by done.
  pose proof (stream_strings sent w cn ch pfd (<[s := msg]> (strings w)) (S s) Hst) as Hst1. change (stream c base sent w1 cn ch pfd) in Hst1.
  assert (Hs : strings w1 !! s = Some msg) by apply lookup_insert_eq.
  destruct (sendInLoop_Ok inv c base sent w1 cn ch pfd s msg Hwc Hst1 Hs Hlim)
    as (w2 & cn2 & ch2 & pfd2 & E2 & Hst2 & Hk & _).
  rewrite (accepted_all c msg w1 Hwr) in Hst2 by (rewrite (lv_conn _ _ _ _ _ (st_live _ _ _ _ _ _ _ Hst1)); eauto).
  assert (Esend : Send inv c s w1 = Ok (tt, w2)).
  { unfold Send, isInLoopThread. rewrite (M_bind_eq _ _ w1 true w1); [done|]. unfold gets.
    by rewrite (rg_thread _ _ _ _ (lv_reg _ _ _ _ _ (st_live _ _ _ _ _ _ _ Hst1))), Z.eqb_refl. }
  rewrite (M_bind_eq _ _ _ _ _ Esend).
  exists (w2 <| strings := delete s (strings w2) |>), cn2, ch2, pfd2. split; [done|]. split; [|done].
  exact (stream_strings _ w2 cn2 ch2 pfd2 (delete s (strings w2)) (next_addr w2) Hst2).
Qed.

(** The callback on a connection that was just established *)
Lemma greet_connection_Ok w cn ch pfd :
  stream c base [] w cn ch pfd → state_ cn = kConnected →
  ∃ w' cn' ch' pfd', greet_connection inv c w = Ok (tt, w') ∧
    stream c base greeting w' cn' ch' pfd' ∧ state_ cn' = kDisconnecting ∧ use_count cn ≤ use_count cn' ∧
    (Buffer.contents (snd_buffer_ cn') = [] → ∃ h, hist w' = EvShutdown (socket_ cn') :: h).
Proof.
  intros Hst Hs. unfold greet_connection.
  rewrite (M_bind_eq _ _ _ _ _ (get_conn_Ok _ _ _ (lv_conn _ _ _ _ _ (st_live _ _ _ _ _ _ _ Hst)))).
  unfold connected. rewrite bool_decide_eq_true_2 by done.
  destruct (send_literal_Ok [] hello w cn ch pfd Hst) as (w1 & cn1 & ch1 & pfd1 & E1 & Hst1 & _ & Hs1 & Hu1); [by vm_compute|].
  rewrite (M_bind_eq _ _ _ _ _ E1).
  destruct (send_literal_Ok hello world_nl w1 cn1 ch1 pfd1 Hst1)
    as (w2 & cn2 & ch2 & pfd2 & E2 & Hst2 & _ & Hs2 & Hu2); [by vm_compute|].
  rewrite (M_bind_eq _ _ _ _ _ E2).
  assert (Hcn : connected cn2 = true) by (apply bool_decide_eq_true_2; congruence).
  destruct (Shutdown_Ok inv c base _ w2 cn2 ch2 pfd2 Hshut Hst2)
    as (w3 & cn3 & E3 & Hst3 & Hs3 & Hh3 & Eb3 & Es3 & Hu3).
  rewrite Hcn in Hs3, Hh3. exists w3, cn3, ch2, pfd2. split_and!; try done; [lia|].
  rewrite Eb3. intros Hq. rewrite Hq in Hh3. rewrite Es3. exists (hist w2). exact Hh3.
Qed.

Lemma greet_connection_footprint RB cn0 ch0 w0 :
  0 ≤ index_ ch0 → threadId_ (loop w0) = tid w0 →
  preserves (footprint RB c cn0 ch0 w0) (greet_connection inv c) (fun _ => True).
Proof.
  intros Hi Hthr. assert (Hlit : ∀ msg, preserves (footprint RB c cn0 ch0 w0) (send_literal inv c msg) (fun _ => True)).
  { intros msg. eapply preserves_bind; [apply fresh_footprint|intros s _].
    eapply preserves_bind; [apply strings_footprint|intros _ _].
    eapply preserves_bind; [by apply Send_footprint|intros _ _]. apply strings_footprint. }
  eapply preserves_bind; [apply get_conn_footprint|intros cn _]. apply preserves_if; intros _; [|by apply preserves_ret].
  eapply preserves_bind; [apply Hlit|intros _ _]. eapply preserves_bind; [apply Hlit|intros _ _].
  by apply Shutdown_footprint.
Qed.
End Callback.

(** ** Accepting the client *)

Section Accept.
Context `{HK : Kernel} `{!WriteOk} (Hwr : no_write_errors) (inv : Callback → MW unit).
Context (Hshut : ∀ c, inv (TcpConnection_shutdownInLoop c) = shutdownInLoop c).
Context (Hwc : ∀ c, write_complete_ok inv c).

(** The server waits for its first client on descriptor [lfd]. *)
Record greeter (lfd : Z) (w : World) : Prop := {
  gr_reg : Poller.reg_wf (poller (loop w)) (chans w);
  gr_thread : threadId_ (loop w) = tid w;
  gr_functors : functors_ (loop w) = [];
  gr_acceptor : listen_socket_ (acceptor_ w) = lfd ∧ new_conn_callback_ (acceptor_ w) = Some TcpServer_newConnection;
  gr_listener : ∃ lc, chans w !! listen_channel_ (acceptor_ w) = Some lc ∧ reads lc Acceptor_handleRead;
  gr_callbacks : server_conn_callback_ (server w) = Some 0%nat ∧ server_wc_callback_ (server w) = None;
  gr_server : TcpServer.server_wf w;
  gr_counts : next_conn_id_ (server w) < 2 ^ 31 - 1 ∧ len (Poller.fds (poller (loop w))) < 2 ^ 31 - 1;
  gr_fresh k : is_Some (chans w !! k) → (k < next_addr w)%nat
}.

(** Connection [c] has sent the greeting or queues the rest of it, and shuts its
    write end down behind it; [wire] since the accept is [session_out]. *)
Record draining (c : conn_id) (w : World) (cn : TcpConnection) (ch : Channel Callback) (pfd : pollfd)
    : Prop := {
  dr_reg : Poller.reg_wf (poller (loop w)) (chans w);
  dr_functors : functors_ (loop w) = [];
  dr_stream : ∃ base, stream c base greeting w cn ch pfd ∧
    wire (socket_ cn) (hist w) = base ++ session_out (socket_ cn) (hist w);
  dr_state : state_ cn = kDisconnecting;
  dr_wc : write_complete_callback_ cn = None;
  dr_write : write_callback_ ch = Some (TcpConnection_HandleWrite c);
  dr_accepted : ∃ lfd, EvAccept lfd (socket_ cn) ∈ hist w;
  dr_done : Buffer.contents (snd_buffer_ cn) = [] → ∃ h, hist w = EvShutdown (socket_ cn) :: h
}.

(** A reference that is not the last one is given up. *)
Definition dropped (cn : TcpConnection) : TcpConnection := cn <| use_count := use_count cn - 1 |>.
Definition released (c : conn_id) (cn : TcpConnection) (w : World) : World :=
  w <| conns := <[c := dropped cn]> (conns w) |>.

Lemma release_stream c base sent w cn ch pfd :
  stream c base sent w cn ch pfd → 2 ≤ use_count cn →
  conn_release c w = Ok (tt, released c cn w) ∧ stream c base sent (released c cn w) (dropped cn) ch pfd.
Proof.
  intros Hst Hu. destruct (stream_mod_conn c base sent w cn ch pfd dropped Hst) as [E Hst']; [done..|cbn; lia|].
  split; [|done]. unfold conn_release.
  rewrite (M_bind_eq _ _ _ _ _ (get_conn_Ok _ _ _ (lv_conn _ _ _ _ _ (st_live _ _ _ _ _ _ _ Hst)))).
  by rewrite (proj2 (Z.eqb_neq _ _)) by lia.
Qed.

(** What has the footprint of the connection, and ends in its stream *)
Lemma draining_footprint RB c cn0 ch0 pfd0 w0 w cn ch pfd :
  footprint RB c cn0 ch0 w0 w → live c w0 cn0 ch0 pfd0 →
  Poller.reg_wf (poller (loop w0)) (chans w0) → functors_ (loop w0) = [] →
  (∃ lfd, EvAccept lfd (socket_ cn0) ∈ hist w0) → write_callback_ ch0 = Some (TcpConnection_HandleWrite c) →
  (∃ base, stream c base greeting w cn ch pfd ∧
     wire (socket_ cn0) (hist w0) = base ++ session_out (socket_ cn0) (hist w0)) →
  state_ cn = kDisconnecting → (Buffer.contents (snd_buffer_ cn) = [] → ∃ h, hist w = EvShutdown (socket_ cn) :: h) →
  draining c w cn ch pfd ∧ socket_ cn = socket_ cn0.
Proof.
  intros Hf Hl0 Hreg Hfn [lfd Hacc] Hwt (base & Hst & Hw0) Hs Hdone.
  pose proof (lv_conn _ _ _ _ _ (st_live _ _ _ _ _ _ _ Hst)) as Hc.
  pose proof (rg_chan _ _ _ _ (lv_reg _ _ _ _ _ (st_live _ _ _ _ _ _ _ Hst))) as Hch.
  destruct (fp_conn _ _ _ _ _ _ Hf) as (cn1 & Hc1 & Ek & Es & _ & Ew & _).
  assert (cn1 = cn) as -> by congruence. rewrite Ek in Hch.
  destruct (fp_chan _ _ _ _ _ _ Hf) as (ch1 & Hch1 & (_ & _ & Ewt & _) & _).
  assert (ch1 = ch) as -> by congruence.
  destruct (fp_out _ _ _ _ _ w (socket_ cn0) Hf) as (x & Ex & Eo).
  destruct (fp_hist _ _ _ _ _ _ Hf) as (l & Hl & _). split; [|done]. split; try done.
  - eapply footprint_reg_wf; [..|exact Hf|exact Hreg]; apply Hl0.
  - by rewrite (fp_loop _ _ _ _ _ _ Hf).
  - exists base. split; [done|]. by rewrite Es, Ex, Eo, Hw0, app_assoc.
  - congruence.
  - exists lfd. rewrite Es, Hl. apply elem_of_app. by right.
Qed.

(** The end of [newConnection]: the callback is called with a temporary
    reference, and the local pointer dies. *)
Lemma established_greets c base w cn ch pfd :
  stream c base [] w cn ch pfd → state_ cn = kConnected → use_count cn = 2 → write_complete_callback_ cn = None →
  ∃ w' cn' ch' pfd', (with_shared c (greet_connection inv c) ;; conn_release c) w = Ok (tt, w') ∧
    stream c base greeting w' cn' ch' pfd' ∧ footprint (fun _ => True) c cn ch w w' ∧
    state_ cn' = kDisconnecting ∧
    (Buffer.contents (snd_buffer_ cn') = [] → ∃ h, hist w' = EvShutdown (socket_ cn') :: h).
Proof.
  intros Hst0 Hs Hu Hnone. pose proof (st_live _ _ _ _ _ _ _ Hst0) as Hl. pose proof (st_mask _ _ _ _ _ _ _ Hst0) as Hm.
  unfold with_shared, conn_acquire. rewrite !M_bind_unfold.
  set (f := fun cn : TcpConnection => cn <| use_count := use_count cn + 1 |>).
  destruct (stream_mod_conn c base [] w cn ch pfd f Hst0) as [-> Hst2]; [done..|cbn; lia|].
  set (w2 := w <| conns := <[c := f cn]> (conns w) |>) in *.
  destruct (greet_connection_Ok Hwr inv c base (Hshut c) (Hwc c) w2 (f cn) ch pfd Hst2 Hs)
    as (w3 & cn3 & ch3 & pfd3 & E3 & Hst3 & Hs3 & Hu3 & Hd3). cbn in Hu3.
  rewrite M_bind_unfold, E3.
  destruct (release_stream c base greeting w3 cn3 ch3 pfd3 Hst3) as [-> Hst4]; [lia|].
  destruct (release_stream c base greeting _ _ ch3 pfd3 Hst4) as [-> Hst5]; [cbn; lia|].
  do 4 eexists. split; [done|]. split; [done|]. split; [|done].
  apply (footprint_mod_conn (fun _ => True) c cn ch w dropped (released c cn3 w3) (dropped cn3)); [|apply Hst4|done].
  apply (footprint_mod_conn (fun _ => True) c cn ch w dropped w3 cn3); [|apply Hst3|done].
  eapply greet_connection_footprint; [apply Hshut|apply Hl|apply Hl| |exact E3].
  apply (footprint_mod_conn (fun _ => True) c cn ch w f w cn); [|apply Hl|done].
  apply footprint_refl; try done; [apply Hl|apply Hl|]. rewrite Hm. by destruct (Buffer.contents _).
Qed.

Lemma accept_greets lfd w :
  let fd := (k_accept (hist w) lfd).1 in
  greeter lfd w → 0 ≤ fd → channels_ (poller (loop w)) !! fd = None →
  ∃ w' cn ch pfd, Acceptor.handleRead (new_connection (H0 := greet_app inv)) w = Ok (tt, w') ∧
    draining (next_addr w) w' cn ch pfd ∧ socket_ cn = fd ∧
    ∃ lc, chans w' !! listen_channel_ (acceptor_ w) = Some lc ∧ write_callback_ lc = None.
Proof.
  intros fd [Hreg Hthr Hfn [Hlfd Hnc] (lc & Hlc & Hlr) [Hcb Hwcb] Hsw [Hid Hlen] Hfr] Hge Hm.
  unfold Acceptor.handleRead. rewrite (M_bind_eq _ _ _ _ _ (assertInLoopThread_true w Hthr)).
  rewrite (M_bind_eq _ _ w (acceptor_ w) w) by done. rewrite Hlfd, Hnc.
  set (w1 := w <| hist := EvAccept lfd fd :: hist w |>).
  rewrite (M_bind_eq _ _ w (k_accept (hist w) lfd) w1) by done. cbv zeta. fold fd.
  rewrite (proj2 (Z.ltb_ge _ _)) by done. cbn [new_connection].
  assert (Hsw1 : TcpServer.server_wf w1) by by destruct Hsw.
  unfold Poller.fds, len in Hlen. rewrite length_fmap in Hlen.
  destruct (TcpServer.newConnection_Ok (H0 := greet_app inv) fd (k_accept (hist w) lfd).2 w1 Hthr Hm Hlen Hsw1 Hid)
    as (b & wE & ch & pfd & Hb & -> & Hl & He & Hrd & Hwt & _ & Hcs & Hh & _ & _ & _ & Hch & _ & Hlp).
  change (next_addr w1) with (next_addr w) in *. set (c := next_addr w) in *.
  set (cn := TcpServer.new_conn _ _ _ _ _) in *. change (server w1) with (server w). rewrite Hcb. cbn [call_opt].
  set (base := wire fd (hist wE)).
  pose proof (stream_established c base wE cn ch pfd Hl Hb He eq_refl) as Hst0.
  change (app_connection 0 c) with (greet_connection inv c).
  destruct (established_greets c base wE cn ch pfd Hst0) as (w5 & cn5 & ch5 & pfd5 & -> & Hst5 & Hf & Hs5 & Hd5); [done..|].
  destruct (draining_footprint (fun _ => True) c cn ch pfd wE w5 cn5 ch5 pfd5 Hf Hl) as [Hdr Hs]; try done.
  - rewrite Hlp. pose proof (rg_chan _ _ _ _ (lv_reg _ _ _ _ _ Hl)) as HchE.
    eapply (reg_wf_registering _ (chans w)); try done; [apply (lv_fd _ _ _ _ _ Hl)|apply Hl|].
    destruct (chans w !! S c) eqn:E; [|done]. pose proof (Hfr (S c) ltac:(eauto)). lia.
  - by rewrite Hlp.
  - exists lfd. rewrite Hh. by constructor.
  - exists base. split; [done|]. rewrite Hh. cbn [session_out]. cbn. rewrite Z.eqb_refl, app_nil_r. unfold base. by rewrite Hh.
  - exists w5, cn5, ch5, pfd5. split; [done|]. split; [done|]. split; [done|].
    exists lc. destruct Hlr as (_ & ? & _). split; [|done].
    pose proof (Hfr _ ltac:(eauto)). rewrite (fp_chans _ _ _ _ _ _ Hf); [rewrite Hch; [done|cbn; lia]|cbn; lia].
Qed.
End Accept.

(** ** Draining the queue *)

(** A descriptor that was reported writable takes at least one byte. *)
Definition writes_after_poll `{Kernel} : Prop :=
  ∀ h n fd d, d ≠ [] → 1 ≤ (k_write (EvGettimeofday :: EvPoll n :: h) fd d).1.

(** Once accepted, [fd] is reported writable whenever the loop asks for it, and
    nothing else is reported: the client reads and does not talk. *)
Definition client_reads `{Kernel} (fd : Z) : Prop :=
  ∀ h pfds, (∃ lfd, EvAccept lfd fd ∈ h) →
    (∃ p, p ∈ pfds ∧ pfd_fd p = fd ∧ has (pfd_events p) POLLOUT = true) →
    k_poll h pfds (-1) = (1, (fun p => if pfd_fd p =? fd then POLLOUT else 0) <$> pfds).

Section Drain.
Context `{HK : Kernel} `{!WriteOk} `{!ClockOk} (Hpr : writes_after_poll).
Context (inv inv' : Callback → MW unit) (c : conn_id).
Context (Hwrite : inv (TcpConnection_HandleWrite c) = HandleWrite inv' c) (Hwc : write_complete_ok inv' c).

(** The poll finds exactly the client. *)
Lemma writable_poll w cn ch pfd :
  draining c w cn ch pfd → Buffer.contents (snd_buffer_ cn) ≠ [] → client_reads (socket_ cn) →
  let rs := (fun p => if pfd_fd p =? socket_ cn then POLLOUT else 0) <$> pollfds_ (poller (loop w)) in
  poll_answer 1 rs w ∧ ready_channels rs w = [channel_ cn] ∧
  mkpollfd (socket_ cn) (pfd_events pfd) POLLOUT ∈ stored rs w ∧ 0 ≤ socket_ cn.
Proof.
  intros [Hreg _ (base & [Hl _ _ Hm _] & _) _ _ _ Hacc _] Hq Hcl rs. set (fd := socket_ cn) in *.
  pose proof (lv_reg _ _ _ _ _ Hl) as Hr. pose proof (lv_fd _ _ _ _ _ Hl) as Hfd.
  pose proof (rg_entry _ _ _ _ Hr) as He. set (i := Z.to_nat (index_ ch)) in *.
  pose proof (rg_fd _ _ _ _ Hr) as Hpf. rewrite Hfd in Hpf. fold fd in Hpf, Hfd.
  assert (Hge : 0 ≤ fd).
  { apply (Poller.reg_nonneg _ _ Hreg), list_elem_of_fmap. exists pfd. split; [done|]. by eapply list_elem_of_lookup_2. }
  set (x := mkpollfd fd (pfd_events pfd) POLLOUT).
  assert (Hx : stored rs w !! i = Some x).
  { unfold stored, Poller.store_revents, rs. rewrite lookup_zip_with, list_lookup_fmap, He. cbn.
    by rewrite Hpf, Z.eqb_refl. }
  assert (Hnd : NoDup (pfd_fd <$> stored rs w)).
  { unfold stored. rewrite Poller.store_revents_fds by apply length_fmap. apply Hreg. }
  assert (Hfil : filter (fun p => Poller.ready p = true) (stored rs w) = [x]).
  { apply singleton_nodup; [by eapply NoDup_filter, NoDup_fmap_1| |].
    - apply list_elem_of_filter. split; [|by eapply list_elem_of_lookup_2].
      apply andb_true_intro. split; [by apply Z.geb_le|done].
    - intros y [Hy [j Hj]%list_elem_of_lookup]%list_elem_of_filter. apply andb_true_iff in Hy as [_ Hy].
      assert (pfd_fd y = fd).
      { unfold stored, Poller.store_revents, rs in Hj. rewrite lookup_zip_with, list_lookup_fmap in Hj.
        destruct (pollfds_ _ !! j) as [p|]; [|done]. cbn in Hj. injection Hj as <-. cbn in Hy |- *.
        by destruct (Z.eqb_spec (pfd_fd p) fd). }
      assert (j = i) as ->; [|congruence].
      by apply (NoDup_lookup _ j i fd Hnd); rewrite list_lookup_fmap, ?Hj, ?Hx; cbn; [f_equal|]. }
  split; [|split; [|split; [by eapply list_elem_of_lookup_2|done]]].
  - split; [|split; [by apply length_fmap|right; by rewrite Hfil]]. apply Hcl; [done|].
    exists pfd. split; [by eapply list_elem_of_lookup_2|]. split; [done|].
    rewrite (rg_events _ _ _ _ Hr), Hm. by destruct (Buffer.contents (snd_buffer_ cn)).
  - unfold ready_channels, Poller.picked. rewrite Hfil.
    assert (length (stored rs w) ≠ 0%nat) as Hlen by (intros E%nil_length_inv; by rewrite E in Hx).
    destruct (length (stored rs w)) as [|l]; [done|]. cbn [take omap list_omap]. cbn.
    rewrite <-Hfd, (rg_map _ _ _ _ Hr). by destruct l.
Qed.

(** A write event of the client *)
Lemma write_event w cn ch pfd :
  draining c w cn ch pfd → Buffer.contents (snd_buffer_ cn) ≠ [] → revents_ ch = POLLOUT →
  (∃ h n, hist w = EvGettimeofday :: EvPoll n :: h) →
  ∃ w' cn' ch' pfd', HandleEvent inv (channel_ cn) w = Ok (tt, w') ∧ draining c w' cn' ch' pfd' ∧
    socket_ cn' = socket_ cn ∧
    (length (Buffer.contents (snd_buffer_ cn')) < length (Buffer.contents (snd_buffer_ cn)))%nat.
Proof.
  intros [Hreg Hfn (base & Hst & Hw) Hs Hnone Hwt Hacc _] Hq Hrev (h & n & Hh).
  pose proof (st_live _ _ _ _ _ _ _ Hst) as Hl. pose proof (lv_reg _ _ _ _ _ Hl) as Hr.
  destruct (HandleWrite_Ok inv' c base greeting w cn ch pfd Hwc Hst ltac:(by vm_compute))
    as (w' & cn' & ch' & pfd' & E & Hst' & Hs' & Es' & Eq & Hsh).
  pose proof (Hpr h n (socket_ cn) (Buffer.contents (snd_buffer_ cn)) Hq) as Hone. rewrite <-Hh in Hone.
  set (k := Z.to_nat _) in Eq, Hsh. assert (Hk : (1 ≤ k)%nat) by (unfold k; lia).
  assert (Hf : footprint (fun _ => True) c cn ch w w').
  { eapply HandleWrite_footprint; [apply Hr| |exact E]. apply footprint_refl; try done; [apply Hl|apply Hr|].
    rewrite (st_mask _ _ _ _ _ _ _ Hst). by destruct (Buffer.contents _). }
  destruct (draining_footprint (fun _ => True) c cn ch pfd w w' cn' ch' pfd' Hf Hl) as [Hdr _]; try done.
  - by exists base.
  - congruence.
  - rewrite Eq. intros Hnil. destruct (Hsh Hq Hnil Hs) as (h' & Hh' & _). rewrite Es'. by exists h'.
  - exists w', cn', ch', pfd'. split; [|split; [done|split; [done|]]].
    + unfold HandleEvent. rewrite (M_bind_eq _ _ _ _ _ (get_chan_Ok _ _ _ (rg_chan _ _ _ _ Hr))), Hrev.
      change (has POLLOUT POLLHUP) with false. cbn [andb]. change (has POLLOUT (Z.lor POLLERR POLLNVAL)) with false.
      rewrite (M_bind_eq _ _ w tt w) by done.
      rewrite (M_bind_eq _ _ _ _ _ (get_chan_Ok _ _ _ (rg_chan _ _ _ _ Hr))), Hrev.
      change (has POLLOUT (Z.lor POLLIN (Z.lor POLLPRI POLLRDHUP))) with false.
      rewrite (M_bind_eq _ _ w tt w) by done.
      rewrite (M_bind_eq _ _ _ _ _ (get_chan_Ok _ _ _ (rg_chan _ _ _ _ Hr))), Hrev, Hwt.
      change (has POLLOUT POLLOUT) with true. cbn [call_opt]. by rewrite Hwrite.
    + rewrite Eq, length_drop. destruct (Buffer.contents (snd_buffer_ cn)); [done|cbn; lia].
Qed.

(** An iteration of the loop while bytes are queued *)
Lemma drain_iteration w cn ch pfd :
  draining c w cn ch pfd → Buffer.contents (snd_buffer_ cn) ≠ [] → client_reads (socket_ cn) →
  ∃ w' cn' ch' pfd', loop_body inv w = Ok (tt, w') ∧ draining c w' cn' ch' pfd' ∧ socket_ cn' = socket_ cn ∧
    (length (Buffer.contents (snd_buffer_ cn')) < length (Buffer.contents (snd_buffer_ cn)))%nat.
Proof.
  intros Hdr Hq Hcl. destruct (writable_poll w cn ch pfd Hdr Hq Hcl) as (Hpoll & Hrc & Hx & Hge).
  set (rs := _ <$> _) in *. pose proof Hdr as [Hreg Hfn (base & Hst & Hw) Hs Hnone Hwt [lfd Hacc] _].
  pose proof (st_live _ _ _ _ _ _ _ Hst) as Hl. pose proof (lv_reg _ _ _ _ _ Hl) as Hr.
  destruct (loop_body_eval inv 1 rs w Hreg Hpoll) as (h & -> & Hin & Hout & _).
  destruct (polled_live 1 rs w h Hpoll Hin Hout c cn ch pfd Hl) as (r & r' & _ & Hl1).
  pose proof (polled_reg 1 rs w h Hpoll Hin Hout Hreg) as Hreg1.
  destruct (Hin _ (channel_ cn) ltac:(done) Hx) as [_ Hk].
  { apply andb_true_intro. split; [by apply Z.geb_le|done]. }
  { cbn [pfd_fd]. rewrite <-(lv_fd _ _ _ _ _ Hl). apply Hr. }
  assert (r = POLLOUT) as ->.
  { pose proof (rg_chan _ _ _ _ (lv_reg _ _ _ _ _ Hl1)) as Hc1. cbn in Hc1.
    rewrite Hk, (rg_chan _ _ _ _ Hr) in Hc1. by injection Hc1. }
  change (1 <=? 0) with false in *. cbv iota in *. rewrite Hrc in *.
  set (w1 := polled rs [channel_ cn] h w) in *.
  match type of Hl1 with live _ _ _ ?ch1 ?pfd1 => assert (Hdr1 : draining c w1 cn ch1 pfd1) end.
  { split; [done|done| |done|done|exact Hwt| |by intros ?%Hq].
    - exists base. split; [|done]. by destruct Hst; split.
    - exists lfd. by do 2 apply elem_of_cons, or_intror. }
  destruct (write_event w1 cn _ _ Hdr1 Hq eq_refl) as (w2 & cn2 & ch2 & pfd2 & E2 & Hdr2 & Es2 & Hlt2); [by do 2 eexists|].
  cbn [mfor]. rewrite !M_bind_unfold, E2. exists w2, cn2, ch2, pfd2. split; [|done].
  apply doPendingFunctors_none, Hdr2.
Qed.

(** [n] iterations of the loop *)
Fixpoint iterations (n : nat) : MW unit :=
  match n with O => mret tt | S n => loop_body inv ;; iterations n end.

Lemma greeting_drains k w cn ch pfd :
  draining c w cn ch pfd → client_reads (socket_ cn) → (length (Buffer.contents (snd_buffer_ cn)) ≤ k)%nat →
  ∃ n w' h, (n ≤ k)%nat ∧ iterations n w = Ok (tt, w') ∧ hist w' = EvShutdown (socket_ cn) :: h ∧
    session_out (socket_ cn) h = greeting.
Proof.
  revert w cn ch pfd. induction k as [|k IH]; intros w cn ch pfd Hdr Hcl Hk.
  all: destruct (decide (Buffer.contents (snd_buffer_ cn) = [])) as [Hq|Hq].
  2: { destruct (Buffer.contents (snd_buffer_ cn)); [done|cbn in Hk; lia]. }
  1, 2: destruct (dr_done _ _ _ _ _ Hdr Hq) as [h Hh]; exists 0%nat, w, h; split; [lia|]; split; [done|]; split; [done|];
    destruct (dr_stream _ _ _ _ _ Hdr) as (base & Hst & Hw); pose proof (st_bytes _ _ _ _ _ _ _ Hst) as Hb;
    rewrite Hq, app_nil_r, Hw, Hh in Hb; by apply app_inv_head in Hb.
  destruct (drain_iteration w cn ch pfd Hdr Hq Hcl) as (w1 & cn1 & ch1 & pfd1 & E1 & Hdr1 & Es1 & Hlt).
  destruct (IH w1 cn1 ch1 pfd1 Hdr1) as (n & w' & h & Hn & E & Hh & Hout); [by rewrite Es1|lia|].
  rewrite Es1 in Hh, Hout. exists (S n), w', h. split; [lia|]. split; [|done].
  cbn [iterations]. by rewrite (M_bind_eq _ _ _ _ _ E1).
Qed.
End Drain.

(** ** The program *)

Section Theorems.
Context `{HK : Kernel} `{!WriteOk} `{!ClockOk} (m : nat).
Let inv : Callback → MW unit := greet_invoke (S (S m)).
Let inv' : Callback → MW unit := greet_invoke (S m).

Lemma shutdown_setup_greeter inet_aton w :
  process_start w → setup_answers (InetAddress.InetAddress_new inet_aton (b_ "127.0.0.1") 5000) w →
  ∃ w', shutdown_setup inet_aton w = Ok (tt, w') ∧ greeter (k_socket (hist w)) w'.
Proof.
  intros Hps Hsa. unfold shutdown_setup. set (addr := InetAddress.InetAddress_new _ _ _) in *.
  destruct (acceptor_constructed addr w Hps Hsa)
    as (w1 & w2 & k & ch & E1 & E2 & [Hreg Hthr Hfn Hcn Hfr Hfds] & Ha & Hk & Hrd).
  rewrite (M_bind_eq _ _ _ _ _ E1). unfold TcpServer.TcpServer_new.
  rewrite M_bind_unfold, (M_bind_eq _ _ _ _ _ E2). cbn [mod_server mmod].
  set (s3 := mkTcpServer (b_ "test") None None None 0 addr ∅). set (w3 := w2 <| server := s3 |>).
  set (w4 := w3 <| server := s3 <| server_conn_callback_ := Some 0%nat |> |>).
  rewrite (M_bind_eq _ _ w3 tt w4) by done.
  rewrite (Start_Ok (k_socket (hist w)) k w4 Hthr Ha) by apply Hsa. eexists. split; [done|].
  split; try done; [by exists ch| |by cbn; rewrite Hfds].
  split; try done. cbn. rewrite Hcn. intros c. rewrite lookup_empty. by intros [].
Qed.

Lemma write_complete_greet i n c : write_complete_ok (invoke (H0 := greet_app i) (S n)) c.
Proof.
  intros u w cn ch pfd Hl. exists w, cn, ch, pfd. split; [done|]. split; [done|].
  split; [by repeat split|]. split; [done|]. apply kept_refl.
Qed.

(** The iteration that accepts the client *)
Lemma greeting_accepted lfd n rs w :
  let fd := (k_accept (EvGettimeofday :: EvPoll (len (pollfds_ (poller (loop w)))) :: hist w) lfd).1 in
  no_write_errors → greeter lfd w → listener_poll n rs w → client_waits n rs w = true → 0 ≤ fd →
  channels_ (poller (loop w)) !! fd = None →
  ∃ w' c cn ch pfd, loop_body inv w = Ok (tt, w') ∧ draining c w' cn ch pfd ∧ socket_ cn = fd.
Proof.
  intros fd Hwr Hgr Hlp Hwait Hge Hm. pose proof Hgr as [Hreg Hthr Hfn Hacc (lc & Hlc & Hlr) Hcb Hsw Hcnt Hfr].
  destruct (listener_iteration inv n rs w lc Hreg Hlc Hlp)
    as (active & hp & r & Hreg1 & Hfds & Hdom & Hr & Hact & -> & [Ea|[_ Hno]]); [|congruence].
  destruct (Hact Ea) as [Hcalm Hrb]. rewrite Ea in *. set (k := listen_channel_ (acceptor_ w)) in *.
  set (w1 := polled rs [k] hp w) in *.
  assert (Hgr1 : greeter lfd w1).
  { split; try done; [by exists (Channel.set_revents r lc)|by destruct Hsw|by rewrite Hfds|].
    intros j Hj. by apply Hfr, Hdom. }
  destruct (accept_greets Hwr inv' (fun _ => eq_refl) (write_complete_greet (greet_invoke m) m) lfd w1 Hgr1 Hge Hm)
    as (w2 & cn & ch & pfd & E2 & Hdr & Hs & lc2 & Hlc2 & Hwt2).
  exists w2, (next_addr w1), cn, ch, pfd. split; [|done]. cbn [mfor]. rewrite !M_bind_unfold.
  destruct Hlr as (Hrd & Hwt & _). rewrite (listener_event inv w1 (Channel.set_revents r lc) k Hr Hrd Hwt Hcalm).
  - cbn [Channel.set_revents revents_]. rewrite Hrb, Hwait.
    change (inv Acceptor_handleRead) with (Acceptor.handleRead (new_connection (H0 := greet_app inv'))).
    rewrite E2. apply doPendingFunctors_none, Hdr.
  - intros w2' E2'. change (inv Acceptor_handleRead) with (Acceptor.handleRead (new_connection (H0 := greet_app inv'))) in E2'.
    rewrite E2 in E2'. injection E2' as <-. by exists lc2.
Qed.

(** C2: the greeting server and its first client: the set-up succeeds; when the
    loop then finds a client waiting, and the client reads what it gets, at most
    one iteration per byte of the greeting and one for the accept later the kernel
    has taken exactly the greeting on the client's descriptor, and the last system
    call has shut the write end down, however the writes were split on the way;
    no step of it fails. *)
Theorem greeting_delivered (inet_aton : bytes → option Z) (w0 : World) :
  no_write_errors → writes_after_poll → process_start w0 →
  setup_answers (InetAddress.InetAddress_new inet_aton (b_ "127.0.0.1") 5000) w0 →
  ∃ w1, shutdown_setup inet_aton w0 = Ok (tt, w1) ∧
    let w := loop_started w1 in
    let fd := (k_accept (EvGettimeofday :: EvPoll (len (pollfds_ (poller (loop w)))) :: hist w) (k_socket (hist w0))).1 in
    ∀ n rs, listener_poll n rs w → client_waits n rs w = true → 0 ≤ fd →
      channels_ (poller (loop w)) !! fd = None → client_reads fd →
      ∃ k w2 h, (k ≤ S (length greeting))%nat ∧ iterations inv k w = Ok (tt, w2) ∧
        hist w2 = EvShutdown fd :: h ∧ session_out fd h = greeting.
Proof.
  intros Hwr Hpr Hps Hsa. destruct (shutdown_setup_greeter inet_aton w0 Hps Hsa) as (w1 & E & Hgr).
  exists w1. split; [done|]. intros w fd n rs Hlp Hwait Hge Hm Hcl.
  assert (Hgr' : greeter (k_socket (hist w0)) w) by (destruct Hgr as [? ? ? ? ? ? [] ? ?]; split; try done; by split).
  destruct (greeting_accepted _ n rs w Hwr Hgr' Hlp Hwait Hge Hm) as (w2 & c & cn & ch & pfd & E2 & Hdr & Hs).
  fold fd in Hs. destruct (dr_stream _ _ _ _ _ Hdr) as (base & Hst & Hw).
  destruct (greeting_drains Hpr inv (invoke (H0 := greet_app inv') (S m)) c eq_refl (write_complete_greet inv' m c)
    (length greeting) w2 cn ch pfd Hdr) as (k & w3 & h & Hk & E3 & Hh & Hout).
  - by rewrite Hs.
  - pose proof (st_bytes _ _ _ _ _ _ _ Hst) as Hb. rewrite Hw, <-app_assoc in Hb. apply app_inv_head in Hb.
    rewrite <-Hb, length_app. lia.
  - rewrite Hs in Hh, Hout. exists (S k), w3, h. split; [lia|]. split; [|done].
    cbn [iterations]. by rewrite (M_bind_eq _ _ _ _ _ E2).
Qed.

End Theorems.

(** ** A client on a kernel that takes five bytes, blocks, and then takes two at a time *)

Definition ex_greet_kernel : Kernel := {|
  k_gettimeofday := @k_gettimeofday ex_kernel;
  k_poll h pfds _ :=
    if existsb (fun e => match e with EvAccept _ _ => true | _ => false end) h
    then (1, (fun p => if pfd_fd p =? 9 then POLLOUT else 0) <$> pfds)
    else (1, (fun p => if pfd_fd p =? 60 then POLLIN else 0) <$> pfds);
  k_write h _ d :=
    match h with
    | EvGettimeofday :: _ => (Z.min 2 (len d), 0)
    | EvWrite _ _ _ :: _ => (-1, EWOULDBLOCK)
    | _ => (Z.min 5 (len d), 0)
    end;
  k_read := @k_read ex_kernel; k_readv := @k_readv ex_kernel;
  k_accept _ _ := (9, ex_addr); k_settime := @k_settime ex_kernel;
  k_eventfd := @k_eventfd ex_kernel; k_timerfd := @k_timerfd ex_kernel;
  k_socket := @k_socket ex_kernel; k_bind := @k_bind ex_kernel;
  k_listen := @k_listen ex_kernel; k_shutdown := @k_shutdown ex_kernel |}.

#[export] Instance ex_greet_write_ok : WriteOk (H := ex_greet_kernel).
Proof. intros h fd d. pose proof (len_nonneg d). destruct h as [|[] ?]; cbn; lia. Qed.
#[export] Instance ex_greet_clock_ok : ClockOk (H := ex_greet_kernel).
Proof. exact ex_clock_ok. Qed.

Lemma ex_greet_reads : client_reads (H := ex_greet_kernel) 9.
Proof.
  intros h pfds [lfd Ha] _. cbn. rewrite (proj2 (existsb_exists _ h)); [done|].
  exists (EvAccept lfd 9). split; [by apply list_elem_of_In|done].
Qed.

Definition ex_greet_aton (_ : bytes) : option Z := Some 16777343.
Definition ex_greet_up : World :=
  loop_started (run_in (shutdown_setup (H := ex_greet_kernel) ex_greet_aton) ex_world).

Lemma ex_greet_listener : listener_poll (HK := ex_greet_kernel) 1 [0; 0; 1] ex_greet_up.
Proof. apply (listener_poll_one [0; 0; 1] _ (mkpollfd 60 3 1)); by vm_compute. Qed.

Lemma greeting_delivered_witness :
  ∃ k w2 h, (k ≤ 14)%nat ∧
    iterations (HK := ex_greet_kernel) (greet_invoke (H := ex_greet_kernel) 2) k ex_greet_up = Ok (tt, w2) ∧
    hist w2 = EvShutdown 9 :: h ∧ session_out 9 h = greeting.
Proof.
  destruct (greeting_delivered (HK := ex_greet_kernel) 0 ex_greet_aton ex_world) as (w1 & E & Hrun).
  - intros h fd d. pose proof (len_nonneg d). destruct h as [|[] ?]; first [left; cbn; lia|by right].
  - intros h n fd d Hd. cbn. destruct d; [done|]. rewrite len_cons. pose proof (len_nonneg d). lia.
  - by split.
  - split; try by vm_compute. apply (bool_decide_eq_true_1 _). by vm_compute.
  - assert (w1 = run_in (shutdown_setup (H := ex_greet_kernel) ex_greet_aton) ex_world) as ->
      by (unfold run_in; by rewrite E).
    refine (Hrun 1 [0; 0; 1] ex_greet_listener _ _ _ _); [by vm_compute|by vm_compute|by vm_compute|exact ex_greet_reads].
Defined.
