(* ===== verification/TimerLoop.v ===== *)
(** * A loop with timers (net/eventloop.cc, net/timer_queue.cc; the program is
    TEST(EventLoop, TimerQueue) of tests/eventloop_test.cc)

    The poller, the dispatch, the timer queue and [quit()] composed: [timing] is
    the state of a loop whose only descriptors are its own two and whose
    functions are the application's.  Whatever [poll(2)] reports, an iteration
    keeps it and faults nowhere, provided the application's functions do; and
    the functions are kept by the operations the library offers them, [RunAt],
    [RunAfter], [RunEvery] and [quit].  The test program returns from [loop()]
    once the clock has passed the five seconds after which it asks to quit. *)

From S2P Require Import Prelude Slice Buffer Timestamp Poller World EventLoop TcpConnection Footprint TcpServer TimerQueue Reactor Iteration Startup.

Definition is_user (cb : Callback) : Prop := ∃ u, cb = User u.

Abbreviation timer_chan w := (timerfd_channel_ (timer_queue (loop w))).
Abbreviation wakeup_chan w := (wakeup_channel_ (loop w)).

Record timing (w : World) : Prop := {
  tm_thread : threadId_ (loop w) = tid w;
  tm_reg : Poller.reg_wf (poller (loop w)) (chans w);
  tm_timer : ∃ ch, chans w !! timer_chan w = Some ch ∧ reads ch TimerQueue_HandleRead;
  tm_timerfd : channels_ (poller (loop w)) !! timerfd_ (timer_queue (loop w)) = Some (timer_chan w);
  tm_wakeup : ∃ ch, chans w !! wakeup_chan w = Some ch ∧ reads ch EventLoop_handleRead;
  tm_only : ∀ fd k, channels_ (poller (loop w)) !! fd = Some k → k = timer_chan w ∨ k = wakeup_chan w;
  tm_table : table_wf (tq w);
  tm_ok : table_ok (tq w);
  tm_user : Forall (fun x => is_user (callback_ x.2)) (tq w);
  tm_functors : Forall is_user (functors_ (loop w))
}.

(** What never goes back: the history, a request to quit, the two channels *)
Record evolves (w w' : World) : Prop := {
  ev_hist : ∃ h, hist w' = h ++ hist w;
  ev_quit : quit_ (loop w) = true → quit_ (loop w') = true;
  ev_timer : timer_chan w' = timer_chan w;
  ev_timerfd : timerfd_ (timer_queue (loop w')) = timerfd_ (timer_queue (loop w));
  ev_wakeup : wakeup_chan w' = wakeup_chan w
}.

#[export] Instance evolves_preorder : PreOrder evolves.
Proof.
  split.
  - intros w. by split; [exists []|..].
  - intros x y z [(h1 & E1) Q1 T1 F1 K1] [(h2 & E2) Q2 T2 F2 K2].
    split; [exists (h2 ++ h1); by rewrite E2, E1, app_assoc|auto|congruence..].
Qed.

(** A function of the application may add timers; none can be removed. *)
Definition grows (w w' : World) : Prop := evolves w w' ∧ ∀ x, x ∈ tq w → x ∈ tq w'.

#[export] Instance grows_preorder : PreOrder grows.
Proof.
  split; [by intros w; split|]. intros x y z [E1 H1] [E2 H2]. split; [by trans y|auto].
Qed.

(** The timer that will ask to quit is in the table, unless it has asked. *)
Definition waiting (q : nat) (ts : Timestamp) (w : World) : Prop :=
  quit_ (loop w) = true ∨ ∃ tm, (ts, tm) ∈ tq w ∧ callback_ tm = User q.

Lemma waiting_grows q ts w w' : grows w w' → waiting q ts w → waiting q ts w'.
Proof. intros [E H] [Hq|(tm & Hin & Hc)]; [left; by apply E|right; eauto]. Qed.

Lemma evolves_with_hist h w : evolves w (with_hist (h ++ hist w) w).
Proof. split; [by exists h|done..]. Qed.

Lemma timing_with_hist h w : timing w → timing (with_hist h w).
Proof. intros []. by split. Qed.

(** Another table in the same loop *)
Lemma timing_with_timers l w :
  timing w → table_wf l → table_ok l → Forall (fun x => is_user (callback_ x.2)) l → timing (with_timers l w).
Proof. intros [] ???. by split. Qed.

Section TimerLoop.
Context `{HK : Kernel} `{HA : App} `{!ClockOk}.
Context (inv inv' : Callback → MW unit).
Context (Htimer : inv TimerQueue_HandleRead = TimerQueue.HandleRead inv').
Context (Hwake : inv EventLoop_handleRead = EventLoop.handleRead).
Context (Huser : ∀ u, inv (User u) = app_run u) (Huser' : ∀ u, inv' (User u) = app_run u).

(** The application's functions return and keep the loop as it is; function [q]
    asks the loop to quit. *)
Definition callbacks_ok : Prop :=
  ∀ u w, timing w → ∃ w', app_run u w = Ok (tt, w') ∧ timing w' ∧ grows w w'.
Definition quits (q : nat) : Prop := ∀ w w', app_run q w = Ok (tt, w') → quit_ (loop w') = true.

Context (Hcb : callbacks_ok) (q : nat) (Hq : quits q).

Lemma run_users (call : Callback → MW unit) cbs w :
  (∀ u, call (User u) = app_run u) → Forall is_user cbs → timing w →
  ∃ w', mfor call cbs w = Ok (tt, w') ∧ timing w' ∧ grows w w' ∧ (User q ∈ cbs → quit_ (loop w') = true).
Proof.
  intros Hcall Hu. revert w. induction Hu as [|cb cbs (u & ->) _ IH]; intros w Hw.
  { exists w. split_and!; [done|done|done|by intros ?%elem_of_nil]. }
  destruct (Hcb u w Hw) as (w1 & E1 & Hw1 & G1). destruct (IH w1 Hw1) as (w2 & E2 & Hw2 & G2 & Q2).
  exists w2. cbn [mfor]. rewrite M_bind_unfold, Hcall, E1. split_and!; [done|done|by trans w1|].
  intros [[= <-]|Hin]%elem_of_cons; [|auto]. apply G2. by eapply Hq.
Qed.

(** ** Handling the two channels *)

(** A read event, or none *)
Definition readable (ch : Channel Callback) : bool := has (revents_ ch) (Z.lor POLLIN (Z.lor POLLPRI POLLRDHUP)).

Lemma HandleEvent_reads k w ch cb w' ch' :
  chans w !! k = Some ch → reads ch cb →
  (readable ch = true → inv cb w = Ok (tt, w')) → (readable ch = false → w' = w) →
  chans w' !! k = Some ch' → write_callback_ ch' = None → HandleEvent inv k w = Ok (tt, w').
Proof.
  intros Hc (Hr & Hwr & He & Hcl) Hyes Hno Hc' Hwr'. unfold HandleEvent.
  rewrite (M_bind_eq _ _ _ _ _ (get_chan_Ok _ _ _ Hc)), Hcl.
  rewrite (bool_decide_eq_false_2 (is_Some None)), andb_false_r by (by intros []).
  rewrite (M_bind_eq _ _ w tt w) by (rewrite He; by destruct (has _ _)).
  rewrite (M_bind_eq _ _ _ _ _ (get_chan_Ok _ _ _ Hc)). fold (readable ch).
  rewrite (M_bind_eq _ _ w tt w').
  - rewrite (M_bind_eq _ _ _ _ _ (get_chan_Ok _ _ _ Hc')), Hwr'. by destruct (has _ _).
  - rewrite Hr. destruct (readable ch); [by apply Hyes|by rewrite Hno].
Qed.

Lemma handle_wakeup w :
  timing w →
  ∃ w', HandleEvent inv (wakeup_chan w) w = Ok (tt, w') ∧ timing w' ∧ grows w w' ∧ chans w' = chans w.
Proof.
  intros Hw. destruct (tm_wakeup w Hw) as (ch & Hc & Hr).
  set (w1 := with_hist (EvRead (wakeup_fd_ (loop w)) :: hist w) w).
  exists (if readable ch then w1 else w). split.
  - eapply (HandleEvent_reads _ _ ch EventLoop_handleRead _ ch); [done|done|..].
    + intros ->. by rewrite Hwake.
    + by intros ->.
    + by destruct (readable ch).
    + apply Hr.
  - destruct (readable ch); [|done]. split; [by apply timing_with_hist|]. split; [|done].
    split; [by apply (evolves_with_hist [EvRead _])|done].
Qed.

(** From the history [h] on the clock shows more than [ts]. *)
Definition clock_past (ts : Timestamp) (h : history) : Prop :=
  ∀ h' t, Timestamp_now (k_gettimeofday (h' ++ h)).1 (k_gettimeofday (h' ++ h)).2 = Ok t →
    micro_since_epoch_ ts < micro_since_epoch_ t.

Lemma clock_past_later ts h h' : clock_past ts h → clock_past ts (h' ++ h).
Proof. intros Hpast h2 t. rewrite app_assoc. apply Hpast. Qed.

Lemma rearmed_user t ex re :
  rearmed t ex re → Forall (fun x => is_user (callback_ x.2)) ex → Forall (fun x => is_user (callback_ x.2)) re.
Proof.
  unfold rearmed. intros Hr Hu.
  assert (Hf : Forall (fun x => is_user (callback_ x.2)) (filter (fun x => repeat_ x.2 = true) ex))
    by (apply Forall_forall; intros x [_ Hx]%list_elem_of_filter; by eapply Forall_forall in Hu).
  clear Hu. induction Hr as [|x y l k [Hxy _] _ IH]; [done|]. apply Forall_cons in Hf as [Hx Hf].
  constructor; [|auto]. destruct y as [key tm]. cbn in *.
  unfold ReArm in Hxy. destruct (repeat_ x.2); inv_ok; exact Hx.
Qed.

(** The expired timers are the ones before [t]. *)
Lemma before_mem (t : Timestamp) (l : TimerTable) x :
  table_wf l → x ∈ l → micro_since_epoch_ x.1 < micro_since_epoch_ t → x ∈ before t l.
Proof.
  intros [Hs _] Hx Hlt. pose proof (before_rest_ge t l Hs) as Hge. rewrite (before_split t l) in Hx.
  apply elem_of_app in Hx as [Hx|Hx]; [done|]. rewrite Forall_forall in Hge. specialize (Hge x Hx). unfold tle in Hge. lia.
Qed.

(** An alarm keeps the loop as it is, calls the functions of the timers that are
    due, and keeps the others in the table. *)
Lemma alarm_ok ts w :
  timing w →
  ∃ w', TimerQueue.HandleRead inv' w = Ok (tt, w') ∧ timing w' ∧ evolves w w' ∧
    (waiting q ts w → waiting q ts w') ∧
    (clock_past ts (hist w) → waiting q ts w → quit_ (loop w') = true).
Proof.
  intros Hw. destruct (clock_ok (hist w)) as (t & Ht & Htb). pose proof Hw as [_ _ _ _ _ _ Hwf Hok Hus _].
  pose proof (before_split t (tq w)) as Hsplit. set (ex := before t (tq w)) in *.
  pose proof Hok as Hok'. pose proof Hus as Hus'. rewrite Hsplit in Hok', Hus'.
  apply Forall_app in Hok' as [_ Hokr]. apply Forall_app in Hus' as [Husx Husr].
  set (w1 := alarmed t w).
  assert (Hw1 : timing w1) by (apply timing_with_timers; [by apply timing_with_hist|by apply table_rest|done|done]).
  destruct (run_users inv' ((fun x => callback_ x.2) <$> ex) w1 Huser') as (w2 & E2 & Hw2 & [G2 T2] & Q2);
    [by apply Forall_fmap|done|].
  destruct (HandleRead_alarm_eval inv' t w w2 Hwf Hok Ht Htb E2 (tm_ok w2 Hw2))
    as (re & l & s & ns & E & Hre & Hp & Hwfl & Hokl & _).
  set (w' := with_hist _ (with_timers l w2)) in E. exists w'. split; [done|].
  assert (Hev : evolves w w').
  { trans w1; [by split; [exists [EvRead (timerfd_ (timer_queue (loop w))); EvGettimeofday]|..]|]. trans w2; [done|].
    by split; [exists [EvSettime (timerfd_ (timer_queue (loop w2))) s ns; EvGettimeofday]|..]. }
  assert (Hcase : waiting q ts w → quit_ (loop w') = true ∨
    ∃ tm, (ts, tm) ∈ drop (length ex) (tq w) ∧ callback_ tm = User q).
  { intros [Hquit|(tm & Hin & Hc)]; [left; by apply Hev|]. rewrite Hsplit in Hin.
    apply elem_of_app in Hin as [Hin|Hin]; [left|right; by exists tm].
    apply Q2, list_elem_of_fmap. by exists (ts, tm). }
  split_and!; [|done|..].
  - apply timing_with_hist, timing_with_timers; [done|apply Hwfl, Hw2|done|].
    rewrite Hp. apply Forall_app. split; [by eapply rearmed_user|apply Hw2].
  - intros [?|(tm & Hin & Hc)]%Hcase; [by left|]. right. exists tm. split; [|done].
    change (tq w') with l. rewrite Hp. apply elem_of_app. right. by apply T2.
  - intros Hpast [?|(tm & Hin & Hc)]%Hcase; [done|]. exfalso.
    pose proof (before_rest_ge t (tq w) (proj1 Hwf)) as Hge. rewrite Forall_forall in Hge.
    specialize (Hge _ Hin). specialize (Hpast [] t Ht). unfold tle in Hge. cbn in Hge. lia.
Qed.

Lemma handle_timer ts w :
  timing w →
  ∃ w', HandleEvent inv (timer_chan w) w = Ok (tt, w') ∧ timing w' ∧ evolves w w' ∧
    (waiting q ts w → waiting q ts w') ∧
    (∀ ch, chans w !! timer_chan w = Some ch → readable ch = true → clock_past ts (hist w) →
       waiting q ts w → quit_ (loop w') = true).
Proof.
  intros Hw. destruct (tm_timer w Hw) as (ch & Hc & Hr). destruct (alarm_ok ts w Hw) as (w1 & E & Hw1 & Hev & Hwt & Hqt).
  destruct (tm_timer w1 Hw1) as (ch1 & Hc1 & Hr1). rewrite (ev_timer _ _ Hev) in Hc1.
  exists (if readable ch then w1 else w). split.
  - eapply (HandleEvent_reads _ _ ch TimerQueue_HandleRead _ (if readable ch then ch1 else ch)); [done|done|..].
    + intros ->. by rewrite Htimer.
    + by intros ->.
    + by destruct (readable ch).
    + destruct (readable ch); [apply Hr1|apply Hr].
  - destruct (readable ch) eqn:Hrd; split_and!; try done. intros ch0 Hc0 Hrd0. simplify_eq. congruence.
Qed.

(** ** All the active channels *)

Lemma handle_active ts active w :
  (∀ k, k ∈ active → k = timer_chan w ∨ k = wakeup_chan w) → timing w →
  ∃ w', mfor (HandleEvent inv) active w = Ok (tt, w') ∧ timing w' ∧ evolves w w' ∧
    (waiting q ts w → waiting q ts w') ∧
    (∀ ch, timer_chan w ∈ active → chans w !! timer_chan w = Some ch → readable ch = true →
       clock_past ts (hist w) → waiting q ts w → quit_ (loop w') = true).
Proof.
  revert w. induction active as [|k active IH]; intros w Hin Hw.
  { exists w. split_and!; try done. by intros ch ?%elem_of_nil. }
  assert (Hone : ∃ w1, HandleEvent inv k w = Ok (tt, w1) ∧ timing w1 ∧ evolves w w1 ∧
    (waiting q ts w → waiting q ts w1) ∧
    (k ≠ timer_chan w → chans w1 = chans w) ∧
    (k = timer_chan w → ∀ ch, chans w !! timer_chan w = Some ch → readable ch = true → clock_past ts (hist w) →
       waiting q ts w → quit_ (loop w1) = true)).
  { destruct (decide (k = timer_chan w)) as [->|Hne].
    - destruct (handle_timer ts w Hw) as (w1 & ? & ? & ? & ? & ?). exists w1. by split_and!.
    - destruct (Hin k) as [?| ->]; [by left|done|].
      destruct (handle_wakeup w Hw) as (w1 & ? & ? & Hg & ?). exists w1.
      split_and!; try done; [apply Hg|by apply waiting_grows]. }
  destruct Hone as (w1 & E1 & Hw1 & Hev & Hwt & Hsame & Hquit).
  destruct (IH w1) as (w2 & E2 & Hw2 & Hev2 & Hwt2 & Hquit2); [|done|].
  { intros k' Hk'. rewrite (ev_timer _ _ Hev), (ev_wakeup _ _ Hev). apply Hin. by right. }
  exists w2. cbn [mfor]. rewrite (M_bind_eq _ _ _ _ _ E1). split_and!; [done|done|by trans w1|by auto|].
  intros ch Hact Hc Hr Hpast Hwait. destruct (decide (k = timer_chan w)) as [E|Hne].
  - apply Hev2. by apply (Hquit E ch).
  - apply elem_of_cons in Hact as [?|Hact]; [congruence|]. destruct (ev_hist _ _ Hev) as (h & Eh).
    apply (Hquit2 ch); rewrite ?(ev_timer _ _ Hev), ?(Hsame Hne); try done; [|by apply Hwt].
    rewrite Eh. by apply clock_past_later.
Qed.

Lemma mfor_cb_destroy_users cbs w : Forall is_user cbs → mfor cb_destroy cbs w = Ok (tt, w).
Proof. intros Hu. apply cb_destroy_none. eapply Forall_impl; [exact Hu|]. by intros ? [u ->]. Qed.

(** The functions that were queued *)
Lemma pending_ok w :
  timing w → ∃ w', doPendingFunctors inv w = Ok (tt, w') ∧ timing w' ∧ grows w w'.
Proof.
  intros Hw. unfold doPendingFunctors. set (works := functors_ (loop w)).
  set (w0 := w <| loop := (loop w) <| functors_ := @nil Callback |> |>).
  rewrite (M_bind_eq _ _ w works w), (M_bind_eq _ _ w tt w0) by done.
  assert (Hw0 : timing w0) by (destruct Hw; by split).
  destruct (run_users inv works w0 Huser (tm_functors w Hw) Hw0) as (w1 & E1 & Hw1 & G1 & _).
  rewrite (M_bind_eq _ _ _ _ _ E1). exists w1. split; [by apply mfor_cb_destroy_users, Hw|]. split; [done|].
  trans w0; [|done]. split; [|done]. by split; [exists []|..].
Qed.

(** ** Iterations *)

Fixpoint polls (h : history) : nat :=
  match h with [] => 0 | EvPoll _ :: h => S (polls h) | _ :: h => polls h end.

Lemma polls_app h1 h2 : polls (h1 ++ h2) = (polls h1 + polls h2)%nat.
Proof. induction h1 as [|[] h1 IH]; cbn; auto. Qed.

Lemma evolves_polls w w' : evolves w w' → (polls (hist w) ≤ polls (hist w'))%nat.
Proof. intros [(h & ->) _ _ _ _]. rewrite polls_app. lia. Qed.

(** The world in which the handlers start *)
Lemma polled_timing n rs w h :
  let active := if n <=? 0 then [] else ready_channels rs w in
  timing w → poll_answer n rs w →
  (∀ pfd c, 0 < n → pfd ∈ stored rs w → Poller.ready pfd = true →
     channels_ (poller (loop w)) !! pfd_fd pfd = Some c →
     c ∈ active ∧ h !! c = Channel.set_revents (pfd_revents pfd) <$> chans w !! c) →
  (∀ c, c ∉ active → h !! c = chans w !! c) →
  timing (polled rs active h w) ∧ evolves w (polled rs active h w).
Proof.
  intros active [Hthr Hreg (ch & Hc & Hr) Htf (chw & Hcw & Hrw) Honly Hwf Hok Hus Hfn] Hpoll Hin Hout. split.
  - destruct (polled_chan n rs w h Hin Hout _ _ Hc) as (r & Hr1 & _).
    destruct (polled_chan n rs w h Hin Hout _ _ Hcw) as (r2 & Hr2 & _).
    split; try done; [exact (polled_reg n rs w h Hpoll Hin Hout Hreg)|by eexists|by eexists].
  - by split; [exists [EvGettimeofday; EvPoll (len (pollfds_ (poller (loop w))))]|..].
Qed.

(** [poll(2)] reports the timer's descriptor as readable. *)
Definition timer_reported (n : Z) (rs : list Z) (w : World) : Prop :=
  0 < n ∧ ∃ pfd, pfd ∈ stored rs w ∧ Poller.ready pfd = true ∧ pfd_fd pfd = timerfd_ (timer_queue (loop w)) ∧
    has (pfd_revents pfd) (Z.lor POLLIN (Z.lor POLLPRI POLLRDHUP)) = true.

Lemma timing_iteration ts n rs w :
  timing w → poll_answer n rs w →
  ∃ w', loop_body inv w = Ok (tt, w') ∧ timing w' ∧ evolves w w' ∧ (polls (hist w) < polls (hist w'))%nat ∧
    (waiting q ts w → waiting q ts w') ∧
    (timer_reported n rs w → clock_past ts (hist w) → waiting q ts w → quit_ (loop w') = true).
Proof.
  intros Hw Hpoll. destruct (loop_body_eval inv n rs w (tm_reg w Hw) Hpoll) as (h & E & Hin & Hout & _). rewrite E.
  destruct (polled_timing n rs w h Hw Hpoll Hin Hout) as [Hw1 Hev1].
  set (active := if n <=? 0 then [] else ready_channels rs w) in *. set (w1 := polled rs active h w) in *.
  destruct (handle_active ts active w1) as (w2 & E2 & Hw2 & Hev2 & Hwt2 & Hq2); [|done|].
  { intros k Hk. destruct (active_entry n rs w k Hk) as (pfd & _ & _ & _ & Hm). exact (tm_only w Hw _ _ Hm). }
  rewrite (M_bind_eq _ _ _ _ _ E2). destruct (pending_ok w2 Hw2) as (w3 & E3 & Hw3 & G3).
  exists w3. split_and!; [done|done|trans w1; [done|]; by trans w2; [|apply G3]|..].
  - pose proof (evolves_polls _ _ Hev2). pose proof (evolves_polls _ _ (proj1 G3)). cbn in *. lia.
  - intros Hwt. apply (waiting_grows _ _ w2); [done|]. by apply Hwt2.
  - intros (Hn & pfd & Hs & Hr & Hf & Hrd) Hpast Hwt. apply G3.
    destruct (Hin pfd (timer_chan w) Hn Hs Hr) as [Hact Hch]; [rewrite Hf; apply Hw|].
    destruct (tm_timer w Hw) as (ch & Hc & _). rewrite Hc in Hch.
    apply (Hq2 (Channel.set_revents (pfd_revents pfd) ch)); try done.
    by apply (clock_past_later ts (hist w) [EvGettimeofday; EvPoll _]).
Qed.

(** ** Until the loop returns *)

(** [poll(2)] stores a result in every entry, and reports their number unless
    it was interrupted. *)
Definition poll_total : Prop := ∀ h pfds, ∃ n rs, k_poll h pfds (-1) = (n, rs) ∧ length rs = length pfds ∧
  (n ≤ 0 ∨ n = len (filter (fun pfd => Poller.ready pfd = true) (Poller.store_revents pfds rs))).

(** After [N] polls the clock has passed [ts], and [poll(2)] reports the timer's
    descriptor, as it does once the time it was armed for has come. *)
Record due (N : nat) (tfd : Z) (ts : Timestamp) : Prop := {
  due_clock h t : (N ≤ polls h)%nat → Timestamp_now (k_gettimeofday h).1 (k_gettimeofday h).2 = Ok t →
    micro_since_epoch_ ts < micro_since_epoch_ t;
  due_poll h pfds i pfd n rs : (N ≤ polls h)%nat → pfds !! i = Some pfd → pfd_fd pfd = tfd →
    k_poll h pfds (-1) = (n, rs) → 0 < n ∧ rs !! i = Some POLLIN
}.

Lemma due_reported N ts w n rs :
  due N (timerfd_ (timer_queue (loop w))) ts → (N ≤ polls (hist w))%nat → timing w → poll_answer n rs w →
  timer_reported n rs w ∧ clock_past ts (hist w).
Proof.
  intros [Hclock Hpoll] HN Hw (Hk & Hlen & _). split.
  - set (tfd := timerfd_ (timer_queue (loop w))) in *.
    assert (Hin : tfd ∈ Poller.fds (poller (loop w))).
    { apply (Poller.reg_dom _ _ (tm_reg w Hw)). eexists. apply Hw. }
    apply list_elem_of_fmap in Hin as (pfd & Hf & (i & Hi)%list_elem_of_lookup_1).
    destruct (Hpoll _ _ i pfd n rs HN Hi (eq_sym Hf) Hk) as [Hn Hr]. split; [done|].
    exists (pfd <| pfd_revents := POLLIN |>). split_and!; [| |exact (eq_sym Hf)|done].
    + apply list_elem_of_lookup. exists i. unfold stored, Poller.store_revents. by rewrite lookup_zip_with, Hi, Hr.
    + unfold Poller.ready. cbn. rewrite <-Hf.
      pose proof (Poller.reg_nonneg _ _ (tm_reg w Hw) _ (proj2 (Poller.reg_dom _ _ (tm_reg w Hw) tfd) ltac:(eexists; apply Hw))).
      by rewrite Z.geb_leb, (proj2 (Z.leb_le _ _)) by done.
  - intros h t. apply Hclock. rewrite polls_app. lia.
Qed.

(** The loop returns after at most one more iteration than it takes for the
    timer to be due. *)
Lemma loop_while_returns (N m : nat) ts w :
  poll_total → due N (timerfd_ (timer_queue (loop w))) ts → timing w → waiting q ts w →
  (N ≤ polls (hist w) + m)%nat →
  ∃ w', loop_while inv (S m) w = Ok (tt, w') ∧ timing w' ∧ evolves w w' ∧ quit_ (loop w') = true.
Proof.
  intros Htot. revert w. induction m as [|m IH]; intros w Hdue Hw Hwt HN; cbn [loop_while];
    (destruct (quit_ (loop w)) eqn:Hquit;
      [exists w; rewrite (M_bind_eq _ _ w true w) by (unfold gets; by rewrite Hquit); by split_and!|
       rewrite (M_bind_eq _ _ w false w) by (unfold gets; by rewrite Hquit)]);
    destruct (Htot (hist w) (pollfds_ (poller (loop w)))) as (n & rs & Hpoll);
    destruct (timing_iteration ts n rs w Hw Hpoll) as (w1 & E1 & Hw1 & Hev & Hp & Hwt1 & Hq1);
    rewrite (M_bind_eq _ _ _ _ _ E1).
  - destruct (due_reported N ts w n rs Hdue ltac:(lia) Hw Hpoll) as [Hrep Hpast].
    specialize (Hq1 Hrep Hpast Hwt). exists w1. split_and!; try done.
    by rewrite (M_bind_eq _ _ w1 true w1) by (unfold gets; by rewrite Hq1).
  - destruct (IH w1) as (w2 & E2 & Hw2 & Hev2 & Hq2); [by rewrite (ev_timerfd _ _ Hev)|done|by apply Hwt1|lia|].
    exists w2. split_and!; [exact E2|done|by trans w1|done].
Qed.

(** ** What the library offers to the functions *)

(** A delay or interval in seconds whose microseconds fit *)
Definition delay_ok (d : double) : Prop :=
  ∃ m, double_to_i64 (double_mul d (double_of_Z kMicroSecondsPerSecond)) = Ok m ∧ 0 ≤ m < 2 ^ 62.

Context (Hadd : ∀ f, inv (TimerQueue_addTimer f) = addTimer_lambda f).

Lemma Timestamp_plus_ok t d :
  0 ≤ micro_since_epoch_ t < 2 ^ 62 → delay_ok d →
  ∃ t' m, Timestamp_plus t d = Ok t' ∧ micro_since_epoch_ t' = micro_since_epoch_ t + m ∧
    double_to_i64 (double_mul d (double_of_Z kMicroSecondsPerSecond)) = Ok m ∧ 0 ≤ m < 2 ^ 62.
Proof.
  intros Ht (m & Hm & Hb). unfold Timestamp_plus. rewrite Hm. cbn [mbind res_bind].
  assert (check_i64 (micro_since_epoch_ t + m) = Ok (micro_since_epoch_ t + m)) as ->.
  { unfold check_i64, in_i64. by rewrite (proj2 (Z.leb_le _ _)), (proj2 (Z.ltb_lt _ _)) by lia. }
  by exists (mkTimestamp (micro_since_epoch_ t + m)), m.
Qed.

Lemma mm_insert_mem k v (l : TimerTable) x : x ∈ mm_insert k v l ↔ x = (k, v) ∨ x ∈ l.
Proof. rewrite mm_insert_perm. apply elem_of_cons. Qed.

(** What adding a timer does to the loop *)
Record added (w w' : World) : Prop := {
  ad_timing : timing w';
  ad_grows : grows w w';
  ad_polls : polls (hist w') = polls (hist w);
  ad_looping : looping_ (loop w') = looping_ (loop w)
}.

Lemma added_trans x y z : added x y → added y z → added x z.
Proof. intros [T1 G1 P1 L1] [T2 G2 P2 L2]. split; [done|by trans y|congruence..]. Qed.

Lemma AddTimer_ok u when interval w :
  timing w → - 2 ^ 62 ≤ micro_since_epoch_ when < 2 ^ 63 →
  (double_gtb interval double_zero = true → delay_ok interval) →
  ∃ w' tm, AddTimer inv (User u) when interval w = Ok (tt, w') ∧ added w w' ∧
    (when, tm) ∈ tq w' ∧ callback_ tm = User u.
Proof.
  intros Hw Hb Hi. unfold AddTimer. set (f := next_addr w).
  set (w0 := w <| next_addr := S f |>). rewrite (M_bind_eq fresh _ w f w0) by done.
  set (w1 := w0 <| frames := <[f := (User u, when, interval)]> (frames w0) |>).
  rewrite (M_bind_eq _ _ w0 tt w1) by done. pose proof (tm_thread w Hw) as Hthr.
  destruct (addTimer_eval (User u) when interval w1 Hthr (tm_table w Hw) Hb) as (h & E & Hh).
  rewrite M_bind_unfold, RunInLoop_here_eval, Hadd by done. unfold addTimer_lambda.
  rewrite (M_bind_eq _ _ w1 (Some (User u, when, interval)) w1) by (unfold gets; cbn; by rewrite lookup_insert_eq).
  rewrite E. set (tm := (Timer_new (User u) when interval (CreatedNum_ w1)).1) in *.
  assert (Hh' : ∃ h', h = h' ++ hist w ∧ polls h' = 0%nat).
  { case_bool_decide; [destruct Hh as (t & s & ns & _ & _ & ->); by exists [EvSettime (timerfd_ (timer_queue (loop w))) s ns; EvGettimeofday]|].
    rewrite Hh. by exists []. }
  destruct Hh' as (h' & -> & Hp).
  do 2 eexists. split; [reflexivity|]. split; [|split; [apply mm_insert_mem; by left|done]]. split; [..|done].
  - destruct Hw. split; try done.
    + by apply mm_insert_wf.
    + apply mm_insert_Forall; [|done]. by split.
    + apply mm_insert_Forall; [|done]. by exists u.
  - split; [by split; [exists h'|..]|]. intros x Hx. apply mm_insert_mem. by right.
  - cbn. by rewrite polls_app, Hp.
Qed.

Lemma now_added w :
  timing w → ∃ t w', now w = Ok (t, w') ∧ added w w' ∧
    Timestamp_now (k_gettimeofday (hist w)).1 (k_gettimeofday (hist w)).2 = Ok t ∧ 0 ≤ micro_since_epoch_ t < 2 ^ 62.
Proof.
  intros Hw. destruct (clock_ok (hist w)) as (t & Ht & Hb). exists t, (with_hist (EvGettimeofday :: hist w) w).
  split; [by apply now_eval|]. split; [|done]. split; [by apply timing_with_hist| |done|done].
  split; [by apply (evolves_with_hist [EvGettimeofday])|done].
Qed.

Lemma RunAt_ok ts u w :
  timing w → - 2 ^ 62 ≤ micro_since_epoch_ ts < 2 ^ 63 →
  ∃ w' tm, RunAt inv ts (User u) w = Ok (tt, w') ∧ added w w' ∧ (ts, tm) ∈ tq w' ∧ callback_ tm = User u.
Proof. intros Hw Hb. by apply AddTimer_ok. Qed.

Lemma RunAfter_ok d u w :
  timing w → delay_ok d → ∃ w', RunAfter inv d (User u) w = Ok (tt, w') ∧ added w w'.
Proof.
  intros Hw Hd. destruct (now_added w Hw) as (t & w1 & E1 & A1 & _ & Ht).
  destruct (Timestamp_plus_ok t d Ht Hd) as (t' & m & Hp & Hm & _ & Hmb).
  destruct (AddTimer_ok u t' double_zero w1 (ad_timing _ _ A1)) as (w2 & tm & E2 & A2 & _); [lia|done|].
  exists w2. split; [|by eapply added_trans]. unfold RunAfter. rewrite (M_bind_eq _ _ _ _ _ E1).
  by rewrite (M_bind_eq _ _ w1 t' w1) by (unfold mlift; by rewrite Hp).
Qed.

Lemma RunEvery_ok d u w :
  timing w → delay_ok d → ∃ w', RunEvery inv d (User u) w = Ok (tt, w') ∧ added w w'.
Proof.
  intros Hw Hd. destruct (now_added w Hw) as (t & w1 & E1 & A1 & _ & Ht).
  destruct (Timestamp_plus_ok t d Ht Hd) as (t' & m & Hp & Hm & _ & Hmb).
  destruct (AddTimer_ok u t' d w1 (ad_timing _ _ A1)) as (w2 & tm & E2 & A2 & _); [lia|done|].
  exists w2. split; [|by eapply added_trans]. unfold RunEvery. rewrite (M_bind_eq _ _ _ _ _ E1).
  by rewrite (M_bind_eq _ _ w1 t' w1) by (unfold mlift; by rewrite Hp).
Qed.

End TimerLoop.

(** [quit()] in the loop's own thread *)
Lemma quit_ok `{HK : Kernel} w :
  timing w → ∃ w', EventLoop.quit w = Ok (tt, w') ∧ timing w' ∧ grows w w' ∧ quit_ (loop w') = true.
Proof.
  intros Hw. eexists. split; [reflexivity|]. split; [by destruct Hw|]. split; [|done].
  split; [|done]. by split; [eexists [_; _]|..].
Qed.

(** A loop that was just constructed *)
Lemma fresh_timing tfd efd w :
  tfd ≠ efd → idle [tfd; efd] w → fresh_loop tfd efd w → timing w.
Proof.
  intros Hne [Hreg Hthr Hfn _ _ _] (_ & t & cht & chw & Ht & Hcs & Hct & Hrt & Hcw & Hrw).
  split; rewrite ?Ht; cbn; try done.
  - by exists cht.
  - by rewrite Hcs, lookup_insert_ne, lookup_singleton_eq by done.
  - by exists chw.
  - intros fd k. rewrite Hcs. intros [[_ <-]|[_ [_ <-]%lookup_singleton_Some]]%lookup_insert_Some; auto.
  - split; constructor.
  - by rewrite Hfn.
Qed.

Lemma due_earlier `{HK : Kernel} N tfd ts ts' :
  due N tfd ts' → micro_since_epoch_ ts ≤ micro_since_epoch_ ts' → due N tfd ts.
Proof. intros [Hc Hp] Hle. split; [|done]. intros h t HN Ht. specialize (Hc h t HN Ht). lia. Qed.

(** ** The test program *)

Section Program.
Context `{HK : Kernel}.

(** Its functions: the first four print a line, the fifth also asks to quit. *)
Definition test_app : App := {|
  app_run u := if bool_decide (u = 5%nat) then EventLoop.quit else mret tt;
  app_connection _ _ := mret tt; app_message _ _ _ := mret tt;
  app_write_complete _ _ := mret tt; app_close _ _ := mret tt; app_new_connection _ _ _ := mret tt |}.

Definition test_invoke (n : nat) : Callback → MW unit := invoke (H0 := test_app) n.

Definition test_setup (n : nat) : MW unit :=
  EventLoop_ctor ;;
  RunAfter (test_invoke n) (double_of_Z 1) (User 1) ;;
  RunEvery (test_invoke n) (double_of_Z 1) (User 2) ;;
  RunEvery (test_invoke n) (double_of_Z 2) (User 3) ;;
  RunEvery (test_invoke n) double_0_3 (User 4) ;;
  t ← now;
  ts ← mlift (Timestamp_plus t (double_of_Z 5));
  RunAt (test_invoke n) ts (User 5).

Definition test_TimerQueue (n fuel : nat) : MW unit :=
  test_setup n ;; run_loop (test_invoke n) fuel ;; EventLoop_dtor.

Lemma test_callbacks : callbacks_ok (HA := test_app).
Proof.
  intros u w Hw. cbn. case_bool_decide; [|by exists w].
  destruct (quit_ok w Hw) as (w' & ? & ? & ? & _). eauto.
Qed.

Lemma test_quits : quits (HA := test_app) 5.
Proof. intros w w' E. cbn in E. by injection E as <-. Qed.

(** The clock while nothing has been polled *)
Definition clock_at_most (p : nat) (M : Z) : Prop := ∀ h t, polls h = p →
  Timestamp_now (k_gettimeofday h).1 (k_gettimeofday h).2 = Ok t → micro_since_epoch_ t ≤ M.

Lemma test_setup_ok `{!ClockOk} (n : nat) (M : Z) w :
  process_start w → 0 ≤ k_timerfd (hist w) → 0 ≤ k_eventfd (hist w) → k_timerfd (hist w) ≠ k_eventfd (hist w) →
  clock_at_most (polls (hist w)) M →
  ∃ w' ts, test_setup (S n) w = Ok (tt, w') ∧ timing w' ∧ looping_ (loop w') = false ∧
    timerfd_ (timer_queue (loop w')) = k_timerfd (hist w) ∧ polls (hist w') = polls (hist w) ∧
    micro_since_epoch_ ts ≤ M + 5000000 ∧ ∃ tm, (ts, tm) ∈ tq w' ∧ callback_ tm = User 5.
Proof.
  intros Hps Ht He Hne HM. destruct (EventLoop_ctor_idle w Hps Ht He Hne) as (w0 & E0 & Hid & Hh0 & Hfresh).
  pose proof (fresh_timing _ _ _ Hne Hid Hfresh) as Hw0. unfold test_setup. rewrite (M_bind_eq _ _ _ _ _ E0).
  assert (Hd : ∀ d, d ∈ [double_of_Z 1; double_of_Z 2; double_0_3; double_of_Z 5] → delay_ok d).
  { intros d Hd. repeat (apply elem_of_cons in Hd as [->|Hd]; [eexists; split; [by vm_compute|done]|]).
    by apply elem_of_nil in Hd. }
  assert (Hadd : ∀ f, test_invoke (S n) (TimerQueue_addTimer f) = addTimer_lambda f) by done.
  destruct (RunAfter_ok (test_invoke (S n)) Hadd (double_of_Z 1) 1 w0 Hw0) as (w1 & E1 & A1); [apply Hd; set_solver|].
  destruct (RunEvery_ok (test_invoke (S n)) Hadd (double_of_Z 1) 2 w1 (ad_timing _ _ A1)) as (w2 & E2 & A2); [apply Hd; set_solver|].
  destruct (RunEvery_ok (test_invoke (S n)) Hadd (double_of_Z 2) 3 w2 (ad_timing _ _ A2)) as (w3 & E3 & A3); [apply Hd; set_solver|].
  destruct (RunEvery_ok (test_invoke (S n)) Hadd double_0_3 4 w3 (ad_timing _ _ A3)) as (w4 & E4 & A4); [apply Hd; set_solver|].
  rewrite (M_bind_eq _ _ _ _ _ E1), (M_bind_eq _ _ _ _ _ E2), (M_bind_eq _ _ _ _ _ E3), (M_bind_eq _ _ _ _ _ E4).
  destruct (now_added w4 (ad_timing _ _ A4)) as (t & w5 & E5 & A5 & Hnow & Htb). rewrite (M_bind_eq _ _ _ _ _ E5).
  destruct (Timestamp_plus_ok t (double_of_Z 5) Htb) as (ts & m & Hp & Hm & Hmv & Hmb); [apply Hd; set_solver|].
  rewrite (M_bind_eq _ _ w5 ts w5) by (unfold mlift; by rewrite Hp).
  destruct (RunAt_ok (test_invoke (S n)) Hadd ts 5 w5 (ad_timing _ _ A5)) as (w6 & tm & E6 & A6 & Hin & Hc); [lia|].
  assert (Hall : added w0 w4) by (do 3 (eapply added_trans; [|done]); done).
  assert (Hall6 : added w0 w6) by (do 2 (eapply added_trans; [|done]); done).
  exists w6, ts. split; [done|]. split; [apply A6|]. split; [rewrite (ad_looping _ _ Hall6); apply Hfresh|].
  destruct Hfresh as (_ & tc & ? & ? & Htq & _). split.
  { by rewrite (ev_timerfd _ _ (proj1 (ad_grows _ _ Hall6))), Htq. }
  rewrite (ad_polls _ _ Hall6), Hh0. split; [done|]. split; [|by exists tm].
  assert (Hcl := HM (hist w4) t ltac:(by rewrite (ad_polls _ _ Hall), Hh0) Hnow).
  assert (m = 5000000) as -> by (vm_compute in Hmv; by injection Hmv). lia.
Qed.

Lemma run_loop_started (inv : Callback → MW unit) fuel w w' :
  looping_ (loop w) = false → threadId_ (loop w) = tid w →
  loop_while inv fuel (loop_started w) = Ok (tt, w') → run_loop inv fuel w = Ok (tt, loop_stopped w').
Proof.
  intros Hl Hthr E. unfold run_loop. rewrite (M_bind_eq _ _ w (loop w) w), Hl by done.
  rewrite (M_bind_eq _ _ w tt w) by done. rewrite (M_bind_eq _ _ _ _ _ (assertInLoopThread_true w Hthr)).
  rewrite (M_bind_eq _ _ w tt (w <| loop := (loop w) <| looping_ := true |> |>)) by done.
  rewrite (M_bind_eq _ _ _ tt (loop_started w)) by done. by rewrite (M_bind_eq _ _ _ _ _ E).
Qed.

Lemma timing_started w : timing w → timing (loop_started w).
Proof. intros []. by split. Qed.

End Program.

(** ** Theorems *)

(** C23: an iteration of a loop that has only timers faults nowhere, whatever
    [poll(2)] reports, and leaves such a loop behind, provided the functions of
    the application do: the timer table stays sorted and consistent, the
    poller's array and map stay consistent, both channels stay alive, a request
    to quit is never taken back, and a timer whose function asks to quit either
    stays in the table or has asked. *)
Theorem timer_iteration_safe `{HK : Kernel} `{HA : App} `{!ClockOk} (fuel q : nat) (n : Z) (rs : list Z)
    (ts : Timestamp) (w : World) :
  callbacks_ok → quits q → timing w → poll_answer n rs w →
  ∃ w', loop_body (invoke (S (S fuel))) w = Ok (tt, w') ∧ timing w' ∧ evolves w w' ∧
    (waiting q ts w → waiting q ts w').
Proof.
  intros Hcb Hq Hw Hpoll.
  destruct (timing_iteration (invoke (S (S fuel))) (invoke (S fuel)) eq_refl eq_refl (fun _ => eq_refl)
    (fun _ => eq_refl) Hcb q Hq ts n rs w Hw Hpoll) as (w' & ? & ? & ? & _ & ? & _). eauto.
Qed.

(** C4: the test program of the timer queue returns: set up from a fresh
    process, with one timer that fires once, three that repeat and one that
    asks to quit after five seconds, the loop returns once the clock has gone
    five seconds past the set-up and [poll(2)] reports the timer's descriptor,
    after at most [N + 1] iterations; then the loop can be destroyed, and
    nothing on the way faults, whatever else [poll(2)] reports before. *)
Theorem test_TimerQueue_returns `{HK : Kernel} `{!ClockOk} (n N : nat) (M : Z) (w : World) :
  process_start w → 0 ≤ k_timerfd (hist w) → 0 ≤ k_eventfd (hist w) → k_timerfd (hist w) ≠ k_eventfd (hist w) →
  clock_at_most (polls (hist w)) M → poll_total → due N (k_timerfd (hist w)) (mkTimestamp (M + 5000000)) →
  ∃ w', test_TimerQueue (S (S n)) (S N) w = Ok (tt, w') ∧ t_loopInThisThread w' = false ∧
    timers_ (timer_queue (loop w')) = [] ∧ ∃ h, hist w' = EvClose (k_timerfd (hist w)) :: h.
Proof.
  intros Hps Ht He Hne HM Htot Hdue.
  destruct (test_setup_ok (S n) M w Hps Ht He Hne HM) as (w1 & ts & E1 & Hw1 & Hl1 & Hfd & Hp & Hts & Htm).
  unfold test_TimerQueue. rewrite (M_bind_eq _ _ _ _ _ E1).
  destruct (loop_while_returns (HA := test_app) (test_invoke (S (S n))) (test_invoke (S n)) eq_refl eq_refl (fun _ => eq_refl)
    (fun _ => eq_refl) test_callbacks 5 test_quits N N ts (loop_started w1)) as (w2 & E2 & Hw2 & Hev & Hquit);
    [done| |by apply timing_started|by right|cbn; lia|].
  { cbn. rewrite Hfd. by apply (due_earlier N _ _ _ Hdue). }
  rewrite (M_bind_eq _ _ _ _ _ (run_loop_started _ _ _ _ Hl1 (tm_thread w1 Hw1) E2)).
  pose proof (EventLoop_dtor_spec (loop_stopped w2)) as Hd. cbn in Hd.
  destruct Hd as (w3 & E3 & Hb & Hh & _ & _ & Htq & _); [eapply Forall_impl; [apply Hw2|]; by intros ? [u ->]|].
  exists w3. split_and!; [done..|]. eexists. rewrite Hh, (ev_timerfd _ _ Hev). cbn. by rewrite Hfd.
Qed.

(** *** A kernel whose clock shows 1000 s before the first poll and 1010 s
    after it, and that reports the timer's descriptor at every poll *)
Definition ex_poll_all (pfds : list pollfd) : list Z :=
  (fun p => if pfd_fd p =? 40 then POLLIN else 0) <$> pfds.

Definition ex_timer_kernel : Kernel := {|
  k_gettimeofday h := (1000 + 10 * Z.min 1 (Z.of_nat (polls h)), 0);
  k_poll h pfds _ := let rs := ex_poll_all pfds in
    (len (filter (fun pfd => Poller.ready pfd = true) (Poller.store_revents pfds rs)), rs);
  k_write := @k_write ex_kernel; k_read := @k_read ex_kernel; k_readv := @k_readv ex_kernel;
  k_accept := @k_accept ex_kernel; k_settime := @k_settime ex_kernel;
  k_eventfd _ := 50; k_timerfd _ := 40;
  k_socket := @k_socket ex_kernel; k_bind := @k_bind ex_kernel;
  k_listen := @k_listen ex_kernel; k_shutdown := @k_shutdown ex_kernel |}.

Lemma ex_timer_clock h :
  Timestamp_now (k_gettimeofday (Kernel := ex_timer_kernel) h).1 (k_gettimeofday (Kernel := ex_timer_kernel) h).2 =
  Ok (mkTimestamp (if bool_decide (polls h = 0%nat) then 1000000000 else 1010000000)).
Proof. cbn. destruct (polls h) as [|k]; [done|]. by replace (Z.min 1 (Z.of_nat (S k))) with 1 by lia. Qed.

#[export] Instance ex_timer_clock_ok : ClockOk (H := ex_timer_kernel).
Proof. intros h. rewrite ex_timer_clock. eexists. split; [done|]. cbn. case_bool_decide; lia. Qed.

Lemma ex_timer_polls : poll_total (HK := ex_timer_kernel).
Proof. intros h pfds. do 2 eexists. split; [done|]. split; [apply length_fmap|by right]. Qed.

Lemma ex_timer_due : due (HK := ex_timer_kernel) 1 40 (mkTimestamp 1005000000).
Proof.
  split.
  - intros h t HN. rewrite ex_timer_clock, bool_decide_eq_false_2 by lia. by intros [= <-].
  - intros h pfds i pfd n rs _ Hi Hf [= <- <-].
    assert (Hr : ex_poll_all pfds !! i = Some POLLIN).
    { unfold ex_poll_all. rewrite list_lookup_fmap, Hi. cbn. by rewrite Hf. }
    split; [|done]. set (st := Poller.store_revents pfds (ex_poll_all pfds)).
    assert (Hin : pfd <| pfd_revents := POLLIN |> ∈ filter (fun p => Poller.ready p = true) st).
    { apply list_elem_of_filter. split; [unfold Poller.ready; cbn; by rewrite Hf|].
      apply list_elem_of_lookup. exists i. unfold st, Poller.store_revents. by rewrite lookup_zip_with, Hi, Hr. }
    destruct (filter _ st) as [|x l]; [by apply elem_of_nil in Hin|]. rewrite len_cons. pose proof (len_nonneg l). lia.
Qed.

Definition ex_process : World :=
  mkWorld 1 false (loop ex_world) ∅ ∅ (acceptor_ ex_world) (server ex_world) ∅ ∅ 10 0 [].

Lemma ex_process_start : process_start ex_process.
Proof. by split. Qed.

Lemma ex_timer_setup : clock_at_most (HK := ex_timer_kernel) (polls (hist ex_process)) 1000000000.
Proof. intros h t Hp. rewrite ex_timer_clock, Hp. by intros [= <-]. Qed.

Lemma test_TimerQueue_returns_witness :
  ∃ w', test_TimerQueue (HK := ex_timer_kernel) 2 2 ex_process = Ok (tt, w') ∧ t_loopInThisThread w' = false ∧
    timers_ (timer_queue (loop w')) = [] ∧ ∃ h, hist w' = EvClose 40 :: h.
Proof.
  refine (test_TimerQueue_returns (HK := ex_timer_kernel) 0 1 1000000000 ex_process ex_process_start _ _ _
    ex_timer_setup ex_timer_polls ex_timer_due); by vm_compute.
Defined.

(** An iteration of the loop after the set-up of the test *)
Lemma timer_iteration_safe_witness :
  ∃ w0, test_setup (HK := ex_timer_kernel) 1 ex_process = Ok (tt, w0) ∧
    ∃ w', loop_body (H := ex_timer_kernel) (invoke (H := ex_timer_kernel) (H0 := test_app (HK := ex_timer_kernel)) 2) w0
      = Ok (tt, w') ∧ timing w'.
Proof.
  destruct (test_setup_ok (HK := ex_timer_kernel) 0 1000000000 ex_process ex_process_start)
    as (w0 & ts & E & Hw & _); [by vm_compute..|exact ex_timer_setup|].
  destruct (ex_timer_polls (hist w0) (pollfds_ (poller (loop w0)))) as (n & rs & Hpoll).
  destruct (timer_iteration_safe (HK := ex_timer_kernel) (HA := test_app (HK := ex_timer_kernel)) 0 5 n rs ts w0
    test_callbacks test_quits Hw Hpoll) as (w' & E' & Hw' & _).
  exists w0. split; [exact E|]. exists w'. split; [exact E'|exact Hw'].
Defined.
