(* ===== verification/AsyncLogging.v ===== *)
(** * Asynchronous logging (log/async_logging.h, log/async_logging.cc)

    Front-end threads append to the current of two in-memory buffers under a
    mutex; a worker thread takes full buffers away, writes them to the log file
    outside the lock and gives two of them back.  Each critical section is one
    atomic operation here; the worker is a state machine whose states are the
    points of [ThreadFunction] where other threads can run.  The thread that
    owns the object is a second one: it starts the worker and waits for the
    promise that the worker sets, later stops it and joins.  The step relation
    [astep] interleaves the two with any number of appends.

    The file is used through the interface [LogSink].  The invariant: what was
    appended is, byte for byte and in order, what the file has, followed by
    what the worker holds, the full buffers and the current buffer; together
    with the ownership of the spare buffers it shows that no null pointer is
    followed and that none of the assertions of the worker fails.  Neither
    [StartWorker] nor [StopWorker] waits for ever, and a logger that has been
    stopped never writes again, even when it is started again. *)

From stdpp Require Import relations.
From S2P Require Import Prelude Slice Buffer.
Import FixedBuffer.

(** ** The interface to the log file

    What the worker relies on: an append of at most a buffer that returns has
    appended the bytes.  [TotalSink] adds that it returns. *)
Class LogSink (F : Type) := {
  sink_append : F → Slice.Slice → res F;
  sink_written : F → bytes;
  sink_ok : F → Prop;
  sink_append_ok : ∀ f s f', sink_ok f → Slice.wf s → Slice.size_ s ≤ kSmallBufferSize →
    sink_append f s = Ok f' → sink_ok f' ∧ sink_written f' = sink_written f ++ Slice.contents s
}.

Class TotalSink (F : Type) `{!LogSink F} :=
  sink_total : ∀ f s, sink_ok f → Slice.wf s → Slice.size_ s ≤ kSmallBufferSize →
    ∃ f', sink_append f s = Ok f'.

Module AsyncLogging.
Section AsyncLogging.
Context {F : Type} `{!LogSink F}.

Abbreviation FB := FixedBuffer.FixedBuffer.
Abbreviation N := kSmallBufferSize.

(** Where the worker is in [ThreadFunction]. *)
Inductive worker :=
  | W_none                                                                  (* thread_ is null *)
  | W_start                                                                 (* promise.set_value() *)
  | W_check (tempBuffer1 tempBuffer2 : option FB) (tempBuffers : list FB)   (* while (!done) *)
  | W_wait (tempBuffer1 tempBuffer2 : option FB) (tempBuffers : list FB)    (* in cond_.wait_for *)
  | W_write (tempBuffers rest : list FB)                                    (* the for loop *)
  | W_exit                                                                  (* returned *)
  | W_joined.                                                               (* and joined *)

(** Where the thread that owns the object is. *)
Inductive owner_pc :=
  | O_idle   (* in neither of the two *)
  | O_wait   (* StartWorker, future.wait() *)
  | O_join.  (* StopWorker, thread_->join() *)

Record AsyncLogging := mkAsync {
  cur_buffer_ : option FB;  (* std::unique_ptr *)
  next_buffer_ : option FB;
  buffers_ : list FB;
  done : bool;
  log_file_ : F;
  thread_ : worker;
  promise : bool;           (* the local of StartWorker that the worker refers to *)
  owner : owner_pc
}.

#[export] Instance eta_AsyncLogging : Eta AsyncLogging := fun a =>
  mkAsync (cur_buffer_ a) (next_buffer_ a) (buffers_ a) (done a) (log_file_ a) (thread_ a)
    (promise a) (owner a).

(** The constructor *)
Definition AsyncLogging_new (f : F) : AsyncLogging :=
  mkAsync (Some (FixedBuffer_new N)) (Some (FixedBuffer_new N)) [] false f W_none false O_idle.

(** [StartWorker] up to the wait: the new thread replaces what [thread_] points
    to, and a [std::thread] that is still joinable terminates the program when
    it is destroyed. *)
Definition StartWorker (a : AsyncLogging) : res AsyncLogging :=
  match thread_ a with
  | W_none | W_joined => mret (a <| thread_ := W_start |> <| promise := false |> <| owner := O_wait |>)
  | _ => Err Abort
  end.

(** [future.wait()]; [None] when it waits *)
Definition StartWorker_wait (a : AsyncLogging) : option AsyncLogging :=
  if promise a then Some (a <| owner := O_idle |>) else None.

(** [StopWorker] up to the join.  A notification has no effect of its own: the
    worker may leave its wait at any time. *)
Definition StopWorker (a : AsyncLogging) : AsyncLogging := a <| done := true |> <| owner := O_join |>.

(** [thread_->join()]; [None] when it waits.  A thread that was joined before is
    not joinable, and the call throws. *)
Definition StopWorker_join (a : AsyncLogging) : res (option AsyncLogging) :=
  match thread_ a with
  | W_none => Err (UseAfterFree "thread_")
  | W_joined => Err (RuntimeError "Invalid argument")
  | W_exit => mret (Some (a <| thread_ := W_joined |> <| owner := O_idle |>))
  | _ => mret None
  end.

(** The destructor: the members die in reverse order, first the file, which is
    the result, then [thread_], which must not be joinable. *)
Definition AsyncLogging_dtor (a : AsyncLogging) : res F :=
  match thread_ a with
  | W_none | W_joined => mret (log_file_ a)
  | _ => Err Abort
  end.

(** [AsyncLogging::Append], under the mutex *)
Definition Append (a : AsyncLogging) (slice : Slice.Slice) : res AsyncLogging :=
  cur ← deref (cur_buffer_ a) "cur_buffer_";
  if space N cur >=? Slice.size slice then
    cur' ← append N cur slice;
    mret (a <| cur_buffer_ := Some cur' |>)
  else
    let buffers := buffers_ a ++ [cur] in
    let cur := match next_buffer_ a with Some b => b | None => FixedBuffer_new N end in
    cur' ← append N cur slice;
    mret (a <| cur_buffer_ := Some cur' |> <| next_buffer_ := @None FB |> <| buffers_ := buffers |>).

(** The end of the critical section of the worker and the two [push_back]s *)
Definition swap_out (a : AsyncLogging) (t1 t2 : option FB) (ts : list FB) : res AsyncLogging :=
  let t1' := cur_buffer_ a in
  let '(t2', next') := match next_buffer_ a with
    | None => (None, t2)
    | Some b => (t2, Some b)
    end in
  b1 ← deref t1' "tempBuffer1";
  let tempBuffers := buffers_ a ++ [b1] ++ option_list t2' in
  mret (a <| cur_buffer_ := t1 |> <| next_buffer_ := next' |> <| buffers_ := ts |>
          <| thread_ := W_write tempBuffers tempBuffers |>).

(** [tempBuffers.resize(2)], the two moves and the two [reset]s *)
Definition recycle (tempBuffers : list FB) : res (option FB * option FB) :=
  let two := take 2 (Some <$> tempBuffers) ++ replicate (2 - length tempBuffers) None in
  match two with
  | [b0; b1] =>
      x1 ← deref b1 "tempBuffer1";
      x2 ← deref b0 "tempBuffer2";
      mret (Some (reset x1), Some (reset x2))
  | _ => Err OutOfBounds
  end.

(** One step of the worker thread. *)
Definition worker_step (a : AsyncLogging) : res AsyncLogging :=
  match thread_ a with
  | W_none | W_exit | W_joined => mret a
  | W_start =>
      let tempBuffer1 := FixedBuffer_new N in
      let tempBuffer2 := FixedBuffer_new N in
      mret (a <| promise := true |> <| thread_ := W_check (Some tempBuffer1) (Some tempBuffer2) (@nil FB) |>)
  | W_check t1 t2 ts =>
      if done a then mret (a <| thread_ := W_exit |>)
      else
        assert_ (bool_decide (is_Some t1)) "async_logging.cc:44" ;;
        assert_ (bool_decide (is_Some t2)) "async_logging.cc:45" ;;
        assert_ (bool_decide (ts = [])) "async_logging.cc:46" ;;
        match buffers_ a with
        | [] => mret (a <| thread_ := W_wait t1 t2 ts |>)
        | _ => swap_out a t1 t2 ts
        end
  | W_wait t1 t2 ts => swap_out a t1 t2 ts
  | W_write ts (b :: rest) =>
      f ← sink_append (log_file_ a) (slice b);
      mret (a <| log_file_ := f |> <| thread_ := W_write ts rest |>)
  | W_write ts [] =>
      r ← recycle ts;
      mret (a <| thread_ := W_check r.1 r.2 (@nil FB) |>)
  end.

(** ** Interleavings

    The worker leaves [W_wait] when it is notified, on the time-out, or
    spuriously.  [astep a b a']: a step that appends [b].  [reach f0 a log]: [a]
    can be reached from a fresh object writing to [f0] after slices with the
    contents [log], in this order, were appended. *)
Inductive astep : AsyncLogging → bytes → AsyncLogging → Prop :=
  | step_append a s a' :
      Slice.wf s → Slice.size_ s ≤ N → Append a s = Ok a' → astep a (Slice.contents s) a'
  | step_worker a a' : worker_step a = Ok a' → astep a [] a'
  | step_start a a' : owner a = O_idle → StartWorker a = Ok a' → astep a [] a'
  | step_started a a' : owner a = O_wait → StartWorker_wait a = Some a' → astep a [] a'
  | step_stop a : owner a = O_idle → astep a [] (StopWorker a)
  | step_join a a' : owner a = O_join → StopWorker_join a = Ok (Some a') → astep a [] a'.

Inductive reach (f0 : F) : AsyncLogging → bytes → Prop :=
  | reach_new : reach f0 (AsyncLogging_new f0) []
  | reach_step a b a' log : reach f0 a log → astep a b a' → reach f0 a' (log ++ b).

(** ** The invariant *)

Definition bufs_wf (l : list FB) : Prop := Forall (wf N) l.

(** A spare buffer: well formed and empty. *)
Definition spare (b : FB) : Prop := wf N b ∧ contents b = [].

Definition spare_opt (o : option FB) : Prop := match o with Some b => spare b | None => False end.

(** The bytes the worker has taken but not written yet. *)
Definition worker_pending (t : worker) : bytes :=
  match t with W_write _ rest => concat (contents <$> rest) | _ => [] end.

Definition pending (a : AsyncLogging) : bytes :=
  worker_pending (thread_ a) ++ concat (contents <$> buffers_ a) ++
  match cur_buffer_ a with Some b => contents b | None => [] end.

Definition worker_wf (t : worker) : Prop :=
  match t with
  | W_check t1 t2 ts | W_wait t1 t2 ts => spare_opt t1 ∧ spare_opt t2 ∧ ts = []
  | W_write ts rest => bufs_wf ts ∧ bufs_wf rest ∧ (2 ≤ length ts)%nat
  | _ => True
  end.

Record inv (a : AsyncLogging) : Prop := {
  inv_cur : ∃ b, cur_buffer_ a = Some b ∧ wf N b;
  inv_next : match next_buffer_ a with Some b => spare b | None => buffers_ a ≠ [] end;
  inv_bufs : bufs_wf (buffers_ a);
  inv_worker : worker_wf (thread_ a);
  inv_file : sink_ok (log_file_ a)
}.

Lemma HN : 0 ≤ N < 2 ^ 31.
Proof. done. Qed.

Lemma spare_new : spare (FixedBuffer_new N).
Proof. split; [apply wf_new, HN|done]. Qed.

Lemma spare_reset b : wf N b → spare (reset b).
Proof. intros. split; [by apply wf_reset|apply contents_reset]. Qed.

Lemma inv_new f : sink_ok f → inv (AsyncLogging_new f).
Proof.
  intros Hf. pose proof spare_new as Hs.
  constructor; cbn; [|exact Hs|constructor|done|done].
  eexists. split; [done|apply Hs].
Qed.

(** Appending a slice that fits a buffer cannot fault. *)
Lemma Append_inv a s :
  inv a → Slice.wf s → Slice.size_ s ≤ N →
  ∃ a', Append a s = Ok a' ∧ inv a' ∧ pending a' = pending a ++ Slice.contents s ∧
        log_file_ a' = log_file_ a ∧ thread_ a' = thread_ a ∧ done a' = done a.
Proof.
  intros [(cur & Hcur & Hwf) Hnext Hbufs Hwk Hfile] Hs Hfit. unfold Append, pending.
  rewrite Hcur. cbn [deref mbind res_bind]. rewrite (space_eq N HN) by done.
  unfold Slice.size. destruct (Z.geb_spec (N - cur_ cur) (Slice.size_ s)).
  - destruct (fixed_append_Ok N HN cur s) as (b' & -> & Hb' & Hc & _); [done..|]. cbn.
    eexists. split; [done|]. split; [split; cbn; eauto|].
    cbn. rewrite Hc, !app_assoc. done.
  - set (nb := match next_buffer_ a with Some b => b | None => _ end).
    assert (Hnb : spare nb).
    { subst nb. destruct (next_buffer_ a); [done|apply spare_new]. }
    destruct Hnb as [Hnw Hnc]. pose proof (len_fixed N nb Hnw) as Hl.
    rewrite Hnc, len_nil in Hl.
    destruct (fixed_append_Ok N HN nb s) as (b' & -> & Hb' & Hc & _); [done..|lia|]. cbn.
    eexists. split; [done|]. rewrite Hnc in Hc. split.
    { constructor; cbn; [by eauto|by destruct (buffers_ a)| |done|done].
      apply Forall_app. split; [done|]. constructor; [done|constructor]. }
    split; [|done]. cbn. rewrite fmap_app, concat_app. cbn.
    by rewrite Hc, app_nil_r, <-!app_assoc.
Qed.

(** Taking the buffers away keeps every byte, in order. *)
Lemma swap_out_inv a t1 t2 :
  inv a → spare_opt t1 → spare_opt t2 → worker_pending (thread_ a) = [] →
  ∃ a', swap_out a t1 t2 [] = Ok a' ∧ inv a' ∧ pending a' = pending a ∧
        log_file_ a' = log_file_ a ∧ buffers_ a' = [] ∧ cur_buffer_ a' = t1 ∧
        ∃ ts, thread_ a' = W_write ts ts.
Proof.
  intros [(cur & Hcur & Hwf) Hnext Hbufs Hwk Hfile] Ht1 Ht2 Hp.
  destruct t1 as [t1|]; [|done]. destruct t2 as [t2|]; [|done]. cbn in Ht1, Ht2.
  unfold swap_out, pending. rewrite Hp, Hcur.
  assert (Hlen : ∀ nb, (nb = [t2] ∨ nb = [] ∧ buffers_ a ≠ []) →
     bufs_wf (buffers_ a ++ cur :: nb) ∧ (2 ≤ length (buffers_ a ++ cur :: nb))%nat).
  { intros nb Hnb. split.
    - apply Forall_app. split; [done|]. constructor; [done|].
      destruct Hnb as [->|[-> _]]; repeat constructor; apply Ht2.
    - rewrite length_app. cbn. destruct Hnb as [->|[-> Hne]]; cbn; [lia|].
      destruct (buffers_ a); [done|cbn; lia]. }
  destruct (next_buffer_ a) as [nb|] eqn:Hn; cbn.
  - destruct (Hlen [t2]) as [Hb Hl]; [by left|]. eexists. split; [done|]. split.
    { constructor; cbn; [eexists; split; [done|apply Ht1]|done|constructor|done|done]. }
    split; [|by eauto]. cbn. destruct Ht1 as [_ ->], Ht2 as [_ Ht2].
    rewrite fmap_app, concat_app. cbn. by rewrite Ht2, !app_nil_r.
  - destruct (Hlen []) as [Hb Hl]; [by right|]. eexists. split; [done|]. split.
    { constructor; cbn; [eexists; split; [done|apply Ht1]|done|constructor|done|done]. }
    split; [|by eauto]. cbn. destruct Ht1 as [_ ->].
    rewrite fmap_app, concat_app. cbn. by rewrite !app_nil_r.
Qed.

Lemma recycle_Ok ts :
  bufs_wf ts → (2 ≤ length ts)%nat →
  ∃ x y, recycle ts = Ok (Some x, Some y) ∧ spare x ∧ spare y.
Proof.
  intros Hw Hl. destruct ts as [|b0 [|b1 ts]]; cbn in Hl; try lia.
  apply Forall_cons in Hw as [Hb0 Hw]. apply Forall_cons in Hw as [Hb1 _].
  exists (reset b1), (reset b0). split; [done|]. split; by apply spare_reset.
Qed.

(** The worker is about to write a buffer that the file refuses. *)
Definition refused (a : AsyncLogging) (e : fault) : Prop :=
  ∃ ts b rest, thread_ a = W_write ts (b :: rest) ∧ wf N b ∧ sink_append (log_file_ a) (slice b) = Err e.

Lemma slice_fits b : wf N b → Slice.size_ (slice b) ≤ N.
Proof. intros Hb. pose proof (size_eq N HN b Hb) as E. destruct Hb. cbn. lia. Qed.

(** A step of the worker faults only with the file, and none loses or reorders
    a byte. *)
Lemma worker_step_inv a :
  inv a →
  (∃ a', worker_step a = Ok a' ∧ inv a' ∧
         sink_written (log_file_ a') ++ pending a' = sink_written (log_file_ a) ++ pending a) ∨
  (∃ e, worker_step a = Err e ∧ refused a e).
Proof.
  intros Hinv. pose proof Hinv as [Hcur Hnext Hbufs Hwk Hfile].
  unfold worker_step. destruct (thread_ a) as [| |t1 t2 ts|t1 t2 ts|ts rest| |] eqn:Hth; cbn in Hwk;
    try (left; by exists a).
  - left. eexists. split; [done|]. unfold pending. cbn. rewrite Hth. split; [|done].
    constructor; cbn; [done..| |done]. pose proof spare_new. done.
  - destruct Hwk as (H1 & H2 & ->). destruct (done a).
    { left. eexists. split; [done|]. unfold pending. rewrite Hth. by split. }
    destruct t1 as [t1|]; [|done]. destruct t2 as [t2|]; [|done].
    rewrite !bool_decide_eq_true_2 by done. cbn [assert_ mbind res_bind].
    destruct (buffers_ a) as [|b bs] eqn:Hb.
    + left. eexists. split; [done|]. unfold pending. cbn. rewrite Hth. split; [|by rewrite ?Hb].
      constructor; cbn; [done|by rewrite ?Hb|by rewrite ?Hb|done|done].
    + destruct (swap_out_inv a (Some t1) (Some t2)) as (a' & He & Hi & Hp & Hf & _);
        [done..|by rewrite Hth|]. left. exists a'. by rewrite Hf, Hp.
  - destruct Hwk as (H1 & H2 & ->).
    destruct (swap_out_inv a t1 t2) as (a' & He & Hi & Hp & Hf & _); [done..|by rewrite Hth|].
    left. exists a'. by rewrite Hf, Hp.
  - destruct Hwk as (Hts & Hrest & Hlen). destruct rest as [|b rest].
    + destruct (recycle_Ok ts Hts Hlen) as (x & y & -> & Hx & Hy). cbn.
      left. eexists. split; [done|]. split; [by constructor|]. unfold pending. by rewrite Hth.
    + apply Forall_cons in Hrest as [Hb Hrest].
      destruct (slice_contents N HN b Hb) as [Hsw Hsc].
      destruct (sink_append (log_file_ a) (slice b)) as [f|e] eqn:He; cbn; [|right; unfold refused; naive_solver].
      destruct (sink_append_ok _ _ f Hfile Hsw (slice_fits b Hb) He) as [Hok Hw].
      left. eexists. split; [done|]. split; [by constructor|]. unfold pending. cbn. rewrite Hth. cbn.
      by rewrite Hw, Hsc, <-!app_assoc.
Qed.

(** The owner's operations touch no buffer and no file. *)
Lemma inv_same_data a a' :
  inv a → cur_buffer_ a' = cur_buffer_ a → next_buffer_ a' = next_buffer_ a → buffers_ a' = buffers_ a →
  log_file_ a' = log_file_ a → worker_wf (thread_ a') → worker_pending (thread_ a') = worker_pending (thread_ a) →
  inv a' ∧ pending a' = pending a.
Proof.
  intros [Hcur Hnext Hbufs Hwk Hfile] Ec En Eb Ef Hw Ep. unfold pending.
  rewrite Ec, Eb, Ep. split; [|done]. constructor; by rewrite ?Ec, ?En, ?Eb, ?Ef.
Qed.

Lemma astep_inv a b a' :
  inv a → astep a b a' →
  inv a' ∧ sink_written (log_file_ a') ++ pending a' = sink_written (log_file_ a) ++ pending a ++ b.
Proof.
  intros Hi Hs.
  assert (Hown : log_file_ a' = log_file_ a → inv a' ∧ pending a' = pending a →
    inv a' ∧ sink_written (log_file_ a') ++ pending a' = sink_written (log_file_ a) ++ pending a ++ []).
  { intros -> [? ->]. by rewrite app_nil_r. }
  destruct Hs as [a s a' Hs Hfit Ha|a a' Ha|a a' _ Ha|a a' _ Ha|a _|a a' _ Ha].
  - destruct (Append_inv a s Hi Hs Hfit) as (a1 & He & Hi1 & Hp & Hf & _).
    rewrite Ha in He. injection He as <-. split; [done|]. by rewrite Hf, Hp.
  - destruct (worker_step_inv a Hi) as [(a1 & He & Hi1 & Hp)|(e & He & _)]; rewrite Ha in He; [|done].
    injection He as <-. split; [done|]. by rewrite app_nil_r.
  - unfold StartWorker in Ha. destruct (thread_ a) eqn:Hth; try done; injection Ha as <-;
      apply Hown, inv_same_data; by rewrite ?Hth.
  - unfold StartWorker_wait in Ha. destruct (promise a); [|done]. injection Ha as <-.
    apply Hown, inv_same_data; [done..|apply Hi|done].
  - apply Hown, inv_same_data; [done..|apply Hi|done].
  - unfold StopWorker_join in Ha. destruct (thread_ a) eqn:Hth; try done. injection Ha as <-.
    apply Hown, inv_same_data; by rewrite ?Hth.
Qed.

Lemma reach_inv f0 a log :
  sink_ok f0 → reach f0 a log →
  inv a ∧ sink_written f0 ++ log = sink_written (log_file_ a) ++ pending a.
Proof.
  intros Hf0. induction 1 as [|a b a' log Hr [IHi IHe] Hs]; [split; [by apply inv_new|done]|].
  destruct (astep_inv a b a' IHi Hs) as [Hi He]. split; [done|].
  by rewrite He, !app_assoc, IHe, <-!app_assoc.
Qed.

(** ** The handshake *)

(** The owner has waited for the promise before it does anything else, and the
    worker ends only when [done] is set. *)
Definition owner_wf (a : AsyncLogging) : Prop :=
  match owner a with
  | O_idle => thread_ a ≠ W_start
  | O_wait => if promise a then thread_ a ≠ W_start ∧ thread_ a ≠ W_none else thread_ a = W_start
  | O_join => thread_ a ≠ W_start ∧ done a = true
  end ∧ (thread_ a = W_exit ∨ thread_ a = W_joined → done a = true).

(** What a step of the worker does to the rest *)
Lemma swap_out_frame a t1 t2 ts a' :
  swap_out a t1 t2 ts = Ok a' →
  owner a' = owner a ∧ done a' = done a ∧ promise a' = promise a ∧ ∃ ts, thread_ a' = W_write ts ts.
Proof.
  unfold swap_out. destruct (next_buffer_ a); intros Ha; inv_ok; cbn; eauto 10.
Qed.

Lemma worker_step_frame a a' :
  worker_step a = Ok a' →
  owner a' = owner a ∧ done a' = done a ∧ (promise a = true ∨ thread_ a = W_start → promise a' = true) ∧
  (thread_ a' = W_none → thread_ a = W_none) ∧ (thread_ a' = W_joined → thread_ a = W_joined) ∧
  thread_ a' ≠ W_start ∧ (thread_ a' = W_exit → thread_ a = W_exit ∨ done a = true).
Proof.
  unfold worker_step. intros Ha.
  destruct (thread_ a) as [| |t1 t2 ts|t1 t2 ts|ts [|b rest]| |] eqn:Hth.
  1,2,7,8: injection Ha as <-; cbn; rewrite ?Hth; naive_solver.
  - destruct (done a) eqn:Hd; [injection Ha as <-; cbn; naive_solver|]. inv_ok.
    destruct (buffers_ a); [injection Ha as <-; cbn; naive_solver|].
    apply swap_out_frame in Ha as (-> & -> & -> & ? & ->). naive_solver.
  - apply swap_out_frame in Ha as (-> & -> & -> & ? & ->). naive_solver.
  - inv_ok. naive_solver.
  - inv_ok. naive_solver.
Qed.

Lemma Append_frame a s a' :
  Append a s = Ok a' →
  owner a' = owner a ∧ done a' = done a ∧ promise a' = promise a ∧ thread_ a' = thread_ a ∧ log_file_ a' = log_file_ a.
Proof. unfold Append. intros Ha. inv_ok. destruct (_ >=? _); inv_ok; done. Qed.

Lemma astep_owner a b a' : owner_wf a → astep a b a' → owner_wf a'.
Proof.
  intros Ho Hs. unfold owner_wf in *.
  destruct Hs as [a s a' Hs Hfit Ha|a a' Ha|a a' Hi Ha|a a' Hi Ha|a Hi|a a' Hi Ha].
  - apply Append_frame in Ha as (-> & -> & -> & -> & _). done.
  - apply worker_step_frame in Ha as (-> & -> & H1 & H2 & H3 & H4 & H5). destruct (owner a); [naive_solver| |naive_solver].
    destruct (promise a), (promise a'); intuition congruence.
  - unfold StartWorker in Ha. destruct (thread_ a) eqn:Hth; try done; injection Ha as <-; naive_solver.
  - unfold StartWorker_wait in Ha. rewrite Hi in Ho. destruct (promise a) eqn:Hp; [|done].
    injection Ha as <-. cbn. naive_solver.
  - rewrite Hi in Ho. cbn. naive_solver.
  - unfold StopWorker_join in Ha. rewrite Hi in Ho.
    destruct (thread_ a) eqn:Hth; try done. injection Ha as <-. cbn. naive_solver.
Qed.

Lemma reach_owner f0 a log : reach f0 a log → owner_wf a.
Proof. induction 1 as [|a b a' log Hr IH Hs]; [by split; [|intros []]|by eapply astep_owner]. Qed.

(** The object when the worker has returned, and when it has been joined *)
Definition exited (a : AsyncLogging) : AsyncLogging := a <| thread_ := W_exit |>.
Definition joined (a : AsyncLogging) : AsyncLogging := a <| thread_ := W_joined |> <| owner := O_idle |>.

(** ... and when [StartWorker] has returned *)
Definition started (f : F) : AsyncLogging :=
  mkAsync (Some (FixedBuffer_new N)) (Some (FixedBuffer_new N)) [] false f
    (W_check (Some (FixedBuffer_new N)) (Some (FixedBuffer_new N)) []) true O_idle.

Lemma reach_started f0 : reach f0 (started f0) [].
Proof.
  set (a1 := (AsyncLogging_new f0) <| thread_ := W_start |> <| owner := O_wait |>).
  apply (reach_step f0 ((started f0) <| owner := O_wait |>) [] _ []); [|by apply step_started].
  apply (reach_step f0 a1 [] _ []); [|by apply step_worker].
  apply (reach_step f0 (AsyncLogging_new f0) [] a1 []); [apply reach_new|by apply step_start].
Qed.

(** The worker alone, [n] steps. *)
Fixpoint worker_run (n : nat) (a : AsyncLogging) : res AsyncLogging :=
  match n with O => mret a | S n' => a' ← worker_step a; worker_run n' a' end.

Lemma worker_run_add n m a :
  worker_run (n + m) a = (a' ← worker_run n a; worker_run m a').
Proof.
  revert a. induction n as [|n IH]; intros a; [done|]. cbn [worker_run Nat.add].
  destruct (worker_step a); [apply IH|done].
Qed.

(** Over a file that takes everything no step fails. *)
Lemma worker_step_total `{!TotalSink F} a : inv a → ∃ a', worker_step a = Ok a' ∧ inv a'.
Proof.
  intros Hi. destruct (worker_step_inv a Hi) as [(a' & ? & ? & _)|(e & _ & ts & b & rest & _ & Hb & He)]; [eauto|].
  destruct (slice_contents N HN b Hb) as [Hsw _].
  destruct (sink_total (log_file_ a) (slice b)) as (f & Hf); [apply Hi|done|by apply slice_fits|]. congruence.
Qed.

(** Writing out what the worker holds. *)
Lemma worker_run_write `{!TotalSink F} a ts rest :
  inv a → thread_ a = W_write ts rest →
  ∃ a' t1 t2, worker_run (S (length rest)) a = Ok a' ∧ inv a' ∧ thread_ a' = W_check t1 t2 [] ∧
     buffers_ a' = buffers_ a ∧ cur_buffer_ a' = cur_buffer_ a ∧ done a' = done a ∧
     sink_written (log_file_ a') = sink_written (log_file_ a) ++ concat (contents <$> rest).
Proof.
  revert a. induction rest as [|b rest IH]; intros a Hi Hth.
  - destruct Hi as [Hcur Hnext Hbufs Hwk Hfile]. rewrite Hth in Hwk. destruct Hwk as (Hts & _ & Hlen).
    destruct (recycle_Ok ts Hts Hlen) as (x & y & Hr & Hx & Hy).
    cbn [worker_run length]. unfold worker_step. rewrite Hth, Hr. cbn.
    do 3 eexists. split; [done|]. split; [by constructor|]. cbn. by rewrite app_nil_r.
  - destruct (worker_step_total a Hi) as (a1 & He & Hi1).
    pose proof Hi as [_ _ _ Hwk Hfile]. rewrite Hth in Hwk. destruct Hwk as (_ & [Hb _]%Forall_cons & _).
    destruct (slice_contents N HN b Hb) as [Hsw Hsc].
    destruct (sink_total (log_file_ a) (slice b) Hfile Hsw (slice_fits b Hb)) as (f & Hf).
    destruct (sink_append_ok _ _ f Hfile Hsw (slice_fits b Hb) Hf) as [Hok Hw].
    change (worker_run (S (length (b :: rest))) a)
      with (a' ← worker_step a; worker_run (S (length rest)) a').
    rewrite He. cbn [mbind res_bind].
    unfold worker_step in He. rewrite Hth, Hf in He. cbn in He. injection He as <-.
    destruct (IH _ Hi1 eq_refl) as (a' & t1 & t2 & Hrun & Hi' & Ht & Hb' & Hc' & Hd' & Hw').
    exists a', t1, t2. rewrite Hrun. repeat (split; [done|]).
    rewrite Hw'. cbn. by rewrite Hw, Hsc, <-app_assoc.
Qed.

Lemma worker_run_frame n a a' : worker_run n a = Ok a' → owner a' = owner a ∧ done a' = done a.
Proof.
  revert a. induction n as [|n IH]; intros a; cbn [worker_run]; [by intros [= <-]|].
  destruct (worker_step a) as [a1|] eqn:E; [|done]. cbn [mbind res_bind]. intros Hr.
  destruct (worker_step_frame a a1 E) as (Ho & Hd & _). destruct (IH a1 Hr) as [-> ->]. done.
Qed.

Lemma reach_run f0 n a a' log : reach f0 a log → worker_run n a = Ok a' → reach f0 a' log.
Proof.
  revert a. induction n as [|n IH]; intros a Hr E; cbn [worker_run] in E; [by injection E as <-|].
  destruct (worker_step a) as [a1|] eqn:E1; [|done]. apply (IH a1); [|done].
  rewrite <-(app_nil_r log). by apply (reach_step f0 a), step_worker.
Qed.

(** The file only grows. *)
Lemma worker_step_grows a a' :
  inv a → worker_step a = Ok a' → ∃ d, sink_written (log_file_ a') = sink_written (log_file_ a) ++ d.
Proof.
  intros Hi E.
  assert (Hsame : log_file_ a' = log_file_ a → ∃ d, sink_written (log_file_ a') = sink_written (log_file_ a) ++ d)
    by (intros ->; exists []; by rewrite app_nil_r).
  assert (Hswap : ∀ t1 t2 ts, swap_out a t1 t2 ts = Ok a' → log_file_ a' = log_file_ a).
  { intros t1 t2 ts. unfold swap_out. destruct (next_buffer_ a); intros Ha; inv_ok; done. }
  pose proof (inv_worker a Hi) as Hwk. unfold worker_step in E.
  destruct (thread_ a) as [| |t1 t2 ts|t1 t2 ts|ts [|b rest]| |].
  1,2,7,8: by injection E as <-; apply Hsame.
  - destruct (done a); [by injection E as <-; apply Hsame|]. inv_ok.
    destruct (buffers_ a); [by injection E as <-; apply Hsame|]. by apply Hsame, (Hswap t1 t2 ts).
  - by apply Hsame, (Hswap t1 t2 ts).
  - inv_ok. by apply Hsame.
  - destruct Hwk as (_ & [Hb _]%Forall_cons & _). inv_ok. destruct (slice_contents N HN b Hb) as [Hsw _].
    eexists. by eapply sink_append_ok; [apply Hi|done|by apply slice_fits|].
Qed.

(** When everything is in the file it stays so while nothing is appended. *)
Lemma worker_run_idle `{!TotalSink F} n a :
  inv a → ∃ a', worker_run n a = Ok a' ∧ inv a' ∧ (pending a = [] → pending a' = []).
Proof.
  revert a. induction n as [|n IH]; intros a Hi; [by exists a|]. cbn [worker_run].
  destruct (worker_step_inv a Hi) as [(a1 & E & Hi1 & He)|(e & E & _)].
  2:{ destruct (worker_step_total a Hi) as (a1 & E1 & _). congruence. }
  rewrite E. destruct (IH a1 Hi1) as (a' & Er & Hi' & Hp). exists a'. split_and!; [done..|].
  intros Hp0. apply Hp. destruct (worker_step_grows a a1 Hi E) as (d & Ed).
  rewrite Ed, Hp0, <-app_assoc in He. apply app_inv_head in He. by apply app_nil in He as [_ ?].
Qed.

(** The worker is in its loop. *)
Definition in_loop (a : AsyncLogging) : Prop :=
  match thread_ a with W_check _ _ _ | W_wait _ _ _ | W_write _ _ => True | _ => False end.

Lemma worker_run_in_loop n a a' : in_loop a → done a = false → worker_run n a = Ok a' → in_loop a'.
Proof.
  revert a. induction n as [|n IH]; intros a Hl Hd E; cbn [worker_run] in E; [by injection E as <-|].
  destruct (worker_step a) as [a1|] eqn:E1; [|done].
  destruct (worker_step_frame a a1 E1) as (_ & Hd1 & _ & Hn & Hj & Hs & He).
  apply (IH a1); [|congruence|done]. unfold in_loop in *.
  destruct (thread_ a1) eqn:Ht; try done; [by rewrite Hn in Hl| |by rewrite Hj in Hl].
  destruct (He eq_refl) as [He1|]; [by rewrite He1 in Hl|congruence].
Qed.

(** [StartWorker] returns once the worker has made a step. *)
Lemma start_returns `{!TotalSink F} f0 n :
  sink_ok f0 → (0 < n)%nat →
  ∃ a1 a2 a3, StartWorker (AsyncLogging_new f0) = Ok a1 ∧ worker_run n a1 = Ok a2 ∧ StartWorker_wait a2 = Some a3 ∧
    reach f0 a3 [] ∧ in_loop a3 ∧ done a3 = false ∧ owner a3 = O_idle.
Proof.
  intros Hf Hn. destruct n as [|n]; [lia|]. set (b := (started f0) <| owner := O_wait |>).
  set (a1 := (AsyncLogging_new f0) <| thread_ := W_start |> <| owner := O_wait |>).
  assert (Hrb : reach f0 b []).
  { apply (reach_step f0 a1 [] _ []); [|by apply step_worker].
    apply (reach_step f0 (AsyncLogging_new f0) [] a1 []); [apply reach_new|by apply step_start]. }
  destruct (reach_inv f0 b [] Hf Hrb) as [Hib _]. destruct (worker_run_idle n b Hib) as (a2 & E & _).
  pose proof (reach_run f0 n b a2 [] Hrb E) as Hr2. destruct (worker_run_frame n b a2 E) as [Ho Hd].
  assert (Hl : in_loop a2) by (by apply (worker_run_in_loop n b)).
  assert (Hw : StartWorker_wait a2 = Some (a2 <| owner := O_idle |>)).
  { destruct (reach_owner f0 a2 [] Hr2) as [Hwf _]. unfold owner_wf in Hwf. rewrite Ho in Hwf. cbn in Hwf.
    unfold StartWorker_wait. destruct (promise a2); [done|]. unfold in_loop in Hl. by rewrite Hwf in Hl. }
  exists a1, a2, (a2 <| owner := O_idle |>). split_and!; [done|exact E|done| |done..].
  apply (reach_step f0 a2 [] _ []); [done|]. by apply step_started.
Qed.

(** Taking the buffers away and writing them leaves nothing behind. *)
Lemma flush_swap `{!TotalSink F} a t1 t2 :
  inv a → spare_opt t1 → spare_opt t2 → worker_pending (thread_ a) = [] → worker_step a = swap_out a t1 t2 [] →
  ∃ n a', worker_run n a = Ok a' ∧ pending a' = [].
Proof.
  intros Hi H1 H2 Hp E. destruct (swap_out_inv a t1 t2 Hi H1 H2 Hp) as (a1 & Es & Hi1 & _ & _ & Hb1 & Hc1 & ts & Ht1).
  destruct (worker_run_write a1 ts ts Hi1 Ht1) as (a' & u1 & u2 & Hrun & _ & Ht' & Hb' & Hc' & _).
  exists (S (S (length ts))), a'. split; [change (worker_run (S (S (length ts))) a) with
    (a2 ← worker_step a; worker_run (S (length ts)) a2); by rewrite E, Es|].
  unfold pending. rewrite Ht', Hb', Hb1, Hc', Hc1. destruct t1; [apply H1|done].
Qed.

Lemma flush_check `{!TotalSink F} a t1 t2 ts :
  inv a → thread_ a = W_check t1 t2 ts → done a = false → ∃ n a', worker_run n a = Ok a' ∧ pending a' = [].
Proof.
  intros Hi Hth Hd. pose proof (inv_worker a Hi) as Hwk. rewrite Hth in Hwk. destruct Hwk as (H1 & H2 & ->).
  destruct t1 as [t1|]; [|done]. destruct t2 as [t2|]; [|done].
  destruct (worker_step_total a Hi) as (a1 & E & Hi1). pose proof E as E'. unfold worker_step in E'. rewrite Hth, Hd in E'.
  destruct (buffers_ a) as [|b bs] eqn:Hb.
  - injection E' as E'. destruct (flush_swap a1 (Some t1) (Some t2)) as (n & a' & Hr & Hp); [done..|by rewrite <-E'|by subst a1|].
    exists (S n), a'. split; [|done]. cbn [worker_run]. by rewrite E.
  - apply (flush_swap a (Some t1) (Some t2)); [done..|by rewrite Hth|]. by rewrite E.
Qed.

(** Left alone, a worker in its loop empties everything into the file. *)
Lemma worker_flush `{!TotalSink F} a :
  inv a → in_loop a → done a = false → ∃ n a', worker_run n a = Ok a' ∧ pending a' = [].
Proof.
  intros Hi Hl Hd. unfold in_loop in Hl. destruct (thread_ a) as [| |t1 t2 ts|t1 t2 ts|ts rest| |] eqn:Hth; try done.
  - by apply (flush_check a t1 t2 ts).
  - pose proof (inv_worker a Hi) as Hwk. rewrite Hth in Hwk. destruct Hwk as (H1 & H2 & ->).
    apply (flush_swap a t1 t2); [done..|by rewrite Hth|]. unfold worker_step. by rewrite Hth.
  - destruct (worker_run_write a ts rest Hi Hth) as (a1 & t1 & t2 & Hr1 & Hi1 & Ht1 & _ & _ & Hd1 & _).
    destruct (flush_check a1 t1 t2 [] Hi1 Ht1) as (n & a' & Hr & Hp); [congruence|].
    exists (S (length rest) + n)%nat, a'. by rewrite worker_run_add, Hr1.
Qed.

(** What the worker still writes once [done] is set: the rest of the buffers it
    has taken, or, if it is waiting, the ones it takes when it wakes up, which
    are all that are there. *)
Definition owed (a : AsyncLogging) : bytes :=
  match thread_ a with
  | W_write _ rest => concat (contents <$> rest)
  | W_wait _ _ _ => pending a
  | _ => []
  end.

(** A worker that was told to stop finishes its round and returns. *)
Lemma worker_returns `{!TotalSink F} a :
  inv a → done a = true → thread_ a ≠ W_none → thread_ a ≠ W_joined →
  ∃ n a', worker_run n a = Ok a' ∧ thread_ a' = W_exit ∧
    sink_written (log_file_ a') = sink_written (log_file_ a) ++ owed a.
Proof.
  intros Hi Hd Hn Hj.
  assert (Hcheck : ∀ n a1 t1 t2 ts, worker_run n a = Ok a1 → thread_ a1 = W_check t1 t2 ts →
    sink_written (log_file_ a1) = sink_written (log_file_ a) ++ owed a →
    ∃ n a', worker_run n a = Ok a' ∧ thread_ a' = W_exit ∧
      sink_written (log_file_ a') = sink_written (log_file_ a) ++ owed a).
  { intros n a1 t1 t2 ts Hr Hth Hw. destruct (worker_run_frame n a a1 Hr) as [_ Hd1].
    exists (n + 1)%nat, (a1 <| thread_ := W_exit |>). rewrite worker_run_add, Hr. cbn.
    unfold worker_step. by rewrite Hth, Hd1, Hd. }
  assert (Hwrite : ∀ n a1 ts rest, worker_run n a = Ok a1 → inv a1 → thread_ a1 = W_write ts rest →
    sink_written (log_file_ a1) ++ concat (contents <$> rest) = sink_written (log_file_ a) ++ owed a →
    ∃ n a', worker_run n a = Ok a' ∧ thread_ a' = W_exit ∧
      sink_written (log_file_ a') = sink_written (log_file_ a) ++ owed a).
  { intros n a1 ts rest Hr Hi1 Hth Hw.
    destruct (worker_run_write a1 ts rest Hi1 Hth) as (a2 & t1 & t2 & Hr2 & _ & Ht2 & _ & _ & _ & Hw2).
    apply (Hcheck (n + S (length rest))%nat a2 t1 t2 []); [by rewrite worker_run_add, Hr|done|congruence]. }
  destruct (thread_ a) as [| |t1 t2 ts|t1 t2 ts|ts rest| |] eqn:Hth; try done.
  - eapply (Hcheck 1%nat); [cbn; unfold worker_step; by rewrite Hth|done|]. unfold owed. by rewrite Hth, app_nil_r.
  - apply (Hcheck 0%nat a t1 t2 ts); [done..|]. unfold owed. by rewrite Hth, app_nil_r.
  - pose proof (inv_worker a Hi) as Hwk. rewrite Hth in Hwk. destruct Hwk as (H1 & H2 & ->).
    destruct (swap_out_inv a t1 t2) as (a1 & He & Hi1 & Hp & Hf & Hb & Hc & tw & Hw); [done..|by rewrite Hth|].
    apply (Hwrite 1%nat a1 tw tw); [|done..|]; [cbn; unfold worker_step; by rewrite Hth, He|].
    rewrite Hf. f_equal. unfold owed. rewrite Hth, <-Hp. unfold pending. rewrite Hw, Hb, Hc. cbn.
    destruct t1 as [t1|]; [|done]. destruct H1 as [_ ->]. by rewrite app_nil_r.
  - apply (Hwrite 0%nat a ts rest); [done..|]. unfold owed. by rewrite Hth.
  - exists 0%nat, a. unfold owed. by rewrite Hth, app_nil_r.
Qed.

Lemma worker_run_exit n a : thread_ a = W_exit → worker_run n a = Ok a.
Proof.
  intros Ht. induction n as [|n IH]; [done|]. cbn [worker_run]. unfold worker_step. rewrite Ht. exact IH.
Qed.

(** Stopping a worker that has written everything *)
Lemma clean_stop `{!TotalSink F} a :
  inv a → in_loop a → pending a = [] →
  ∃ n, ∀ m, (n ≤ m)%nat → ∃ a1, worker_run m (StopWorker a) = Ok a1 ∧ thread_ a1 = W_exit ∧ pending a1 = [].
Proof.
  intros Hi Hl Hp. destruct (inv_same_data a (StopWorker a)) as [Hi1 Hp1]; [done..|apply Hi|done|].
  unfold in_loop in Hl. destruct (worker_returns (StopWorker a)) as (n & a1 & Hr & Ht & _);
    [done|done|cbn; by destruct (thread_ a)..|].
  exists n. intros m Hm. exists a1. replace m with (n + (m - n))%nat by lia. rewrite worker_run_add, Hr.
  split_and!; [by apply worker_run_exit|done|].
  destruct (worker_run_idle n (StopWorker a) Hi1) as (a1' & Hr' & _ & Hp'). rewrite Hr in Hr'.
  injection Hr' as <-. apply Hp'. congruence.
Qed.

(** A worker that starts with [done] set, or the time in between *)
Definition inert (f : F) (a : AsyncLogging) : Prop :=
  log_file_ a = f ∧ done a = true ∧
  match thread_ a with W_joined | W_start | W_exit => True | W_check _ _ _ => True | _ => False end.

Lemma astep_inert f a b a' : inert f a → astep a b a' → inert f a'.
Proof.
  intros (Hf & Hd & Ht) Hs. unfold inert.
  destruct Hs as [a s a' Hs Hfit Ha|a a' Ha|a a' Hi Ha|a a' Hi Ha|a Hi|a a' Hi Ha].
  - apply Append_frame in Ha as (_ & -> & _ & -> & ->). done.
  - unfold worker_step in Ha. rewrite Hd in Ha.
    destruct (thread_ a) eqn:Hth; try done; injection Ha as <-; cbn; by rewrite ?Hth.
  - unfold StartWorker in Ha. destruct (thread_ a); try done. by injection Ha as <-.
  - unfold StartWorker_wait in Ha. destruct (promise a); [|done]. by injection Ha as <-.
  - done.
  - unfold StopWorker_join in Ha. destruct (thread_ a); try done. by injection Ha as <-.
Qed.

End AsyncLogging.

(** ** Theorems *)

(** C10: in every interleaving of appends, the worker and [StopWorker], the
    bytes appended so far are exactly the bytes in the file followed by those
    still held by the worker, in full buffers and in the current buffer: no
    byte is lost, duplicated or reordered while the logger runs. *)
Theorem AsyncLogging_fifo {F} `{!LogSink F} (f0 : F) (a : AsyncLogging) (log : bytes) :
  sink_ok f0 → reach f0 a log → sink_written f0 ++ log = sink_written (log_file_ a) ++ pending a.
Proof. intros Hf Hr. by destruct (reach_inv f0 a log Hf Hr). Qed.

(** C21: in every reachable state the append of any slice that a log record can
    have succeeds, and the next step of the worker succeeds unless the file
    itself fails to take a buffer: the pointers they follow are set, the
    assertions at the top of the worker's loop hold, there are always at least
    two buffers to recycle, and no buffer overflows. *)
Theorem AsyncLogging_safe {F} `{!LogSink F} (f0 : F) (a : AsyncLogging) (log : bytes) :
  sink_ok f0 → reach f0 a log →
  ((∃ a', worker_step a = Ok a') ∨ (∃ e, worker_step a = Err e ∧ refused a e)) ∧
  (∀ s, Slice.wf s → Slice.size_ s ≤ kSmallBufferSize → ∃ a', Append a s = Ok a').
Proof.
  intros Hf Hr. destruct (reach_inv f0 a log Hf Hr) as [Hi _]. split.
  - destruct (worker_step_inv a Hi) as [(a' & ? & _)|?]; eauto.
  - intros s Hs Hfit. destruct (Append_inv a s Hi Hs Hfit) as (a' & ? & _). eauto.
Qed.

(** C29: neither [StartWorker] nor [StopWorker] waits for ever, over a file that
    takes every buffer: whenever the owner waits for the promise, the worker
    alone sets it; whenever the owner joins a worker that was started, the
    worker alone returns, the join succeeds and the object can then be
    destroyed.  Before it returns the worker has written exactly the buffers it
    had taken and not written yet ([owed]): if it is in its wait, all that is
    there when it wakes up, and if it is about to test [done], nothing. *)
Theorem AsyncLogging_calls_return {F} `{!LogSink F, !TotalSink F} (f0 : F) (a : AsyncLogging) (log : bytes) :
  sink_ok f0 → reach f0 a log →
  (owner a = O_wait → ∃ n a1 a2, worker_run n a = Ok a1 ∧ StartWorker_wait a1 = Some a2 ∧ owner a2 = O_idle) ∧
  (owner a = O_join → thread_ a ≠ W_none → thread_ a ≠ W_joined →
     ∃ n a1 a2, worker_run n a = Ok a1 ∧ StopWorker_join a1 = Ok (Some a2) ∧ owner a2 = O_idle ∧
       sink_written (log_file_ a2) = sink_written (log_file_ a) ++ owed a ∧
       AsyncLogging_dtor a2 = Ok (log_file_ a2)).
Proof.
  intros Hf Hr. destruct (reach_inv f0 a log Hf Hr) as [Hi _]. destruct (reach_owner f0 a log Hr) as [Ho _].
  split.
  - intros Hw. rewrite Hw in Ho. destruct (promise a) eqn:Hp.
    + exists 0%nat, a. eexists. unfold StartWorker_wait. by rewrite Hp.
    + destruct (worker_step_total a Hi) as (a1 & He & _). exists 1%nat, a1. eexists.
      destruct (worker_step_frame a a1 He) as (_ & _ & Hp1 & _). unfold StartWorker_wait.
      rewrite (Hp1 (or_intror Ho)). cbn. by rewrite He.
  - intros Hj Hn Hnj. rewrite Hj in Ho. destruct Ho as [_ Hd].
    destruct (worker_returns a Hi Hd Hn Hnj) as (n & a1 & Hr1 & Ht1 & Hw1).
    exists n, a1. eexists. split; [done|]. unfold StopWorker_join. by rewrite Ht1.
Qed.

(** C38: a logger can be stopped only once: [StopWorker] sets [done] and nothing
    clears it, so that after the worker has been joined the file never changes
    again, whatever is appended and however often the worker is started. *)
Theorem AsyncLogging_never_restarts {F} `{!LogSink F} (f0 : F) (a a' : AsyncLogging) (log : bytes) :
  reach f0 a log → thread_ a = W_joined → rtc (fun x y => ∃ b, astep x b y) a a' →
  log_file_ a' = log_file_ a.
Proof.
  intros Hr Hth Hs. destruct (reach_owner f0 a log Hr) as [_ Hd].
  assert (Hin : inert (log_file_ a) a) by (split; [done|split; [auto|by rewrite Hth]]).
  revert Hin. generalize (log_file_ a) as f. clear -Hs. intros f.
  induction Hs as [x|x y z (b & Hxy) _ IH]; [by intros [? _]|]. intros Hin. by eapply IH, astep_inert.
Qed.

(** Stopping can lose records: whatever single record is appended, there
    is an interleaving in which the worker is started, the record appended, the
    worker stopped and joined, and the record is still in the current buffer and
    not in the file. *)
Theorem AsyncLogging_stop_can_lose {F} `{!LogSink F} (f0 : F) (s : Slice.Slice) :
  sink_ok f0 → Slice.wf s → Slice.size_ s ≤ kSmallBufferSize →
  ∃ a, reach f0 a (Slice.contents s) ∧ thread_ a = W_joined ∧ AsyncLogging_dtor a = Ok (log_file_ a) ∧
       sink_written (log_file_ a) = sink_written f0 ∧ pending a = Slice.contents s.
Proof.
  intros Hf Hs Hfit.
  destruct (reach_inv f0 _ _ Hf (reach_started f0)) as [Hi0 _].
  destruct (Append_inv (started f0) s Hi0 Hs Hfit) as (a1 & Ha & Hi & Hp & Hfile & Hth & Hd).
  destruct (Append_frame _ _ _ Ha) as (Ho & _).
  set (a2 := StopWorker a1). set (a3 := exited a2). exists (joined a3). split.
  - rewrite <-(app_nil_r (Slice.contents s)). apply (reach_step f0 a3); [|by apply step_join].
    rewrite <-(app_nil_r (Slice.contents s)). apply (reach_step f0 a2).
    + rewrite <-(app_nil_r (Slice.contents s)). apply (reach_step f0 a1); [|by apply step_stop].
      apply (reach_step f0 (started f0) (Slice.contents s) a1 []); [apply reach_started|by apply step_append].
    + apply step_worker. unfold worker_step. cbn. by rewrite Hth.
  - unfold pending in *. cbn in *. rewrite Hfile. rewrite Hth in Hp. done.
Qed.

(** *** A sink that keeps the bytes *)
Definition bytes_append (f : bytes) (s : Slice.Slice) : res bytes :=
  d ← Slice.ToString s; mret (f ++ d).

Lemma bytes_append_Ok (f : bytes) (s : Slice.Slice) :
  Slice.wf s → bytes_append f s = Ok (f ++ Slice.contents s).
Proof.
  intros [Hs _]. unfold bytes_append, Slice.ToString, Slice.read_mem.
  by rewrite (proj2 (Z.leb_le _ _)) by lia.
Qed.

Lemma bytes_append_ok (f : bytes) (s : Slice.Slice) f' :
  True → Slice.wf s → Slice.size_ s ≤ kSmallBufferSize → bytes_append f s = Ok f' →
  True ∧ f' = f ++ Slice.contents s.
Proof. intros _ Hs _. rewrite bytes_append_Ok by done. by intros [= <-]. Qed.

#[export] Instance bytes_sink : LogSink bytes := {|
  sink_append := bytes_append;
  sink_written f := f;
  sink_ok _ := True;
  sink_append_ok := bytes_append_ok
|}.

#[export] Instance bytes_total : TotalSink bytes.
Proof. intros f s _ Hs _. eexists. by apply bytes_append_Ok. Qed.

(** One append to a logger that was started. *)
Definition ex_async : AsyncLogging (F := bytes) :=
  match Append (started (F := bytes) []) (Slice.Slice_string (b_ "hello")) with
  | Ok a => a | Err _ => started (F := bytes) []
  end.

Lemma ex_async_reach : reach (F := bytes) [] ex_async (b_ "hello").
Proof.
  apply (reach_step (F := bytes) [] (started (F := bytes) []) (b_ "hello") ex_async []); [apply reach_started|].
  apply (step_append (F := bytes) _ (Slice.Slice_string (b_ "hello")));
    [by apply Slice.wf_string|by vm_compute|by vm_compute].
Defined.

Lemma AsyncLogging_fifo_witness :
  sink_written (F := bytes) [] ++ b_ "hello" = sink_written (log_file_ ex_async) ++ pending ex_async.
Proof. apply (AsyncLogging_fifo (F := bytes) [] ex_async (b_ "hello")); [done|apply ex_async_reach]. Defined.

Lemma AsyncLogging_safe_witness :
  ((∃ a', worker_step ex_async = Ok a') ∨ (∃ e, worker_step ex_async = Err e ∧ refused ex_async e)) ∧
  (∀ s, Slice.wf s → Slice.size_ s ≤ kSmallBufferSize → ∃ a', Append ex_async s = Ok a').
Proof. apply (AsyncLogging_safe (F := bytes) [] ex_async (b_ "hello")); [done|apply ex_async_reach]. Defined.

(** The logger while its owner joins, the worker being at its test, and while it
    waits with the record still in the buffer *)
Definition ex_stopping : AsyncLogging (F := bytes) := StopWorker ex_async.
Definition ex_waiting : AsyncLogging (F := bytes) :=
  match a ← worker_step (started (F := bytes) []); Append a (Slice.Slice_string (b_ "hello")) with
  | Ok a => StopWorker a | Err _ => ex_stopping
  end.

Lemma ex_stopping_reach : reach (F := bytes) [] ex_stopping (b_ "hello").
Proof. apply (reach_step (F := bytes) [] ex_async [] ex_stopping (b_ "hello") ex_async_reach). by apply step_stop. Defined.

Lemma ex_waiting_reach : reach (F := bytes) [] ex_waiting (b_ "hello").
Proof.
  destruct (worker_step (started (F := bytes) [])) as [a0|] eqn:E0; [|by vm_compute in E0].
  destruct (Append a0 (Slice.Slice_string (b_ "hello"))) as [a1|] eqn:E1.
  2: { vm_compute in E0. injection E0 as <-. by vm_compute in E1. }
  assert (ex_waiting = StopWorker a1) as ->.
  { unfold ex_waiting. rewrite E0. cbn [mbind res_bind]. by rewrite E1. }
  assert (Ho : owner a1 = O_idle).
  { destruct (Append_frame _ _ _ E1) as (-> & _). by destruct (worker_step_frame _ _ E0) as (-> & _). }
  apply (reach_step (F := bytes) [] a1 [] (StopWorker a1) (b_ "hello")); [|by apply step_stop].
  apply (reach_step (F := bytes) [] a0 (b_ "hello") a1 []).
  - apply (reach_step (F := bytes) [] (started (F := bytes) []) [] a0 []); [apply reach_started|by apply step_worker].
  - by apply (step_append (F := bytes) _ (Slice.Slice_string (b_ "hello"))); [apply Slice.wf_string|vm_compute|].
Qed.

Lemma AsyncLogging_calls_return_witness :
  ∃ n a1 a2, worker_run n ex_waiting = Ok a1 ∧ StopWorker_join a1 = Ok (Some a2) ∧ owner a2 = O_idle ∧
    log_file_ a2 = b_ "hello" ∧ AsyncLogging_dtor a2 = Ok (log_file_ a2).
Proof.
  destruct (AsyncLogging_calls_return (F := bytes) [] ex_waiting (b_ "hello")) as [_ Hj]; [done|apply ex_waiting_reach|].
  destruct Hj as (n & a1 & a2 & H1 & H2 & H3 & H4 & H5); [by vm_compute..|].
  exists n, a1, a2. split_and!; [exact H1|exact H2|exact H3| |exact H5]. cbn in H4. rewrite H4. by vm_compute.
Defined.

(** ... when it has joined, and after it started the worker again *)
Definition ex_stopped : AsyncLogging (F := bytes) := joined (exited ex_stopping).
Definition ex_restarted : AsyncLogging (F := bytes) :=
  match StartWorker ex_stopped with Ok a => a | Err _ => ex_stopped end.

Lemma ex_stopped_reach : reach (F := bytes) [] ex_stopped (b_ "hello").
Proof.
  apply (reach_step (F := bytes) [] (exited ex_stopping) [] ex_stopped (b_ "hello")); [|by apply step_join].
  apply (reach_step (F := bytes) [] ex_stopping [] (exited ex_stopping) (b_ "hello") ex_stopping_reach).
  apply step_worker. by vm_compute.
Defined.

Lemma AsyncLogging_never_restarts_witness : log_file_ ex_restarted = log_file_ ex_stopped.
Proof.
  apply (AsyncLogging_never_restarts (F := bytes) [] ex_stopped ex_restarted (b_ "hello")
           ex_stopped_reach eq_refl).
  apply rtc_once. exists []. by apply step_start.
Defined.

Lemma AsyncLogging_stop_can_lose_witness :
  ∃ a, reach (F := bytes) [] a (Slice.contents (Slice.Slice_string (b_ "hello"))) ∧ thread_ a = W_joined ∧
       AsyncLogging_dtor a = Ok (log_file_ a) ∧ sink_written (log_file_ a) = sink_written (F := bytes) [] ∧
       pending a = Slice.contents (Slice.Slice_string (b_ "hello")).
Proof.
  apply (AsyncLogging_stop_can_lose (F := bytes) [] (Slice.Slice_string (b_ "hello")));
    [done|by apply Slice.wf_string|by vm_compute].
Defined.

End AsyncLogging.
