(* ===== verification/LogFile.v ===== *)
(** * Log files on disk (log/file.h, log/file.cc, log/log_file.h,
    log/log_file.cc) and the process information in their names
    (util/process_info.cc)

    [AppendFile] is a file opened for appending with the bytes the C library
    took for it; [LogFile] owns one at a time and starts a new one when it has
    become too big or a new day has begun.  The C library and the clock are the
    parameter [Host]: fwrite takes between nothing and all of a block, and the
    clock may jump back.  A history variable of a file, [given], has what it was
    to write.  The theorems: the write loop ends and stores a prefix of the
    slice, all of it unless a write took nothing; [LogFile::Append] keeps the
    concatenation of what the files were given equal to what was appended, fails
    only if it rolls while the clock has not passed the time of the last roll,
    and never gives two files the same name.  [LogFile] is then an instance of
    the interface the asynchronous logger writes to.  That fopen and fflush
    succeed is taken for granted, as the source does. *)

From Stdlib Require Import Sorted.
From S2P Require Import Prelude Printf Slice Buffer Timestamp Calendar AsyncLogging.

(** Answers of the environment; the number counts the calls so far. *)
Class Host := {
  fwrite_unlocked : nat → bytes → Z;
  time_ : nat → Z;
  gethostname : option bytes; (* the text up to its terminator, or a failure *)
  getpid : Z
}.

Section LogFile.
Context `{Host}.

(** ** util/process_info.cc *)

Definition pidString : bytes := snprintf 32 (fmt_d getpid).

(** The buffer has 256 bytes, the last of which is set to NUL. *)
Definition hostname : bytes :=
  match gethostname with Some name => range name 0 (Z.min (len name) 255) | None => b_ "unknown" end.

(** ** log/file.h, log/file.cc *)

Record AppendFile := mkAppendFile {
  filename : bytes;
  given : bytes;  (* the slices of the calls of Append, in order: a history variable *)
  stored : bytes; (* what fwrite took, in order *)
  has_written_ : Z;
  flushed : Z (* how much of it fflush has passed on *)
}.

Definition AppendFile_new (file : bytes) : AppendFile := mkAppendFile file [] [] 0 0.

Definition HasWritten (f : AppendFile) : Z := has_written_ f.

Definition Flush (f : AppendFile) : AppendFile :=
  mkAppendFile (filename f) (given f) (stored f) (has_written_ f) (len (stored f)).

(** The destructor: fclose passes on what is still in the block buffer. *)
Definition AppendFile_dtor (f : AppendFile) : AppendFile := Flush f.

(** [while (remaining > 0)]; [n] is the number of calls of fwrite so far. *)
Fixpoint append_loop (fuel : nat) (s : Slice.Slice) (written remaining : Z) (d : bytes) (n : nat)
    : res (bytes * nat) :=
  if remaining >? 0 then
    match fuel with
    | O => Err OutOfFuel
    | S fl =>
        chunk ← Slice.read_mem (drop (Z.to_nat written) (Slice.data_ s)) (u64 (Slice.size_ s - written));
        let k := fwrite_unlocked n chunk in
        if k =? 0 then mret (d, S n)
        else append_loop fl s (u64 (written + k)) (u64 (remaining - k)) (d ++ take (Z.to_nat k) chunk) (S n)
    end
  else mret (d, n).

Definition AppendFile_Append (f : AppendFile) (s : Slice.Slice) (n : nat) : res (AppendFile * nat) :=
  if Slice.size_ s =? 0 then mret (f, n)
  else
    chunk ← Slice.read_mem (Slice.data_ s) (Slice.size_ s);
    let written := fwrite_unlocked n chunk in
    r ← append_loop (Z.to_nat (Slice.size_ s)) s written (u64 (Slice.size_ s - written))
          (stored f ++ take (Z.to_nat written) chunk) (S n);
    h ← check_i64 (has_written_ f + Slice.size_ s);
    mret (mkAppendFile (filename f) (given f ++ chunk) r.1 h (flushed f), r.2).

(** ** log/log_file.h, log/log_file.cc *)

Definition kRollingSize : Z := 100 * 1024 * 1024.
Definition kFlushInterval : Z := 5.
Definition kCheckInterval : Z := 1024.
Definition kRollPerDay_ : Z := 60 * 60 * 24.

Record LogFile := mkLogFile {
  basename_ : bytes;
  file_ : AppendFile;
  last_roll_ : Z;
  last_flush_ : Z;
  start_period_ : Z;
  count : Z; (* the static local of Append *)
  closed : list AppendFile; (* files given up by earlier rolls, oldest first *)
  n_fwrite : nat;
  n_time : nat
}.

(** [getLogFileName] for the time [now] *)
Definition getLogFileName (basename : bytes) (now : Z) : bytes :=
  let tm := gmtime now in
  let date := b_ "." ++ fmt_0d 4 (tm_year tm + 1900) ++ fmt_0d 2 (tm_mon tm + 1) ++ fmt_0d 2 (tm_mday tm) ++
              b_ "-" ++ fmt_0d 2 (tm_hour tm) ++ fmt_0d 2 (tm_min tm) ++ fmt_0d 2 (tm_sec tm) ++ b_ "." in
  basename ++ date ++ hostname ++ b_ "." ++ pidString ++ b_ ".log".

Definition period (now : Z) : Z := Z.quot now kRollPerDay_ * kRollPerDay_.

(** [rollToNewFile]; the old file is closed by the assignment to [file_]. *)
Definition rollToNewFile (l : LogFile) : res LogFile :=
  let now := time_ (n_time l) in
  let name := getLogFileName (basename_ l) now in
  assert_ (now >? last_roll_ l) "log_file.cc:50" ;;
  mret (mkLogFile (basename_ l) (AppendFile_new name) now now (period now) (count l)
          (closed l ++ [AppendFile_dtor (file_ l)]) (n_fwrite l) (S (n_time l))).

(** The destructor *)
Definition LogFile_dtor (l : LogFile) : list AppendFile := closed l ++ [AppendFile_dtor (file_ l)].

(** The constructor; [garbage] is what the memory of [last_roll_] held, which
    the assertion reads before anything was stored there. *)
Definition LogFile_new (file : bytes) (garbage : Z) (cnt : Z) : res LogFile :=
  let now := time_ 0 in
  assert_ (now >? garbage) "log_file.cc:50" ;;
  mret (mkLogFile file (AppendFile_new (getLogFileName file now)) now now (period now) cnt [] 0 1).

Definition LogFile_Append (l : LogFile) (s : Slice.Slice) : res LogFile :=
  r ← AppendFile_Append (file_ l) s (n_fwrite l);
  let l := mkLogFile (basename_ l) r.1 (last_roll_ l) (last_flush_ l) (start_period_ l) (count l)
             (closed l) r.2 (n_time l) in
  if HasWritten (file_ l) >? kRollingSize then rollToNewFile l
  else
    c ← check_i32 (count l + 1);
    if c >=? kCheckInterval then
      let now := time_ (n_time l) in
      let l := mkLogFile (basename_ l) (file_ l) (last_roll_ l) (last_flush_ l) (start_period_ l) 0
                 (closed l) (n_fwrite l) (S (n_time l)) in
      if negb (period now =? start_period_ l) then rollToNewFile l
      else
        d ← check_i64 (now - last_flush_ l);
        if d >? kFlushInterval then
          mret (mkLogFile (basename_ l) (Flush (file_ l)) (last_roll_ l) now (start_period_ l) (count l)
                  (closed l) (n_fwrite l) (n_time l))
        else mret l
    else mret (mkLogFile (basename_ l) (file_ l) (last_roll_ l) (last_flush_ l) (start_period_ l) c
                 (closed l) (n_fwrite l) (n_time l)).

(** ** The write loop *)

(** [fwrite] takes at most what it is given. *)
Definition fwrite_ok : Prop := ∀ n d, 0 ≤ fwrite_unlocked n d ≤ len d.
(** ... and something of a non-empty block. *)
Definition fwrite_progress : Prop := ∀ n d, d ≠ [] → fwrite_unlocked n d ≠ 0.

(** One of the calls from number [lo] to [hi - 1] takes nothing of a block that
    is not empty: the disk is full, say. *)
Definition took_nothing (lo hi : nat) : Prop :=
  ∃ m c, (lo ≤ m < hi)%nat ∧ c ≠ [] ∧ fwrite_unlocked m c = 0.

Lemma took_nothing_mono lo hi lo' hi' :
  took_nothing lo hi → (lo' ≤ lo)%nat → (hi ≤ hi')%nat → took_nothing lo' hi'.
Proof. intros (m & c & Hm & ?) ??. exists m, c. split; [lia|done]. Qed.

Lemma append_loop_Ok fuel s written d n :
  fwrite_ok → Slice.wf s → 0 ≤ written ≤ Slice.size_ s → Slice.size_ s - written ≤ Z.of_nat fuel →
  ∃ k n', append_loop fuel s written (Slice.size_ s - written) d n =
            Ok (d ++ range (Slice.contents s) written k, n') ∧
    written ≤ k ≤ Slice.size_ s ∧ (n ≤ n')%nat ∧ (k < Slice.size_ s → took_nothing n n').
Proof.
  intros Hok Hs. revert written d n. induction fuel as [|f IH]; intros written d n Hw Hf; cbn [append_loop].
  all: rewrite Z.gtb_ltb; destruct (Z.ltb_spec 0 (Slice.size_ s - written)) as [Hr|Hr]; try lia.
  1,3: exists written, n; rewrite range_empty, app_nil_r by lia; split_and!; [done|lia..].
  pose proof Hs as [Hsz Hs64]. rewrite u64_id by lia.
  assert (Hchunk : Slice.read_mem (drop (Z.to_nat written) (Slice.data_ s)) (Slice.size_ s - written) =
    Ok (range (Slice.contents s) written (Slice.size_ s))).
  { unfold Slice.read_mem. rewrite (proj2 (Z.leb_le _ _)) by (unfold len in *; rewrite length_drop; lia).
    unfold Slice.contents, range. rewrite !Z.sub_0_r, !drop_0, skipn_firstn_comm, take_take. do 2 f_equal. lia. }
  rewrite Hchunk. cbn [mbind res_bind]. set (chunk := range _ _ _).
  assert (Hcl : len chunk = Slice.size_ s - written).
  { subst chunk. rewrite len_range; [lia|lia|lia|]. rewrite Slice.len_slice by done. lia. }
  pose proof (Hok n chunk) as Hk. set (k := fwrite_unlocked n chunk) in *.
  destruct (Z.eqb_spec k 0) as [E|E].
  { exists written, (S n). rewrite range_empty, app_nil_r by lia. split_and!; [done|lia..|].
    intros _. exists n, chunk. split_and!; [lia..| |done]. intros ->. rewrite len_nil in Hcl. lia. }
  rewrite !u64_id by lia. replace (Slice.size_ s - written - k) with (Slice.size_ s - (written + k)) by lia.
  destruct (IH (written + k) (d ++ take (Z.to_nat k) chunk) (S n)) as (k' & n' & -> & Hk' & Hn & Hz); [lia|lia|].
  exists k', n'. split_and!; [|lia..|intros Hlt; apply (took_nothing_mono (S n) n'); [by apply Hz|lia..]]. rewrite <-app_assoc. do 3 f_equal.
  rewrite (range_split _ written (written + k) k') by lia. f_equal.
  subst chunk. unfold range. rewrite take_take. f_equal. lia.
Qed.

(** What [AppendFile::Append] does to the file: a prefix of the slice is
    stored, and it is a proper one only if a write of something took nothing. *)
Lemma AppendFile_Append_Ok f s n :
  fwrite_ok → Slice.wf s → - 2 ^ 63 ≤ has_written_ f → has_written_ f + Slice.size_ s < 2 ^ 63 →
  ∃ k n', AppendFile_Append f s n =
      Ok (mkAppendFile (filename f) (given f ++ Slice.contents s) (stored f ++ take (Z.to_nat k) (Slice.contents s))
            (has_written_ f + Slice.size_ s) (flushed f), n') ∧
    0 ≤ k ≤ Slice.size_ s ∧ (n ≤ n')%nat ∧ (k < Slice.size_ s → took_nothing n n').
Proof.
  intros Hok Hs Hlo Hhi. pose proof Hs as [Hsz Hs64]. unfold AppendFile_Append.
  destruct (Z.eqb_spec (Slice.size_ s) 0) as [E|E].
  { exists 0, n. cbn [Z.to_nat take]. rewrite E, app_nil_r, Z.add_0_r.
    assert (Slice.contents s = []) as -> by (unfold Slice.contents; rewrite E; by apply range_empty).
    rewrite app_nil_r. split_and!; [by destruct f|lia..]. }
  unfold Slice.read_mem. rewrite (proj2 (Z.leb_le _ _)) by lia. cbn [mbind res_bind].
  fold (Slice.contents s). pose proof (Hok n (Slice.contents s)) as Hk.
  rewrite Slice.len_slice in Hk by done. set (w := fwrite_unlocked n (Slice.contents s)) in *.
  rewrite u64_id by lia.
  destruct (append_loop_Ok (Z.to_nat (Slice.size_ s)) s w (stored f ++ take (Z.to_nat w) (Slice.contents s))
    (S n) Hok Hs ltac:(lia) ltac:(lia)) as (k & n' & -> & Hkk & Hnn & Hz).
  cbn [mbind res_bind fst snd]. unfold check_i64, in_i64.
  rewrite (proj2 (Z.leb_le _ _)), (proj2 (Z.ltb_lt _ _)) by lia. cbn.
  exists k, n'. split_and!; [|lia..|intros Hlt; apply (took_nothing_mono (S n) n'); [by apply Hz|lia..]].
  do 3 f_equal. rewrite <-app_assoc. f_equal.
  by rewrite <-!range_0, <-range_split by lia.
Qed.

(** ** Names of files *)

(** The date in a name can be read back. *)
Definition parse_date (s : bytes) : Z :=
  let s := drop 1 s in
  let '(year, s) := field 4 0 s in
  let '(mon, s) := field 2 0 s in
  let '(mday, s) := field 2 1 s in
  let '(hour, s) := field 2 0 s in
  let '(min, s) := field 2 0 s in
  let '(sec, _) := field 2 1 s in
  timegm (mktm sec min hour mday (mon - 1) (year - 1900)).

Lemma getLogFileName_date base t :
  0 ≤ t < 253370764800 → parse_date (drop (length base) (getLogFileName base t)) = t.
Proof.
  intros Ht. unfold getLogFileName. rewrite drop_app_length.
  destruct (gmtime_spec t) as (Hg & Hs & Hmi & Hh & Hd & Hmo). pose proof (gmtime_year t Ht) as Hy.
  destruct (gmtime t) as [sec min hour mday mon year].
  cbn [tm_sec tm_min tm_hour tm_mday tm_mon tm_year] in *. rewrite <-!app_assoc. unfold parse_date.
  match goal with |- context [drop 1 (b_ "." ++ ?r)] => change (drop 1 (b_ "." ++ r)) with r end. cbv zeta.
  rewrite (field_0d_end 4 (year + 1900)) by lia.
  rewrite (field_0d_end 2 (mon + 1)) by lia.
  rewrite (field_0d 2 1 mday (b_ "-")) by (done || lia).
  rewrite (field_0d_end 2 hour), (field_0d_end 2 min) by lia.
  rewrite (field_0d 2 1 sec (b_ ".")) by (done || lia).
  replace (mon + 1 - 1) with mon by lia. replace (year + 1900 - 1900) with year by lia. done.
Qed.

Lemma getLogFileName_inj base t t' :
  0 ≤ t < 253370764800 → 0 ≤ t' < 253370764800 →
  getLogFileName base t = getLogFileName base t' → t = t'.
Proof.
  intros Ht Ht' E. rewrite <-(getLogFileName_date base t), <-(getLogFileName_date base t') by done.
  by rewrite E.
Qed.

(** ** The invariant of a log file *)

(** The clock stays within the years of four digits. *)
Definition clock_range : Prop := ∀ n, 0 ≤ time_ n < 253370764800.

Definition files (l : LogFile) : list AppendFile := closed l ++ [file_ l].
(** What the files were given, and what the C library took for them *)
Definition total (l : LogFile) : bytes := concat (given <$> files l).
Definition on_disk (l : LogFile) : bytes := concat (stored <$> files l).

(** A file has what it was given, up to pieces lost by a write that took
    nothing, before call [n] of fwrite. *)
Definition kept (n : nat) (f : AppendFile) : Prop :=
  sublist (stored f) (given f) ∧ (stored f ≠ given f → took_nothing 0 n).

(** Nothing is left in the block buffer. *)
Definition passed_on (f : AppendFile) : Prop := flushed f = len (stored f).

Lemma dtor_passed_on l : Forall passed_on (closed l) → Forall passed_on (LogFile_dtor l).
Proof. intros Hc. apply Forall_app. split; [done|]. by repeat constructor. Qed.

Lemma kept_mono n n' f : kept n f → (n ≤ n')%nat → kept n' f.
Proof. intros [Hs Hk] Hn. split; [done|]. intros H1. by apply (took_nothing_mono 0 n), Hn; [apply Hk|]. Qed.

(** Appending a prefix of what the file is given *)
Lemma kept_append n n' f (c : bytes) k fn h fl :
  kept n f → (n ≤ n')%nat → ((k < length c)%nat → took_nothing n n') →
  kept n' (mkAppendFile fn (given f ++ c) (stored f ++ take k c) h fl).
Proof.
  intros [Hs Hk] Hn Hc. split; cbn.
  - apply sublist_app; [done|]. apply sublist_take.
  - intros Hne. destruct (decide (k < length c)%nat) as [Hl|Hl].
    + apply (took_nothing_mono n n'); [by apply Hc|lia..].
    + apply (took_nothing_mono 0 n); [apply Hk|lia..]. intros E. apply Hne. by rewrite E, take_ge by lia.
Qed.

(** All but the size of the current file: the counters and times are in range,
    and the files carry the names of later and later seconds. *)
Record rolling (l : LogFile) : Prop := {
  ro_count : 0 ≤ count l < kCheckInterval;
  ro_flush : 0 ≤ last_flush_ l < 253370764800;
  ro_period : start_period_ l = period (last_roll_ l);
  ro_names : ∃ ts, StronglySorted Z.lt (ts ++ [last_roll_ l]) ∧
    Forall (fun t => 0 ≤ t < 253370764800) (ts ++ [last_roll_ l]) ∧
    filename <$> files l = getLogFileName (basename_ l) <$> (ts ++ [last_roll_ l]);
  ro_closed : Forall passed_on (closed l);
  ro_kept : Forall (kept (n_fwrite l)) (files l)
}.

Definition log_ok (l : LogFile) : Prop := rolling l ∧ 0 ≤ has_written_ (file_ l) ≤ kRollingSize.

Lemma rolling_names l : rolling l → NoDup (filename <$> files l).
Proof.
  intros Hr. destruct (ro_names l Hr) as (ts & Hs & Hrng & ->). revert Hs Hrng.
  generalize (ts ++ [last_roll_ l]). intros us Hs. induction Hs as [|u us Hs IH Hlt]; intros Hrng; [constructor|].
  apply Forall_cons in Hrng as [Hu Hus]. cbn. constructor; [|auto].
  intros (v & E & Hv)%list_elem_of_fmap. rewrite Forall_forall in Hlt, Hus.
  specialize (Hlt v Hv). apply getLogFileName_inj in E; auto. lia.
Qed.

Lemma concat_snoc (g : AppendFile → bytes) l f : concat (g <$> (l ++ [f])) = concat (g <$> l) ++ g f.
Proof. by rewrite fmap_app, concat_app; cbn; rewrite app_nil_r. Qed.

Lemma StronglySorted_snoc l x y :
  StronglySorted Z.lt (l ++ [x]) → x < y → StronglySorted Z.lt ((l ++ [x]) ++ [y]).
Proof.
  intros Hs Hxy. induction l as [|z l IH]; cbn in *.
  - repeat constructor. done.
  - apply StronglySorted_inv in Hs as [Hs Hz]. constructor; [auto|].
    apply Forall_app. split; [done|]. apply Forall_app in Hz as [_ Hz]. apply Forall_cons in Hz as [Hz _].
    repeat constructor. lia.
Qed.

(** Nothing happens to the bytes, and [b] says whether a file was begun. *)
Definition same_bytes (l l' : LogFile) (b : bool) : Prop :=
  total l' = total l ∧ on_disk l' = on_disk l ∧ n_fwrite l' = n_fwrite l ∧
  length (closed l') = (length (closed l) + Nat.b2n b)%nat.

Lemma rollToNewFile_Ok l :
  clock_range → rolling l →
  if last_roll_ l <? time_ (n_time l)
  then ∃ l', rollToNewFile l = Ok l' ∧ log_ok l' ∧ same_bytes l l' true
  else rollToNewFile l = Err (AssertFailed "log_file.cc:50").
Proof.
  intros Hrng [Hc _ _ (ts & Hs & Hf & Hnm) Hcl Hk]. unfold rollToNewFile. rewrite Z.gtb_ltb.
  destruct (Z.ltb_spec (last_roll_ l) (time_ (n_time l))) as [Hlt|]; [|done]. cbn.
  apply Forall_app in Hk as [Hk [Hkf _]%Forall_cons].
  eexists. split; [done|]. unfold same_bytes, total, on_disk, files. split_and!.
  - split; [|cbn; unfold kRollingSize; lia].
    split; cbn; [done|apply Hrng|done| |by apply dtor_passed_on|].
    + exists (ts ++ [last_roll_ l]). split; [by apply StronglySorted_snoc|]. split.
      { apply Forall_app. split; [done|]. repeat constructor; apply Hrng. }
      unfold files in *. cbn. rewrite !fmap_app in *. cbn in *. by rewrite Hnm.
    + unfold files. cbn. rewrite !Forall_app, !Forall_singleton. split_and!; [done|done|]. by split.
  - cbn. rewrite !concat_snoc. cbn. apply app_nil_r.
  - cbn. rewrite !concat_snoc. cbn. apply app_nil_r.
  - done.
  - cbn. by rewrite length_app.
Qed.

(** The conditions under which [Append] starts a new file, and the time at
    which it does. *)
Definition too_big (l : LogFile) (s : Slice.Slice) : bool := has_written_ (file_ l) + Slice.size_ s >? kRollingSize.
Definition new_day (l : LogFile) : bool :=
  (count l + 1 >=? kCheckInterval) && negb (period (time_ (n_time l)) =? start_period_ l).
Definition rolls (l : LogFile) (s : Slice.Slice) : bool := too_big l s || new_day l.
Definition roll_time (l : LogFile) (s : Slice.Slice) : Z :=
  time_ (if too_big l s then n_time l else S (n_time l)).

(** The log file after the first statement of [Append], which stored [k] bytes. *)
Definition appended (l : LogFile) (s : Slice.Slice) (k : Z) (n : nat) : LogFile :=
  mkLogFile (basename_ l)
    (mkAppendFile (filename (file_ l)) (given (file_ l) ++ Slice.contents s)
       (stored (file_ l) ++ take (Z.to_nat k) (Slice.contents s))
       (has_written_ (file_ l) + Slice.size_ s) (flushed (file_ l)))
    (last_roll_ l) (last_flush_ l) (start_period_ l) (count l) (closed l) n (n_time l).

Lemma appended_bytes l s k n :
  total (appended l s k n) = total l ++ Slice.contents s ∧
  on_disk (appended l s k n) = on_disk l ++ take (Z.to_nat k) (Slice.contents s).
Proof. unfold total, on_disk, files. split; rewrite !concat_snoc; cbn; by rewrite app_assoc. Qed.

(** The invariant looks at the counters and times only. *)
Lemma rolling_frame l l' :
  rolling l → basename_ l' = basename_ l → last_roll_ l' = last_roll_ l → start_period_ l' = start_period_ l →
  filename <$> files l' = filename <$> files l → closed l' = closed l → Forall (kept (n_fwrite l')) (files l') →
  0 ≤ count l' < kCheckInterval → 0 ≤ last_flush_ l' < 253370764800 → rolling l'.
Proof.
  intros [_ _ Hp (ts & Hs & Hf & Hnm) Hcl _] Hb Hr Hsp Hfl Hcl' Hk Hc Hfu.
  split; [done|done|congruence| |by rewrite Hcl'|done]. exists ts.
  rewrite Hr, Hb, Hfl. done.
Qed.

Lemma appended_rolling l s k n' :
  rolling l → Slice.wf s → (n_fwrite l ≤ n')%nat → (k < Slice.size_ s → took_nothing (n_fwrite l) n') →
  rolling (appended l s k n').
Proof.
  intros Hro Hs Hn Hk. pose proof (Slice.len_slice s Hs) as Hl. unfold len in Hl.
  apply (rolling_frame l); try done; [cbn; by unfold files; rewrite !fmap_app| |apply Hro|apply Hro].
  pose proof (ro_kept l Hro) as H1. unfold files in *. cbn. rewrite Forall_app, Forall_singleton in H1 |- *.
  destruct H1 as [H1 H2]. split; [eapply Forall_impl; [exact H1|]; intros f Hf; by apply (kept_mono (n_fwrite l))|].
  apply (kept_append (n_fwrite l)); [done|done|]. intros Hlt. apply Hk. lia.
Qed.

(** The part of [Append] that looks at the clock, and rolls on a new day. *)
Definition check_clock (l : LogFile) : res LogFile :=
  let now := time_ (n_time l) in
  let l := mkLogFile (basename_ l) (file_ l) (last_roll_ l) (last_flush_ l) (start_period_ l) 0
             (closed l) (n_fwrite l) (S (n_time l)) in
  if negb (period now =? start_period_ l) then rollToNewFile l
  else
    d ← check_i64 (now - last_flush_ l);
    if d >? kFlushInterval then
      mret (mkLogFile (basename_ l) (Flush (file_ l)) (last_roll_ l) now (start_period_ l) (count l)
              (closed l) (n_fwrite l) (n_time l))
    else mret l.

Lemma check_clock_Ok l :
  clock_range → log_ok l →
  let day := negb (period (time_ (n_time l)) =? start_period_ l) in
  if negb day || (last_roll_ l <? time_ (S (n_time l)))
  then ∃ l', check_clock l = Ok l' ∧ log_ok l' ∧ same_bytes l l' day
  else check_clock l = Err (AssertFailed "log_file.cc:50").
Proof.
  intros Hrng [Hro Hsz]. cbv zeta. unfold check_clock. cbv zeta. cbn [start_period_ last_flush_].
  set (l1 := mkLogFile _ _ _ _ _ _ _ _ _).
  assert (Hro1 : rolling l1) by (apply (rolling_frame l); try done; apply Hro).
  destruct (Z.eqb_spec (period (time_ (n_time l))) (start_period_ l)) as [Hp|Hp]; cbn [negb orb].
  - pose proof (ro_flush _ Hro) as Hfl. pose proof (Hrng (n_time l)) as Hnow. unfold check_i64, in_i64.
    rewrite (proj2 (Z.leb_le _ _)), (proj2 (Z.ltb_lt _ _)) by lia. cbn [andb mbind res_bind].
    case_match; (eexists; split; [done|]).
    + split; [split; [|exact Hsz]|]; [|unfold same_bytes, total, on_disk, files; cbn; rewrite !concat_snoc, Nat.add_0_r; by split_and!].
      apply (rolling_frame l1); try done; [cbn; unfold files; by rewrite !fmap_app|].
      pose proof (ro_kept _ Hro1) as H1. unfold files in *. cbn in *. by rewrite Forall_app, Forall_singleton in H1 |- *.
    + split; [by split|]. unfold same_bytes. rewrite Nat.add_0_r. by split_and!.
  - exact (rollToNewFile_Ok l1 Hrng Hro1).
Qed.

Lemma LogFile_Append_eq l s :
  LogFile_Append l s =
    (r ← AppendFile_Append (file_ l) s (n_fwrite l);
     let l := mkLogFile (basename_ l) r.1 (last_roll_ l) (last_flush_ l) (start_period_ l) (count l)
                (closed l) r.2 (n_time l) in
     if HasWritten (file_ l) >? kRollingSize then rollToNewFile l
     else
       c ← check_i32 (count l + 1);
       if c >=? kCheckInterval then check_clock l
       else mret (mkLogFile (basename_ l) (file_ l) (last_roll_ l) (last_flush_ l) (start_period_ l) c
                    (closed l) (n_fwrite l) (n_time l))).
Proof. done. Qed.

(** One append: the slice is given to the current file, which stores a prefix of
    it, and the file is replaced when it has grown over the limit or a new day
    has begun, unless the clock has not passed the time of the last roll. *)
Lemma LogFile_Append_Ok l s :
  fwrite_ok → clock_range → log_ok l → Slice.wf s → Slice.size_ s ≤ kSmallBufferSize →
  if negb (rolls l s) || (last_roll_ l <? roll_time l s) then
    ∃ l' k, LogFile_Append l s = Ok l' ∧ log_ok l' ∧ total l' = total l ++ Slice.contents s ∧
      on_disk l' = on_disk l ++ take k (Slice.contents s) ∧
      ((k < length (Slice.contents s))%nat → took_nothing (n_fwrite l) (n_fwrite l')) ∧
      length (closed l') = (length (closed l) + Nat.b2n (rolls l s))%nat
  else LogFile_Append l s = Err (AssertFailed "log_file.cc:50").
Proof.
  intros Hok Hrng [Hro Hsz] Hs Hfit. pose proof Hs as [Hn _]. pose proof (Slice.len_slice s Hs) as Hl. unfold len in Hl.
  unfold kSmallBufferSize in *. assert (Hcap : has_written_ (file_ l) + Slice.size_ s < 2 ^ 63)
    by (unfold kRollingSize in *; lia). pose proof (LogFile_Append_eq l s) as E.
  destruct (AppendFile_Append_Ok (file_ l) s (n_fwrite l) Hok Hs) as (k & n' & EA & Hk & Hn' & Hz); [lia|lia|].
  rewrite EA in E. cbn [mbind res_bind fst snd] in E. fold (appended l s k n') in E. cbv zeta in E.
  pose proof (appended_rolling l s k n' Hro Hs Hn' Hz) as Hro'.
  destruct (appended_bytes l s k n') as [Htot Hdisk].
  change (HasWritten (file_ (appended l s k n')) >? kRollingSize) with (too_big l s) in E.
  assert (Hfin : ∀ l' b, log_ok l' ∧ same_bytes (appended l s k n') l' b → LogFile_Append l s = Ok l' → rolls l s = b →
    ∃ l' k, LogFile_Append l s = Ok l' ∧ log_ok l' ∧ total l' = total l ++ Slice.contents s ∧
      on_disk l' = on_disk l ++ take k (Slice.contents s) ∧
      ((k < length (Slice.contents s))%nat → took_nothing (n_fwrite l) (n_fwrite l')) ∧
      length (closed l') = (length (closed l) + Nat.b2n (rolls l s))%nat).
  { intros l' b (Hl' & E1 & E2 & E3 & E4) El ->. exists l', (Z.to_nat k). rewrite E1, E2, E3, Htot, Hdisk.
    split_and!; try done. intros Hlt. apply Hz. lia. }
  unfold rolls, roll_time in *. destruct (too_big l s) eqn:Hbig; cbn [orb negb] in *.
  { pose proof (rollToNewFile_Ok (appended l s k n') Hrng Hro') as H1. cbn [last_roll_ n_time appended] in H1.
    case_match; [|by rewrite E]. destruct H1 as (l' & E1 & H1). apply (Hfin l' true); [done|congruence|done]. }
  pose proof (ro_count l Hro) as Hc. unfold new_day in *. unfold kCheckInterval in *. cbn [count appended] in E.
  unfold check_i32, in_i32 in E. rewrite (proj2 (Z.leb_le _ _)), (proj2 (Z.ltb_lt _ _)) in E by lia.
  cbn [andb mbind res_bind] in E.
  assert (Hok' : log_ok (appended l s k n')).
  { split; [done|]. unfold too_big in Hbig. rewrite Z.gtb_ltb in Hbig. apply Z.ltb_ge in Hbig. cbn. lia. }
  rewrite Z.geb_leb in *. destruct (Z.leb_spec 1024 (count l + 1)) as [H1|H1]; cbn [andb negb orb] in *.
  - pose proof (check_clock_Ok (appended l s k n') Hrng Hok') as H2. cbn [last_roll_ n_time start_period_ appended] in H2.
    case_match; [|by rewrite E]. destruct H2 as (l' & E1 & H2). by apply (Hfin l' _ H2); [congruence|].
  - eapply (Hfin _ false); [|exact E|done]. split.
    + split; [|apply Hok']. apply (rolling_frame (appended l s k n')); try done;
        [apply Hro'|unfold kCheckInterval; cbn; lia|apply Hro'].
    + unfold same_bytes. rewrite Nat.add_0_r. by split_and!.
Qed.

Lemma LogFile_new_ok base garbage cnt l :
  clock_range → 0 ≤ cnt < kCheckInterval → LogFile_new base garbage cnt = Ok l →
  log_ok l ∧ total l = [] ∧ on_disk l = [].
Proof.
  intros Hrng Hc E. unfold LogFile_new in E. destruct (time_ 0 >? garbage); [|done]. injection E as <-.
  split; [|done]. split; [|cbn; unfold kRollingSize; lia].
  split; cbn; [done|apply Hrng|done| |done|by apply Forall_singleton].
  exists []. cbn. split; [repeat constructor|]. split; [|done]. repeat constructor; apply Hrng.
Qed.

End LogFile.

(** ** The file behind the asynchronous logger *)

(** What is relied on of the C library and the clock: fwrite takes between
    nothing and all of a block, and time(2) answers with a second of the years
    1970 to 9998.  It may go back. *)
Class HostLaws `{Host} := {
  host_fwrite : fwrite_ok;
  host_range : clock_range
}.

Section Sink.
Context `{HostLaws}.

Lemma LogFile_sink_append_ok (l : LogFile) (s : Slice.Slice) (l' : LogFile) :
  log_ok l → Slice.wf s → Slice.size_ s ≤ kSmallBufferSize → LogFile_Append l s = Ok l' →
  log_ok l' ∧ total l' = total l ++ Slice.contents s.
Proof.
  intros Hl Hs Hfit E. pose proof (LogFile_Append_Ok l s host_fwrite host_range Hl Hs Hfit) as H1.
  case_match; [|congruence]. destruct H1 as (l1 & k & E1 & Hl1 & Ht1 & _). rewrite E in E1. by injection E1 as <-.
Qed.

#[export] Instance LogFile_sink : LogSink LogFile := {|
  sink_append := LogFile_Append;
  sink_written := total;
  sink_ok := log_ok;
  sink_append_ok := LogFile_sink_append_ok
|}.

End Sink.

(** ** Theorems *)

(** C26: [AppendFile::Append] of a well-formed slice returns, whatever the C
    library answers: the loop around [fwrite_unlocked] ends, a prefix of the
    slice is stored behind what the file had, and all of it when no write of
    something takes nothing; [has_written_] grows by the size of the slice in
    every case. *)
Theorem AppendFile_Append_spec `{Host} (f : AppendFile) (s : Slice.Slice) (n : nat) :
  fwrite_ok → Slice.wf s → 0 ≤ has_written_ f → has_written_ f + Slice.size_ s < 2 ^ 63 →
  ∃ f' n' k, AppendFile_Append f s n = Ok (f', n') ∧
    stored f' = stored f ++ take k (Slice.contents s) ∧ (k ≤ length (Slice.contents s))%nat ∧
    has_written_ f' = has_written_ f + Slice.size_ s ∧ filename f' = filename f ∧
    (fwrite_progress → stored f' = stored f ++ Slice.contents s).
Proof.
  intros Hok Hs Hlo Hhi. destruct (AppendFile_Append_Ok f s n Hok Hs) as (k & n' & -> & Hk & _ & Hz); [lia|lia|].
  pose proof (Slice.len_slice s Hs) as Hl. unfold len in Hl.
  do 2 eexists. exists (Z.to_nat k). split; [done|]. cbn. split_and!; try done; [lia|]. intros Hp.
  rewrite take_ge; [done|]. destruct (decide (k < Slice.size_ s)) as [Hlt|]; [|lia].
  destruct (Hz Hlt) as (m & c & _ & Hc & E). by apply Hp in E.
Qed.

(** C25: [LogFile::Append] of a slice of at most a buffer succeeds, unless a new
    file is to be begun and the clock has not passed the time of the last roll:
    then the assertion of [rollToNewFile] fails.  A new file is begun exactly
    when the current one has passed the limit or, at every 1024th call, the day
    is not the one of the last roll.  On success the slice is what the files
    were given more; of its bytes a prefix is stored behind those that the files
    had, which is all of it unless a write took nothing of a non-empty block
    meanwhile; and the names of the files are all different.  Relied on is that
    fwrite takes between nothing and all of a block and that the clock stays in
    the years 1970 to 9998; it may jump back. *)
Theorem LogFile_Append_spec `{HostLaws} (l : LogFile) (s : Slice.Slice) :
  log_ok l → Slice.wf s → Slice.size_ s ≤ kSmallBufferSize →
  if negb (rolls l s) || (last_roll_ l <? roll_time l s) then
    ∃ l' k, LogFile_Append l s = Ok l' ∧ log_ok l' ∧ total l' = total l ++ Slice.contents s ∧
      on_disk l' = on_disk l ++ take k (Slice.contents s) ∧
      ((k < length (Slice.contents s))%nat → took_nothing (n_fwrite l) (n_fwrite l')) ∧
      NoDup (filename <$> files l') ∧
      length (closed l') = (length (closed l) + Nat.b2n (rolls l s))%nat
  else LogFile_Append l s = Err (AssertFailed "log_file.cc:50").
Proof.
  intros Hl Hs Hfit. pose proof (LogFile_Append_Ok l s host_fwrite host_range Hl Hs Hfit) as H1.
  case_match; [|done]. destruct H1 as (l' & k & E & Hl' & Ht & Hd & Hk & Hc).
  exists l', k. split_and!; try done. apply rolling_names, Hl'.
Qed.

(** C11: the asynchronous logger over a log file: in every interleaving, what was
    appended is the concatenation of what the files were given, oldest first,
    followed by what is still in memory.  Each file has what it was given, in
    order: all of it, unless a write before took nothing of a non-empty block, in
    which case pieces of it are missing, since [AppendFile::Append] drops the
    rest of a slice then.  No two of the files have the same name, and when the
    log file is destroyed nothing is left in a block buffer.  Relied on is that
    fwrite takes between nothing and all of a block, that fopen and fflush
    succeed, and that the clock stays in the years 1970 to 9998; it may jump
    back. *)
Theorem logger_end_to_end `{HostLaws} (base : bytes) (garbage cnt : Z) (l0 : LogFile)
    (a : AsyncLogging.AsyncLogging) (log : bytes) :
  0 ≤ cnt < kCheckInterval → LogFile_new base garbage cnt = Ok l0 → AsyncLogging.reach l0 a log →
  let l := AsyncLogging.log_file_ a in
  log = total l ++ AsyncLogging.pending a ∧
  Forall (fun f => sublist (stored f) (given f) ∧ (stored f ≠ given f → took_nothing 0 (n_fwrite l))) (files l) ∧
  NoDup (filename <$> files l) ∧
  Forall passed_on (LogFile_dtor l).
Proof.
  intros Hc Hn Hr l. destruct (LogFile_new_ok base garbage cnt l0 host_range Hc Hn) as (Hok & Ht & _).
  destruct (AsyncLogging.reach_inv (LogSink0 := LogFile_sink) l0 a log Hok Hr) as [Hi He]. cbn in He. rewrite Ht in He.
  destruct (AsyncLogging.inv_file a Hi) as [Hro _]. split; [done|]. split; [exact (ro_kept l Hro)|].
  split; [by apply rolling_names|apply dtor_passed_on, Hro].
Qed.

(** *** A host: short writes of at most three bytes, a second every call *)
#[local] Instance ex_host : Host := {|
  fwrite_unlocked _ d := Z.min (len d) 3;
  time_ n := 1500000000 + Z.min (Z.of_nat n) 1000;
  gethostname := Some (b_ "polly");
  getpid := 42
|}.

Lemma ex_host_fwrite : fwrite_ok.
Proof. intros n d. cbn. unfold len. lia. Qed.

Lemma ex_host_nothing lo hi : took_nothing lo hi → False.
Proof. intros (m & [|c d] & _ & Hd & E); [done|]. revert E. cbn. unfold len. cbn. lia. Qed.

#[local] Instance ex_host_laws : HostLaws.
Proof. split; [apply ex_host_fwrite|intros n; cbn; lia]. Qed.

Definition ex_log : LogFile := match LogFile_new (b_ "log") 0 0 with Ok l => l | Err _ => mkLogFile [] (AppendFile_new []) 0 0 0 0 [] 0 0 end.

Lemma AppendFile_Append_spec_witness :
  ∃ f' n' k, AppendFile_Append (AppendFile_new (b_ "f")) (Slice.Slice_string (b_ "hello world")) 0 = Ok (f', n') ∧
    stored f' = [] ++ take k (b_ "hello world") ∧ (k ≤ 11)%nat ∧ has_written_ f' = 0 + 11 ∧
    filename f' = b_ "f" ∧ (fwrite_progress → stored f' = b_ "hello world").
Proof.
  apply (AppendFile_Append_spec (AppendFile_new (b_ "f")) (Slice.Slice_string (b_ "hello world")) 0);
    [apply ex_host_fwrite|by apply Slice.wf_string|done|done].
Defined.

Lemma ex_log_ok : log_ok ex_log.
Proof. apply (LogFile_new_ok (b_ "log") 0 0); [apply host_range|done|by vm_compute]. Qed.

Lemma LogFile_Append_spec_witness :
  ∃ l', LogFile_Append ex_log (Slice.Slice_string (b_ "hello world")) = Ok l' ∧ log_ok l' ∧
    on_disk l' = b_ "hello world" ∧ NoDup (filename <$> files l') ∧ length (closed l') = 0%nat.
Proof.
  pose proof (LogFile_Append_spec ex_log (Slice.Slice_string (b_ "hello world")) ex_log_ok
    ltac:(by apply Slice.wf_string) ltac:(by vm_compute)) as H1.
  replace (rolls ex_log (Slice.Slice_string (b_ "hello world"))) with false in H1 by (by vm_compute).
  cbn [negb orb] in H1.
  destruct H1 as (l' & k & E & Hl & _ & Hd & Hk & Hn & Hc). exists l'. split_and!; try done. rewrite Hd.
  destruct (decide (k < 11)%nat) as [Hlt|]; [by destruct (ex_host_nothing _ _ (Hk Hlt))|].
  rewrite take_ge; [by vm_compute|]. change (11 ≤ k)%nat. lia.
Defined.

(** A record is appended and the worker writes it out. *)
Definition ex_logger : AsyncLogging.AsyncLogging :=
  match a ← AsyncLogging.Append (AsyncLogging.started ex_log) (Slice.Slice_string (b_ "hello"));
        AsyncLogging.worker_run 4 a
  with Ok a => a | Err _ => AsyncLogging.started ex_log end.

Lemma ex_logger_reach : AsyncLogging.reach ex_log ex_logger (b_ "hello").
Proof.
  destruct (AsyncLogging.Append (AsyncLogging.started ex_log) (Slice.Slice_string (b_ "hello")))
    as [a|e] eqn:E; [|by vm_compute in E].
  apply (AsyncLogging.reach_run ex_log 4 a).
  - apply (AsyncLogging.reach_step ex_log (AsyncLogging.started ex_log) (b_ "hello") a []);
      [apply AsyncLogging.reach_started|].
    by apply (AsyncLogging.step_append _ (Slice.Slice_string (b_ "hello"))); [apply Slice.wf_string|vm_compute|].
  - assert (Ha : (a ← Ok a; AsyncLogging.worker_run 4 a) = Ok ex_logger) by (rewrite <-E; by vm_compute).
    exact Ha.
Qed.

Lemma logger_end_to_end_witness :
  total (AsyncLogging.log_file_ ex_logger) = b_ "hello" ∧
  b_ "hello" = total (AsyncLogging.log_file_ ex_logger) ++ AsyncLogging.pending ex_logger ∧
  Forall (fun f => sublist (stored f) (given f) ∧
    (stored f ≠ given f → took_nothing 0 (n_fwrite (AsyncLogging.log_file_ ex_logger))))
    (files (AsyncLogging.log_file_ ex_logger)) ∧
  NoDup (filename <$> files (AsyncLogging.log_file_ ex_logger)) ∧
  Forall passed_on (LogFile_dtor (AsyncLogging.log_file_ ex_logger)).
Proof.
  split; [by vm_compute|].
  apply (logger_end_to_end (b_ "log") 0 0 ex_log); [done|by vm_compute|apply ex_logger_reach].
Defined.
