(* ===== verification/Logger.v ===== *)
(** * Log records (log/log_stream.h, log/log_stream.cc, log/logger.h,
    log/logger.cc)

    A [Logger] collects one record in a [LogStream], a fixed buffer of 4096
    bytes, and hands it to the destination when it is destroyed.  Every overload
    of [operator<<] is a constructor of [item]; the conversions go through
    [Fmt], a buffer of 32 bytes filled by snprintf with a format string that is
    interpreted here character by character.  The theorems give the text of
    every item and of the whole record, say exactly when an assertion fails, and
    compose the record with the asynchronous logger. *)

From Stdlib Require Import SpecFloat.
From S2P Require Import Prelude Printf Slice Buffer Timestamp Calendar AsyncLogging.
Import FixedBuffer.

(** ** snprintf with one argument *)

Inductive arg := Int (v : Z) | Dbl (d : double).

(** [num / den] rounded to the nearest integer, ties to even *)
Definition round_half_even (num den : Z) : Z :=
  let q := num / den in
  let r := num mod den in
  if 2 * r <? den then q else if den <? 2 * r then q + 1 else if Z.even q then q else q + 1.

(** [m * 2 ^ e] in millionths *)
Definition millionths (m : positive) (e : Z) : Z :=
  if 0 <=? e then Zpos m * 2 ^ e * 10 ^ 6 else round_half_even (Zpos m * 10 ^ 6) (2 ^ (- e)).

Definition sign (s : bool) : bytes := if s then b_ "-" else [].

(** [%f] *)
Definition fmt_f (d : double) : bytes :=
  match d with
  | S754_zero s => sign s ++ b_ "0.000000"
  | S754_infinity s => sign s ++ b_ "inf"
  | S754_nan => b_ "nan"
  | S754_finite s m e =>
      let q := millionths m e in sign s ++ dec (q / 10 ^ 6) ++ b_ "." ++ fmt_0d 6 (q mod 10 ^ 6)
  end.

(** [%c] *)
Definition fmt_c (v : Z) : bytes :=
  [match Byte.of_N (Z.to_N (v mod 256)) with Some c => c | None => Byte.x00 end].

(** One conversion specification followed by ordinary characters.  Where the
    argument is longer than the specification says, its low part is printed. *)
Definition printf (fmt : bytes) (a : arg) : res bytes :=
  match fmt, a with
  | Byte.x25 :: Byte.x63 :: rest, Int v => Ok (fmt_c v ++ rest)                             (* %c *)
  | Byte.x25 :: Byte.x75 :: rest, Int v => Ok (dec (u32 v) ++ rest)                         (* %u *)
  | Byte.x25 :: Byte.x64 :: rest, Int v => Ok (fmt_d (i32 v) ++ rest)                       (* %d *)
  | Byte.x25 :: Byte.x6c :: Byte.x64 :: rest, Int v => Ok (fmt_d (i64 v) ++ rest)           (* %ld *)
  | Byte.x25 :: Byte.x6c :: Byte.x6c :: Byte.x64 :: rest, Int v => Ok (fmt_d (i64 v) ++ rest) (* %lld *)
  | Byte.x25 :: Byte.x66 :: rest, Dbl d => Ok (fmt_f d ++ rest)                             (* %f *)
  | _, _ => Err BadConversion
  end.

(** ** log/log_stream.h, log/log_stream.cc *)

Abbreviation N := kSmallBufferSize.

Record Fmt := mkFmt { buf_ : bytes; length_ : Z }.

Definition Fmt_new (fmt : bytes) (val : arg) : res Fmt :=
  text ← printf fmt val;
  let length := u64 (len text) in
  assert_ (length <? 32) "log_stream.cc:86" ;;
  mret (mkFmt (snprintf 32 text ++ [Byte.x00]) length).

Record LogStream := mkLogStream { buffer_ : FixedBuffer }.

Definition LogStream_new : LogStream := mkLogStream (FixedBuffer_new N).

Definition ls_append (ls : LogStream) (s : Slice.Slice) : res LogStream :=
  b ← append N (buffer_ ls) s; mret (mkLogStream b).

Definition ls_data (ls : LogStream) : bytes := data (buffer_ ls).
Definition ls_size (ls : LogStream) : Z := size (buffer_ ls).
Definition ls_slice (ls : LogStream) : Slice.Slice := Slice.Slice_ptr (ls_data ls) (ls_size ls).

(** [operator<<(LogStream &, const Fmt &)] *)
Definition shl_fmt (ls : LogStream) (f : Fmt) : res LogStream :=
  ls_append ls (Slice.Slice_ptr (buf_ f) (length_ f)).

(** The arguments of the overloads of [operator<<]; a C string is the bytes
    from its pointer on. *)
Inductive item :=
  | I_bool (v : bool)
  | I_char (v : Z)
  | I_unsigned_char (v : Z)
  | I_short (v : Z)
  | I_unsigned_short (v : Z)
  | I_int (v : Z)
  | I_unsigned_int (v : Z)
  | I_long (v : Z)
  | I_unsigned_long (v : Z)
  | I_long_long (v : Z)
  | I_unsigned_long_long (v : Z)
  | I_float (v : double)
  | I_double (v : double)
  | I_cstr (s : bytes)
  | I_string (s : bytes)
  | I_slice (s : Slice.Slice).

Definition shl_format (ls : LogStream) (fmt : string) (val : arg) : res LogStream :=
  f ← Fmt_new (b_ fmt) val; shl_fmt ls f.

Definition shl (ls : LogStream) (it : item) : res LogStream :=
  match it with
  | I_bool v => let msg := if v then b_ "1" else b_ "0" in ls_append ls (Slice.Slice_string msg)
  | I_char v => shl_format ls "%c" (Int v)
  | I_unsigned_char v => shl_format ls "%uc" (Int v)
  | I_short v => shl_format ls "%d" (Int v)
  | I_unsigned_short v => shl_format ls "%d" (Int v)
  | I_int v => shl_format ls "%d" (Int v)
  | I_unsigned_int v => shl_format ls "%d" (Int v)
  | I_long v => shl_format ls "%ld" (Int v)
  | I_unsigned_long v => shl_format ls "%uld" (Int v)
  | I_long_long v => shl_format ls "%lld" (Int v)
  | I_unsigned_long_long v => shl_format ls "%ulld" (Int v)
  | I_float v => shl_format ls "%f" (Dbl v)
  | I_double v => shl_format ls "%f" (Dbl v)
  | I_cstr s => slice ← Slice.Slice_cstr s; ls_append ls slice
  | I_string s => ls_append ls (Slice.Slice_string s)
  | I_slice s => ls_append ls s
  end.

(** [stream << a << b << ...] *)
Fixpoint shl_all (ls : LogStream) (l : list item) : res LogStream :=
  match l with [] => mret ls | it :: l' => ls' ← shl ls it; shl_all ls' l' end.

(** A string literal, with its terminator *)
Definition lit (s : string) : item := I_cstr (b_ s ++ [Byte.x00]).

(** ** log/logger.h, log/logger.cc *)

Inductive LogLevel := TRACE | DEBUG | INFO | WARN | ERROR | FATAL.

Definition level_num (l : LogLevel) : Z :=
  match l with TRACE => 0 | DEBUG => 1 | INFO => 2 | WARN => 3 | ERROR => 4 | FATAL => 5 end.

Definition LogLevelName (l : LogLevel) : string :=
  match l with
  | TRACE => "TRACE " | DEBUG => "DEBUG " | INFO => "INFO  " | WARN => "WARN  " | ERROR => "ERROR "
  | FATAL => "FATAL "
  end.

(** [strrchr]: the offset of the last [c] before the terminator *)
Fixpoint strrchr (s : bytes) (c : byte) : option nat :=
  match s with
  | [] => None
  | x :: s' =>
      if byteZ x =? 0 then None
      else match strrchr s' c with
           | Some i => Some (S i)
           | None => if byteZ x =? byteZ c then Some 0%nat else None
           end
  end.

Record SourceFile := mkSourceFile { sf_data_ : bytes; sf_size_ : Z }.

Definition slash : byte := Byte.x2f.

(** From an array of characters, [arr] with its terminator *)
Definition SourceFile_array (arr : bytes) : SourceFile :=
  let size := len arr - 1 in
  match strrchr arr slash with
  | Some i => mkSourceFile (drop (S i) arr) (u64 (size - Z.of_nat (S i)))
  | None => mkSourceFile arr size
  end.

(** From a pointer to a C string *)
Definition SourceFile_ptr (filename : bytes) : res SourceFile :=
  let data := match strrchr filename slash with Some i => drop (S i) filename | None => filename end in
  n ← Slice.strlen data;
  mret (mkSourceFile data (u64 (i32 n))).

(** [this_thread::tid()] with the cached value and the answer of gettid *)
Definition this_thread_tid (current_tid_ gettid : Z) : Z :=
  if current_tid_ =? 0 then i32 gettid else current_tid_.

Record Logger := mkLogger {
  stream_ : LogStream;
  file_ : SourceFile;
  line_ : Z;
  time_ : Timestamp;
  level_ : LogLevel
}.

Definition Logger_new (file : SourceFile) (line : Z) (level : LogLevel) (tv_sec tv_usec tid : Z) : res Logger :=
  time ← Timestamp_now tv_sec tv_usec;
  s ← shl_all LogStream_new [I_string (toFormatedString time true); lit "Z "];
  s ← shl_all s [I_int tid; lit " "];
  s ← shl_all s [lit (LogLevelName level)];
  mret (mkLogger s file line time level).

(** The destructor, with the destination [func_] as a function on its state *)
Definition Logger_dtor {D} (func_ : D → Slice.Slice → res D) (l : Logger) (d : D) : res D :=
  s ← shl_all (stream_ l) [lit " - "; I_slice (Slice.Slice_ptr (sf_data_ (file_ l)) (sf_size_ (file_ l)));
                           lit " "; I_int (line_ l); I_cstr [Byte.x0a; Byte.x00]];
  func_ d (ls_slice s).

(** [LOG_TRACE << ...], [LOG_DEBUG], ...: the lower three are guarded. *)
Definition LOG {D} (func_ : D → Slice.Slice → res D) (gLogLevel level : LogLevel) (file : bytes) (line : Z)
    (tv_sec tv_usec tid : Z) (items : list item) (d : D) : res D :=
  if (level_num WARN <=? level_num level) || (level_num gLogLevel <=? level_num level) then
    l ← Logger_new (SourceFile_array file) line level tv_sec tv_usec tid;
    s ← shl_all (stream_ l) items;
    Logger_dtor func_ (mkLogger s (file_ l) (line_ l) (time_ l) (level_ l)) d
  else mret d.

(** The global level and destination, with their initial values below *)
Record Globals (D : Type) := mkGlobals { gLogLevel : LogLevel; func_ : D → Slice.Slice → res D }.
Arguments mkGlobals {D} _ _.
Arguments gLogLevel {D} _.
Arguments func_ {D} _.

Definition getLogLevel {D} (G : Globals D) : LogLevel := gLogLevel G.
Definition setLogLevel {D} (level : LogLevel) (G : Globals D) : Globals D := mkGlobals level (func_ G).
Definition destination {D} (G : Globals D) : D → Slice.Slice → res D := func_ G.
Definition set_destination {D E} (d : E → Slice.Slice → res E) (G : Globals D) : Globals E :=
  mkGlobals (gLogLevel G) d.

(** [fputs(s.data(), stdout)]: up to the terminator, whatever the size is *)
Definition DefaultDestination (out : bytes) (s : Slice.Slice) : res bytes :=
  n ← Slice.strlen (Slice.data s);
  mret (out ++ range (Slice.data s) 0 n).

Definition Globals_init : Globals bytes := mkGlobals INFO DefaultDestination.

(** ** The text of an item *)

(** The string before the terminator *)
Fixpoint cstring (s : bytes) : bytes :=
  match s with [] => [] | c :: s' => if byteZ c =? 0 then [] else c :: cstring s' end.

Definition terminated (s : bytes) : Prop := Byte.x00 ∈ s.

Definition shown (it : item) : bytes :=
  match it with
  | I_bool v => b_ (if v then "1" else "0")
  | I_char v => fmt_c v
  | I_unsigned_char v => dec v ++ b_ "c"
  | I_short v | I_unsigned_short v | I_int v | I_long v | I_long_long v => fmt_d v
  | I_unsigned_int v => fmt_d (i32 v)
  | I_unsigned_long v => dec (v mod 2 ^ 32) ++ b_ "ld"
  | I_unsigned_long_long v => dec (v mod 2 ^ 32) ++ b_ "lld"
  | I_float v | I_double v => fmt_f v
  | I_cstr s => cstring s
  | I_string s => s
  | I_slice s => Slice.contents s
  end.

(** The mantissa and the exponent of a binary64 number *)
Definition double_wf (d : double) : Prop :=
  match d with S754_finite _ m e => Zpos m < 2 ^ 53 ∧ - 1074 ≤ e ≤ 971 | _ => True end.

(** The value is one of its type, and pointers point to what they should. *)
Definition item_wf (it : item) : Prop :=
  match it with
  | I_bool _ => True
  | I_char v => - 2 ^ 7 ≤ v < 2 ^ 7
  | I_unsigned_char v => 0 ≤ v < 2 ^ 8
  | I_short v => - 2 ^ 15 ≤ v < 2 ^ 15
  | I_unsigned_short v => 0 ≤ v < 2 ^ 16
  | I_int v => - 2 ^ 31 ≤ v < 2 ^ 31
  | I_unsigned_int v => 0 ≤ v < 2 ^ 32
  | I_long v | I_long_long v => - 2 ^ 63 ≤ v < 2 ^ 63
  | I_unsigned_long v | I_unsigned_long_long v => 0 ≤ v < 2 ^ 64
  | I_float v | I_double v => double_wf v
  | I_cstr s => terminated s ∧ len s < 2 ^ 64
  | I_string s => len s < 2 ^ 64
  | I_slice s => Slice.wf s
  end.

(** The items that go through [Fmt] *)
Definition formatted (it : item) : bool :=
  match it with I_bool _ | I_cstr _ | I_string _ | I_slice _ => false | _ => true end.

Definition fits_fmt (it : item) : bool := negb (formatted it) || (len (shown it) <? 32).

Lemma i64_id z : - 2 ^ 63 ≤ z < 2 ^ 63 → i64 z = z.
Proof. intros. unfold i64, wrap_s. cbn [Z.sub]. rewrite Z.mod_small; lia. Qed.

Lemma i32_bound z : - 2 ^ 31 ≤ i32 z < 2 ^ 31.
Proof. unfold i32, wrap_s. pose proof (Z.mod_pos_bound (z + 2 ^ (32 - 1)) (2 ^ 32) eq_refl). lia. Qed.

Lemma u32_id z : 0 ≤ z < 2 ^ 32 → u32 z = z.
Proof. intros. apply Z.mod_small. lia. Qed.

Lemma strlen_terminated s : terminated s → Slice.strlen s = Ok (len (cstring s)) ∧ len (cstring s) < len s.
Proof.
  induction s as [|c s IH]; intros Ht; [by apply not_elem_of_nil in Ht|]. cbn [Slice.strlen cstring].
  destruct (Z.eqb_spec (byteZ c) 0) as [E|E]; [split; [done|len_lia]|].
  apply elem_of_cons in Ht as [<- | Ht]; [done|]. destruct (IH Ht) as [-> Hl]. cbn.
  split; [f_equal; len_lia|len_lia].
Qed.

Lemma cstring_prefix s : range s 0 (len (cstring s)) = cstring s.
Proof.
  rewrite range_0. unfold len. rewrite Nat2Z.id. induction s as [|c s IH]; [done|]. cbn.
  destruct (byteZ c =? 0); [done|]. cbn. by rewrite IH.
Qed.

Lemma Slice_cstr_Ok s :
  terminated s → len s < 2 ^ 64 →
  ∃ sl, Slice.Slice_cstr s = Ok sl ∧ Slice.wf sl ∧ Slice.contents sl = cstring s.
Proof.
  intros Ht Hl. destruct (strlen_terminated s Ht) as [E Hlt]. unfold Slice.Slice_cstr. rewrite E. cbn.
  eexists. split; [done|]. unfold Slice.wf, Slice.contents. cbn. split; [len_lia|apply cstring_prefix].
Qed.

(** ** Lengths *)

Lemma len_fmt_d z k : - 10 ^ Z.of_nat k < z < 10 ^ Z.of_nat k → (0 < k)%nat → len (fmt_d z) ≤ Z.of_nat k + 1.
Proof.
  intros Hz Hk. unfold fmt_d. destruct (Z.ltb_spec z 0).
  - rewrite len_app. pose proof (len_dec (- z) k ltac:(lia) Hk). change (len (b_ "-")) with 1. lia.
  - pose proof (len_dec z k ltac:(lia) Hk). lia.
Qed.

(** [Fmt] and the stream *)

Definition ls_wf (ls : LogStream) : Prop := wf N (buffer_ ls).
Definition ls_text (ls : LogStream) : bytes := contents (buffer_ ls).

Lemma small_size_i32 : 0 ≤ N < 2 ^ 31.
Proof. done. Qed.

(** Appending [t], or failing for lack of space *)
Definition appends (ls : LogStream) (t : bytes) (r : res LogStream) : Prop :=
  if len (ls_text ls) + len t <=? N then ∃ ls', r = Ok ls' ∧ ls_wf ls' ∧ ls_text ls' = ls_text ls ++ t
  else r = Err (AssertFailed "buffer.h:44").

Lemma ls_append_spec ls s : ls_wf ls → Slice.wf s → appends ls (Slice.contents s) (ls_append ls s).
Proof.
  intros Hb Hs. unfold appends, ls_text, ls_append. rewrite (len_fixed N) by done.
  rewrite Slice.len_slice by done. destruct (Z.leb_spec (cur_ (buffer_ ls) + Slice.size_ s) N) as [Hl|Hl].
  - destruct (fixed_append_Ok N small_size_i32 (buffer_ ls) s) as (b & -> & Hw & Hc & _); [done|done|lia|].
    by exists (mkLogStream b).
  - by rewrite append_full by (done || lia).
Qed.

(** A text of 32 characters or more does not get as far as the stream. *)
Lemma shl_format_wide ls fmt a t :
  printf (b_ fmt) a = Ok t → 32 ≤ len t < 2 ^ 64 → shl_format ls fmt a = Err (AssertFailed "log_stream.cc:86").
Proof.
  intros E Hl. unfold shl_format, Fmt_new. rewrite E. cbn [mbind res_bind]. rewrite u64_id by lia.
  by rewrite (proj2 (Z.ltb_ge _ _)) by lia.
Qed.

Lemma shl_format_spec ls fmt a t :
  ls_wf ls → printf (b_ fmt) a = Ok t → len t < 2 ^ 64 →
  if len t <? 32 then appends ls t (shl_format ls fmt a)
  else shl_format ls fmt a = Err (AssertFailed "log_stream.cc:86").
Proof.
  intros Hb E Hl. destruct (Z.ltb_spec (len t) 32) as [H|H]; [|by apply (shl_format_wide _ _ _ t)].
  unfold shl_format, Fmt_new. rewrite E. cbn [mbind res_bind]. rewrite u64_id by len_lia.
  rewrite (proj2 (Z.ltb_lt _ _)) by done. cbn [assert_ mbind res_bind mret res_ret].
  rewrite snprintf_fits by lia.
  assert (Ht : Slice.contents (Slice.Slice_ptr (t ++ [Byte.x00]) (len t)) = t).
  { unfold Slice.contents. cbn. rewrite range_0. unfold len. rewrite Nat2Z.id. apply take_app_length. }
  rewrite <-Ht at 1. apply ls_append_spec; [done|]. split; cbn; [len_lia|lia].
Qed.

(** Rounding is to a nearest integer. *)
Lemma round_half_even_spec num den :
  0 ≤ num → 0 < den →
  2 * Z.abs (round_half_even num den * den - num) ≤ den ∧ num / den ≤ round_half_even num den ≤ num / den + 1.
Proof.
  intros Hn Hd. unfold round_half_even. pose proof (Z.div_mod num den ltac:(lia)) as E.
  pose proof (Z.mod_pos_bound num den Hd). rewrite (Z.mul_comm den) in E.
  set (q := num / den) in *. set (r := num mod den) in *. clearbody q r. subst num.
  replace (q * den - (q * den + r)) with (- r) by lia.
  replace ((q + 1) * den - (q * den + r)) with (den - r) by lia.
  repeat case_match; bool_prop; replace (q * den - (q * den + r)) with (- r) by lia;
    replace ((q + 1) * den - (q * den + r)) with (den - r) by lia; lia.
Qed.

Lemma millionths_bound m e : Zpos m < 2 ^ 53 → e ≤ 971 → 0 ≤ millionths m e / 10 ^ 6 < 10 ^ 309.
Proof.
  intros Hm He. unfold millionths. destruct (Z.leb_spec 0 e).
  - rewrite Z.div_mul by done. assert (2 ^ e ≤ 2 ^ 971) by (apply Z.pow_le_mono_r; lia).
    assert (0 < 2 ^ e) by (apply Z.pow_pos_nonneg; lia). split; [lia|].
    apply Z.le_lt_trans with (2 ^ 53 * 2 ^ 971); [apply Z.mul_le_mono_nonneg; lia|by vm_compute].
  - assert (Hd : 0 < 2 ^ (- e)) by (apply Z.pow_pos_nonneg; lia).
    destruct (round_half_even_spec (Zpos m * 10 ^ 6) (2 ^ (- e)) ltac:(lia) Hd) as [_ Hr].
    assert (0 ≤ Z.pos m * 10 ^ 6 / 2 ^ (- e) ≤ Z.pos m * 10 ^ 6).
    { split; [apply Z.div_pos; lia|]. apply Z.div_le_upper_bound; nia. }
    split; [apply Z.div_pos; lia|]. apply Z.div_lt_upper_bound; [done|].
    apply Z.le_lt_trans with (2 ^ 53 * 10 ^ 6 + 1); [lia|by vm_compute].
Qed.

Lemma len_fmt_f_bound d : double_wf d → len (fmt_f d) < 2 ^ 64.
Proof.
  destruct d as [[]|[]| |s m e]; [done..|]. intros [Hm He]. cbn [fmt_f].
  pose proof (millionths_bound m e Hm ltac:(lia)) as Hq.
  pose proof (len_dec (millionths m e / 10 ^ 6) 309 Hq ltac:(lia)).
  rewrite !len_app, len_fmt_0d by (done || by apply Z.mod_pos_bound).
  change (len (b_ ".")) with 1. destruct s; cbn [sign]; [change (len (b_ "-")) with 1|rewrite len_nil]; lia.
Qed.

Lemma len_fmt_d_int z : - 2 ^ 63 ≤ z < 2 ^ 64 → len (fmt_d z) < 32.
Proof. intros. pose proof (len_fmt_d z 20 ltac:(lia) ltac:(lia)). lia. Qed.

Lemma len_dec_int z t : 0 ≤ z < 2 ^ 64 → len t ≤ 3 → len (dec z ++ t) < 32.
Proof. intros. rewrite len_app. pose proof (len_dec z 20 ltac:(lia) ltac:(lia)). lia. Qed.

(** What one [operator<<] does *)
Lemma shl_Ok ls it :
  ls_wf ls → item_wf it →
  if fits_fmt it then appends ls (shown it) (shl ls it)
  else shl ls it = Err (AssertFailed "log_stream.cc:86").
Proof.
  intros Hb Hi.
  assert (Hf : ∀ fmt a, printf (b_ fmt) a = Ok (shown it) → len (shown it) < 2 ^ 64 →
    if len (shown it) <? 32 then appends ls (shown it) (shl_format ls fmt a)
    else shl_format ls fmt a = Err (AssertFailed "log_stream.cc:86")) by (intros; by apply shl_format_spec).
  destruct it as [v|v|v|v|v|v|v|v|v|v|v|v|v|s|s|s]; cbn [item_wf] in Hi; cbn [shl]; unfold fits_fmt;
    cbn [formatted negb orb]; cbn [shown] in *.
  - rewrite <-(Slice.contents_string (b_ (if v then "1" else "0"))).
    destruct v; apply ls_append_spec; try done; by apply Slice.wf_string.
  - by apply Hf.
  - apply Hf; [cbn; by rewrite u32_id by lia|]. by apply (Z.lt_trans _ 32), (eq_refl : 32 < 2 ^ 64); apply len_dec_int; [lia|].
  - apply Hf; [cbn; by rewrite app_nil_r, i32_id by lia|]. pose proof (len_fmt_d_int v). lia.
  - apply Hf; [cbn; by rewrite app_nil_r, i32_id by lia|]. pose proof (len_fmt_d_int v). lia.
  - apply Hf; [cbn; by rewrite app_nil_r, i32_id by lia|]. pose proof (len_fmt_d_int v). lia.
  - apply Hf; [cbn; by rewrite app_nil_r|]. pose proof (i32_bound v). pose proof (len_fmt_d_int (i32 v)). lia.
  - apply Hf; [cbn; by rewrite app_nil_r, i64_id by lia|]. pose proof (len_fmt_d_int v). lia.
  - apply Hf; [done|]. pose proof (Z.mod_pos_bound v (2 ^ 32) eq_refl). by apply (Z.lt_trans _ 32), (eq_refl : 32 < 2 ^ 64); apply len_dec_int; [lia|].
  - apply Hf; [cbn; by rewrite app_nil_r, i64_id by lia|]. pose proof (len_fmt_d_int v). lia.
  - apply Hf; [done|]. pose proof (Z.mod_pos_bound v (2 ^ 32) eq_refl). by apply (Z.lt_trans _ 32), (eq_refl : 32 < 2 ^ 64); apply len_dec_int; [lia|].
  - apply Hf; [cbn [printf b_]; cbn; by rewrite app_nil_r|by apply len_fmt_f_bound].
  - apply Hf; [cbn; by rewrite app_nil_r|by apply len_fmt_f_bound].
  - destruct Hi as [Ht Hl]. destruct (Slice_cstr_Ok s Ht Hl) as (sl & -> & Hw & <-). by apply ls_append_spec.
  - rewrite <-(Slice.contents_string s) at 1. apply ls_append_spec; [done|]. by apply Slice.wf_string.
  - by apply ls_append_spec.
Qed.

Lemma appends_bind ls t1 t2 r k :
  appends ls t1 r → (∀ ls', r = Ok ls' → ls_wf ls' → appends ls' t2 (k ls')) →
  appends ls (t1 ++ t2) (r ≫= k).
Proof.
  unfold appends. intros H1 H2. rewrite len_app, Z.add_assoc. pose proof (len_nonneg t2).
  destruct (Z.leb_spec (len (ls_text ls) + len t1) N) as [Hl|Hl].
  - destruct H1 as (ls1 & -> & Hw1 & E1). specialize (H2 ls1 eq_refl Hw1). cbn.
    rewrite E1, len_app, <-Z.add_assoc in H2. rewrite <-Z.add_assoc.
    case_match; [|done]. destruct H2 as (ls2 & -> & Hw2 & E2). exists ls2. by rewrite E2, app_assoc.
  - rewrite (proj2 (Z.leb_gt _ _)) by lia. by rewrite H1.
Qed.

Definition item_ok (it : item) : Prop := item_wf it ∧ fits_fmt it = true.

Lemma shl_all_Ok ls l :
  ls_wf ls → Forall item_ok l → appends ls (concat (shown <$> l)) (shl_all ls l).
Proof.
  intros Hw Hl. revert ls Hw. induction Hl as [|it l [Hi Hf] _ IH]; intros ls Hw; cbn [shl_all].
  - unfold appends. cbn. rewrite len_nil, Z.add_0_r, app_nil_r.
    rewrite (proj2 (Z.leb_le _ _)); [by exists ls|]. unfold ls_text. rewrite (len_fixed N) by done. apply Hw.
  - cbn [fmap list_fmap concat]. apply appends_bind; [|by auto].
    pose proof (shl_Ok ls it Hw Hi) as E. by rewrite Hf in E.
Qed.

Lemma shl_all_app ls l k : shl_all ls (l ++ k) = (ls' ← shl_all ls l; shl_all ls' k).
Proof.
  revert ls. induction l as [|it l IH]; intros ls; [done|]. cbn [app shl_all].
  destruct (shl ls it) as [ls'|]; [apply IH|done].
Qed.

(** The first item too wide for [Fmt] ends the statement, unless the buffer
    was full before. *)
Lemma shl_all_wide ls pre it post :
  ls_wf ls → Forall item_ok pre → item_wf it → fits_fmt it = false →
  shl_all ls (pre ++ it :: post) =
    Err (AssertFailed (if len (ls_text ls) + len (concat (shown <$> pre)) <=? N then "log_stream.cc:86"
                       else "buffer.h:44")).
Proof.
  intros Hw Hp Hi Hf. rewrite shl_all_app. pose proof (shl_all_Ok ls pre Hw Hp) as H. unfold appends in H.
  case_match; [|by rewrite H]. destruct H as (ls' & -> & Hw' & _). cbn [mbind res_bind shl_all].
  pose proof (shl_Ok ls' it Hw' Hi) as E. rewrite Hf in E. by rewrite E.
Qed.

(** ** The name of the source file *)

Definition no_nul (s : bytes) : Prop := Forall (fun c => byteZ c ≠ 0) s.

Definition is_basename (f base : bytes) : Prop :=
  (slash ∉ base) ∧ (f = base ∨ ∃ dir, f = dir ++ slash :: base).

Lemma strrchr_none base c : (c ∉ base) → strrchr (base ++ [Byte.x00]) c = None.
Proof.
  induction base as [|x base IH]; intros Hc; [done|]. apply not_elem_of_cons in Hc as [Hx Hc].
  cbn [app strrchr]. rewrite IH by done. case_match; [done|].
  rewrite (proj2 (Z.eqb_neq _ _)); [done|]. intros E. by apply Hx, byteZ_inj.
Qed.

Lemma strrchr_some dir base c :
  no_nul dir → byteZ c ≠ 0 → (c ∉ base) → strrchr (dir ++ c :: base ++ [Byte.x00]) c = Some (length dir).
Proof.
  intros Hd Hc Hb. induction Hd as [|x dir Hx _ IH]; cbn [app strrchr length].
  - rewrite (proj2 (Z.eqb_neq _ _)), strrchr_none, Z.eqb_refl by done. done.
  - by rewrite (proj2 (Z.eqb_neq _ _)), IH by done.
Qed.

Lemma SourceFile_array_Ok f base :
  no_nul f → len f < 2 ^ 63 → is_basename f base →
  let s := SourceFile_array (f ++ [Byte.x00]) in
  Slice.wf (Slice.Slice_ptr (sf_data_ s) (sf_size_ s)) ∧
  Slice.contents (Slice.Slice_ptr (sf_data_ s) (sf_size_ s)) = base.
Proof.
  intros Hn Hl [Hb Hf]. cbv zeta.
  assert (SourceFile_array (f ++ [Byte.x00]) = mkSourceFile (base ++ [Byte.x00]) (len base)) as ->.
  { unfold SourceFile_array. destruct Hf as [-> | (dir & ->)].
    - rewrite strrchr_none by done. f_equal. len_lia.
    - apply Forall_app in Hn as [Hn _]. rewrite <-app_assoc. cbn [app]. rewrite strrchr_some by done. f_equal.
      + replace (S (length dir)) with (length (dir ++ [slash])) by (rewrite length_app; cbn; lia).
        change (slash :: base ++ [Byte.x00]) with ([slash] ++ (base ++ [Byte.x00])).
        by rewrite app_assoc, drop_app_length.
      + replace (len (dir ++ slash :: base ++ [Byte.x00]) - 1 - Z.of_nat (S (length dir))) with (len base)
          by (autorewrite with polly_len; unfold len; lia).
        apply u64_id. len_lia. }
  cbn [sf_data_ sf_size_]. apply (conj (B := Slice.contents (Slice.Slice_string base) = base)).
  - apply Slice.wf_string. destruct Hf as [-> | (dir & ->)]; len_lia.
  - apply Slice.contents_string.
Qed.

(** ** The record *)

Definition head_items (t : Timestamp) (tid : Z) (level : LogLevel) : list item :=
  [I_string (toFormatedString t true); lit "Z "; I_int tid; lit " "; lit (LogLevelName level)].

Definition tail_items (f : SourceFile) (line : Z) : list item :=
  [lit " - "; I_slice (Slice.Slice_ptr (sf_data_ f) (sf_size_ f)); lit " "; I_int line; I_cstr [Byte.x0a; Byte.x00]].

Definition enabled (gLogLevel level : LogLevel) : bool :=
  (level_num WARN <=? level_num level) || (level_num gLogLevel <=? level_num level).

Lemma head_items_eq t tid level :
  head_items t tid level =
  [I_string (toFormatedString t true); lit "Z "] ++ [I_int tid; lit " "] ++ [lit (LogLevelName level)].
Proof. done. Qed.

(** The three statements of the constructor, the statement of the user and the
    destructor write to one stream. *)
Lemma Logger_dtor_eq {D} (func_ : D → Slice.Slice → res D) l d :
  Logger_dtor func_ l d = (s ← shl_all (stream_ l) (tail_items (file_ l) (line_ l)); func_ d (ls_slice s)).
Proof. done. Qed.

Lemma bind_Ok {A B} (a : A) (f : A → res B) : (Ok a ≫= f) = f a.
Proof. done. Qed.

Lemma bind_mret {A B} (a : A) (f : A → res B) : (mret a ≫= f) = f a.
Proof. done. Qed.

Lemma bind_Err {A B} (e : fault) (f : A → res B) : (Err e ≫= f) = Err e.
Proof. done. Qed.

Lemma bind_assoc {A B C} (m : res A) (f : A → res B) (g : B → res C) :
  ((m ≫= f) ≫= g) = (m ≫= (fun a => f a ≫= g)).
Proof. by destruct m. Qed.

Lemma bind_ext {A B} (m : res A) (f g : A → res B) : (∀ a, f a = g a) → (m ≫= f) = (m ≫= g).
Proof. intros E. destruct m; [apply E|done]. Qed.

Lemma Logger_new_eq f line level tv_sec tv_usec tid t :
  Timestamp_now tv_sec tv_usec = Ok t →
  Logger_new f line level tv_sec tv_usec tid =
    (s ← shl_all LogStream_new (head_items t tid level); mret (mkLogger s f line t level)).
Proof.
  intros Et. unfold Logger_new. rewrite Et, head_items_eq, bind_Ok, shl_all_app, bind_assoc.
  apply bind_ext. intros s1. rewrite shl_all_app, bind_assoc. apply bind_ext. intros s2. reflexivity.
Qed.

Lemma LOG_eq {D} (func_ : D → Slice.Slice → res D) g level file line tv_sec tv_usec tid items d t :
  Timestamp_now tv_sec tv_usec = Ok t → enabled g level = true →
  LOG func_ g level file line tv_sec tv_usec tid items d =
    (s ← shl_all LogStream_new (head_items t tid level ++ items ++ tail_items (SourceFile_array file) line);
     func_ d (ls_slice s)).
Proof.
  intros Et Eg. unfold LOG. fold (enabled g level). rewrite Eg, (Logger_new_eq _ _ _ _ _ _ t Et), !shl_all_app.
  rewrite !bind_assoc. apply bind_ext. intros s1. rewrite bind_mret, shl_all_app, bind_assoc.
  apply bind_ext. intros s2. by rewrite Logger_dtor_eq.
Qed.

Definition newline : bytes := [Byte.x0a].

Definition record_text (t : Timestamp) (tid : Z) (level : LogLevel) (items : list item) (base : bytes) (line : Z)
    : bytes :=
  toFormatedString t true ++ b_ "Z " ++ fmt_d tid ++ b_ " " ++ b_ (LogLevelName level) ++
  concat (shown <$> items) ++ b_ " - " ++ base ++ b_ " " ++ fmt_d line ++ newline.

(** What is in the stream when the items of the user have been written *)
Definition record_start (t : Timestamp) (tid : Z) (level : LogLevel) (items : list item) : bytes :=
  toFormatedString t true ++ b_ "Z " ++ fmt_d tid ++ b_ " " ++ b_ (LogLevelName level) ++ concat (shown <$> items).

Lemma len_snprintf n s : 0 < n → len (snprintf n s) < n.
Proof. intros Hn. unfold snprintf. pose proof (len_nonneg s). rewrite len_range; lia. Qed.

Lemma len_formated t b : len (toFormatedString t b) < 32.
Proof. unfold toFormatedString. destruct b; by apply len_snprintf. Qed.

Lemma int_ok v : - 2 ^ 31 ≤ v < 2 ^ 31 → item_ok (I_int v).
Proof. intros. split; [done|]. apply Z.ltb_lt, len_fmt_d_int. lia. Qed.

Lemma lit_ok s : len (b_ s) < 2 ^ 63 → item_ok (lit s).
Proof.
  intros Hl. split; [|done]. split; [|len_lia]. apply elem_of_app. right. by apply list_elem_of_singleton.
Qed.

Lemma head_ok t tid level : - 2 ^ 31 ≤ tid < 2 ^ 31 → Forall item_ok (head_items t tid level).
Proof.
  intros Ht. pose proof (len_formated t true).
  repeat (apply Forall_cons; split); [|by apply lit_ok|by apply int_ok|by apply lit_ok| |done].
  - split; [|done]. change (len (toFormatedString t true) < 2 ^ 64). lia.
  - destruct level; by apply lit_ok.
Qed.

Lemma tail_ok f line :
  Slice.wf (Slice.Slice_ptr (sf_data_ f) (sf_size_ f)) → - 2 ^ 31 ≤ line < 2 ^ 31 → Forall item_ok (tail_items f line).
Proof.
  intros Hf Hl.
  repeat (apply Forall_cons; split); [by apply lit_ok|done|by apply lit_ok|by apply int_ok| |done].
  split; [|done]. split; [|done]. apply elem_of_cons. right. by apply list_elem_of_singleton.
Qed.

Lemma head_text t tid level items :
  concat (shown <$> (head_items t tid level ++ items)) = record_start t tid level items.
Proof.
  unfold record_start. rewrite fmap_app, concat_app. unfold head_items. cbn [fmap list_fmap concat shown].
  assert (Hlit : ∀ l, shown (lit (LogLevelName l)) = b_ (LogLevelName l)) by (by intros []).
  rewrite Hlit. change (shown (lit "Z ")) with (b_ "Z "). change (shown (lit " ")) with (b_ " ").
  by rewrite app_nil_r, <-!app_assoc.
Qed.

Lemma record_text_start t tid level items base line :
  record_text t tid level items base line =
  record_start t tid level items ++ b_ " - " ++ base ++ b_ " " ++ fmt_d line ++ newline.
Proof. unfold record_text, record_start. by rewrite <-!app_assoc. Qed.

(** The whole record in the buffer of the stream *)
Lemma record_appends t tid level items f base line :
  - 2 ^ 31 ≤ tid < 2 ^ 31 → - 2 ^ 31 ≤ line < 2 ^ 31 → Forall item_ok items →
  no_nul f → len f < 2 ^ 63 → is_basename f base →
  appends LogStream_new (record_text t tid level items base line)
    (shl_all LogStream_new (head_items t tid level ++ items ++ tail_items (SourceFile_array (f ++ [Byte.x00])) line)).
Proof.
  intros Ht Hln Hi Hf Hl Hb. destruct (SourceFile_array_Ok f base Hf Hl Hb) as [Hw Hc].
  replace (record_text t tid level items base line) with
    (concat (shown <$> (head_items t tid level ++ items ++ tail_items (SourceFile_array (f ++ [Byte.x00])) line))).
  { apply shl_all_Ok; [by apply (wf_new N)|]. apply Forall_app. split; [by apply head_ok|].
    apply Forall_app. split; [done|by apply tail_ok]. }
  rewrite record_text_start, (app_assoc (head_items _ _ _)), fmap_app, concat_app, head_text. f_equal.
  unfold tail_items. cbn [fmap list_fmap concat shown]. rewrite Hc.
  change (shown (lit " ")) with (b_ " "). change (shown (lit " - ")) with (b_ " - "). by rewrite app_nil_r.
Qed.

Lemma new_text : ls_text LogStream_new = [].
Proof. done. Qed.

Lemma ls_slice_Ok ls :
  ls_wf ls → Slice.wf (ls_slice ls) ∧ Slice.contents (ls_slice ls) = ls_text ls ∧ Slice.size_ (ls_slice ls) ≤ N.
Proof.
  intros Hw. destruct (slice_contents N small_size_i32 (buffer_ ls) Hw) as [H1 H2].
  split; [exact H1|]. split; [exact H2|]. exact (AsyncLogging.slice_fits (buffer_ ls) Hw).
Qed.

(** ** Reading numbers back *)

(** An optional minus sign and the rest *)
Definition split_sign (s : bytes) : bool * bytes :=
  match s with Byte.x2d :: s' => (true, s') | _ => (false, s) end.

Definition parse_d (s : bytes) : Z := let '(neg, ds) := split_sign s in if neg then - undec ds else undec ds.

(** Digits, a point, six digits: the value in millionths *)
Definition parse_f (s : bytes) : bool * Z :=
  let '(neg, t) := split_sign s in
  (neg, undec (take (length t - 7) t) * 10 ^ 6 + undec (drop (length t - 6) t)).

Lemma split_sign_digits s t :
  s ≠ [] → Forall (fun c => 0 ≤ undigit c < 10) s → split_sign (s ++ t) = (false, s ++ t).
Proof.
  intros Hne Hs. destruct s as [|c s]; [done|]. apply Forall_cons in Hs as [Hc _].
  destruct c; try done. destruct Hc as [Hc _]. by apply Z.leb_le in Hc.
Qed.

Lemma dec_loop_nonempty fuel n acc : dec_loop (S fuel) n acc ≠ [].
Proof.
  cbn [dec_loop]. case_match; [done|]. rewrite dec_loop_app. by destruct (dec_loop fuel (n / 10) []).
Qed.

Lemma split_sign_dec n t : 0 ≤ n → split_sign (dec n ++ t) = (false, dec n ++ t).
Proof. intros Hn. apply split_sign_digits; [apply dec_loop_nonempty|by apply dec_digits]. Qed.

Lemma parse_fmt_d z : parse_d (fmt_d z) = z.
Proof.
  unfold parse_d, fmt_d. destruct (Z.ltb_spec z 0).
  - change (split_sign (b_ "-" ++ dec (- z))) with (true, dec (- z)). cbv beta iota. rewrite undec_dec; lia.
  - rewrite <-(app_nil_r (dec z)), split_sign_dec, app_nil_r, undec_dec by lia. done.
Qed.

Lemma parse_fmt_f s m e : 0 ≤ millionths m e → parse_f (fmt_f (S754_finite s m e)) = (s, millionths m e).
Proof.
  intros Hq. cbn [fmt_f]. set (q := millionths m e) in *. clearbody q.
  assert (H6 : 0 ≤ q mod 10 ^ 6 < 10 ^ 6) by (by apply Z.mod_pos_bound).
  pose proof (len_fmt_0d 6 (q mod 10 ^ 6) H6 eq_refl) as L6.
  assert (H7 : length (fmt_0d 6 (q mod 10 ^ 6)) = 6%nat) by (unfold len in L6; lia). clear L6.
  assert (Hi : 0 ≤ q / 10 ^ 6) by (apply Z.div_pos; lia).
  set (frac := fmt_0d 6 (q mod 10 ^ 6)) in *. set (int := dec (q / 10 ^ 6)).
  assert (E : split_sign (sign s ++ int ++ b_ "." ++ frac) = (s, int ++ b_ "." ++ frac)).
  { destruct s; [done|]. by apply split_sign_dec. }
  unfold parse_f. rewrite E. f_equal. rewrite !length_app, H7. change (length (b_ ".")) with 1%nat.
  replace (length int + (1 + 6) - 7)%nat with (length int) by lia.
  replace (length int + (1 + 6) - 6)%nat with (length (int ++ b_ ".")) by (rewrite length_app; change (length (b_ ".")) with 1%nat; lia).
  rewrite take_app_length, app_assoc, drop_app_length. subst int frac.
  rewrite undec_dec, fmt_0d_spec by lia. pose proof (Z.div_mod q (10 ^ 6) ltac:(done)). lia.
Qed.

(** Large numbers have many digits. *)
Lemma len_dec_lower n k : 10 ^ k ≤ n → k < len (dec n).
Proof.
  intros Hn. destruct (Z.le_gt_cases (len (dec n)) k) as [Hl|]; [|done].
  assert (0 ≤ n) by (pose proof (Z.pow_nonneg 10 k ltac:(lia)); lia).
  pose proof (undec_bound (dec n) (dec_digits n ltac:(done))) as [_ Hu]. rewrite undec_dec in Hu by done.
  pose proof (Z.pow_le_mono_r 10 _ _ ltac:(lia) Hl). lia.
Qed.

Lemma len_fmt_f s m e :
  0 ≤ millionths m e → len (fmt_f (S754_finite s m e)) = len (sign s) + len (dec (millionths m e / 10 ^ 6)) + 7.
Proof.
  intros Hq. cbn [fmt_f]. rewrite !len_app, len_fmt_0d by (done || by apply Z.mod_pos_bound).
  change (len (b_ ".")) with 1. lia.
Qed.

Lemma millionths_nearest m e :
  0 ≤ millionths m e ∧
  (if 0 <=? e then millionths m e = Zpos m * 2 ^ e * 10 ^ 6
   else 2 * Z.abs (millionths m e * 2 ^ (- e) - Zpos m * 10 ^ 6) ≤ 2 ^ (- e)).
Proof.
  unfold millionths. destruct (Z.leb_spec 0 e).
  - split; [|done]. assert (0 < 2 ^ e) by (apply Z.pow_pos_nonneg; lia). lia.
  - assert (Hd : 0 < 2 ^ (- e)) by (apply Z.pow_pos_nonneg; lia).
    destruct (round_half_even_spec (Zpos m * 10 ^ 6) (2 ^ (- e)) ltac:(lia) Hd) as [Hr Hb].
    split; [|done]. pose proof (Z.div_pos (Zpos m * 10 ^ 6) (2 ^ (- e)) ltac:(lia) Hd). lia.
Qed.

(** The value of the items that are printed in full *)
Definition int_value (it : item) : option Z :=
  match it with
  | I_short v | I_unsigned_short v | I_int v | I_long v | I_long_long v => Some v
  | _ => None
  end.

Lemma int_fits it v : item_wf it → int_value it = Some v → fits_fmt it = true ∧ len (shown it) < 32 ∧ parse_d (shown it) = v.
Proof.
  intros Hw Hv. assert (Hl : shown it = fmt_d v ∧ - 2 ^ 63 ≤ v < 2 ^ 64 ∧ formatted it = true)
    by (destruct it; cbn in Hv, Hw |- *; simplify_eq; split_and!; (done || lia)).
  destruct Hl as (E & Hr & Hf). pose proof (len_fmt_d_int v Hr). rewrite E, parse_fmt_d.
  split_and!; try done. unfold fits_fmt. rewrite Hf, E. by apply Z.ltb_lt.
Qed.

(** ** Theorems *)

(** Every overload of [operator<<] appends exactly the text of its argument
    behind what the stream has; the two ways to fail are the assertion of [Fmt]
    for a text of 32 characters or more, and the assertion of the buffer when
    the text does not fit in what is left of 4096 bytes. *)
Theorem LogStream_shl_spec (ls : LogStream) (it : item) :
  ls_wf ls → item_wf it →
  if fits_fmt it then
    if len (ls_text ls) + len (shown it) <=? kSmallBufferSize
    then ∃ ls', shl ls it = Ok ls' ∧ ls_wf ls' ∧ ls_text ls' = ls_text ls ++ shown it
    else shl ls it = Err (AssertFailed "buffer.h:44")
  else shl ls it = Err (AssertFailed "log_stream.cc:86").
Proof. apply shl_Ok. Qed.

(** Signed integers of every width, and [unsigned short], can be read back
    from the stream: with 32 bytes left the text that is added determines the
    value. *)
Theorem LogStream_integers (ls : LogStream) (it : item) (v : Z) :
  ls_wf ls → item_wf it → int_value it = Some v → len (ls_text ls) + 32 ≤ kSmallBufferSize →
  ∃ ls' t, shl ls it = Ok ls' ∧ ls_text ls' = ls_text ls ++ t ∧ parse_d t = v.
Proof.
  intros Hw Hi Hv Hl. destruct (int_fits it v Hi Hv) as (Hf & Hlen & Hp).
  pose proof (shl_Ok ls it Hw Hi) as H. rewrite Hf in H. unfold appends in H.
  rewrite (proj2 (Z.leb_le _ _)) in H by lia. destruct H as (ls' & E & _ & Et). by exists ls', (shown it).
Qed.

(** Unsigned integers of more than 31 bits cannot: [unsigned long] values
    that differ by a multiple of 2^32 leave the same stream, and the upper half
    of [unsigned int] is printed like negative [int] values. *)
Theorem LogStream_unsigned_ambiguous (ls : LogStream) (v k : Z) :
  shl ls (I_unsigned_long (v + k * 2 ^ 32)) = shl ls (I_unsigned_long v) ∧
  shl ls (I_unsigned_long_long (v + k * 2 ^ 32)) = shl ls (I_unsigned_long_long v) ∧
  (2 ^ 31 ≤ v < 2 ^ 32 → shl ls (I_unsigned_int v) = shl ls (I_int (v - 2 ^ 32))).
Proof.
  assert (Hu : u32 (v + k * 2 ^ 32) = u32 v) by (unfold u32; by rewrite Z.mod_add).
  cbn [shl]. unfold shl_format, Fmt_new. cbn [b_ String.list_byte_of_string printf]. cbn.
  rewrite Hu. split; [done|]. split; [done|]. intros Hv.
  assert (E : i32 v = i32 (v - 2 ^ 32)).
  { rewrite (i32_id (v - 2 ^ 32)) by lia. unfold i32, wrap_s. change (32 - 1) with 31.
    rewrite (Z.mod_eq (v + 2 ^ 31) (2 ^ 32)) by done.
    replace ((v + 2 ^ 31) / 2 ^ 32) with 1; [lia|]. apply Z.div_unique with (v + 2 ^ 31 - 2 ^ 32); lia. }
  by rewrite E.
Qed.

(** C28: a finite [double] other than zero that, rounded to millionths, has an
    integer part of at most 24 digits (23 if it is negative) is written, to a
    well-formed stream with 32 bytes left, with a nearest number of millionths,
    which can be read back with its sign; any other finite one fails the
    assertion of [Fmt], whatever the stream. *)
Theorem LogStream_float_spec (ls : LogStream) (s : bool) (m : positive) (e : Z) :
  double_wf (S754_finite s m e) →
  let q := millionths m e in
  let limit := if s then 10 ^ 23 else 10 ^ 24 in
  (if 0 <=? e then q = Zpos m * 2 ^ e * 10 ^ 6 else 2 * Z.abs (q * 2 ^ (- e) - Zpos m * 10 ^ 6) ≤ 2 ^ (- e)) ∧
  (q / 10 ^ 6 < limit → ls_wf ls → len (ls_text ls) + 32 ≤ kSmallBufferSize →
     ∃ ls' t, shl ls (I_double (S754_finite s m e)) = Ok ls' ∧ ls_text ls' = ls_text ls ++ t ∧ parse_f t = (s, q)) ∧
  (limit ≤ q / 10 ^ 6 → shl ls (I_double (S754_finite s m e)) = Err (AssertFailed "log_stream.cc:86")).
Proof.
  intros Hd q limit. destruct (millionths_nearest m e) as [Hq Hn]. fold q in Hq, Hn.
  pose proof (len_fmt_f s m e Hq) as Hlf. fold q in Hlf.
  assert (Hi : 0 ≤ q / 10 ^ 6) by (apply Z.div_pos; lia). split; [done|]. split.
  - intros Hb Hw Hl. pose proof (shl_Ok ls (I_double (S754_finite s m e)) Hw Hd) as H. unfold fits_fmt in H.
    cbn [formatted negb orb shown] in H.
    assert (Hw32 : len (fmt_f (S754_finite s m e)) < 32).
    { rewrite Hlf. destruct s; cbn [sign]; subst limit.
      - pose proof (len_dec (q / 10 ^ 6) 23 ltac:(lia) ltac:(lia)). change (len (b_ "-")) with 1. lia.
      - pose proof (len_dec (q / 10 ^ 6) 24 ltac:(lia) ltac:(lia)). rewrite len_nil. lia. }
    rewrite (proj2 (Z.ltb_lt _ _)) in H by done. unfold appends in H. rewrite (proj2 (Z.leb_le _ _)) in H by lia.
    destruct H as (ls' & E & _ & Et). exists ls', (fmt_f (S754_finite s m e)). by rewrite parse_fmt_f.
  - intros Hb. apply (shl_format_wide _ _ _ (fmt_f (S754_finite s m e))); [cbn [printf b_]; cbn; by rewrite app_nil_r|].
    split; [|by apply len_fmt_f_bound]. rewrite Hlf. destruct s; cbn [sign]; subst limit.
    + pose proof (len_dec_lower (q / 10 ^ 6) 23 Hb). change (len (b_ "-")) with 1. lia.
    + pose proof (len_dec_lower (q / 10 ^ 6) 24 Hb). rewrite len_nil. lia.
Qed.

(** What follows the writing of a record *)
Lemma handed_over {D} (func_ : D → Slice.Slice → res D) (d : D) text r :
  appends LogStream_new text r →
  if len text <=? kSmallBufferSize then
    ∃ s, (ls ← r; func_ d (ls_slice ls)) = func_ d s ∧ Slice.wf s ∧ Slice.contents s = text ∧
         Slice.size_ s ≤ kSmallBufferSize
  else (ls ← r; func_ d (ls_slice ls)) = Err (AssertFailed "buffer.h:44").
Proof.
  unfold appends. rewrite new_text, len_nil, Z.add_0_l. destruct (len text <=? N); [|by intros ->].
  intros (ls & -> & Hw & Etx). destruct (ls_slice_Ok ls Hw) as (H1 & H2 & H3).
  exists (ls_slice ls). by rewrite H2, Etx, bind_Ok.
Qed.

Lemma LOG_disabled {D} (func_ : D → Slice.Slice → res D) g level file line tv_sec tv_usec tid items d :
  enabled g level = false → LOG func_ g level file line tv_sec tv_usec tid items d = Ok d.
Proof. intros Eg. unfold LOG. fold (enabled g level). by rewrite Eg. Qed.

(** C12: a log statement whose level is enabled, and none of whose numbers
    takes 32 characters or more, hands its destination one slice with the time,
    the thread, the level, the items in order, the name of the source file
    without its directories and the line; the slice has at most 4096 bytes, and
    a longer record fails the assertion of the buffer (buffer.h) before the
    destination is called.  With a number that takes 32 characters or more, such
    as 1e25, the statement fails the assertion of [Fmt] (log_stream.cc) at the
    first of them, or that of the buffer if the record is over 4096 bytes before
    it.  A statement below the level does nothing.  The items, the thread and
    the line are values of their types with valid pointers, the clock is in the
    range of [Timestamp::now] and the file name is a C string. *)
Theorem Logger_record_spec {D} (func_ : D → Slice.Slice → res D) (g level : LogLevel) (f base : bytes)
    (line tv_sec tv_usec tid : Z) (items : list item) (d : D) (t : Timestamp) :
  Timestamp_now tv_sec tv_usec = Ok t → - 2 ^ 31 ≤ tid < 2 ^ 31 → - 2 ^ 31 ≤ line < 2 ^ 31 →
  Forall item_wf items → no_nul f → len f < 2 ^ 63 → is_basename f base →
  let r := LOG func_ g level (f ++ [Byte.x00]) line tv_sec tv_usec tid items d in
  let text := record_text t tid level items base line in
  let narrow := Forall (fun it => fits_fmt it = true) in
  if negb (enabled g level) then r = Ok d
  else
    (narrow items →
     if len text <=? kSmallBufferSize then
       ∃ s, r = func_ d s ∧ Slice.wf s ∧ Slice.contents s = text ∧ Slice.size_ s ≤ kSmallBufferSize
     else r = Err (AssertFailed "buffer.h:44")) ∧
    (∀ pre it post, items = pre ++ it :: post → narrow pre → fits_fmt it = false →
     r = Err (AssertFailed (if len (record_start t tid level pre) <=? kSmallBufferSize then "log_stream.cc:86"
                            else "buffer.h:44"))).
Proof.
  intros Et Ht Hln Hi Hf Hl Hb. cbv zeta. destruct (enabled g level) eqn:Eg; cbn [negb]; [|by apply LOG_disabled].
  rewrite (LOG_eq _ _ _ _ _ _ _ _ _ _ t Et Eg). split; [intros Hn|intros pre it post -> Hn Hit].
  - apply handed_over, record_appends; try done. by apply Forall_and.
  - apply Forall_app in Hi as [Hpre [Hwf _]%Forall_cons]. rewrite <-!app_assoc, app_assoc. cbn [app].
    rewrite shl_all_wide, head_text; [done|by apply (wf_new N)| |done|done].
    apply Forall_app. split; [by apply head_ok|by apply Forall_and].
Qed.

(** The destination [AsyncLogging::Append] is called with the record. *)
Lemma LOG_Append {F} `{!LogSink F} (a : AsyncLogging.AsyncLogging) (g level : LogLevel) (f base : bytes)
    (line tv_sec tv_usec tid : Z) (items : list item) (t : Timestamp) :
  AsyncLogging.inv a → Timestamp_now tv_sec tv_usec = Ok t → - 2 ^ 31 ≤ tid < 2 ^ 31 → - 2 ^ 31 ≤ line < 2 ^ 31 →
  Forall item_ok items → no_nul f → len f < 2 ^ 63 → is_basename f base → enabled g level = true →
  let text := record_text t tid level items base line in
  len text ≤ kSmallBufferSize →
  ∃ s a', LOG AsyncLogging.Append g level (f ++ [Byte.x00]) line tv_sec tv_usec tid items a = Ok a' ∧
    AsyncLogging.Append a s = Ok a' ∧ AsyncLogging.astep a text a'.
Proof.
  intros Hinv Et Ht Hln Hi Hf Hl Hb Eg text Hlen.
  pose proof (handed_over AsyncLogging.Append a _ _ (record_appends t tid level items f base line Ht Hln Hi Hf Hl Hb)) as H.
  fold text in H. rewrite (proj2 (Z.leb_le _ _)) in H by done. destruct H as (s & E & Hs & Hc & Hz).
  destruct (AsyncLogging.Append_inv a s Hinv Hs Hz) as (a' & Ea & _).
  exists s, a'. rewrite (LOG_eq _ _ _ _ _ _ _ _ _ _ t Et Eg), E. split; [done|]. split; [done|].
  rewrite <-Hc. by apply AsyncLogging.step_append.
Qed.

(** With the asynchronous logger as the destination, in every state its
    threads can reach a log statement of at most 4096 bytes returns and adds
    exactly its record to what was appended, so that the theorems about the
    logger apply to the records. *)
Theorem LOG_async {F} `{!LogSink F} (f0 : F) (a : AsyncLogging.AsyncLogging) (log : bytes) (g level : LogLevel)
    (f base : bytes) (line tv_sec tv_usec tid : Z) (items : list item) (t : Timestamp) :
  sink_ok f0 → AsyncLogging.reach f0 a log →
  Timestamp_now tv_sec tv_usec = Ok t → - 2 ^ 31 ≤ tid < 2 ^ 31 → - 2 ^ 31 ≤ line < 2 ^ 31 →
  Forall item_ok items → no_nul f → len f < 2 ^ 63 → is_basename f base → enabled g level = true →
  let text := record_text t tid level items base line in
  len text ≤ kSmallBufferSize →
  ∃ a', LOG AsyncLogging.Append g level (f ++ [Byte.x00]) line tv_sec tv_usec tid items a = Ok a' ∧
    AsyncLogging.reach f0 a' (log ++ text).
Proof.
  intros Hf0 Hr Et Ht Hln Hi Hf Hl Hb Eg text Hlen. destruct (AsyncLogging.reach_inv f0 a log Hf0 Hr) as [Hinv _].
  destruct (LOG_Append a g level f base line tv_sec tv_usec tid items t) as (s & a' & E & _ & Hs); [done..|].
  exists a'. split; [done|]. by apply (AsyncLogging.reach_step f0 a).
Qed.

(** *** Concrete records *)

Definition ex_items : list item := [I_cstr (b_ "n = " ++ [Byte.x00]); I_int (-7)].

Lemma ex_items_ok : Forall item_ok ex_items.
Proof.
  apply Forall_cons. split; [apply (lit_ok "n = "); done|]. apply Forall_cons. split; [|done]. by apply int_ok.
Qed.

Lemma ex_basename : is_basename (b_ "src/main.cc") (b_ "main.cc").
Proof. split; [apply (bool_decide_unpack _); by vm_compute|]. right. by exists (b_ "src"). Qed.

Lemma ex_no_nul : no_nul (b_ "src/main.cc").
Proof. by repeat constructor. Qed.

Definition ex_text : bytes :=
  b_ "20180417 21:20:00.123456Z 42 WARN  n = -7 - main.cc 17" ++ newline.

Lemma LogStream_shl_spec_witness :
  ∃ ls', shl LogStream_new (I_long 12345678901) = Ok ls' ∧ ls_wf ls' ∧ ls_text ls' = [] ++ b_ "12345678901".
Proof. apply (LogStream_shl_spec LogStream_new (I_long 12345678901)); [by apply (wf_new N)|done]. Defined.

Lemma LogStream_integers_witness :
  ∃ ls' t, shl LogStream_new (I_int (-42)) = Ok ls' ∧ ls_text ls' = [] ++ t ∧ parse_d t = -42.
Proof. apply (LogStream_integers LogStream_new (I_int (-42)) (-42)); [by apply (wf_new N)|done|done|by vm_compute]. Defined.

Lemma LogStream_unsigned_ambiguous_witness :
  shl LogStream_new (I_unsigned_long (5 + 3 * 2 ^ 32)) = shl LogStream_new (I_unsigned_long 5).
Proof. apply (LogStream_unsigned_ambiguous LogStream_new 5 3). Defined.

(** 0.3 in binary64 is written as 0.300000. *)
Lemma LogStream_float_spec_witness :
  ∃ ls' t, shl LogStream_new (I_double double_0_3) = Ok ls' ∧ ls_text ls' = [] ++ t ∧ parse_f t = (false, 300000).
Proof.
  apply (LogStream_float_spec LogStream_new false 5404319552844595 (-54));
    [done|by vm_compute|by apply (wf_new N)|by vm_compute].
Defined.

(** 1e25 in binary64 *)
Definition double_1e25 : double := S754_finite false 4656612873077393 31.

Lemma Logger_record_spec_witness :
  record_text (mkTimestamp 1524000000123456) 42 WARN ex_items (b_ "main.cc") 17 = ex_text ∧
  (∃ s, LOG DefaultDestination FATAL WARN (b_ "src/main.cc" ++ [Byte.x00]) 17 1524000000 123456 42 ex_items [] =
         DefaultDestination [] s ∧
    Slice.wf s ∧ Slice.contents s = ex_text ∧ Slice.size_ s ≤ kSmallBufferSize) ∧
  LOG DefaultDestination FATAL WARN (b_ "src/main.cc" ++ [Byte.x00]) 17 1524000000 123456 42
    (ex_items ++ [I_double double_1e25]) [] = Err (AssertFailed "log_stream.cc:86").
Proof.
  split; [by vm_compute|]. split.
  2: { refine (proj2 (Logger_record_spec DefaultDestination FATAL WARN (b_ "src/main.cc") (b_ "main.cc") 17 1524000000
         123456 42 (ex_items ++ [I_double double_1e25]) [] (mkTimestamp 1524000000123456) _ _ _ _ _ _ _)
         ex_items (I_double double_1e25) [] _ _ _);
       [by vm_compute|done|done|by repeat constructor|apply ex_no_nul|done|apply ex_basename|done|
        by repeat constructor|by vm_compute]. }
  apply (Logger_record_spec DefaultDestination FATAL WARN (b_ "src/main.cc") (b_ "main.cc") 17 1524000000 123456 42
           ex_items [] (mkTimestamp 1524000000123456));
    [by vm_compute|done|done|by repeat constructor|apply ex_no_nul|done|apply ex_basename|by repeat constructor].
Defined.

#[local] Existing Instance AsyncLogging.bytes_sink.

Lemma LOG_async_witness :
  ∃ a', LOG AsyncLogging.Append FATAL WARN (b_ "src/main.cc" ++ [Byte.x00]) 17 1524000000 123456 42 ex_items
          AsyncLogging.ex_async = Ok a' ∧
    AsyncLogging.reach (F := bytes) [] a' (b_ "hello" ++ ex_text).
Proof.
  apply (LOG_async (F := bytes) [] AsyncLogging.ex_async (b_ "hello") FATAL WARN (b_ "src/main.cc") (b_ "main.cc") 17
           1524000000 123456 42 ex_items (mkTimestamp 1524000000123456));
    [done|apply AsyncLogging.ex_async_reach|by vm_compute|done|done|apply ex_items_ok|apply ex_no_nul|done|
     apply ex_basename|done|by vm_compute].
Defined.
