(* ===== verification/LoggingTest.v ===== *)
(** * The programs of tests/logging_test.cc

    Three tests send log records through [AsyncLogging]: they start the worker,
    log, sleep so that the worker can finish, stop the worker and destroy the
    logger.  They differ in the statements they log: six statements of all
    levels, a loop of five million, and two threads with half of the loop each.
    A run of a test is a schedule: how many steps the worker makes before each
    statement, during the sleep and during the join.  The theorem says that with
    a sleep that is long enough the file has every record, in order; that the
    sleep is needed is [AsyncLogging_stop_can_lose] in AsyncLogging.v. *)

From S2P Require Import Prelude Printf Slice Buffer Timestamp Calendar AsyncLogging LogFile Logger.

(** ** The statements *)

(** [LOG_<level> << items] on a line *)
Record statement := mkStatement { st_level : LogLevel; st_line : Z; st_items : list item }.

(** When a statement runs: what gettimeofday and gettid answer, and the steps
    the worker makes before it *)
Record moment := mkMoment { tv_sec : Z; tv_usec : Z; m_tid : Z; m_steps : nat }.

(** TEST(AsyncLogging, Basic) *)
Definition basic : list statement :=
  [mkStatement TRACE 38 [lit "h"]; mkStatement DEBUG 39 [lit "e"]; mkStatement INFO 40 [lit "l"];
   mkStatement WARN 41 [lit "l"]; mkStatement ERROR 42 [lit "o"]; mkStatement FATAL 43 [lit "!"]].

(** The slice of the two other tests *)
Definition bench_text : bytes :=
  b_ "123456789 hello world ABCDEFGHIJKLMNOPQRSTUVWXYZ abcdefghijklmnopqrstuvwxyz ".
Definition bench_slice : Slice.Slice :=
  match Slice.Slice_cstr (bench_text ++ [Byte.x00]) with Ok s => s | Err _ => Slice.Slice_string [] end.

Definition bench_count : Z := 5000000.

(** [for (int i = 0; i < n; ++i) LOG_INFO << slice << i + 1] *)
Definition bench (line n : Z) : list statement :=
  (fun i => mkStatement INFO line [I_slice bench_slice; I_int (Z.of_nat i + 1)]) <$> seq 0 (Z.to_nat n).

(** The statements of two threads in the order in which they run *)
Inductive interleaving {A} : list A → list A → list A → Prop :=
  | interleave_nil : interleaving [] [] []
  | interleave_left x l k m : interleaving l k m → interleaving (x :: l) k (x :: m)
  | interleave_right x l k m : interleaving l k m → interleaving l (x :: k) (x :: m).

(** The statements of a test *)
Inductive logging_test : list statement → Prop :=
  | AsyncLogging_Basic : logging_test basic
  | AsyncLogging_Basic2 : logging_test (bench 65 bench_count)
  | AsyncLogging_MultiThread l :
      interleaving (bench 98 (Z.quot bench_count 2)) (bench 105 (Z.quot bench_count 2)) l → logging_test l.

(** ** A run *)

Section Program.
Context {F : Type} `{!LogSink F} (file : bytes).

(** [setLogLevel(LogLevel::TRACE)] and [Logger::destination(...)] *)
Definition test_globals : Globals AsyncLogging.AsyncLogging :=
  set_destination (AsyncLogging.Append (F := F)) (setLogLevel TRACE Globals_init).

Definition log_statement (s : statement) (m : moment) : AsyncLogging.AsyncLogging → res AsyncLogging.AsyncLogging :=
  LOG (destination test_globals) (getLogLevel test_globals) (st_level s) file (st_line s)
    (tv_sec m) (tv_usec m) (m_tid m) (st_items s).

Fixpoint log_all (l : list (statement * moment)) (a : AsyncLogging.AsyncLogging) : res AsyncLogging.AsyncLogging :=
  match l with
  | [] => mret a
  | (s, m) :: l' =>
      a1 ← AsyncLogging.worker_run (m_steps m) a;
      a2 ← log_statement s m a1;
      log_all l' a2
  end.

(** A test over the file [f0] that the logger opened; [start], [sleep] and
    [join] are the steps of the worker while its owner waits.  [None] when the
    owner is still waiting after them. *)
Definition async_test (f0 : F) (start : nat) (l : list (statement * moment)) (sleep join : nat) : res (option F) :=
  a ← AsyncLogging.StartWorker (AsyncLogging.AsyncLogging_new f0);
  a ← AsyncLogging.worker_run start a;
  match AsyncLogging.StartWorker_wait a with
  | None => mret None
  | Some a =>
      a ← log_all l a;
      a ← AsyncLogging.worker_run sleep a;
      a ← AsyncLogging.worker_run join (AsyncLogging.StopWorker a);
      r ← AsyncLogging.StopWorker_join a;
      match r with
      | None => mret None
      | Some a => f ← AsyncLogging.AsyncLogging_dtor a; mret (Some f)
      end
  end.
End Program.

(** TEST(LogFile, Basic): the files when [log_file] is gone *)
Definition test_LogFile `{Host} (garbage cnt : Z) : res (list AppendFile) :=
  log_file ← LogFile_new (b_ "logfile") garbage cnt;
  s ← Slice.Slice_cstr (b_ "hello" ++ newline ++ [Byte.x00]);
  log_file ← LogFile_Append log_file s;
  mret (LogFile_dtor log_file).

(** ** Records *)

Definition logging_test_cc : bytes := b_ "logging_test.cc".
(** [__FILE__] in a build that compiles the file as [dir/logging_test.cc] *)
Definition source_path (dir : bytes) : bytes := dir ++ slash :: logging_test_cc.

Definition moment_ok (m : moment) : Prop :=
  0 ≤ tv_sec m < 2 ^ 40 ∧ 0 ≤ tv_usec m < 10 ^ 6 ∧ - 2 ^ 31 ≤ m_tid m < 2 ^ 31.

Definition record_of (x : statement * moment) : bytes :=
  record_text (mkTimestamp (tv_sec x.2 * 10 ^ 6 + tv_usec x.2)) (m_tid x.2) (st_level x.1) (st_items x.1)
    logging_test_cc (st_line x.1).

Definition statement_ok (s : statement) : Prop :=
  - 2 ^ 31 ≤ st_line s < 2 ^ 31 ∧ Forall item_ok (st_items s) ∧ len (concat (shown <$> st_items s)) ≤ 4000.

Lemma moment_now m :
  moment_ok m → Timestamp_now (tv_sec m) (tv_usec m) = Ok (mkTimestamp (tv_sec m * 10 ^ 6 + tv_usec m)).
Proof.
  intros (Hs & Hu & _). unfold Timestamp_now, check_i64, in_i64, kMicroSecondsPerSecond.
  rewrite (proj2 (Z.leb_le _ (_ * _))), (proj2 (Z.ltb_lt (_ * _) _)) by lia. cbn [andb mbind res_bind].
  rewrite (proj2 (Z.leb_le _ _)), (proj2 (Z.ltb_lt _ _)) by lia. done.
Qed.

Lemma len_record x : statement_ok x.1 → moment_ok x.2 → len (record_of x) ≤ kSmallBufferSize.
Proof.
  intros (Hl & _ & Hi) (_ & _ & Ht). unfold record_of, record_text. rewrite !len_app.
  pose proof (len_formated (mkTimestamp (tv_sec x.2 * 10 ^ 6 + tv_usec x.2)) true).
  pose proof (len_fmt_d (m_tid x.2) 10 ltac:(cbn; lia) ltac:(lia)).
  pose proof (len_fmt_d (st_line x.1) 10 ltac:(cbn; lia) ltac:(lia)).
  assert (len (b_ (LogLevelName (st_level x.1))) = 6) by (by destruct (st_level x.1)).
  assert (E1 : len (b_ "Z ") = 2) by done. assert (E2 : len (b_ " ") = 1) by done.
  assert (E3 : len (b_ " - ") = 3) by done. assert (E4 : len logging_test_cc = 15) by done.
  assert (E5 : len newline = 1) by done. unfold kSmallBufferSize. lia.
Qed.

Lemma bench_slice_ok : item_ok (I_slice bench_slice) ∧ Slice.contents bench_slice = bench_text.
Proof. split; [split; [split|]|]; by vm_compute. Qed.

Lemma basic_ok : Forall statement_ok basic.
Proof.
  unfold basic. repeat (apply Forall_cons; split); [..|done];
    (split; [done|]; split; [apply Forall_singleton; by apply lit_ok|by vm_compute]).
Qed.

Lemma bench_ok line n : - 2 ^ 31 ≤ line < 2 ^ 31 → 0 ≤ n < 2 ^ 31 → Forall statement_ok (bench line n).
Proof.
  intros Hl Hn. unfold bench. apply Forall_fmap, Forall_forall. intros i Hi.
  apply elem_of_seq in Hi. assert (Hv : - 2 ^ 31 ≤ Z.of_nat i + 1 < 2 ^ 31) by lia.
  destruct bench_slice_ok as [Hs Hc]. split; [done|]. split.
  - apply Forall_cons. split; [done|]. apply Forall_singleton. by apply int_ok.
  - cbn [st_items fmap list_fmap concat shown]. rewrite Hc, !len_app.
    pose proof (len_fmt_d (Z.of_nat i + 1) 10 ltac:(cbn; lia) ltac:(lia)).
    assert (len bench_text = 76) by (by vm_compute). rewrite len_nil. lia.
Qed.

Lemma interleaving_Forall {A} (P : A → Prop) l k m : interleaving l k m → Forall P l → Forall P k → Forall P m.
Proof. induction 1; rewrite ?Forall_cons; naive_solver. Qed.

Lemma logging_test_ok l : logging_test l → Forall statement_ok l.
Proof.
  intros [| |l' Hl].
  - apply basic_ok.
  - by apply bench_ok.
  - eapply interleaving_Forall; [exact Hl|by apply bench_ok..].
Qed.

(** ** The logger during a test *)

Section Run.
Context {F : Type} `{!LogSink F, !TotalSink F} (f0 : F) (Hf0 : sink_ok f0) (dir : bytes).
Context (Hdir : no_nul dir) (Hlen : len dir < 2 ^ 62).

Lemma source_no_nul : no_nul (source_path dir).
Proof. apply Forall_app. split; [done|]. by repeat constructor. Qed.

Lemma source_basename : is_basename (source_path dir) logging_test_cc.
Proof. split; [apply (bool_decide_unpack _); by vm_compute|]. right. by exists dir. Qed.

Lemma source_len : len (source_path dir) < 2 ^ 63.
Proof. unfold source_path. rewrite len_app. assert (len (slash :: logging_test_cc) = 16) by done. lia. Qed.

(** The worker runs and nobody waits for it. *)
Record running (a : AsyncLogging.AsyncLogging (F := F)) (log : bytes) : Prop := {
  rn_reach : AsyncLogging.reach f0 a log;
  rn_loop : AsyncLogging.in_loop a;
  rn_done : AsyncLogging.done a = false;
  rn_owner : AsyncLogging.owner a = AsyncLogging.O_idle
}.

Lemma running_inv a log : running a log → AsyncLogging.inv a.
Proof. intros Hr. by destruct (AsyncLogging.reach_inv f0 a log Hf0 (rn_reach _ _ Hr)). Qed.

Lemma running_run n a log : running a log → ∃ a', AsyncLogging.worker_run n a = Ok a' ∧ running a' log.
Proof.
  intros Hr. destruct (AsyncLogging.worker_run_idle n a (running_inv a log Hr)) as (a' & E & _).
  exists a'. split; [done|]. destruct Hr as [Hre Hl Hd Ho].
  destruct (AsyncLogging.worker_run_frame n a a' E) as [Ho' Hd'].
  split; [by eapply AsyncLogging.reach_run|by eapply AsyncLogging.worker_run_in_loop|congruence..].
Qed.

Lemma log_statement_eq file s m (a : AsyncLogging.AsyncLogging (F := F)) :
  log_statement file s m a =
  LOG AsyncLogging.Append TRACE (st_level s) file (st_line s) (tv_sec m) (tv_usec m) (m_tid m) (st_items s) a.
Proof. done. Qed.

Lemma record_of_eq s m :
  record_of (s, m) = record_text (mkTimestamp (tv_sec m * 10 ^ 6 + tv_usec m)) (m_tid m) (st_level s) (st_items s)
    logging_test_cc (st_line s).
Proof. done. Qed.

Lemma running_append s a a' log text :
  running a log → AsyncLogging.Append a s = Ok a' → AsyncLogging.astep a text a' → running a' (log ++ text).
Proof.
  intros [Hre Hl Hd0 Ho0] Ea Hst. destruct (AsyncLogging.Append_frame _ _ _ Ea) as (Ho & Hd & _ & Ht & _).
  split; [by apply (AsyncLogging.reach_step f0 a)| |congruence..]. unfold AsyncLogging.in_loop. by rewrite Ht.
Qed.

Lemma running_log s m a log :
  running a log → statement_ok s → moment_ok m →
  ∃ a', log_statement (source_path dir ++ [Byte.x00]) s m a = Ok a' ∧ running a' (log ++ record_of (s, m)).
Proof.
  intros Hr Hs Hm. pose proof (len_record (s, m) Hs Hm) as Hlr. rewrite record_of_eq in *.
  set (t := mkTimestamp _) in *. pose proof Hs as (Hln & Hi & _).
  destruct (LOG_Append a TRACE (st_level s) (source_path dir) logging_test_cc (st_line s) (tv_sec m) (tv_usec m)
    (m_tid m) (st_items s) t (running_inv a log Hr) (moment_now m Hm)) as (sl & a' & E & Ea & Hst);
    [apply Hm|exact Hln|exact Hi|exact source_no_nul|exact source_len|exact source_basename|by destruct (st_level s)|exact Hlr|].
  exists a'. rewrite log_statement_eq. split; [exact E|]. by apply (running_append sl a).
Qed.

Lemma running_log_all l a log :
  running a log → Forall (fun x => statement_ok x.1 ∧ moment_ok x.2) l →
  ∃ a', log_all (source_path dir ++ [Byte.x00]) l a = Ok a' ∧ running a' (log ++ concat (record_of <$> l)).
Proof.
  intros Hr Hl. revert a log Hr. induction Hl as [|[s m] l [Hs Hm] _ IH]; intros a log Hr.
  { exists a. cbn. by rewrite app_nil_r. }
  cbn [log_all]. destruct (running_run (m_steps m) a log Hr) as (a1 & -> & Hr1). cbn [mbind res_bind].
  destruct (running_log s m a1 log Hr1 Hs Hm) as (a2 & -> & Hr2). cbn [mbind res_bind].
  destruct (IH a2 _ Hr2) as (a' & E & Hr'). exists a'. split; [done|]. by rewrite fmap_cons, concat_cons, app_assoc.
Qed.

(** [StartWorker] returns once the worker has made a step. *)
Lemma StartWorker_returns n :
  (0 < n)%nat → ∃ a1 a2 a3, AsyncLogging.StartWorker (AsyncLogging.AsyncLogging_new f0) = Ok a1 ∧
    AsyncLogging.worker_run n a1 = Ok a2 ∧ AsyncLogging.StartWorker_wait a2 = Some a3 ∧ running a3 [].
Proof.
  intros Hn. destruct (AsyncLogging.start_returns f0 n Hf0 Hn) as (a1 & a2 & a3 & E1 & E2 & E3 & Hr & Hl & Hd & Ho).
  by exists a1, a2, a3.
Qed.

(** The end of a test, when the worker has had time to write everything *)
Lemma stopped_after_sleep a log :
  running a log →
  ∃ n, ∀ sleep, (n ≤ sleep)%nat → ∃ a1, AsyncLogging.worker_run sleep a = Ok a1 ∧
    ∃ m, ∀ join, (m ≤ join)%nat → ∃ a2, AsyncLogging.worker_run join (AsyncLogging.StopWorker a1) = Ok a2 ∧
      AsyncLogging.StopWorker_join a2 = Ok (Some (AsyncLogging.joined a2)) ∧
      sink_written (AsyncLogging.log_file_ a2) = sink_written f0 ++ log.
Proof.
  intros Hr. pose proof (running_inv a log Hr) as Hi.
  destruct (AsyncLogging.worker_flush a Hi (rn_loop _ _ Hr) (rn_done _ _ Hr)) as (n & b & E & Hp).
  exists n. intros sleep Hs. destruct (running_run n a log Hr) as (b' & E' & Hrb).
  rewrite E in E'. injection E' as <-.
  destruct (AsyncLogging.worker_run_idle (sleep - n) b (running_inv b log Hrb)) as (a1 & E1 & Hi1 & Hp1).
  destruct (running_run (sleep - n) b log Hrb) as (a1' & E1' & [Hre Hl _ Ho]). rewrite E1 in E1'. injection E1' as <-.
  exists a1. split. { replace sleep with (n + (sleep - n))%nat by lia. by rewrite AsyncLogging.worker_run_add, E. }
  destruct (AsyncLogging.clean_stop a1 Hi1 Hl (Hp1 Hp)) as (m & Hm). exists m. intros join Hj.
  destruct (Hm join Hj) as (a2 & E2 & Ht2 & Hp2). exists a2. split; [done|]. split.
  { unfold AsyncLogging.StopWorker_join. by rewrite Ht2. }
  assert (Hre1 : AsyncLogging.reach f0 (AsyncLogging.StopWorker a1) log).
  { rewrite <-(app_nil_r log). by apply (AsyncLogging.reach_step f0 a1), AsyncLogging.step_stop. }
  destruct (AsyncLogging.reach_inv f0 a2 log Hf0 (AsyncLogging.reach_run f0 join _ a2 log Hre1 E2)) as [_ He].
  by rewrite He, Hp2, app_nil_r.
Qed.

Lemma async_test_Ok start l :
  (0 < start)%nat → Forall (fun x => statement_ok x.1 ∧ moment_ok x.2) l →
  ∃ n, ∀ sleep, (n ≤ sleep)%nat → ∃ m, ∀ join, (m ≤ join)%nat →
    ∃ f, async_test (source_path dir ++ [Byte.x00]) f0 start l sleep join = Ok (Some f) ∧
      sink_written f = sink_written f0 ++ concat (record_of <$> l).
Proof.
  intros Hst Hl. destruct (StartWorker_returns start Hst) as (a1 & a2 & a3 & E1 & E2 & E3 & Hr3).
  destruct (running_log_all l a3 [] Hr3 Hl) as (a4 & E4 & Hr4).
  destruct (stopped_after_sleep a4 _ Hr4) as (n & Hn). exists n. intros sleep Hs.
  destruct (Hn sleep Hs) as (a5 & E5 & m & Hm). exists m. intros join Hj.
  destruct (Hm join Hj) as (a6 & E6 & E7 & Hw). exists (AsyncLogging.log_file_ a6). split; [|exact Hw].
  unfold async_test. rewrite E1, bind_Ok, E2, bind_Ok, E3, E4, bind_Ok, E5, bind_Ok, E6, bind_Ok, E7. done.
Qed.
End Run.

(** ** Theorems *)

(** C27: each of the three tests of the asynchronous logger returns, over a file
    that takes every buffer, and the file then has the record of every statement,
    in the order in which the statements ran, and nothing else: whatever steps
    the worker made between the statements, provided the sleep is long enough
    and the worker gets the steps it needs to start and to return. *)
Theorem logging_tests_deliver {F} `{!LogSink F, !TotalSink F} (f0 : F) (dir : bytes) (start : nat)
    (l : list (statement * moment)) :
  sink_ok f0 → no_nul dir → len dir < 2 ^ 62 → (0 < start)%nat →
  logging_test (fst <$> l) → Forall (fun x => moment_ok x.2) l →
  ∃ n, ∀ sleep, (n ≤ sleep)%nat → ∃ m, ∀ join, (m ≤ join)%nat →
    ∃ f, async_test (source_path dir ++ [Byte.x00]) f0 start l sleep join = Ok (Some f) ∧
      sink_written f = sink_written f0 ++ concat (record_of <$> l).
Proof.
  intros Hf0 Hdir Hlen Hst Ht Hm. apply async_test_Ok; [done..|]. apply logging_test_ok in Ht.
  rewrite Forall_fmap in Ht. apply Forall_and. by split.
Qed.

(** The test of [LogFile] leaves its line on disk, unless a write took nothing:
    everything stored was also flushed, whatever the constructor found in its
    uninitialised field, as long as that is before the time. *)
Theorem test_LogFile_stored `{HostLaws} (garbage cnt : Z) :
  0 ≤ cnt < kCheckInterval - 1 → garbage < LogFile.time_ 0 →
  ∃ files k hi, test_LogFile garbage cnt = Ok files ∧ concat (stored <$> files) = take k (b_ "hello" ++ newline) ∧
    ((k < 6)%nat → took_nothing 0 hi) ∧ Forall passed_on files.
Proof.
  intros Hc Hg. assert (Hc' : 0 ≤ cnt < kCheckInterval) by lia. unfold test_LogFile. destruct (LogFile_new (b_ "logfile") garbage cnt) as [l0|e] eqn:E0.
  2:{ unfold LogFile_new in E0. by rewrite Z.gtb_ltb, (proj2 (Z.ltb_lt _ _)) in E0 by done. }
  destruct (LogFile_new_ok _ _ _ l0 host_range Hc' E0) as (Hl0 & _ & Hd0). rewrite bind_Ok.
  destruct (Slice_cstr_Ok (b_ "hello" ++ newline ++ [Byte.x00])) as (s & -> & Hs & Hsc);
    [apply (bool_decide_unpack _); by vm_compute|by vm_compute|]. rewrite bind_Ok.
  assert (Hz : Slice.size_ s = 6) by (rewrite <-(Slice.len_slice s Hs), Hsc; by vm_compute).
  assert (Hr : rolls l0 s = false).
  { unfold LogFile_new in E0. rewrite Z.gtb_ltb, (proj2 (Z.ltb_lt _ _)) in E0 by done. injection E0 as <-.
    unfold rolls, too_big, new_day. cbn. rewrite Hz, Z.geb_leb, (proj2 (Z.leb_gt _ _)) by lia. done. }
  pose proof (LogFile_Append_Ok l0 s host_fwrite host_range Hl0 Hs ltac:(by rewrite Hz)) as Happ. rewrite Hr in Happ.
  destruct Happ as (l1 & k & E1 & [Hro _] & _ & Hd1 & Hk & _). rewrite Hsc in Hd1, Hk.
  rewrite E1, bind_Ok. exists (LogFile_dtor l1), k, (n_fwrite l1). split; [done|].
  split; [|split; [intros Hlt; apply (took_nothing_mono (n_fwrite l0) (n_fwrite l1)); [by apply Hk|lia..]|apply dtor_passed_on, Hro]].
  rewrite Hd0 in Hd1. unfold on_disk, files in Hd1. unfold LogFile_dtor. rewrite concat_snoc in *. exact Hd1.
Qed.

(** *** Runs *)

#[local] Existing Instance AsyncLogging.bytes_sink.
#[local] Existing Instance AsyncLogging.bytes_total.

(** The test with six statements, the worker making two steps before each *)
Definition ex_run : list (statement * moment) := (fun s => (s, mkMoment 1524000000 123456 42 2)) <$> basic.

Definition ex_records : bytes := concat (record_of <$> ex_run).

Lemma logging_tests_deliver_witness :
  take 58 ex_records = b_ "20180417 21:20:00.123456Z 42 TRACE h - logging_test.cc 38" ++ newline ∧
  ∃ n, ∀ sleep, (n ≤ sleep)%nat → ∃ m, ∀ join, (m ≤ join)%nat →
    ∃ f, async_test (F := bytes) (source_path (b_ "src/tests") ++ [Byte.x00]) [] 1 ex_run sleep join = Ok (Some f) ∧
      sink_written f = sink_written [] ++ ex_records.
Proof.
  split; [by vm_compute|].
  apply (logging_tests_deliver (F := bytes) [] (b_ "src/tests") 1 ex_run);
    [done|by repeat constructor|by vm_compute|lia|exact AsyncLogging_Basic|].
  by repeat constructor.
Defined.

(** With twenty steps of the worker during the sleep everything is in the file ... *)
Example run_with_sleep :
  async_test (F := bytes) (source_path (b_ "src/tests") ++ [Byte.x00]) [] 1 ex_run 20 20 = Ok (Some ex_records).
Proof. by vm_compute. Qed.

(** ... and with none, and a worker that never ran in between, nothing is. *)
Example run_without_sleep :
  async_test (F := bytes) (source_path (b_ "src/tests") ++ [Byte.x00]) [] 1
    ((fun s => (s, mkMoment 1524000000 123456 42 0)) <$> basic) 0 20 = Ok (Some []).
Proof. by vm_compute. Qed.
