(* ===== verification/Wakeup.v ===== *)
(** * The event loop among other threads (net/eventloop.h, net/eventloop.cc)

    EventLoop.v runs the operations of the loop one at a time.  This file has
    the same operations cut at the points where another thread can come in
    between: the critical section of [RunInLoop], the write that wakes the loop
    up, the two statements of [quit], the test of [while (!quit_)], the blocking
    call of poll, the callbacks of the active channels, the swap in
    [doPendingFunctors] and each functor.  [step] interleaves the loop thread
    with any number of other threads.

    The theorems: a loop that is about to block with work in its queue, or with
    a request to quit, has been or is being signalled; functors run exactly
    once, in the order they were queued; left alone, the loop gets through all
    queued work, and returns when it was told to quit. *)

From stdpp Require Import relations.
From S2P Require Import Prelude.

(** ** State *)

(** What a [std::function<void()>] given to the loop does, as far as the loop
    can tell: it calls [quit()] of the loop or it does not. *)
Inductive Functor := Work (n : nat) | CallQuit.

#[export] Instance Functor_eq_dec : EqDecision Functor.
Proof. solve_decision. Defined.

(** An active channel: the one of the event descriptor, or another one with
    its callback *)
Inductive active := A_wakeup | A_other (f : Functor).

#[export] Instance active_eq_dec : EqDecision active.
Proof. solve_decision. Defined.

(** Where the loop thread is in [loop()] *)
Inductive pc :=
  | P_entry                          (* before the assertions *)
  | P_while                          (* while (!quit_) *)
  | P_poll                           (* in Poll(-1, ...) *)
  | P_handle (l : list active)       (* for (auto const it: active_channels_) *)
  | P_pending                        (* doPendingFunctors, before the swap *)
  | P_works (works : list Functor)   (* for (auto &w: works) *)
  | P_returned.

Record Loop := mkLoop {
  looping_ : bool;
  quit_ : bool;
  functors_ : list Functor;
  counter : Z;          (* of the event descriptor wakeup_fd_ *)
  at_ : pc;
  waking : nat;         (* other threads between a change and their wakeup() *)
  queued : list Functor; (* all functors queued so far *)
  ran : list Functor     (* all functors run so far by doPendingFunctors *)
}.

#[export] Instance eta_Loop : Eta Loop := fun s =>
  mkLoop (looping_ s) (quit_ s) (functors_ s) (counter s) (at_ s) (waking s) (queued s) (ran s).

(** The state the constructor leaves *)
Definition Loop_new : Loop := mkLoop false false [] 0 P_entry 0 [] [].

(** ** Operations *)

(** [::write(wakeup_fd_, &one, 8)] on a non-blocking event descriptor: the
    counter stays where it is when it would pass its maximum. *)
Definition eventfd_write (c : Z) : Z := if c + 1 <=? 2 ^ 64 - 2 then c + 1 else c.

(** [::read(wakeup_fd_, &one, 8)] *)
Definition eventfd_read (c : Z) : Z := 0.

Definition wakeup_now (s : Loop) : Loop := s <| counter := eventfd_write (counter s) |>.

(** Running a functor in the loop thread, where [quit()] is not interrupted *)
Definition call (f : Functor) (s : Loop) : Loop :=
  match f with
  | Work _ => s
  | CallQuit => wakeup_now (s <| quit_ := true |>)
  end.

(** One step of the loop thread when no descriptor but the event descriptor is
    ready; [None] when it is blocked in poll or has returned. *)
Definition loop_step (s : Loop) : res (option Loop) :=
  match at_ s with
  | P_entry =>
      assert_ (negb (looping_ s)) "eventloop.cc:57" ;;
      mret (Some (s <| looping_ := true |> <| quit_ := false |> <| at_ := P_while |>))
  | P_while =>
      mret (Some (if quit_ s then s <| looping_ := false |> <| at_ := P_returned |>
                  else s <| at_ := P_poll |>))
  | P_poll => mret (if counter s >? 0 then Some (s <| at_ := P_handle [A_wakeup] |>) else None)
  | P_handle (A_wakeup :: l) => mret (Some (s <| counter := eventfd_read (counter s) |> <| at_ := P_handle l |>))
  | P_handle (A_other f :: l) => mret (Some ((call f s) <| at_ := P_handle l |>))
  | P_handle [] => mret (Some (s <| at_ := P_pending |>))
  | P_pending => mret (Some (s <| functors_ := @nil Functor |> <| at_ := P_works (functors_ s) |>))
  | P_works (f :: ws) => mret (Some ((call f s) <| ran := ran s ++ [f] |> <| at_ := P_works ws |>))
  | P_works [] => mret (Some (s <| at_ := P_while |>))
  | P_returned => mret None
  end.

(** [RunInLoop(f)] in another thread up to the end of the critical section *)
Definition RunInLoop_push (f : Functor) (s : Loop) : Loop :=
  s <| functors_ := functors_ s ++ [f] |> <| queued := queued s ++ [f] |> <| waking := S (waking s) |>.

(** [quit()] in another thread, first statement *)
Definition quit_set (s : Loop) : Loop := s <| quit_ := true |> <| waking := S (waking s) |>.

(** What both end with *)
Definition wakeup_call (s : Loop) : Loop := (wakeup_now s) <| waking := pred (waking s) |>.

(** ** Interleavings *)

(** Other threads, and other descriptors that become ready *)
Inductive env_step : Loop → Loop → Prop :=
  | env_poll s l :
      at_ s = P_poll → l ≠ [] → (A_wakeup ∈ l ↔ 0 < counter s) → env_step s (s <| at_ := P_handle l |>)
  | env_push s f : env_step s (RunInLoop_push f s)
  | env_quit s : env_step s (quit_set s)
  | env_wakeup s : (0 < waking s)%nat → env_step s (wakeup_call s).

Inductive step : Loop → Loop → Prop :=
  | step_loop s s' : loop_step s = Ok (Some s') → step s s'
  | step_env s s' : env_step s s' → step s s'.

(** The loop thread alone, [n] steps *)
Fixpoint run (n : nat) (s : Loop) : option Loop :=
  match n with
  | O => Some s
  | S n' => match loop_step s with Ok (Some s') => run n' s' | _ => None end
  end.

(** ** The invariant *)

Definition signalled (s : Loop) : Prop := 0 < counter s ∨ (0 < waking s)%nat.

Definition works_of (p : pc) : list Functor := match p with P_works ws => ws | _ => [] end.

Record inv (s : Loop) : Prop := {
  inv_counter : 0 ≤ counter s;
  inv_entry : at_ s = P_entry → looping_ s = false;
  inv_work : match at_ s with
             | P_entry | P_while | P_poll | P_works _ => functors_ s ≠ [] → signalled s
             | _ => True
             end;
  inv_quit : at_ s = P_poll → quit_ s = true → signalled s;
  inv_fifo : queued s = ran s ++ works_of (at_ s) ++ functors_ s
}.

Lemma eventfd_write_pos c : 0 ≤ c → 0 < eventfd_write c.
Proof. unfold eventfd_write. intros. case_match; bool_lia. Qed.

Lemma Loop_new_inv : inv Loop_new.
Proof. split; cbn; done || intros; done. Qed.

Lemma call_frame f s :
  looping_ (call f s) = looping_ s ∧ functors_ (call f s) = functors_ s ∧ at_ (call f s) = at_ s ∧
  waking (call f s) = waking s ∧ queued (call f s) = queued s ∧ ran (call f s) = ran s ∧
  (0 ≤ counter s → 0 ≤ counter (call f s) ∧ (signalled s → signalled (call f s))).
Proof.
  destruct f; cbn; split_and!; try done. intros Hc. pose proof (eventfd_write_pos (counter s) Hc).
  split; [lia|]. intros _. left. done.
Qed.

Lemma Loop_step_inv s s' : inv s → loop_step s = Ok (Some s') → inv s'.
Proof.
  intros [Hc He Hw Hq Hf] E. unfold loop_step in E.
  destruct (at_ s) as [| | |[|[|f] l]| |[|f ws]|] eqn:Hat; cbn in Hw, Hf, E.
  - rewrite He in E by done. injection E as <-. by split.
  - injection E as <-. destruct (quit_ s) eqn:Hqs; split; cbn; done.
  - destruct (counter s >? 0); [|done]. injection E as <-. by split.
  - injection E as <-. by split.
  - injection E as <-. by split.
  - injection E as <-. destruct (call_frame f s) as (E1 & E2 & E3 & E4 & E5 & E6 & Hx).
    split; cbn; try done; [by apply Hx|congruence].
  - injection E as <-. split; cbn; try done. by rewrite app_nil_r.
  - injection E as <-. by split.
  - injection E as <-. destruct (call_frame f s) as (E1 & E2 & E3 & E4 & E5 & E6 & Hx).
    split; cbn; try done; [by apply Hx| |by rewrite E2, E5, Hf, <-app_assoc].
    rewrite E2. intros Hne. destruct (Hx Hc) as [_ Hs]. apply (Hs (Hw Hne)).
  - done.
Qed.

Lemma wakeup_call_inv s : inv s → inv (wakeup_call s).
Proof.
  intros [Hc He Hw Hq Hf]. pose proof (eventfd_write_pos (counter s) Hc).
  split; cbn; try done; [lia| |intros; by left]. destruct (at_ s); try done; by left.
Qed.

Lemma quit_set_inv s : inv s → inv (quit_set s).
Proof.
  intros [Hc He Hw Hq Hf]. split; cbn; try done; [|intros; right; cbn; lia].
  destruct (at_ s); try done; right; cbn; lia.
Qed.

Lemma env_step_inv s s' : inv s → env_step s s' → inv s'.
Proof.
  intros Hi Hs. destruct Hs as [s l Hat Hl Hk|s f|s|s Hp]; [..|by apply quit_set_inv|by apply wakeup_call_inv].
  all: destruct Hi as [Hc He Hw Hq Hf].
  - rewrite Hat in *. by split.
  - split; cbn; try done; [|intros; right; cbn; lia|by rewrite Hf, <-!app_assoc].
    destruct (at_ s); try done; right; cbn; lia.
Qed.

Lemma Loop_any_step_inv s s' : inv s → step s s' → inv s'.
Proof. intros Hi Hs. destruct Hs as [s s' E|s s' E]; [by apply (Loop_step_inv s)|by apply (env_step_inv s)]. Qed.

Lemma Loop_reach_inv s : rtc step Loop_new s → inv s.
Proof. apply (rtc_ind_r inv); [apply Loop_new_inv|]. intros x y _ Hxy Hi. by apply (Loop_any_step_inv x). Qed.

(** ** The loop thread alone *)

Lemma run_add n m s s1 s2 : run n s = Some s1 → run m s1 = Some s2 → run (n + m) s = Some s2.
Proof.
  revert s. induction n as [|n IH]; intros s E1 E2; cbn in *; [by injection E1 as <-|].
  destruct (loop_step s) as [[s'|]|]; [by apply IH|done|done].
Qed.

Lemma run_1 s s' : loop_step s = Ok (Some s') → run 1 s = Some s'.
Proof. intros E. cbn. by rewrite E. Qed.

(** What callbacks do not touch; a request to quit is not taken back. *)
Record kept (s s' : Loop) : Prop := {
  ke_functors : functors_ s' = functors_ s;
  ke_queued : queued s' = queued s;
  ke_waking : waking s' = waking s;
  ke_quit : quit_ s = true → quit_ s' = true
}.

Lemma call_quit f s : quit_ s = true → quit_ (call f s) = true.
Proof. by destruct f. Qed.

Lemma run_works ws s :
  at_ s = P_works ws →
  ∃ s', run (length ws) s = Some s' ∧ at_ s' = P_works [] ∧ kept s s' ∧ ran s' = ran s ++ ws ∧
    (CallQuit ∉ ws → quit_ s' = quit_ s ∧ counter s' = counter s).
Proof.
  revert s. induction ws as [|f ws IH]; intros s Hat.
  { exists s. rewrite app_nil_r. by repeat split. }
  set (s1 := (call f s) <| ran := ran s ++ [f] |> <| at_ := P_works ws |>).
  assert (E : loop_step s = Ok (Some s1)) by (unfold loop_step; by rewrite Hat).
  destruct (IH s1 eq_refl) as (s' & Er & Ha & [K1 K2 K3 K4] & Hr & Hn).
  destruct (call_frame f s) as (E1 & E2 & E3 & E4 & E5 & E6 & _).
  exists s'. split; [exact (run_add 1 (length ws) s s1 s' (run_1 s s1 E) Er)|]. split; [done|].
  split; [|split].
  - split; [rewrite K1; exact E2|rewrite K2; exact E5|rewrite K3; exact E4|].
    intros Hq. apply K4. by apply call_quit.
  - rewrite Hr. cbn. by rewrite <-app_assoc.
  - intros [Hf Hws]%not_elem_of_cons. destruct (Hn Hws) as [-> ->]. by destruct f.
Qed.

Lemma run_handle l s :
  at_ s = P_handle l →
  ∃ s', run (length l) s = Some s' ∧ at_ s' = P_handle [] ∧ kept s s' ∧ ran s' = ran s.
Proof.
  revert s. induction l as [|a l IH]; intros s Hat.
  { exists s. by repeat split. }
  set (s1 := (match a with A_wakeup => s <| counter := eventfd_read (counter s) |> | A_other f => call f s end)
               <| at_ := P_handle l |>).
  assert (E : loop_step s = Ok (Some s1)) by (unfold loop_step; rewrite Hat; by destruct a).
  destruct (IH s1 eq_refl) as (s' & Er & Ha & [K1 K2 K3 K4] & Hr).
  exists s'. split; [exact (run_add 1 (length l) s s1 s' (run_1 s s1 E) Er)|]. split; [done|].
  assert (Hk : kept s s1 ∧ ran s1 = ran s).
  { destruct a as [|f]; [by repeat split|]. destruct (call_frame f s) as (E1 & E2 & E3 & E4 & E5 & E6 & _).
    split; [split; try done; apply call_quit|done]. }
  destruct Hk as [[J1 J2 J3 J4] Jr]. split; [|congruence]. split; [congruence..|auto].
Qed.

(** From the callbacks of the channels to the end of the functors *)
Lemma run_batch l s :
  at_ s = P_handle l →
  ∃ s', run (length l + (2 + length (functors_ s))) s = Some s' ∧ at_ s' = P_works [] ∧
    functors_ s' = [] ∧ queued s' = queued s ∧ waking s' = waking s ∧
    ran s' = ran s ++ functors_ s ∧ (quit_ s = true → quit_ s' = true).
Proof.
  intros Hat. destruct (run_handle l s Hat) as (s1 & E1 & Ha1 & [K1 K2 K3 K4] & Hr1).
  set (s2 := s1 <| at_ := P_works (functors_ s1) |> <| functors_ := @nil Functor |>).
  assert (E2 : run 2 s1 = Some s2) by (cbn; unfold loop_step; by rewrite Ha1).
  destruct (run_works (functors_ s1) s2 eq_refl) as (s3 & E3 & Ha3 & [J1 J2 J3 J4] & Hr3 & _).
  exists s3. split.
  { apply (run_add _ _ s s1 s3 E1). apply (run_add 2 _ s1 s2 s3 E2). by rewrite <-K1. }
  split_and!; try done; [by rewrite J2|by rewrite J3|rewrite Hr3; cbn; congruence|auto].
Qed.

(** From the top of the loop, with a signal *)
Lemma run_poll s :
  at_ s = P_poll → 0 < counter s →
  ∃ s', run (4 + length (functors_ s)) s = Some s' ∧ at_ s' = P_works [] ∧
    functors_ s' = [] ∧ queued s' = queued s ∧ waking s' = waking s ∧
    ran s' = ran s ++ functors_ s ∧ (quit_ s = true → quit_ s' = true).
Proof.
  intros Hat Hc. set (s1 := s <| at_ := P_handle [A_wakeup] |>).
  assert (E1 : loop_step s = Ok (Some s1)).
  { unfold loop_step. rewrite Hat, Z.gtb_ltb, (proj2 (Z.ltb_lt _ _)) by done. done. }
  destruct (run_batch [A_wakeup] s1 eq_refl) as (s2 & E2 & H2).
  exists s2. split; [exact (run_add 1 _ s s1 s2 (run_1 s s1 E1) E2)|exact H2].
Qed.

(** The loop has been entered and has not returned. *)
Definition inside (s : Loop) : Prop := at_ s ≠ P_entry ∧ at_ s ≠ P_returned.

(** What is left to do in this iteration and in the queue *)
Definition remaining (s : Loop) : nat :=
  match at_ s with
  | P_handle l => length l
  | p => length (works_of p)
  end + length (functors_ s).

Lemma signalled_counter s : waking s = 0%nat → signalled s → 0 < counter s.
Proof. intros Hw [?|?]; [done|lia]. Qed.

(** Everything queued has run once the queue is empty and no batch is open. *)
Definition all_run (s s' : Loop) : Prop := ran s' = queued s ∧ functors_ s' = [].

Lemma poll_drains s :
  inv s → waking s = 0%nat → at_ s = P_poll →
  ∃ n s', (n ≤ 4 + length (functors_ s))%nat ∧ run n s = Some s' ∧ all_run s s'.
Proof.
  intros Hi Hw Hat. pose proof (inv_fifo s Hi) as Hf. pose proof (inv_work s Hi) as Hs.
  rewrite Hat in Hf, Hs. cbn in Hf. destruct (functors_ s) as [|f fs] eqn:Hq.
  { exists 0%nat, s. split; [lia|]. split; [done|]. split; [by rewrite Hf, app_nil_r|done]. }
  destruct (run_poll s Hat) as (s' & E & _ & H1 & _ & _ & H2 & _).
  { apply signalled_counter; [done|]. by apply Hs. }
  rewrite Hq in *. exists (4 + length (f :: fs))%nat, s'. split; [done|]. split; [exact E|]. split; [by rewrite H2, Hf|done].
Qed.

Lemma while_drains s :
  inv s → waking s = 0%nat → at_ s = P_while → quit_ s = false →
  ∃ n s', (n ≤ 5 + length (functors_ s))%nat ∧ run n s = Some s' ∧ all_run s s'.
Proof.
  intros Hi Hw Hat Hq. set (s1 := s <| at_ := P_poll |>).
  assert (E1 : loop_step s = Ok (Some s1)) by (subst s1; unfold loop_step; by rewrite Hat, Hq).
  destruct (poll_drains s1 (Loop_step_inv s s1 Hi E1) Hw eq_refl) as (n & s' & Hn & E & H).
  exists (1 + n)%nat, s'. split; [cbn in *; lia|]. split; [|exact H]. exact (run_add 1 n s s1 s' (run_1 s s1 E1) E).
Qed.

Lemma works_drain ws s :
  inv s → waking s = 0%nat → at_ s = P_works ws → quit_ s = false → CallQuit ∉ ws →
  ∃ n s', (n ≤ length ws + 6 + length (functors_ s))%nat ∧ run n s = Some s' ∧ all_run s s'.
Proof.
  intros Hi Hw Hat Hq Hws. destruct (run_works ws s Hat) as (s1 & E1 & Ha & [K1 K2 K3 _] & Hr & Hn).
  destruct (Hn Hws) as [Hq1 Hc1]. set (s2 := s1 <| at_ := P_while |>).
  assert (E2 : loop_step s1 = Ok (Some s2)) by (unfold loop_step; by rewrite Ha).
  assert (Hi2 : inv s2).
  { pose proof (inv_work s Hi) as Hs. pose proof (inv_fifo s Hi) as Hf. rewrite Hat in Hs, Hf. cbn in Hf.
    split; cbn; try done; [rewrite Hc1; apply Hi| |rewrite K2, Hr, K1, Hf; by rewrite <-app_assoc].
    rewrite K1. intros Hne. destruct (Hs Hne) as [H|H]; [left; cbn; by rewrite Hc1|right; cbn; by rewrite K3]. }
  destruct (while_drains s2 Hi2) as (n & s' & Hle & E & H3 & H4); [cbn; congruence|done|cbn; congruence|].
  exists (length ws + (1 + n))%nat, s'. split; [cbn in Hle; rewrite K1 in Hle; lia|]. split.
  - apply (run_add _ _ s s1 s' E1). exact (run_add 1 n s1 s2 s' (run_1 s1 s2 E2) E).
  - split; [|done]. rewrite H3. exact K2.
Qed.

(** All queued functors, from any point of the loop *)
Lemma drains s :
  inv s → waking s = 0%nat → inside s → quit_ s = false → CallQuit ∉ works_of (at_ s) →
  ∃ n s', (n ≤ remaining s + 6)%nat ∧ run n s = Some s' ∧ all_run s s'.
Proof.
  intros Hi Hw [Hne Hnr] Hq Hws. pose proof (inv_fifo s Hi) as Hf. unfold remaining.
  destruct (at_ s) as [| | |l| |ws|] eqn:Hat; try done; cbn [works_of length] in *.
  - destruct (while_drains s Hi Hw Hat Hq) as (n & s' & Hn & H). exists n, s'. split; [lia|done].
  - destruct (poll_drains s Hi Hw Hat) as (n & s' & Hn & H). exists n, s'. split; [lia|done].
  - destruct (run_batch l s Hat) as (s' & E & _ & H1 & _ & _ & H2 & _).
    exists (length l + (2 + length (functors_ s)))%nat, s'. split; [lia|]. split; [exact E|].
    split; [by rewrite H2, Hf|done].
  - set (s1 := s <| functors_ := @nil Functor |> <| at_ := P_works (functors_ s) |>).
    assert (E1 : loop_step s = Ok (Some s1)) by (unfold loop_step; by rewrite Hat).
    destruct (run_works (functors_ s) s1 eq_refl) as (s' & E & _ & [K1 _ _ _] & Hr & _).
    exists (1 + length (functors_ s))%nat, s'. split; [lia|]. split; [|split; [by rewrite Hr, Hf|exact K1]].
    exact (run_add 1 _ s s1 s' (run_1 s s1 E1) E).
  - destruct (works_drain ws s Hi Hw Hat Hq Hws) as (n & s' & Hn & H). exists n, s'. split; [lia|done].
Qed.

(** ** Quitting *)

Definition returned (s : Loop) : Prop := at_ s = P_returned ∧ looping_ s = false.

Lemma while_returns s : at_ s = P_while → quit_ s = true → ∃ s', run 1 s = Some s' ∧ returned s'.
Proof. intros Hat Hq. eexists. cbn. unfold loop_step. rewrite Hat, Hq. by repeat split. Qed.

Lemma end_returns s : at_ s = P_works [] → quit_ s = true → ∃ s', run 2 s = Some s' ∧ returned s'.
Proof. intros Hat Hq. eexists. cbn. unfold loop_step. rewrite Hat. cbn. rewrite Hq. by repeat split. Qed.

Lemma run_returns n s s1 k :
  run n s = Some s1 → at_ s1 = P_works [] → quit_ s1 = true → (n + 2 ≤ k)%nat →
  ∃ m s', (m ≤ k)%nat ∧ run m s = Some s' ∧ returned s'.
Proof.
  intros E Ha Hq Hk. destruct (end_returns s1 Ha Hq) as (s' & E' & H).
  exists (n + 2)%nat, s'. split; [done|]. split; [by apply (run_add n 2 s s1)|done].
Qed.

Lemma quits s :
  inv s → waking s = 0%nat → inside s → quit_ s = true →
  ∃ n s', (n ≤ remaining s + 6)%nat ∧ run n s = Some s' ∧ returned s'.
Proof.
  intros Hi Hw [Hne Hnr] Hq. unfold remaining.
  destruct (at_ s) as [| | |l| |ws|] eqn:Hat; try done; cbn [works_of length].
  - destruct (while_returns s Hat Hq) as (s' & E & H). exists 1%nat, s'. split; [lia|done].
  - destruct (run_poll s Hat) as (s1 & E & Ha & _ & _ & _ & _ & Hq1).
    { apply signalled_counter; [done|]. by apply (inv_quit s Hi). }
    eapply run_returns; [exact E|done|auto|lia].
  - destruct (run_batch l s Hat) as (s1 & E & Ha & _ & _ & _ & _ & Hq1).
    eapply run_returns; [exact E|done|auto|lia].
  - set (s1 := s <| functors_ := @nil Functor |> <| at_ := P_works (functors_ s) |>).
    assert (E1 : loop_step s = Ok (Some s1)) by (unfold loop_step; by rewrite Hat).
    destruct (run_works (functors_ s) s1 eq_refl) as (s2 & E & Ha & K & _).
    eapply (run_returns (1 + length (functors_ s))); [|exact Ha|apply (ke_quit _ _ K), Hq|lia].
    exact (run_add 1 _ s s1 s2 (run_1 s s1 E1) E).
  - destruct (run_works ws s Hat) as (s1 & E & Ha & K & _).
    eapply run_returns; [exact E|done|apply (ke_quit _ _ K), Hq|lia].
Qed.

(** ** Theorems *)

(** C9: no wake-up is lost: in every interleaving of the loop with other threads
    that call [RunInLoop] and [quit], whenever the loop thread is at the
    blocking call of poll and there is a functor in the queue or [quit_] is set,
    the event descriptor is readable or a thread is about to write to it. *)
Theorem no_lost_wakeup (s : Loop) :
  rtc step Loop_new s → at_ s = P_poll → functors_ s ≠ [] ∨ quit_ s = true →
  0 < counter s ∨ (0 < waking s)%nat.
Proof.
  intros Hr Hat Hp. pose proof (Loop_reach_inv s Hr) as Hi. pose proof (inv_work s Hi) as Hw.
  rewrite Hat in Hw. destruct Hp as [Hp|Hp]; [by apply Hw|by apply (inv_quit s Hi)].
Qed.

(** C30: functors given to [RunInLoop] by other threads run in the order in which
    they were queued, each of them once: those that ran, followed by the rest
    of the batch being run and the queue, are all that were queued.  The loop
    thread fails no assertion on the way. *)
Theorem RunInLoop_exactly_once (s : Loop) :
  rtc step Loop_new s →
  queued s = ran s ++ works_of (at_ s) ++ functors_ s ∧ ∃ r, loop_step s = Ok r.
Proof.
  intros Hr. pose proof (Loop_reach_inv s Hr) as Hi. split; [apply Hi|].
  unfold loop_step. destruct (at_ s) as [| | |[|[|f] l]| |[|f ws]|] eqn:Hat; try (by eexists).
  rewrite (inv_entry s Hi Hat). by eexists.
Qed.

(** C15: queued work is done: from every reachable point inside the loop at which
    no other thread is between queueing and waking, and with no quit requested
    or in the batch being run, the loop thread alone runs every functor queued
    so far, within a number of steps bounded by the work at hand. *)
Theorem RunInLoop_drains (s : Loop) :
  rtc step Loop_new s → inside s → waking s = 0%nat → quit_ s = false → CallQuit ∉ works_of (at_ s) →
  ∃ n s', (n ≤ remaining s + 6)%nat ∧ run n s = Some s' ∧ ran s' = queued s ∧ functors_ s' = [].
Proof. intros Hr Hin Hw Hq Hc. by apply drains; [apply Loop_reach_inv|..]. Qed.

(** A request to quit that arrives inside the loop is honoured: from every
    such reachable state, once the requesting thread has written to the event
    descriptor, the loop thread alone returns from [loop()] within a bounded
    number of steps, with [looping_] cleared. *)
Theorem quit_returns (s : Loop) :
  rtc step Loop_new s → inside s → waking s = 0%nat → quit_ s = true →
  ∃ n s', (n ≤ remaining s + 6)%nat ∧ run n s = Some s' ∧ at_ s' = P_returned ∧ looping_ s' = false.
Proof. intros Hr Hin Hw Hq. by apply quits; [apply Loop_reach_inv|..]. Qed.

(** *** A concrete interleaving

    The loop blocks in poll; another thread queues a functor and wakes it up. *)
Definition ex_blocked : Loop := mkLoop true false [] 0 P_poll 0 [] [].
Definition ex_queued : Loop := wakeup_call (RunInLoop_push (Work 7) ex_blocked).
Definition ex_quit : Loop := wakeup_call (quit_set ex_blocked).

Lemma ex_blocked_reach : rtc step Loop_new ex_blocked.
Proof.
  eapply rtc_l; [by apply step_loop|]. eapply rtc_l; [by apply step_loop|]. apply rtc_refl.
Qed.

Lemma ex_queued_reach : rtc step Loop_new ex_queued.
Proof.
  eapply rtc_trans; [apply ex_blocked_reach|]. eapply rtc_l; [apply step_env, (env_push _ (Work 7))|].
  apply rtc_once, step_env, env_wakeup. cbn. lia.
Qed.

Lemma ex_quit_reach : rtc step Loop_new ex_quit.
Proof.
  eapply rtc_trans; [apply ex_blocked_reach|]. eapply rtc_l; [apply step_env, env_quit|].
  apply rtc_once, step_env, env_wakeup. cbn. lia.
Qed.

Lemma no_lost_wakeup_witness : 0 < counter ex_queued ∨ (0 < waking ex_queued)%nat.
Proof. apply (no_lost_wakeup ex_queued); [apply ex_queued_reach|done|by left]. Defined.

Lemma RunInLoop_exactly_once_witness :
  queued ex_queued = ran ex_queued ++ works_of (at_ ex_queued) ++ functors_ ex_queued ∧
  ∃ r, loop_step ex_queued = Ok r.
Proof. apply (RunInLoop_exactly_once ex_queued). apply ex_queued_reach. Defined.

Lemma RunInLoop_drains_witness :
  ∃ n s', (n ≤ 7)%nat ∧ run n ex_queued = Some s' ∧ ran s' = [Work 7] ∧ functors_ s' = [].
Proof.
  apply (RunInLoop_drains ex_queued); [apply ex_queued_reach|by split|done|done|by apply not_elem_of_nil].
Defined.

Lemma quit_returns_witness :
  ∃ n s', (n ≤ 6)%nat ∧ run n ex_quit = Some s' ∧ at_ s' = P_returned ∧ looping_ s' = false.
Proof. apply (quit_returns ex_quit); [apply ex_quit_reach|by split|done|done]. Defined.
