(* ===== verification/EventLoopThread.v ===== *)
(** * A thread with an event loop (net/eventloop_thread.h,
    net/eventloop_thread.cc)

    [EventLoopThread] starts a thread whose function has an [EventLoop] on its
    stack, publishes its address and runs it; the destructor tells the loop to
    quit and joins the thread.  The loop is the one of Wakeup.v.  The two
    threads are program counters with one step function each; [estep]
    interleaves them, and lets other threads use the loop.

    The initial callback, a [std::function] of a pointer to the loop, is a
    [Functor] of Wakeup.v: it calls [quit()] or it does not, which is all of it that the
    handshake of the two threads depends on.  A callback that registers timers or
    channels of its own is not represented, since the loop of Wakeup.v has the
    event descriptor, the queue and the flag and no other channels.

    The theorems: when [Start] has returned, [eventLoop()] is the address of a
    loop that has been constructed; a destructor that runs while the loop is
    inside [loop()] gets through; one that runs between the promise and the
    entry of [loop()] does not: its request is forgotten and both threads wait
    for ever; and one that runs after the loop has returned by itself uses a
    loop that no longer exists. *)

From stdpp Require Import relations.
From S2P Require Import Prelude Wakeup.

(** ** State *)

(** The function of the thread *)
Inductive tpc :=
  | T_none       (* the std::thread is not joinable *)
  | T_ctor       (* EventLoop loop; *)
  | T_publish    (* the block with loop_ = &loop *)
  | T_promise    (* promise.set_value() *)
  | T_callback   (* if (callback_) callback_(&loop) *)
  | T_loop       (* loop.loop() *)
  | T_exited.

(** The thread that owns the object *)
Inductive mpc :=
  | M_new        (* constructed *)
  | M_wait       (* promise.get_future().wait() in Start() *)
  | M_started    (* Start() has returned *)
  | M_quit       (* the destructor, in the critical section *)
  | M_wakeup     (* in loop_->quit(), before wakeup() *)
  | M_join       (* thread_.join() *)
  | M_destroyed.

Record EventLoopThread := mkElt {
  loop_obj : option Loop;   (* the local variable of the thread, while it lives *)
  loop_ : bool;             (* the pointer is set *)
  promise : bool;
  callback_ : option Functor;
  thread_ : tpc;
  owner : mpc
}.

#[export] Instance eta_EventLoopThread : Eta EventLoopThread := fun e =>
  mkElt (loop_obj e) (loop_ e) (promise e) (callback_ e) (thread_ e) (owner e).

Definition EventLoopThread_new (cb : option Functor) : EventLoopThread :=
  mkElt None false false cb T_none M_new.

(** ** Steps *)

(** [EventLoop *eventLoop()]; the pointer, if it is set *)
Definition eventLoop (e : EventLoopThread) : bool := loop_ e.

(** The lambda of [Start]; [None] when it waits or has ended.  The loop is
    destroyed at the end of the block, after its assertion.  Of [callback_] there
    is what it does to the loop of Wakeup.v: it asks it to quit or leaves it
    alone. *)
Definition thread_step (e : EventLoopThread) : res (option EventLoopThread) :=
  match thread_ e with
  | T_none | T_exited => mret None
  | T_ctor => mret (Some (e <| loop_obj := Some Loop_new |> <| thread_ := T_publish |>))
  | T_publish => mret (Some (e <| loop_ := true |> <| thread_ := T_promise |>))
  | T_promise => mret (Some (e <| promise := true |> <| thread_ := T_callback |>))
  | T_callback =>
      l ← deref (loop_obj e) "loop";
      mret (Some (e <| loop_obj := Some (match callback_ e with Some f => call f l | None => l end) |>
                    <| thread_ := T_loop |>))
  | T_loop =>
      l ← deref (loop_obj e) "loop";
      match at_ l with
      | P_returned =>
          assert_ (negb (looping_ l)) "eventloop.cc:51" ;;
          mret (Some (e <| loop_obj := @None Loop |> <| thread_ := T_exited |>))
      | _ =>
          r ← loop_step l;
          mret (match r with Some l' => Some (e <| loop_obj := Some l' |>) | None => None end)
      end
  end.

(** The owner in [Start()]; [None] when it waits or is not there *)
Definition Start_step (e : EventLoopThread) : option EventLoopThread :=
  match owner e with
  | M_new => Some (e <| thread_ := T_ctor |> <| owner := M_wait |>)
  | M_wait => if promise e then Some (e <| owner := M_started |>) else None
  | _ => None
  end.

(** The owner in the destructor.  A call through the pointer to a loop that is
    gone is a fault. *)
Definition dtor_step (e : EventLoopThread) : res (option EventLoopThread) :=
  match owner e with
  | M_new | M_started =>
      mret (Some (e <| owner := match thread_ e with T_none => M_destroyed | _ => M_quit end |>))
  | M_quit =>
      if loop_ e then
        l ← deref (loop_obj e) "EventLoop";
        mret (Some (e <| loop_obj := Some (quit_set l) |> <| owner := M_wakeup |>))
      else mret (Some (e <| owner := M_join |>))
  | M_wakeup =>
      l ← deref (loop_obj e) "EventLoop";
      mret (Some (e <| loop_obj := Some (wakeup_call l) |> <| owner := M_join |>))
  | M_join => mret (match thread_ e with T_exited => Some (e <| owner := M_destroyed |>) | _ => None end)
  | M_wait | M_destroyed => mret None
  end.

(** The two threads *)
Inductive estep : EventLoopThread → EventLoopThread → Prop :=
  | es_thread e e' : thread_step e = Ok (Some e') → estep e e'
  | es_start e e' : Start_step e = Some e' → estep e e'
  | es_dtor e e' : dtor_step e = Ok (Some e') → estep e e'.

(** ... and users of the pointer, who queue work, quit or make descriptors ready *)
Inductive estep_any : EventLoopThread → EventLoopThread → Prop :=
  | ea_step e e' : estep e e' → estep_any e e'
  | ea_user e l l' : loop_obj e = Some l → env_step l l' → estep_any e (e <| loop_obj := Some l' |>).

(** ** The invariant *)

Record elt_inv (e : EventLoopThread) : Prop := {
  ei_obj : match thread_ e with
           | T_none | T_ctor | T_exited => loop_obj e = None
           | T_loop => ∃ l, loop_obj e = Some l ∧ inv l ∧ (at_ l = P_returned → looping_ l = false)
           | _ => ∃ l, loop_obj e = Some l ∧ inv l ∧ at_ l = P_entry
           end;
  ei_ptr : loop_ e = match thread_ e with T_none | T_ctor | T_publish => false | _ => true end;
  ei_promise : promise e = match thread_ e with T_callback | T_loop | T_exited => true | _ => false end;
  ei_owner : match owner e with
             | M_new => thread_ e = T_none
             | M_wait => thread_ e ≠ T_none
             | M_destroyed => True
             | _ => promise e = true
             end
}.

Lemma elt_inv_new cb : elt_inv (EventLoopThread_new cb).
Proof. by split. Qed.

Lemma call_inv f l : inv l → at_ l = P_entry → inv (call f l) ∧ at_ (call f l) = P_entry.
Proof.
  intros [Hc He Hw Hq Hf] Hat. destruct (call_frame f l) as (E1 & E2 & E3 & E4 & E5 & E6 & Hx).
  destruct (Hx Hc) as [Hc' Hs]. rewrite Hat in *. split; [|done].
  split; rewrite ?E3, ?Hat; try done; [by rewrite E1|rewrite E2; auto|by rewrite E5, E6, E2].
Qed.

(** Only the end of the loop clears [looping_]. *)
Lemma loop_step_returned l l' : loop_step l = Ok (Some l') → at_ l' = P_returned → looping_ l' = false.
Proof.
  unfold loop_step, assert_, mret, res_ret, mbind, res_bind.
  intros E Hr. repeat case_match; simplify_eq; done.
Qed.

Lemma thread_step_inv e e' : elt_inv e → thread_step e = Ok (Some e') → elt_inv e'.
Proof.
  intros [Ho Hp Hm Hw] E. unfold thread_step in E. destruct (thread_ e) eqn:Ht; try done.
  - injection E as <-. split; cbn; try done; [exists Loop_new; pose proof Loop_new_inv; done|]. destruct (owner e); congruence.
  - injection E as <-. split; cbn; try done. destruct (owner e); congruence.
  - injection E as <-. split; cbn; try done. destruct (owner e); congruence.
  - destruct Ho as (l & Hl & Hi & Hat). rewrite Hl in E. cbn in E. injection E as <-.
    split; cbn; try done; [|destruct (owner e); congruence].
    eexists. split; [done|]. destruct (callback_ e) as [f|].
    + destruct (call_inv f l Hi Hat) as [Hi' Hat']. split; [done|]. congruence.
    + split; [done|]. congruence.
  - destruct Ho as (l & Hl & Hi & Hr). rewrite Hl in E. cbn [deref mbind res_bind] in E.
    destruct (at_ l) eqn:Hat.
    7:{ rewrite Hr in E by done. injection E as <-. split; cbn; try done. destruct (owner e); congruence. }
    all: destruct (loop_step l) as [[l'|]|] eqn:El; try done; cbn in E; injection E as <-;
      (split; cbn; rewrite ?Ht; try done; try (destruct (owner e); congruence));
      exists l'; (split; [done|]); (split; [by apply (Loop_step_inv l)|by apply (loop_step_returned l)]).
Qed.

(** A change of the loop by another thread *)
Lemma with_loop_inv e l l' :
  elt_inv e → loop_obj e = Some l → inv l' →
  (at_ l = P_entry → at_ l' = P_entry) → (at_ l' = P_returned → at_ l = P_returned) →
  looping_ l' = looping_ l → elt_inv (e <| loop_obj := Some l' |>).
Proof.
  intros [Ho Hp Hm Hw] Hl Hi Ha Hb Hk. split; cbn; try done.
  destruct (thread_ e); try congruence; destruct Ho as (l0 & Hl0 & _ & H);
    rewrite Hl in Hl0; injection Hl0 as <-; exists l'; (split; [done|]); (split; [done|]); rewrite ?Hk; auto.
Qed.

Lemma env_step_frame l l' :
  env_step l l' →
  (at_ l = P_entry → at_ l' = P_entry) ∧ (at_ l' = P_returned → at_ l = P_returned) ∧ looping_ l' = looping_ l.
Proof. destruct 1 as [s k Hat ? ?|s f|s|s ?]; cbn; rewrite ?Hat; done. Qed.

Lemma Start_step_inv e e' : elt_inv e → Start_step e = Some e' → elt_inv e'.
Proof.
  intros [Ho Hp Hm Hw] E. unfold Start_step in E. destruct (owner e); try done.
  - injection E as <-. rewrite Hw in *. by split.
  - destruct (promise e) eqn:He; [|done]. injection E as <-. by split; rewrite ?He.
Qed.

Lemma dtor_step_inv e e' : elt_inv e → dtor_step e = Ok (Some e') → elt_inv e'.
Proof.
  intros [Ho Hp Hm Hw] E. destruct e as [lo lp pr cb th ow]. unfold dtor_step, deref, mbind, res_bind in E.
  cbn in Ho, Hp, Hm, Hw, E. destruct ow; try done.
  - subst th. injection E as <-. by split.
  - injection E as <-. split; cbn; try done. destruct th; try done; congruence.
  - destruct lp; [|injection E as <-; by split].
    destruct lo as [l|]; [|done]. injection E as <-. split; cbn; try done.
    destruct th; try done; destruct Ho as (l0 & [= <-] & H & H'); exists (quit_set l);
      pose proof (quit_set_inv l H); done.
  - destruct lo as [l|]; [|done]. injection E as <-. split; cbn; try done.
    destruct th; try done; destruct Ho as (l0 & [= <-] & H & H'); exists (wakeup_call l);
      pose proof (wakeup_call_inv l H); done.
  - destruct th; try done. injection E as <-. by split.
Qed.

Lemma estep_inv e e' : elt_inv e → estep_any e e' → elt_inv e'.
Proof.
  intros Hi Hs. destruct Hs as [e e' Hs|e l l' Hl Hs]; [destruct Hs as [e e' E|e e' E|e e' E]|].
  - by apply (thread_step_inv e).
  - by apply (Start_step_inv e).
  - by apply (dtor_step_inv e).
  - destruct (env_step_frame l l' Hs) as (H1 & H2 & H3). apply (with_loop_inv e l); try done.
    apply (env_step_inv l); [|done]. pose proof (ei_obj e Hi) as Ho.
    destruct (thread_ e); try congruence; destruct Ho as (l0 & Hl0 & H & _); congruence.
Qed.

Lemma elt_reach_inv cb e : rtc estep_any (EventLoopThread_new cb) e → elt_inv e.
Proof. apply (rtc_ind_r elt_inv); [apply elt_inv_new|]. intros x y _ Hxy Hi. by apply (estep_inv x). Qed.

(** ** Running the thread *)

Lemma run_thread n e l l' :
  thread_ e = T_loop → loop_obj e = Some l → run n l = Some l' →
  rtc estep e (e <| loop_obj := Some l' |>).
Proof.
  intros Ht. revert e l Ht. induction n as [|n IH]; intros e l Ht Hl Hr; cbn in Hr.
  { injection Hr as <-. destruct e. cbn in *. subst. apply rtc_refl. }
  destruct (loop_step l) as [[l1|]|] eqn:El; try done.
  apply (rtc_l _ _ (e <| loop_obj := Some l1 |>)); [|by apply (IH (e <| loop_obj := Some l1 |>) l1)].
  apply es_thread. unfold thread_step. rewrite Ht, Hl. cbn [deref mbind res_bind].
  destruct (at_ l) eqn:Hat; try (rewrite El; done). unfold loop_step in El. by rewrite Hat in El.
Qed.

(** ** Theorems *)

(** When [Start()] has returned, [eventLoop()] is not null, and as long as the
    thread has not ended it is the address of a constructed loop whose own
    invariant holds. *)
Theorem Start_publishes (cb : option Functor) (e : EventLoopThread) :
  rtc estep_any (EventLoopThread_new cb) e → owner e = M_started →
  eventLoop e = true ∧ (thread_ e ≠ T_exited → ∃ l, loop_obj e = Some l ∧ inv l).
Proof.
  intros Hr Ho. destruct (elt_reach_inv cb e Hr) as [H1 H2 H3 H4]. rewrite Ho in H4. rewrite H3 in H4.
  unfold eventLoop. rewrite H2. destruct (thread_ e); try done; (split; [done|]); intros _;
    destruct H1 as (l & ? & ? & _); by exists l.
Qed.

(** C31: the destructor gets through when it found the loop inside [loop()]: from
    every reachable state in which it waits in [join], the loop is running with
    [quit_] set and no thread is still about to wake it, the two threads alone
    come to the end of both, with the loop destroyed first. *)
Theorem dtor_joins (cb : option Functor) (e : EventLoopThread) (l : Loop) :
  rtc estep_any (EventLoopThread_new cb) e → owner e = M_join → thread_ e = T_loop →
  loop_obj e = Some l → inside l → quit_ l = true → waking l = 0%nat →
  ∃ e', rtc estep e e' ∧ owner e' = M_destroyed ∧ thread_ e' = T_exited ∧ loop_obj e' = None.
Proof.
  intros Hr Ho Ht Hl Hin Hq Hw. pose proof (ei_obj e (elt_reach_inv cb e Hr)) as Hobj.
  rewrite Ht in Hobj. destruct Hobj as (l0 & Hl0 & Hi & _). rewrite Hl in Hl0. injection Hl0 as <-.
  destruct (quits l Hi Hw Hin Hq) as (n & l' & _ & E & Hret & Hlp).
  set (e1 := e <| loop_obj := Some l' |>).
  set (e2 := e <| loop_obj := @None Loop |> <| thread_ := T_exited |>).
  set (e3 := e2 <| owner := M_destroyed |>).
  exists e3. split; [|done]. apply (rtc_trans _ e1); [by apply (run_thread n e l)|].
  apply (rtc_l _ _ e2).
  - apply es_thread. unfold thread_step. subst e1. cbn. rewrite Ht, Hret. cbn. by rewrite Hlp.
  - apply rtc_once, es_dtor. unfold dtor_step. subst e2. cbn. by rewrite Ho.
Qed.

(** A schedule: which of the threads takes the next step *)
Inductive who := Thread | Starter | Destructor.

Fixpoint schedule (ws : list who) (e : EventLoopThread) : option EventLoopThread :=
  match ws with
  | [] => Some e
  | w :: ws' =>
      match (match w with Thread => thread_step e | Starter => Ok (Start_step e) | Destructor => dtor_step e end) with
      | Ok (Some e') => schedule ws' e'
      | _ => None
      end
  end.

Lemma schedule_rtc ws e e' : schedule ws e = Some e' → rtc estep e e'.
Proof.
  revert e. induction ws as [|w ws IH]; intros e E; cbn in E; [injection E as <-; apply rtc_refl|].
  destruct w; [destruct (thread_step e) as [[e1|]|] eqn:E1|destruct (Start_step e) as [e1|] eqn:E1|
    destruct (dtor_step e) as [[e1|]|] eqn:E1]; try done; (eapply rtc_l; [|by apply IH]);
    [by apply es_thread|by apply es_start|by apply es_dtor].
Qed.

(** The destructor comes right after [Start()]. *)
Definition late_quit : list who :=
  [Starter; Thread; Thread; Thread; Starter; Destructor; Destructor; Destructor] ++ replicate 9 Thread.

(** C32: [quit()] before [loop()] is lost, and with it the destructor: whatever
    the initial callback, there is a run in which the destructor's request
    comes between the promise and the entry of [loop()]; the loop clears it,
    blocks in poll with nothing to wake it, the destructor waits in [join], and
    no thread can take another step. *)
Theorem dtor_can_deadlock (cb : option Functor) :
  ∃ e, rtc estep (EventLoopThread_new cb) e ∧ owner e = M_join ∧ thread_ e = T_loop ∧ nf estep e.
Proof.
  destruct (schedule late_quit (EventLoopThread_new cb)) as [e|] eqn:E; [|by destruct cb as [[]|]; vm_compute in E].
  exists e. split; [by apply (schedule_rtc late_quit)|].
  assert (H : owner e = M_join ∧ thread_ e = T_loop ∧
    ∃ l, loop_obj e = Some l ∧ at_ l = P_poll ∧ counter l = 0).
  { destruct cb as [[]|]; vm_compute in E; injection E as <-; (split; [done|]); (split; [done|]); by eexists. }
  destruct H as (H1 & H2 & l & H3 & H4 & H5). split; [done|]. split; [done|].
  clear E. intros (e' & Hs). destruct Hs as [e e' Es|e e' Es|e e' Es].
  - unfold thread_step in Es. rewrite H2, H3 in Es. cbn in Es. rewrite H4 in Es. unfold loop_step in Es.
    by rewrite H4, H5 in Es.
  - unfold Start_step in Es. by rewrite H1 in Es.
  - unfold dtor_step in Es. by rewrite H1, H2 in Es.
Qed.

(** The pointer outlives the loop: when the loop returns by itself (here a
    user queues a functor that quits it) and the thread ends, the destructor
    calls [quit()] through the pointer to the destroyed loop. *)
Theorem dtor_after_return_dangles (cb : option Functor) :
  ∃ e, rtc estep_any (EventLoopThread_new cb) e ∧ owner e = M_quit ∧ thread_ e = T_exited ∧
       dtor_step e = Err (UseAfterFree "EventLoop").
Proof.
  destruct (schedule ([Starter; Thread; Thread; Thread; Starter] ++ replicate 3 Thread) (EventLoopThread_new cb))
    as [e1|] eqn:E1; [|by destruct cb as [[]|]; vm_compute in E1].
  assert (∃ l, loop_obj e1 = Some l) as (l & Hl) by (destruct cb as [[]|]; vm_compute in E1; injection E1 as <-; by eexists).
  set (e2 := e1 <| loop_obj := Some (RunInLoop_push CallQuit l) |>).
  set (e3 := e1 <| loop_obj := Some (wakeup_call (RunInLoop_push CallQuit l)) |>).
  destruct (schedule (replicate 8 Thread ++ [Destructor]) e3) as [e4|] eqn:E4.
  2:{ subst e3. destruct cb as [[]|]; vm_compute in E1; injection E1 as <-; injection Hl as <-; by vm_compute in E4. }
  exists e4. split.
  { apply (rtc_trans _ e1); [apply (rtc_subrel estep); [intros ?? ?; by apply ea_step|by apply (schedule_rtc _ _ _ E1)]|].
    apply (rtc_l _ _ e2); [apply (ea_user _ l); [done|apply env_push]|].
    apply (rtc_l _ _ e3); [apply (ea_user e2 (RunInLoop_push CallQuit l)); [done|apply env_wakeup; cbn; lia]|].
    apply (rtc_subrel estep); [intros ?? ?; by apply ea_step|by apply (schedule_rtc _ _ _ E4)]. }
  subst e3. destruct cb as [[]|]; vm_compute in E1; injection E1 as <-; injection Hl as <-; vm_compute in E4;
    by injection E4 as <-.
Qed.

(** *** A concrete run *)
Definition ex_owner (ws : list who) : EventLoopThread :=
  match schedule ws (EventLoopThread_new None) with Some e => e | None => EventLoopThread_new None end.

(** [Start()] has returned; the loop is blocked in poll *)
Definition ex_started : list who := [Starter; Thread; Thread; Thread; Starter] ++ replicate 3 Thread.
(** ... and the destructor is in [join] *)
Definition ex_joining : list who := ex_started ++ replicate 3 Destructor.

Lemma ex_owner_reach ws :
  is_Some (schedule ws (EventLoopThread_new None)) → rtc estep_any (EventLoopThread_new None) (ex_owner ws).
Proof.
  intros [e E]. unfold ex_owner. rewrite E.
  apply (rtc_subrel estep); [intros ?? ?; by apply ea_step|by apply (schedule_rtc _ _ _ E)].
Qed.

Lemma Start_publishes_witness :
  eventLoop (ex_owner ex_started) = true ∧
  (thread_ (ex_owner ex_started) ≠ T_exited → ∃ l, loop_obj (ex_owner ex_started) = Some l ∧ inv l).
Proof.
  apply (Start_publishes None (ex_owner ex_started)); [apply ex_owner_reach; by vm_compute; eexists|by vm_compute].
Defined.

Lemma dtor_joins_witness :
  ∃ e', rtc estep (ex_owner ex_joining) e' ∧ owner e' = M_destroyed ∧ thread_ e' = T_exited ∧ loop_obj e' = None.
Proof.
  apply (dtor_joins None (ex_owner ex_joining) (mkLoop true true [] 1 P_poll 0 [] []));
    [apply ex_owner_reach; by vm_compute; eexists|by vm_compute|by vm_compute|by vm_compute|by split|done|done].
Defined.
