(* ===== verification/LoopRefinement.v ===== *)
(** * The operations of the loop refine their interleaving model

    EventLoop.v has the operations of net/eventloop.cc as functions on the
    whole world, Wakeup.v has them cut into steps on the part of the state that
    threads share.  [sim] relates the two, and [performs] the history of what a
    thread did to the steps of the model, in their order; the theorem shows that
    [RunInLoop] and [quit] of another thread, [handleRead] and the swap of
    [doPendingFunctors] do in the world what the steps do, so that what Wakeup.v
    shows of every interleaving is about these functions.  Of the kernel it is assumed that
    the event descriptor counts, as eventfd(2) says. *)

From stdpp Require Import relations.
From S2P Require Import Prelude Wakeup.
From S2P Require Import Slice Buffer Timestamp Poller World EventLoop.

(** The counter of an event descriptor after a history of system calls: an
    eight-byte write that was accepted adds one, a read clears it. *)
Fixpoint fd_count (fd : Z) (h : history) : Z :=
  match h with
  | [] => 0
  | EvWrite fd' d n :: h' => if (fd' =? fd) && (n =? 8) then fd_count fd h' + 1 else fd_count fd h'
  | EvRead fd' :: h' => if fd' =? fd then 0 else fd_count fd h'
  | _ :: h' => fd_count fd h'
  end.

Section Refinement.
Context `{Kernel} (invoke : Callback → MW unit).
(** Which functors of the application call [quit()] *)
Context (quits : nat → bool).

Definition functor_of (cb : Callback) : Functor :=
  match cb with User u => if quits u then CallQuit else Work u | _ => Work 0 end.

(** eventfd(2): a write is refused only when the counter is at its maximum. *)
Definition eventfd_counts (fd : Z) : Prop :=
  ∀ h, (k_write h fd one8).1 = if fd_count fd h + 1 <=? 2 ^ 64 - 2 then 8 else -1.

Record sim (w : World) (s : Loop) : Prop := {
  sim_looping : Wakeup.looping_ s = World.looping_ (loop w);
  sim_quit : Wakeup.quit_ s = World.quit_ (loop w);
  sim_functors : Wakeup.functors_ s = functor_of <$> World.functors_ (loop w);
  sim_counter : counter s = fd_count (wakeup_fd_ (loop w)) (hist w)
}.

(** What another thread has done, oldest first, as steps of the interleaving
    model: a store to the queue or to the flag, a write to the event descriptor.
    A wake-up is a step only of a thread that has a store behind it. *)
Inductive performs (fd : Z) : list sys_event → Loop → Loop → Prop :=
  | perform_nil s : performs fd [] s s
  | perform_push cb es s s' :
      env_step s (RunInLoop_push (functor_of cb) s) → performs fd es (RunInLoop_push (functor_of cb) s) s' →
      performs fd (EvPush cb :: es) s s'
  | perform_quit es s s' :
      env_step s (quit_set s) → performs fd es (quit_set s) s' → performs fd (EvQuit :: es) s s'
  | perform_wakeup d n es s s' :
      env_step s (wakeup_call s) → performs fd es (wakeup_call s) s' → performs fd (EvWrite fd d n :: es) s s'.

(** A run of one thread makes steps of the model only. *)
Lemma performs_rtc fd es s s' : performs fd es s s' → rtc env_step s s'.
Proof. induction 1; [done|by eapply rtc_l..]. Qed.

(** The write of [wakeup()], after a store that is recorded as [e] *)
Lemma fd_count_write w e :
  eventfd_counts (wakeup_fd_ (loop w)) → (∀ h fd, fd_count fd (e :: h) = fd_count fd h) →
  let fd := wakeup_fd_ (loop w) in let h := e :: hist w in
  fd_count fd (EvWrite fd one8 (k_write h fd one8).1 :: h) = eventfd_write (fd_count fd (hist w)).
Proof.
  intros Hk He fd h. pose proof (Hk h) as E. fold fd in E. cbn [fd_count]. rewrite Z.eqb_refl, E. unfold h. rewrite !He. unfold eventfd_write. cbn [andb].
  by destruct (fd_count fd (hist w) + 1 <=? 2 ^ 64 - 2).
Qed.

(** A store and the wake-up behind it *)
Lemma performs_two fd e d n s s1 :
  (∀ es s', performs fd es s1 s' → performs fd (e :: es) s s') → (0 < waking s1)%nat →
  performs fd [e; EvWrite fd d n] s (wakeup_call s1).
Proof. intros He Hw. apply He, perform_wakeup; [by apply env_wakeup|constructor]. Qed.

(** C16: the sequential operations refine the interleaving model, with the order
    of their effects, over an event descriptor that counts as eventfd(2) says.
    In related states: [RunInLoop] from another thread, with a functor whose
    connection is alive if it is bound to one, does two things, which are steps
    of the model in this order: it queues the functor and then writes to the
    event descriptor, and so does [quit] with the flag; in the loop thread,
    [handleRead] and the swap of [doPendingFunctors] are the loop's steps at
    these points, after which exactly the functors taken out are run. *)
Theorem EventLoop_refines_interleaving (w : World) (s : Loop) :
  eventfd_counts (wakeup_fd_ (loop w)) → sim w s →
  let fd := wakeup_fd_ (loop w) in
  (∀ cb, (∀ c, cb_owner cb = Some c → is_Some (conns w !! c)) → threadId_ (loop w) ≠ tid w →
     ∃ w' s' es, RunInLoop invoke cb w = Ok (tt, w') ∧ hist w' = reverse es ++ hist w ∧ performs fd es s s' ∧
       (∃ n, es = [EvPush cb; EvWrite fd one8 n]) ∧ sim w' s' ∧
       Wakeup.queued s' = Wakeup.queued s ++ [functor_of cb] ∧ waking s' = waking s) ∧
  (∃ w' s' es, quit w = Ok (tt, w') ∧ hist w' = reverse es ++ hist w ∧ performs fd es s s' ∧
     (∃ n, es = [EvQuit; EvWrite fd one8 n]) ∧ sim w' s' ∧ Wakeup.quit_ s' = true ∧ waking s' = waking s) ∧
  (∀ l, at_ s = P_handle (A_wakeup :: l) →
     ∃ w' s', handleRead w = Ok (tt, w') ∧ loop_step s = Ok (Some s') ∧ sim w' s' ∧ at_ s' = P_handle l) ∧
  (at_ s = P_pending →
     ∃ w' s', doPendingFunctors invoke w =
         (mfor invoke (World.functors_ (loop w)) ;; mfor cb_destroy (World.functors_ (loop w))) w' ∧
       loop_step s = Ok (Some s') ∧ sim w' s' ∧ at_ s' = P_works (functor_of <$> World.functors_ (loop w))).
Proof.
  intros Hk [S1 S2 S3 S4] fd. split_and!.
  - intros cb Hown Hthr. destruct (cb_copy_frame cb w Hown) as (cs & Ecopy).
    do 3 eexists. split; [by eapply RunInLoop_copied_eval|]. split.
    { exact (eq_refl (reverse [EvPush cb; EvWrite fd one8 (k_write (EvPush cb :: hist w) fd one8).1] ++ hist w)). }
    split. { apply performs_two; [intros; apply perform_push; [apply env_push|done]|cbn; lia]. }
    split; [by eexists|]. split; [|done]. split; [exact S1|exact S2| |].
    + transitivity (Wakeup.functors_ s ++ [functor_of cb]); [done|]. rewrite S3. symmetry. exact (fmap_app functor_of _ [cb]).
    + transitivity (eventfd_write (counter s)); [done|]. rewrite S4. symmetry. by apply (fd_count_write w (EvPush cb)).
  - do 3 eexists. split; [done|]. split.
    { exact (eq_refl (reverse [EvQuit; EvWrite fd one8 (k_write (EvQuit :: hist w) fd one8).1] ++ hist w)). }
    split. { apply performs_two; [intros; apply perform_quit; [apply env_quit|done]|cbn; lia]. }
    split; [by eexists|]. split; [|done]. split; [exact S1|done|exact S3|].
    transitivity (eventfd_write (counter s)); [done|]. rewrite S4. symmetry. by apply (fd_count_write w EvQuit).
  - intros l Hat. do 2 eexists. split; [done|]. unfold loop_step. rewrite Hat. split; [done|]. split; [|done].
    split; cbn; try done. by rewrite Z.eqb_refl.
  - intros Hat. do 2 eexists. split; [done|]. unfold loop_step. rewrite Hat. split; [done|].
    split; [by split|]. cbn. by rewrite S3.
Qed.
End Refinement.

(** A kernel whose event descriptor counts, and a loop with one functor queued *)
Definition ex_counting : Kernel := {|
  k_gettimeofday _ := (0, 0);
  k_poll _ _ _ := (0, []);
  k_write h fd d := if fd_count fd h + 1 <=? 2 ^ 64 - 2 then (8, 0) else (-1, 11);
  k_read _ _ _ := 8;
  k_readv := k_readv (Kernel := ex_kernel);
  k_accept := k_accept (Kernel := ex_kernel);
  k_settime _ _ := 0;
  k_eventfd _ := 5;
  k_timerfd _ := 4;
  k_socket _ := 3;
  k_bind _ _ _ := 0;
  k_listen _ _ := 0;
  k_shutdown _ _ := 0
|}.

Definition ex_foreign : World := ex_world <| tid := 2 |>.

Lemma EventLoop_refines_interleaving_witness :
  ∃ w' s' es, RunInLoop (H := ex_counting) (fun _ => mfail Abort) (User 1) ex_foreign = Ok (tt, w') ∧
    hist w' = reverse es ++ [] ∧ performs (fun _ => false) 5 es Loop_new s' ∧
    (∃ n, es = [EvPush (User 1); EvWrite 5 one8 n]) ∧ sim (fun _ => false) w' s' ∧
    Wakeup.queued s' = [Work 1] ∧ waking s' = 0%nat.
Proof.
  refine (proj1 (EventLoop_refines_interleaving (H := ex_counting) (fun _ => mfail Abort) (fun _ => false)
    ex_foreign Loop_new _ _) (User 1) _ _).
  - intros h. cbn [k_write ex_counting]. by destruct (fd_count (wakeup_fd_ (loop ex_foreign)) h + 1 <=? 2 ^ 64 - 2).
  - by split.
  - done.
  - done.
Defined.
