(* ===== verification/WeakCallback.v ===== *)
(** * Shared and weak pointers: the stock factory (examples/callback/weak.cc)

    The example keeps a map from keys to [weak_ptr]s, hands out [shared_ptr]s
    with a deleter that removes the entry of the map if the factory still
    exists, and finds the factory through [weak_from_this()].  A stock is a
    control block with its use count; the deleter is a sequence of steps, so
    that other threads can come in between.

    The theorems: as long as deleters run to their end undisturbed, there is
    never more than one stock for a key, [get] returns it, and the map has
    exactly the keys of the stocks in use; every stock is deleted once, also
    when the factory goes first.  With threads, a deleter can remove the entry
    of a younger stock, and then there are two stocks for one key. *)

From stdpp Require Import relations.
From S2P Require Import Prelude.

Definition stock_id := nat.

(** The control block of a [shared_ptr<Stock>] *)
Record Stock := mkStock {
  key_ : bytes;
  use_count : nat;
  has_factory : bool; (* the deleter's [weak_ptr] was not empty when it was made *)
  deleted : bool
}.

#[export] Instance eta_Stock : Eta Stock := fun s =>
  mkStock (key_ s) (use_count s) (has_factory s) (deleted s).

(** [StockFactory]; [owners] is the use count of its [shared_ptr]s, [None] for
    an object that was never given to one. *)
Record StockFactory := mkFactory {
  owners : option nat;
  stocks_ : gmap bytes (option stock_id); (* an empty [weak_ptr] is [None] *)
  destroyed : bool
}.

#[export] Instance eta_StockFactory : Eta StockFactory := fun f =>
  mkFactory (owners f) (stocks_ f) (destroyed f).

Record Store := mkStore {
  factory : StockFactory;
  stocks : gmap stock_id Stock;
  next_id : stock_id
}.

#[export] Instance eta_Store : Eta Store := fun w => mkStore (factory w) (stocks w) (next_id w).

(** [std::make_shared<StockFactory>()] and [new StockFactory] *)
Definition make_shared_factory : Store := mkStore (mkFactory (Some 1%nat) ∅ false) ∅ 0%nat.
Definition new_factory : Store := mkStore (mkFactory None ∅ false) ∅ 0%nat.

(** ** Pointers *)

(** [weak_ptr<StockFactory>::lock()] and [shared_from_this()] without the
    exception: is there an owner? *)
Definition factory_locks (w : Store) : bool :=
  match owners (factory w) with Some (S _) => true | _ => false end.

Definition add_owner (w : Store) : Store :=
  w <| factory := (factory w) <| owners := S <$> owners (factory w) |> |>.

(** A [shared_ptr<StockFactory>] dies. *)
Definition drop_owner (w : Store) : Store :=
  let o := pred <$> owners (factory w) in
  w <| factory := (factory w) <| owners := o |> <| destroyed := bool_decide (o = Some 0%nat) |> |>.

(** [shared_from_this()]; [Good::getptr] is the same. *)
Definition shared_from_this (w : Store) : res Store :=
  if factory_locks w then mret (add_owner w) else Err (RuntimeError "bad_weak_ptr").

(** [weak_ptr<Stock>::lock()] *)
Definition stock_lock (w : Store) (p : option stock_id) : option stock_id :=
  match p with
  | Some s => match stocks w !! s with
              | Some st => if (0 <? use_count st)%nat then Some s else None
              | None => None
              end
  | None => None
  end.

Definition add_use (s : stock_id) (w : Store) : Store :=
  w <| stocks := alter (fun st : Stock => st <| use_count := S (use_count st) |>) s (stocks w) |>.

(** ** [StockFactory] *)

Definition mod_map (f : gmap bytes (option stock_id) → gmap bytes (option stock_id)) (w : Store) : Store :=
  w <| factory := (factory w) <| stocks_ := f (stocks_ (factory w)) |> |>.

(** [get(key)] under the mutex; [stocks_[key]] makes an empty entry. *)
Definition get (key : bytes) (w : Store) : res (stock_id * Store) :=
  if destroyed (factory w) then Err (UseAfterFree "StockFactory")
  else
    let ptr := default None (stocks_ (factory w) !! key) in
    let w := mod_map <[key := ptr]> w in
    match stock_lock w ptr with
    | Some s => mret (s, add_use s w)
    | None =>
        let s := next_id w in
        let w := mkStore (factory w) (<[s := mkStock key 1 (factory_locks w) false]> (stocks w)) (S s) in
        mret (s, mod_map <[key := Some s]> w)
    end.

Definition StockFactory_size (w : Store) : nat := size (stocks_ (factory w)).

(** [deleteSock(stock)] under the mutex *)
Definition deleteSock (s : stock_id) (w : Store) : res Store :=
  if destroyed (factory w) then Err (UseAfterFree "StockFactory")
  else
    st ← deref (stocks w !! s) "Stock";
    if deleted st then Err (UseAfterFree "Stock")
    else mret (mod_map (delete (key_ st)) w).

(** [delete stock] *)
Definition delete_stock (s : stock_id) (w : Store) : res Store :=
  st ← deref (stocks w !! s) "Stock";
  if deleted st then Err (UseAfterFree "Stock")
  else mret (w <| stocks := <[s := st <| deleted := true |>]> (stocks w) |>).

(** Where the deleter of a stock is *)
Inductive dpc :=
  | D_lock              (* auto fact(factory.lock()) *)
  | D_erase             (* fact->deleteSock(stock) *)
  | D_delete (fact : bool) (* delete stock *)
  | D_release           (* the end of the block, [fact] dies *)
  | D_done.

#[export] Instance dpc_eq_dec : EqDecision dpc.
Proof. solve_decision. Defined.

Definition deleter_step (s : stock_id) (p : dpc) (w : Store) : res (dpc * Store) :=
  match p with
  | D_lock =>
      st ← deref (stocks w !! s) "Stock";
      if has_factory st && factory_locks w then mret (D_erase, add_owner w) else mret (D_delete false, w)
  | D_erase => w' ← deleteSock s w; mret (D_delete true, w')
  | D_delete fact => w' ← delete_stock s w; mret (if fact then D_release else D_done, w')
  | D_release => mret (D_done, drop_owner w)
  | D_done => mret (D_done, w)
  end.

(** The whole deleter; it has at most four steps. *)
Fixpoint run_deleter (fuel : nat) (s : stock_id) (p : dpc) (w : Store) : res Store :=
  match p, fuel with
  | D_done, _ => mret w
  | _, O => Err OutOfFuel
  | _, S f => r ← deleter_step s p w; run_deleter f s r.1 r.2
  end.

(** A [shared_ptr<Stock>] dies: is it the last one? *)
Definition drop_use (s : stock_id) (w : Store) : res (bool * Store) :=
  st ← deref (stocks w !! s) "control block";
  match use_count st with
  | O => Err (UseAfterFree "control block")
  | S n => mret (bool_decide (n = 0%nat), w <| stocks := <[s := st <| use_count := n |>]> (stocks w) |>)
  end.

(** ... with the deleter run to its end *)
Definition drop_stock (s : stock_id) (w : Store) : res Store :=
  r ← drop_use s w;
  if r.1 : bool then run_deleter 4 s D_lock r.2 else mret r.2.

(** ** One operation after the other *)

Definition live (w : Store) (s : stock_id) (k : bytes) : Prop :=
  ∃ st, stocks w !! s = Some st ∧ key_ st = k ∧ (0 < use_count st)%nat.

(** The uses of the factory: by one of its owners, or by the death of a pointer *)
Inductive sstep : Store → Store → Prop :=
  | s_get w k s w' : factory_locks w = true → get k w = Ok (s, w') → sstep w w'
  | s_drop w s k w' : live w s k → drop_stock s w = Ok w' → sstep w w'
  | s_own w : factory_locks w = true → sstep w (add_owner w)
  | s_disown w : factory_locks w = true → sstep w (drop_owner w).

Record seq_inv (w : Store) : Prop := {
  si_owners : ∃ n, owners (factory w) = Some n ∧ destroyed (factory w) = bool_decide (n = 0%nat);
  si_fresh : ∀ s, (next_id w ≤ s)%nat → stocks w !! s = None;
  si_stock : ∀ s st, stocks w !! s = Some st →
    has_factory st = true ∧ deleted st = bool_decide (use_count st = 0%nat);
  si_map : destroyed (factory w) = false →
    ∀ k p, stocks_ (factory w) !! k = Some p ↔ ∃ s, p = Some s ∧ live w s k
}.

Lemma seq_inv_new : seq_inv make_shared_factory.
Proof.
  split; [by exists 1%nat|done|done|]. intros _ k p. cbn. rewrite lookup_empty. split; [done|].
  intros (s & _ & st & E & _). cbn in E. by rewrite lookup_empty in E.
Qed.

Lemma factory_alive w : seq_inv w → factory_locks w = negb (destroyed (factory w)).
Proof. intros [(n & E & ->) _ _ _]. unfold factory_locks. rewrite E. by destruct n. Qed.

Lemma stock_lock_live w s k : live w s k → stock_lock w (Some s) = Some s.
Proof. intros (st & E & _ & H). unfold stock_lock. rewrite E. by destruct (use_count st); [lia|]. Qed.

Lemma live_fun w s k k' : live w s k → live w s k' → k = k'.
Proof. intros (st & E & <- & _) (st' & E' & <- & _). congruence. Qed.

(** [get] of a key whose stock is in use *)
Lemma get_live w k s :
  seq_inv w → destroyed (factory w) = false → live w s k → get k w = Ok (s, add_use s w).
Proof.
  intros Hi Hd Hl. unfold get. rewrite Hd.
  assert (E : stocks_ (factory w) !! k = Some (Some s)) by (apply (si_map w Hi Hd); eauto).
  rewrite E. cbn [from_option id]. cbv zeta. assert (mod_map <[k:=Some s]> w = w) as ->.
  { unfold mod_map. rewrite insert_id by done. destruct w as [[]]. done. }
  by rewrite (stock_lock_live w s k).
Qed.

(** The store with a first stock for [k] *)
Definition with_stock (k : bytes) (w : Store) : Store :=
  let s := next_id w in
  mkStore ((factory w) <| stocks_ := <[k := Some s]> (stocks_ (factory w)) |>)
    (<[s := mkStock k 1 true false]> (stocks w)) (S s).

Lemma get_new w k :
  seq_inv w → destroyed (factory w) = false → (∀ s, ¬ live w s k) →
  get k w = Ok (next_id w, with_stock k w).
Proof.
  intros Hi Hd Hn. unfold get. rewrite Hd.
  assert (E : stocks_ (factory w) !! k = None).
  { destruct (stocks_ (factory w) !! k) as [p|] eqn:E; [|done].
    apply (si_map w Hi Hd) in E as (s & _ & Hl). by apply Hn in Hl. }
  rewrite E. cbn [from_option id stock_lock]. unfold mod_map, with_stock. cbn. unfold factory_locks. cbn.
  pose proof (factory_alive w Hi) as Hf. unfold factory_locks in Hf. rewrite Hf, Hd. cbn.
  by rewrite insert_insert_eq.
Qed.

Lemma live_add_use w s s' k : live (add_use s w) s' k ↔ live w s' k ∨ s = s' ∧ ∃ st, stocks w !! s = Some st ∧ key_ st = k.
Proof.
  unfold live, add_use. cbn. destruct (decide (s = s')) as [<-|Hne].
  - rewrite lookup_alter_eq. destruct (stocks w !! s) as [st|]; cbn; [|naive_solver].
    split; [intros (st' & [= <-] & Hk & _); cbn in *; eauto 10|].
    intros [(st' & [= <-] & Hk & _)|(_ & st' & [= <-] & Hk)]; eexists; (split; [done|]); cbn; (split; [done|lia]).
  - rewrite lookup_alter_ne by done. naive_solver.
Qed.

Lemma live_with_stock w k s' k' :
  (∀ s, (next_id w ≤ s)%nat → stocks w !! s = None) →
  live (with_stock k w) s' k' ↔ live w s' k' ∨ s' = next_id w ∧ k' = k.
Proof.
  intros Hf. unfold live, with_stock. cbn. destruct (decide (next_id w = s')) as [<-|Hne].
  - rewrite lookup_insert_eq, Hf by lia. split.
    + intros (st & [= <-] & <- & _). by right.
    + intros [(st & [=] & _)|(_ & ->)]. eexists. split; [done|]. cbn. split; [done|lia].
  - rewrite lookup_insert_ne by done. naive_solver.
Qed.

Lemma add_use_inv w s k : seq_inv w → live w s k → seq_inv (add_use s w).
Proof.
  intros [Ho Hf Hs Hm] Hl. destruct Hl as (st0 & E0 & Hk0 & Hu0). split; cbn; [done|..].
  - intros s' Hs'. rewrite lookup_alter_ne; [by apply Hf|]. intros ->. rewrite Hf in E0 by done. done.
  - intros s' st E. apply lookup_alter_Some in E as [(-> & st' & E & ->)|(_ & E)]; [|exact (Hs _ _ E)].
    destruct (Hs _ _ E) as [H1 H2]. rewrite E0 in E. injection E as <-. cbn. split; [done|].
    rewrite H2. by rewrite !bool_decide_eq_false_2 by lia.
  - intros Hd k' p. rewrite Hm by done. split; intros (s' & -> & Hl'); exists s'; (split; [done|]).
    + apply live_add_use. by left.
    + apply live_add_use in Hl' as [Hl'|(<- & st & E & <-)]; [done|]. rewrite E0 in E. injection E as <-. by exists st0.
Qed.

Lemma with_stock_inv w k :
  seq_inv w → destroyed (factory w) = false → (∀ s, ¬ live w s k) → seq_inv (with_stock k w).
Proof.
  intros Hi Hd Hn. pose proof Hi as [Ho Hf Hs Hm]. split; cbn; [done|..].
  - intros s' Hs'. rewrite lookup_insert_ne by lia. apply Hf. lia.
  - intros s' st E. apply lookup_insert_Some in E as [[<- <-]|[_ E]]; [done|exact (Hs _ _ E)].
  - intros _ k' p. destruct (decide (k = k')) as [<-|Hne].
    + rewrite lookup_insert_eq. split.
      * intros [= <-]. exists (next_id w). split; [done|]. apply (live_with_stock w k _ _ Hf). auto.
      * intros (s & -> & Hl). apply (live_with_stock w k _ _ Hf) in Hl as [Hl|[-> _]]; [by apply Hn in Hl|done].
    + rewrite lookup_insert_ne by done. rewrite Hm by done. split; intros (s & -> & Hl); exists s; (split; [done|]).
      * apply (live_with_stock w k _ _ Hf). auto.
      * apply (live_with_stock w k _ _ Hf) in Hl as [Hl|[_ E]]; [done|congruence].
Qed.

(** The store without the last pointer to [s] *)
Definition buried (s : stock_id) (st : Stock) (w : Store) : Store :=
  mkStore (if destroyed (factory w) then factory w
           else (factory w) <| stocks_ := delete (key_ st) (stocks_ (factory w)) |>)
    (<[s := mkStock (key_ st) 0 (has_factory st) true]> (stocks w)) (next_id w).

Lemma drop_stock_last w s st :
  seq_inv w → stocks w !! s = Some st → use_count st = 1%nat → drop_stock s w = Ok (buried s st w).
Proof.
  intros Hi E Hu. destruct (si_stock w Hi s st E) as [Hh Hdel]. rewrite Hu in Hdel. cbn in Hdel.
  destruct (si_owners w Hi) as (n & Ho & Hd). destruct st as [k u h d]. cbn in *. subst u h d.
  destruct w as [[o m de] ss nx]. cbn in *. subst o de. unfold drop_stock, drop_use. cbn. rewrite E. cbn.
  unfold deleter_step. cbn. rewrite lookup_insert_eq. cbn. unfold factory_locks. cbn.
  change (bool_decide (0%nat = 0%nat)) with true. change (bool_decide (1%nat = 0%nat)) with false.
  destruct n as [|n]; cbn.
  - unfold delete_stock. cbn. rewrite lookup_insert_eq. cbn. rewrite insert_insert_eq. done.
  - change (bool_decide (S n = 0%nat)) with false. unfold deleteSock. cbn. rewrite lookup_insert_eq. cbn. unfold delete_stock. cbn.
    rewrite lookup_insert_eq. cbn. rewrite insert_insert_eq. done.
Qed.

Lemma drop_stock_more w s st n :
  stocks w !! s = Some st → use_count st = S (S n) →
  drop_stock s w = Ok (w <| stocks := <[s := st <| use_count := S n |>]> (stocks w) |>).
Proof. intros E Hu. unfold drop_stock, drop_use. by rewrite E; cbn; rewrite Hu. Qed.

Lemma live_insert w s st s' k :
  live (w <| stocks := <[s := st]> (stocks w) |>) s' k ↔
  (s = s' ∧ key_ st = k ∧ (0 < use_count st)%nat) ∨ (s ≠ s' ∧ live w s' k).
Proof.
  unfold live. cbn. destruct (decide (s = s')) as [<-|Hne].
  - rewrite lookup_insert_eq. split; [intros (st' & [= <-] & H1 & H2); auto|].
    intros [(_ & H1 & H2)|(H & _)]; [by exists st|done].
  - rewrite lookup_insert_ne by done. naive_solver.
Qed.

Lemma buried_inv w s st :
  seq_inv w → stocks w !! s = Some st → use_count st = 1%nat → seq_inv (buried s st w).
Proof.
  intros Hi E Hu. pose proof Hi as [Ho Hf Hs Hm].
  assert (Hl : ∀ s' k, live (buried s st w) s' k ↔ s ≠ s' ∧ live w s' k).
  { intros s' k. etrans; [apply (live_insert w s (mkStock (key_ st) 0 (has_factory st) true))|].
    cbn. split; [intros [(_ & _ & H)|H]; [lia|done]|by right]. }
  split.
  - destruct Ho as (n & Hn & Hd). exists n. unfold buried. cbn.
    destruct (destroyed (factory w)) eqn:Hx; cbn; rewrite ?Hx; done.
  - intros s' Hs'. cbn. rewrite lookup_insert_ne; [by apply Hf|]. intros ->. by rewrite Hf in E.
  - intros s' st' E'. cbn in E'. apply lookup_insert_Some in E' as [[<- <-]|[_ E']]; [|exact (Hs _ _ E')].
    by destruct (Hs _ _ E).
  - unfold buried at 1. cbn. destruct (destroyed (factory w)) eqn:Hd; [congruence|]. intros _ k p.
    unfold buried. rewrite Hd. cbn [factory stocks_].
    assert (Hself : live w s (key_ st)) by (exists st; split; [done|]; split; [done|lia]).
    destruct (decide (key_ st = k)) as [<-|Hne].
    + rewrite lookup_delete_eq. split; [done|]. intros (s' & -> & H). exfalso.
      assert (live (buried s st w) s' (key_ st)) as [Hns Hl']%Hl by (unfold buried; by rewrite Hd).
      assert (E1 : stocks_ (factory w) !! key_ st = Some (Some s)) by (apply Hm; eauto).
      assert (E2 : stocks_ (factory w) !! key_ st = Some (Some s')) by (apply Hm; eauto). congruence.
    + rewrite lookup_delete_ne by done. rewrite Hm by done. split; intros (s' & -> & H); exists s'; (split; [done|]).
      * assert (Hb : live (buried s st w) s' k).
        { apply Hl. split; [|done]. intros <-. apply Hne. by apply (live_fun w s). }
        unfold buried in Hb. by rewrite Hd in Hb.
      * assert (live (buried s st w) s' k) as [_ H']%Hl by (unfold buried; by rewrite Hd). done.
Qed.

Lemma more_inv w s st n :
  seq_inv w → stocks w !! s = Some st → use_count st = S (S n) →
  seq_inv (w <| stocks := <[s := st <| use_count := S n |>]> (stocks w) |>).
Proof.
  intros [Ho Hf Hs Hm] E Hu.
  assert (Hl : ∀ s' k, live (w <| stocks := <[s := st <| use_count := S n |>]> (stocks w) |>) s' k ↔ live w s' k).
  { intros s' k. rewrite live_insert. cbn. split.
    - intros [(<- & Hk & _)|[_ H]]; [|done]. exists st. split; [done|]. split; [done|lia].
    - intros H. destruct (decide (s = s')) as [<-|]; [left|by right].
      destruct H as (st' & E' & Hk & _). rewrite E in E'. injection E' as <-. split; [done|]. split; [done|lia]. }
  split; cbn; [done|..].
  - intros s' Hs'. rewrite lookup_insert_ne; [by apply Hf|]. intros ->. by rewrite Hf in E.
  - intros s' st' E'. apply lookup_insert_Some in E' as [[<- <-]|[_ E']]; [|exact (Hs _ _ E')].
    destruct (Hs _ _ E) as [H1 H2]. cbn. rewrite H2, Hu. done.
  - intros Hd k p. rewrite (Hm Hd k p). split; intros (s' & -> & H); exists s'; (split; [done|]); by apply Hl.
Qed.

Lemma sstep_inv w w' : seq_inv w → sstep w w' → seq_inv w'.
Proof.
  intros Hi Hs. destruct Hs as [w k s w' Hlk E|w s k w' (st & E & <- & Hu) Ed|w Hlk|w Hlk].
  - rewrite (factory_alive w Hi) in Hlk. apply negb_true_iff in Hlk.
    destruct (decide (is_Some (stocks_ (factory w) !! k))) as [[p Hp]|Hn].
    + apply (si_map w Hi Hlk) in Hp as (s' & _ & Hl). rewrite (get_live w k s' Hi Hlk Hl) in E.
      injection E as <- <-. by apply (add_use_inv w s' k).
    + assert (Hno : ∀ s0, ¬ live w s0 k).
      { intros s0 Hl. apply Hn. exists (Some s0). apply (si_map w Hi Hlk). eauto. }
      rewrite (get_new w k Hi Hlk Hno) in E. injection E as <- <-. by apply with_stock_inv.
  - destruct (use_count st) as [|[|n]] eqn:Hn; [lia|..].
    + rewrite (drop_stock_last w s st Hi E Hn) in Ed. injection Ed as <-. by apply buried_inv.
    + rewrite (drop_stock_more w s st n E Hn) in Ed. injection Ed as <-. by apply more_inv.
  - destruct Hi as [(n & Ho & Hd) Hf Hs Hm]. unfold factory_locks in Hlk. rewrite Ho in Hlk.
    destruct n as [|n]; [done|]. split; cbn; try done. exists (S (S n)). by rewrite Ho.
  - destruct Hi as [(n & Ho & Hd) Hf Hs Hm]. unfold factory_locks in Hlk. rewrite Ho in Hlk.
    destruct n as [|n]; [done|]. split; cbn; try done.
    + exists n. rewrite Ho. split; [done|]. cbn. apply bool_decide_ext. split; congruence.
    + intros _. apply Hm. by rewrite Hd.
Qed.

Lemma sstep_reach_inv w : rtc sstep make_shared_factory w → seq_inv w.
Proof. apply (rtc_ind_r seq_inv); [apply seq_inv_new|]. intros x y _ Hxy Hi. by apply (sstep_inv x). Qed.

(** ** Deleters among other threads *)

(** Pointers to the factory held by deleters *)
Definition holds (p : dpc) : bool := match p with D_erase | D_delete true | D_release => true | _ => false end.
Definition holders (ds : list (stock_id * dpc)) : nat := sum_list ((fun x => Nat.b2n (holds x.2)) <$> ds).

(** The store and the deleters that are running; a thread drops only pointers
    of its own, not those of the deleters. *)
Definition CStore : Type := Store * list (stock_id * dpc).

Inductive cstep : CStore → CStore → Prop :=
  | c_get w ds k s w' : factory_locks w = true → get k w = Ok (s, w') → cstep (w, ds) (w', ds)
  | c_drop w ds s k b w' :
      live w s k → drop_use s w = Ok (b, w') →
      cstep (w, ds) (w', if b : bool then ds ++ [(s, D_lock)] else ds)
  | c_deleter w ds1 s p ds2 p' w' :
      deleter_step s p w = Ok (p', w') → cstep (w, ds1 ++ (s, p) :: ds2) (w', ds1 ++ (s, p') :: ds2)
  | c_own w ds : factory_locks w = true → cstep (w, ds) (add_owner w, ds)
  | c_disown w ds n :
      owners (factory w) = Some n → (holders ds < n)%nat → cstep (w, ds) (drop_owner w, ds).

Definition past_delete (p : dpc) : bool := match p with D_release | D_done => true | _ => false end.

Record conc_inv (c : CStore) : Prop := {
  ci_owners : ∃ n, owners (factory c.1) = Some n ∧ destroyed (factory c.1) = bool_decide (n = 0%nat) ∧
    (holders c.2 ≤ n)%nat;
  ci_fresh : ∀ s, (next_id c.1 ≤ s)%nat → stocks c.1 !! s = None;
  ci_nodup : NoDup (c.2.*1);
  ci_dead : ∀ s st, stocks c.1 !! s = Some st → (use_count st = 0%nat ↔ s ∈ c.2.*1);
  ci_live : ∀ s st, stocks c.1 !! s = Some st → (0 < use_count st)%nat → deleted st = false;
  ci_pc : ∀ s p, (s, p) ∈ c.2 → ∃ st, stocks c.1 !! s = Some st ∧ deleted st = past_delete p
}.

Lemma holders_app ds1 s p ds2 : holders (ds1 ++ (s, p) :: ds2) = (holders ds1 + Nat.b2n (holds p) + holders ds2)%nat.
Proof. unfold holders. induction ds1 as [|x ds1 IH]; cbn in *; lia. Qed.

Lemma conc_inv_new : conc_inv (make_shared_factory, []).
Proof.
  split; cbn; [exists 1%nat; split_and!; [done|done|cbn; lia]|done|constructor|..].
  - intros s st E. by rewrite lookup_empty in E.
  - intros s st E. by rewrite lookup_empty in E.
  - intros s p Hp. by apply not_elem_of_nil in Hp.
Qed.

(** A step of the deleter of [s] from [p] to [p'], which may change the factory
    and whether the stock is deleted *)
Lemma conc_update w ds1 s p ds2 p' w' :
  conc_inv (w, ds1 ++ (s, p) :: ds2) → next_id w' = next_id w →
  (∃ n, owners (factory w') = Some n ∧ destroyed (factory w') = bool_decide (n = 0%nat) ∧
     (holders ds1 + Nat.b2n (holds p') + holders ds2 ≤ n)%nat) →
  (∀ s', stocks w' !! s' =
     if decide (s = s') then (fun st : Stock => st <| deleted := past_delete p' |>) <$> stocks w !! s
     else stocks w !! s') →
  conc_inv (w', ds1 ++ (s, p') :: ds2).
Proof.
  intros [Ho Hf Hn Hd Hl Hp] Hnx Ho' Hst. cbn in *.
  assert (Hfst : (ds1 ++ (s, p') :: ds2).*1 = (ds1 ++ (s, p) :: ds2).*1) by (by rewrite !fmap_app).
  assert (Hfwd : ∀ s' st', stocks w' !! s' = Some st' → ∃ st, stocks w !! s' = Some st ∧ use_count st' = use_count st ∧
            (s ≠ s' → st' = st)).
  { intros s' st' E. rewrite Hst in E. destruct (decide (s = s')) as [<-|Hne]; [|eauto].
    destruct (stocks w !! s) as [st|]; [|done]. injection E as <-. exists st. done. }
  assert (Hs0 : use_count <$> stocks w !! s = Some 0%nat).
  { destruct (Hp s p) as (st & E & _); [apply elem_of_app; right; by left|]. rewrite E. cbn. f_equal.
    apply (Hd s st E). rewrite fmap_app. apply elem_of_app. right. by left. }
  split; cbn [fst snd]; try done.
  - by rewrite holders_app.
  - intros s' Hs'. rewrite Hst. rewrite Hnx in Hs'. destruct (decide (s = s')) as [<-|]; [|by apply Hf].
    by rewrite Hf.
  - by rewrite Hfst.
  - intros s' st' E. destruct (Hfwd s' st' E) as (st & E0 & -> & _). rewrite Hfst. by apply Hd.
  - intros s' st' E Hu. destruct (Hfwd s' st' E) as (st & E0 & Hc & Hsame). rewrite Hc in Hu.
    rewrite Hsame; [by apply (Hl s' st)|]. intros <-. rewrite E0 in Hs0. injection Hs0 as Hs0. lia.
  - intros s' q Hq. rewrite Hst. apply elem_of_app in Hq.
    assert (Hcase : (s', q) = (s, p') ∨ ((s', q) ∈ ds1 ++ (s, p) :: ds2 ∧ s ≠ s')).
    { assert (Hnd : (s ∉ ds1.*1) ∧ (s ∉ ds2.*1)).
      { rewrite fmap_app in Hn. apply NoDup_app in Hn as (_ & Hx & Hn2). cbn in Hn2. apply NoDup_cons in Hn2 as [Hn2 _].
        split; [|done]. intros H. apply (Hx s H). by left. }
      destruct Hnd as [H1 H2]. destruct Hq as [Hq|Hq].
      - right. split; [apply elem_of_app; by left|]. intros <-. apply H1. apply list_elem_of_fmap. by exists (s, q).
      - apply elem_of_cons in Hq as [Hq|Hq]; [by left|]. right. split; [apply elem_of_app; right; by right|].
        intros <-. apply H2. apply list_elem_of_fmap. by exists (s, q). }
    destruct Hcase as [[= -> ->]|[Hq' Hne]].
    + rewrite decide_True by done. destruct (stocks w !! s) as [st|]; [|done]. by eexists.
    + rewrite decide_False by done. by apply Hp.
Qed.

(** A lookup that a change of nothing has *)
Lemma same_stocks w s st b :
  stocks w !! s = Some st → deleted st = b →
  ∀ s', stocks w !! s' =
    if decide (s = s') then (fun st : Stock => st <| deleted := b |>) <$> stocks w !! s else stocks w !! s'.
Proof. intros E <- s'. destruct (decide (s = s')) as [<-|]; [|done]. rewrite E. by destruct st. Qed.

(** A deleter's step succeeds and keeps the invariant. *)
Lemma deleter_step_Ok w ds1 s p ds2 :
  conc_inv (w, ds1 ++ (s, p) :: ds2) →
  ∃ p' w', deleter_step s p w = Ok (p', w') ∧ conc_inv (w', ds1 ++ (s, p') :: ds2).
Proof.
  intros Hi. destruct (ci_pc _ Hi s p) as (st & E & Hdel); [apply elem_of_app; right; by left|]. cbn in E.
  destruct (ci_owners _ Hi) as (n & Ho & Hd & Hh). cbn [fst snd] in Ho, Hd, Hh. rewrite holders_app in Hh.
  pose proof (fun p' w' => conc_update w ds1 s p ds2 p' w' Hi) as Hup.
  destruct p as [| |b| |]; cbn [deleter_step]; cbn [past_delete holds Nat.b2n] in Hdel, Hh.
  - rewrite E. cbn [deref mbind res_bind]. destruct (has_factory st && factory_locks w) eqn:Hlk.
    + eexists _, _. split; [done|]. apply Hup; [done| |by apply (same_stocks w s st)].
      apply andb_true_iff in Hlk as [_ Hlk]. unfold factory_locks in Hlk. rewrite Ho in Hlk.
      destruct n as [|n]; [done|]. exists (S (S n)). cbn. rewrite Ho. split_and!; [done|done|lia].
    + eexists _, _. split; [done|]. apply Hup; [done| |by apply (same_stocks w s st)]. exists n. cbn. split_and!; [done|done|lia].
  - assert (Hn : n ≠ 0%nat) by lia. unfold deleteSock.
    rewrite Hd, bool_decide_eq_false_2, E by done. cbn. rewrite Hdel. cbn.
    eexists _, _. split; [done|]. apply Hup; [done| |by apply (same_stocks w s st)]. exists n. cbn. split_and!; [done|done|lia].
  - unfold delete_stock. rewrite E. cbn. rewrite Hdel. cbn. eexists _, _. split; [done|].
    apply Hup; [done|exists n; destruct b; cbn in *; split_and!; (done || lia)|]. cbn. intros s'.
    destruct (decide (s = s')) as [<-|Hne]; [rewrite lookup_insert_eq, E; by destruct b|by rewrite lookup_insert_ne].
  - eexists _, _. split; [done|]. apply Hup; [done| |by apply (same_stocks w s st)].
    exists (pred n). cbn. rewrite Ho. cbn. split_and!; [done| |lia]. apply bool_decide_ext. split; congruence.
  - eexists _, _. split; [done|]. apply Hup; [done| |by apply (same_stocks w s st)]. exists n. cbn. split_and!; [done|done|lia].
Qed.

(** A change of the use count of a stock in use that keeps it in use, or a new
    stock *)
Lemma conc_set_live w ds s st w' :
  conc_inv (w, ds) → (0 < use_count st)%nat → deleted st = false → (s ∉ ds.*1) →
  stocks w' = <[s := st]> (stocks w) → (next_id w ≤ next_id w')%nat → (s < next_id w')%nat →
  owners (factory w') = owners (factory w) → destroyed (factory w') = destroyed (factory w) →
  conc_inv (w', ds).
Proof.
  intros [Ho Hf Hn Hd Hl Hp] Hu Hdel Hs Hst Hnx Hlt Eo Ed. cbn [fst snd] in *.
  split; cbn [fst snd]; try done; rewrite ?Hst.
  - by rewrite Eo, Ed.
  - intros s' Hs'. rewrite lookup_insert_ne by lia. apply Hf. lia.
  - intros s' st' E. apply lookup_insert_Some in E as [[<- <-]|[_ E]]; [|exact (Hd _ _ E)]. split; [lia|done].
  - intros s' st' E. apply lookup_insert_Some in E as [[<- <-]|[_ E]]; [done|exact (Hl _ _ E)].
  - intros s' p' Hp'. destruct (Hp s' p' Hp') as (st' & E & H). exists st'. split; [|done].
    rewrite lookup_insert_ne; [done|]. intros <-. apply Hs. apply list_elem_of_fmap. by exists (s, p').
Qed.

Lemma conc_alive w ds : conc_inv (w, ds) → factory_locks w = true → destroyed (factory w) = false.
Proof.
  intros Hi Hlk. destruct (ci_owners _ Hi) as (n & Ho & Hd & _). cbn [fst snd] in *. unfold factory_locks in Hlk.
  rewrite Ho in Hlk. by destruct n.
Qed.

Lemma known_lt w ds s st : conc_inv (w, ds) → stocks w !! s = Some st → (s < next_id w)%nat.
Proof.
  intros Hi E. destruct (decide (next_id w ≤ s)%nat) as [Hle|]; [|lia].
  pose proof (eq_trans (eq_sym E) (ci_fresh _ Hi s Hle)). done.
Qed.

Lemma conc_get w ds k :
  conc_inv (w, ds) → factory_locks w = true → ∃ s w', get k w = Ok (s, w') ∧ conc_inv (w', ds).
Proof.
  intros Hi Hlk. unfold get. rewrite (conc_alive w ds Hi Hlk). cbv zeta.
  set (ptr := default None _). set (w1 := mod_map _ w). destruct (stock_lock w1 ptr) as [s|] eqn:El.
  - do 2 eexists. split; [done|]. unfold stock_lock in El. destruct ptr as [s'|]; [|done].
    change (stocks w1) with (stocks w) in El. destruct (stocks w !! s') as [st|] eqn:E; [|done].
    destruct (0 <? use_count st)%nat eqn:Hu; [|done]. injection El as <-. apply Nat.ltb_lt in Hu.
    apply (conc_set_live w ds s' (st <| use_count := S (use_count st) |>)); try done.
    + cbn. lia.
    + exact (ci_live _ Hi s' st E Hu).
    + intros Hin. apply (ci_dead _ Hi s' st E) in Hin. lia.
    + cbn. apply map_eq. intros i. destruct (decide (s' = i)) as [<-|].
      * by rewrite lookup_alter_eq, lookup_insert_eq, E.
      * by rewrite lookup_alter_ne, lookup_insert_ne.
    + exact (known_lt w ds s' st Hi E).
  - do 2 eexists. split; [done|].
    apply (conc_set_live w ds (next_id w) (mkStock k 1 (factory_locks w1) false)); try done; cbn; [lia| |lia|lia].
    intros ((s & q) & Eq & Hin)%list_elem_of_fmap. cbn in Eq. subst s. destruct (ci_pc _ Hi _ q Hin) as (st & E & _).
    pose proof (known_lt w ds _ st Hi E). lia.
Qed.

Lemma conc_drop w ds s k :
  conc_inv (w, ds) → live w s k →
  ∃ (b : bool) w', drop_use s w = Ok (b, w') ∧ conc_inv (w', if b then ds ++ [(s, D_lock)] else ds).
Proof.
  intros Hi (st & E & _ & Hu). unfold drop_use. rewrite E. cbn [deref mbind res_bind].
  destruct (use_count st) as [|n] eqn:Hn; [lia|]. do 2 eexists. split; [done|].
  assert (Hs : s ∉ ds.*1) by (intros Hin; apply (ci_dead _ Hi s st E) in Hin; lia).
  pose proof (known_lt w ds s st Hi E) as Hlt.
  pose proof (ci_live _ Hi s st E ltac:(lia)) as Hdel.
  destruct n as [|n]; cbn.
  2:{ change (bool_decide (S n = 0%nat)) with false. cbn.
      apply (conc_set_live w ds s (st <| use_count := S n |>)); try done. cbn. lia. }
  change (bool_decide (0%nat = 0%nat)) with true. cbn.
  destruct Hi as [Ho Hf Hnd Hd Hl Hp]. cbn [fst snd] in *. split; cbn [fst snd]; cbn [stocks factory next_id].
  - destruct Ho as (n & H1 & H2 & H3). exists n. split_and!; try done. unfold holders in *.
    pose proof (holders_app ds s D_lock []) as Ha. unfold holders in Ha. cbn in Ha. lia.
  - intros s' Hs'. rewrite lookup_insert_ne by lia. by apply Hf.
  - rewrite fmap_app. apply NoDup_app. split; [done|]. split; [|apply NoDup_singleton].
    intros x Hx. cbn. rewrite list_elem_of_singleton. by intros ->.
  - intros s' st' E'. rewrite fmap_app, elem_of_app. cbn. rewrite list_elem_of_singleton.
    apply lookup_insert_Some in E' as [[<- <-]|[Hne E']]; [cbn; naive_solver|]. rewrite (Hd s' st' E'). naive_solver.
  - intros s' st' E'. apply lookup_insert_Some in E' as [[<- <-]|[Hne E']]; [cbn; lia|exact (Hl _ _ E')].
  - intros s' q Hq. apply elem_of_app in Hq as [Hq|Hq].
    + destruct (Hp s' q Hq) as (st' & E' & H). exists st'. split; [|done]. rewrite lookup_insert_ne; [done|].
      intros <-. apply Hs. apply list_elem_of_fmap. by exists (s, q).
    + apply list_elem_of_singleton in Hq. injection Hq as -> ->. rewrite lookup_insert_eq. by eexists.
Qed.

Lemma cstep_inv c c' : conc_inv c → cstep c c' → conc_inv c'.
Proof.
  intros Hi Hs. destruct Hs as [w ds k s w' Hlk E|w ds s k b w' Hl E|w ds1 s p ds2 p' w' E|w ds Hlk|w ds n Ho Hh].
  - destruct (conc_get w ds k Hi Hlk) as (s1 & w1 & E1 & H). rewrite E in E1. by injection E1 as <- <-.
  - destruct (conc_drop w ds s k Hi Hl) as (b1 & w1 & E1 & H). rewrite E in E1. by injection E1 as <- <-.
  - destruct (deleter_step_Ok w ds1 s p ds2 Hi) as (p1 & w1 & E1 & H). rewrite E in E1. by injection E1 as <- <-.
  - destruct Hi as [(n & Ho & Hd & Hh) Hf Hn Hdd Hl Hp]. cbn [fst snd] in *. split; cbn [fst snd]; try done.
    unfold factory_locks in Hlk. rewrite Ho in Hlk. destruct n as [|n]; [done|].
    exists (S (S n)). cbn [add_owner factory owners destroyed]. rewrite Ho. split_and!; [done|done|lia].
  - destruct Hi as [(n' & Ho' & Hd & Hh') Hf Hn Hdd Hl Hp]. cbn [fst snd] in *. split; cbn [fst snd]; try done.
    rewrite Ho in Ho'. injection Ho' as <-. exists (pred n). unfold drop_owner. cbn [factory owners destroyed].
    rewrite Ho. cbn [fmap option_fmap option_map]. split_and!; [done| |lia]. apply bool_decide_ext. split; congruence.
Qed.

Lemma cstep_reach_inv c : rtc cstep (make_shared_factory, []) c → conc_inv c.
Proof. apply (rtc_ind_r conc_inv); [apply conc_inv_new|]. intros x y _ Hxy Hi. by apply (cstep_inv x). Qed.

(** ** Schedules *)

Inductive cop := X_get (k : bytes) | X_drop (s : stock_id) | X_deleter (i : nat) | X_disown.

Definition cexec (o : cop) (c : CStore) : res CStore :=
  match o with
  | X_get k =>
      if factory_locks c.1 then r ← get k c.1; mret (r.2, c.2) else Err (UseAfterFree "StockFactory")
  | X_drop s => r ← drop_use s c.1; mret (r.2, if r.1 : bool then c.2 ++ [(s, D_lock)] else c.2)
  | X_deleter i =>
      x ← vec_at c.2 (Z.of_nat i);
      r ← deleter_step x.1 x.2 c.1;
      mret (r.2, <[i := (x.1, r.1)]> c.2)
  | X_disown =>
      match owners (factory c.1) with
      | Some n => if (holders c.2 <? n)%nat then mret (drop_owner c.1, c.2) else Err (UseAfterFree "StockFactory")
      | None => Err (UseAfterFree "StockFactory")
      end
  end.

Fixpoint cexec_all (os : list cop) (c : CStore) : res CStore :=
  match os with [] => mret c | o :: os' => c' ← cexec o c; cexec_all os' c' end.

Lemma drop_use_live s w r : drop_use s w = Ok r → ∃ k, live w s k.
Proof.
  unfold drop_use. destruct (stocks w !! s) as [st|] eqn:E; [|done]. cbn. destruct (use_count st) eqn:Hu; [done|].
  intros _. exists (key_ st), st. split; [done|]. split; [done|lia].
Qed.

Lemma cexec_cstep o c c' : cexec o c = Ok c' → cstep c c'.
Proof.
  destruct c as [w ds]. destruct o as [k|s|i|]; cbn [cexec fst snd].
  - destruct (factory_locks w) eqn:Hlk; [|done]. destruct (get k w) as [[s w']|] eqn:E; [|done]. intros [= <-].
    by apply (c_get w ds k s).
  - destruct (drop_use s w) as [[b w']|] eqn:E; [|done]. intros [= <-].
    destruct (drop_use_live s w _ E) as [k Hl]. by apply (c_drop w ds s k).
  - unfold vec_at. rewrite Nat2Z.id. destruct (ds !! i) as [[s p]|] eqn:Ei; [|done]. cbn.
    destruct (deleter_step s p w) as [[p' w']|] eqn:E; [|done]. intros [= <-]. cbn.
    pose proof (lookup_lt_Some _ _ _ Ei) as Hi. rewrite insert_take_drop by done.
    rewrite <-(take_drop_middle ds i (s, p) Ei) at 1. by apply c_deleter.
  - destruct (owners (factory w)) as [n|] eqn:Ho; [|done]. destruct (holders ds <? n)%nat eqn:Hh; [|done].
    intros [= <-]. apply (c_disown w ds n); [done|by apply Nat.ltb_lt].
Qed.

Lemma cexec_all_rtc os c c' : cexec_all os c = Ok c' → rtc cstep c c'.
Proof.
  revert c. induction os as [|o os IH]; intros c E; cbn in E; [injection E as <-; apply rtc_refl|].
  destruct (cexec o c) as [c1|] eqn:E1; [|done]. apply (rtc_l _ _ c1); [by apply (cexec_cstep o)|by apply IH].
Qed.

(** ** Theorems *)

(** With deleters that run to their end undisturbed, in every state that uses
    of a shared factory can reach, as long as the factory lives: no two stocks
    in use have the same key, the map has exactly the keys of the stocks in
    use, and [get] returns the stock in use or a new one. *)
Theorem StockFactory_unique (w : Store) :
  rtc sstep make_shared_factory w → destroyed (factory w) = false →
  (∀ s s' k, live w s k → live w s' k → s = s') ∧
  (∀ k, is_Some (stocks_ (factory w) !! k) ↔ ∃ s, live w s k) ∧
  (∀ k, ∃ s w', get k w = Ok (s, w') ∧ live w' s k ∧ ∀ s', live w s' k → s' = s).
Proof.
  intros Hr Hd. pose proof (sstep_reach_inv w Hr) as Hi.
  assert (Hu : ∀ s s' k, live w s k → live w s' k → s = s').
  { intros s s' k H1 H2. assert (E1 : stocks_ (factory w) !! k = Some (Some s)) by (apply (si_map w Hi Hd); eauto).
    assert (E2 : stocks_ (factory w) !! k = Some (Some s')) by (apply (si_map w Hi Hd); eauto). congruence. }
  assert (Hm : ∀ k, is_Some (stocks_ (factory w) !! k) ↔ ∃ s, live w s k).
  { intros k. split.
    - intros [p Hp]. apply (si_map w Hi Hd) in Hp as (s & _ & Hl). eauto.
    - intros [s Hl]. exists (Some s). apply (si_map w Hi Hd). eauto. }
  split_and!; try done. intros k.
  destruct (decide (is_Some (stocks_ (factory w) !! k))) as [Hk|Hk].
  - apply Hm in Hk as [s Hl]. exists s, (add_use s w). split; [by apply get_live|].
    split; [apply live_add_use; by left|]. intros s' Hl'. by apply (Hu s' s k).
  - assert (Hno : ∀ s0, ¬ live w s0 k) by (intros s0 Hl; apply Hk, Hm; eauto).
    exists (next_id w), (with_stock k w). split; [by apply get_new|].
    split; [apply (live_with_stock w k _ _ (si_fresh w Hi)); auto|]. intros s' Hl'. by apply Hno in Hl'.
Qed.

(** Dropping a pointer never faults, in whatever order stocks and factory go:
    a stock is deleted with its last pointer and not before, and while the
    factory lives its key leaves the map with it. *)
Theorem StockFactory_drop_safe (w : Store) (s : stock_id) (st : Stock) :
  rtc sstep make_shared_factory w → stocks w !! s = Some st → (0 < use_count st)%nat →
  ∃ w' st', drop_stock s w = Ok w' ∧ stocks w' !! s = Some st' ∧ S (use_count st') = use_count st ∧
    (deleted st' = true ↔ use_count st' = 0%nat) ∧
    (destroyed (factory w) = false → use_count st' = 0%nat → stocks_ (factory w') !! key_ st = None).
Proof.
  intros Hr E Hu. pose proof (sstep_reach_inv w Hr) as Hi. destruct (si_stock w Hi s st E) as [_ Hdel].
  destruct (use_count st) as [|[|n]] eqn:Hn; [lia|..].
  - exists (buried s st w), (mkStock (key_ st) 0 (has_factory st) true).
    split; [by apply drop_stock_last|]. cbn. rewrite lookup_insert_eq. split_and!; try done.
    intros Hd _. rewrite Hd. cbn. apply lookup_delete_eq.
  - exists (w <| stocks := <[s := st <| use_count := S n |>]> (stocks w) |>), (st <| use_count := S n |>).
    split; [by apply drop_stock_more|]. cbn. rewrite lookup_insert_eq. split_and!; try done.
    rewrite Hdel. cbn. done.
Qed.

(** C33: with threads, memory stays safe: in every interleaving of [get], dying
    pointers and the steps of deleters, whatever order stocks and factory go in,
    no deleter touches a destroyed factory or a stock that was deleted, no
    [get] by an owner and no drop of a pointer faults, and a stock that is in
    use has not been deleted. *)
Theorem StockFactory_threads_safe (w : Store) (ds : list (stock_id * dpc)) :
  rtc cstep (make_shared_factory, []) (w, ds) →
  (∀ s p, (s, p) ∈ ds → ∃ r, deleter_step s p w = Ok r) ∧
  (∀ k, factory_locks w = true → ∃ r, get k w = Ok r) ∧
  (∀ s k, live w s k → (∃ r, drop_use s w = Ok r) ∧ deleted <$> stocks w !! s = Some false).
Proof.
  intros Hr. pose proof (cstep_reach_inv _ Hr) as Hi. split_and!.
  - intros s p Hp. apply list_elem_of_split in Hp as (ds1 & ds2 & ->).
    destruct (deleter_step_Ok w ds1 s p ds2 Hi) as (p' & w' & E & _). eauto.
  - intros k Hlk. destruct (conc_get w ds k Hi Hlk) as (s & w' & E & _). eauto.
  - intros s k Hl. split; [destruct (conc_drop w ds s k Hi Hl) as (b & w' & E & _); eauto|].
    destruct Hl as (st & E & _ & Hu). rewrite E. cbn. f_equal. exact (ci_live _ Hi s st E Hu).
Qed.

(** Between the lock and the erase of the first stock's deleter *)
Definition race (k : bytes) : list cop := [X_get k; X_drop 0%nat; X_deleter 0; X_get k; X_deleter 0; X_get k].

Definition liveb (w : Store) (s : stock_id) (k : bytes) : bool :=
  match stocks w !! s with Some st => bool_decide (key_ st = k) && (0 <? use_count st)%nat | None => false end.

Lemma liveb_live w s k : liveb w s k = true → live w s k.
Proof.
  unfold liveb. destruct (stocks w !! s) as [st|] eqn:E; [|done]. intros [H1 H2]%andb_true_iff.
  exists st. split; [done|]. split; [by apply bool_decide_eq_true in H1|by apply Nat.ltb_lt].
Qed.

(** Uniqueness is lost: when [get] makes a new stock between the lock and the
    erase of the deleter of the old one, the deleter erases the entry of the
    new stock, and the next [get] makes another: two stocks in use with one
    key, while the factory lives. *)
Theorem StockFactory_race :
  ∃ w ds k s s', rtc cstep (make_shared_factory, []) (w, ds) ∧ s ≠ s' ∧ live w s k ∧ live w s' k ∧
    destroyed (factory w) = false.
Proof.
  set (k := b_ "NYSE:IBM").
  destruct (cexec_all (race k) (make_shared_factory, [])) as [[w ds]|] eqn:E; [|by vm_compute in E].
  exists w, ds, k, 1%nat, 2%nat. split; [by apply (cexec_all_rtc (race k))|]. split; [done|].
  assert (H : liveb w 1%nat k && liveb w 2%nat k && negb (destroyed (factory w)) = true).
  { assert (Hc : (c ← cexec_all (race k) (make_shared_factory, []);
                  mret (liveb c.1 1%nat k && liveb c.1 2%nat k && negb (destroyed (factory c.1)))) = Ok true) by (by vm_compute).
    rewrite E in Hc. by injection Hc. }
  apply andb_true_iff in H as [[H1 H2]%andb_true_iff H3]. split; [by apply liveb_live|].
  split; [by apply liveb_live|]. by apply negb_true_iff.
Qed.

(** *** The tests of the example *)

(** [TEST(WeakCallback, Stock)]: both pointers are to one stock, and after their
    death the map is empty. *)
Definition test_Stock : res (bool * nat) :=
  r1 ← get (b_ "NYSE:IBM") make_shared_factory;
  r2 ← get (b_ "NYSE:IBM") r1.2;
  w ← drop_stock r2.1 r2.2;
  w ← drop_stock r1.1 w;
  mret (bool_decide (r1.1 = r2.1), StockFactory_size w).

(** [TEST(WeakCallback, StockFactory)]: the factory dies before the stock. *)
Definition test_StockFactory : res (bool * option bool) :=
  r1 ← get (b_ "NYSE:IBM") make_shared_factory;
  r2 ← get (b_ "NYSE:IBM") r1.2;
  w ← drop_stock r2.1 r2.2;
  let w := drop_owner w in
  w ← drop_stock r1.1 w;
  mret (bool_decide (r1.1 = r2.1), deleted <$> stocks w !! r1.1).

(** [TEST(WeakCallback, Exception)]: no owner, no [shared_from_this]. *)
Definition test_Exception : res Store := shared_from_this new_factory.

(** [TEST(WeakCallback, Example)]: two pointers share one object, and an object
    without an owner has none to give. *)
Definition test_Example : res (option nat) * res Store :=
  (w ← shared_from_this make_shared_factory; mret (owners (factory w)), shared_from_this new_factory).

Lemma tests_pass :
  test_Example = (Ok (Some 2%nat), Err (RuntimeError "bad_weak_ptr")) ∧
  test_Stock = Ok (true, 0%nat) ∧ test_StockFactory = Ok (true, Some true) ∧
  test_Exception = Err (RuntimeError "bad_weak_ptr").
Proof. by vm_compute. Qed.

(** *** A factory with one stock in use *)
Definition ex_store : Store := match get (b_ "NYSE:IBM") make_shared_factory with Ok r => r.2 | Err _ => make_shared_factory end.

Lemma ex_store_reach : rtc sstep make_shared_factory ex_store.
Proof. apply rtc_once. by apply (s_get _ (b_ "NYSE:IBM") 0%nat). Qed.

Lemma StockFactory_unique_witness :
  (∀ s s' k, live ex_store s k → live ex_store s' k → s = s') ∧
  (∀ k, is_Some (stocks_ (factory ex_store) !! k) ↔ ∃ s, live ex_store s k) ∧
  (∀ k, ∃ s w', get k ex_store = Ok (s, w') ∧ live w' s k ∧ ∀ s', live ex_store s' k → s' = s).
Proof. apply (StockFactory_unique ex_store); [apply ex_store_reach|by vm_compute]. Defined.

Lemma StockFactory_drop_safe_witness :
  ∃ w' st', drop_stock 0%nat ex_store = Ok w' ∧ stocks w' !! 0%nat = Some st' ∧ S (use_count st') = 1%nat ∧
    (deleted st' = true ↔ use_count st' = 0%nat) ∧
    (destroyed (factory ex_store) = false → use_count st' = 0%nat →
       stocks_ (factory w') !! b_ "NYSE:IBM" = None).
Proof.
  apply (StockFactory_drop_safe ex_store 0%nat (mkStock (b_ "NYSE:IBM") 1 true false));
    [apply ex_store_reach|by vm_compute|cbn; lia].
Defined.

Lemma StockFactory_threads_safe_witness :
  (∀ s p, (s, p) ∈ @nil (stock_id * dpc) → ∃ r, deleter_step s p ex_store = Ok r) ∧
  (∀ k, factory_locks ex_store = true → ∃ r, get k ex_store = Ok r) ∧
  (∀ s k, live ex_store s k → (∃ r, drop_use s ex_store = Ok r) ∧ deleted <$> stocks ex_store !! s = Some false).
Proof.
  apply (StockFactory_threads_safe ex_store []).
  apply (cexec_all_rtc [X_get (b_ "NYSE:IBM")]). by vm_compute.
Defined.
